(** * A shallow embedding of the document engine bundled in agebrock-mimo

    The bundle (src/unnamed/part_000) vendors the mingo query, aggregation
    and update engine and wraps it in a small [Collection] facade.  This
    development embeds the parts of the bundle that its specification
    makes claims about and proves (or refutes) those claims; it then
    embeds the code around them (the update operators, the lazy
    iterators, the cursor and the facade functions built on them) and
    proves further properties of it.

    Modelling conventions, which hold throughout the file:

    - JavaScript values are the inductive type [value].  Numbers are the
      integers (with [VNaN] for the not-a-number result of arithmetic on
      non-numbers) and arithmetic on them is exact, as the arithmetic of
      doubles is between [MIN_LONG] and [MAX_LONG]: the theorems about
      sums and products assume that range.  Strings are byte strings.
      Regular expressions, typed arrays, BigInt, symbols and instances of
      user-defined classes are not part of the embedding.
    - A plain object is the list of its own enumerable properties in
      [Object.entries] order; an array is the list of its elements (dense,
      no extra properties).  Property reads see own properties only: the
      theorems about a field that may be missing assume that its name is
      not one that every mapping inherits from its prototype
      ([inherited], [own_names]).  A member of its own named
      [constructor] makes a mapping an object of another class than
      [Object] to [getConstructor].
    - Documents are trees, in which two arrays or mappings are never one
      and the same object: in-place mutation of a document is modelled by
      returning the updated document.  Where the source would leave the
      tree fragment (holes in arrays, mutation through a freshly collected
      array whose members alias the document) the model answers
      [OutOfModel] instead of guessing.  Object graphs, with the identity
      of objects and the cycles that the stringify routine guards
      against, live in [Module Graph].
    - A thrown exception is the [Throw] outcome of the [result] monad.
    - An iterator or a cursor is a record of its mutable state; a method
      that changes the state returns the record afterwards.  A loop that
      the source bounds by the data it consumes runs on fuel computed
      from that data, and the theorems show that the fuel suffices. *)

From Stdlib Require Import ZArith List String Ascii Bool Lia Permutation Sorted.
From stdpp Require Import base option list sorting gmap strings pretty.
Import ListNotations.

Local Open Scope string_scope.
Local Open Scope list_scope.
Local Open Scope Z_scope.

Set Default Proof Using "Type".
Set Warnings "-register-all".

(** ** Outcomes *)

Inductive exn : Type :=
| Error (msg : string)       (* [new Error(msg)], also what [assert] throws *)
| TypeError (msg : string).  (* raised by the language, not by the bundle *)

Inductive result (A : Type) : Type :=
| Ok (a : A)
| Throw (e : exn)
| OutOfModel.
Arguments Ok {A} a.
Arguments Throw {A} e.
Arguments OutOfModel {A}.

Definition bind {A B} (m : result A) (k : A -> result B) : result B :=
  match m with
  | Ok a => k a
  | Throw e => Throw e
  | OutOfModel => OutOfModel
  end.

#[global] Instance result_bind : MBind result := fun A B k m => bind m k.
#[global] Instance result_ret : MRet result := fun A a => Ok a.

(** [assert(condition, message)] of the bundle. *)
Definition assert (condition : bool) (message : string) : result unit :=
  if condition then Ok tt else Throw (Error message).

Definition mapM {A B} (f : A -> result B) : list A -> result (list B) :=
  fix go (l : list A) : result (list B) :=
    match l with
    | [] => Ok []
    | x :: l' => y ← f x; ys ← go l'; Ok (y :: ys)
    end.

Definition CYCLE_FOUND_ERROR : exn :=
  Error "mingo: cycle detected while processing object/array".

(** ** Values *)

(** Functions are compared by reference, so a function value carries an
    identity, and the source text its [toString] prints.  The identity is
    the name of a function the bundle defines, or a number for a function
    of the caller; what calling a function does is supplied where it is
    called.  A date is its time value. *)
Inductive fnid : Type :=
| Bundle (name : string)
| User (n : nat).

#[global] Instance fnid_eq_dec : EqDecision fnid.
Proof. solve_decision. Defined.

Inductive value : Type :=
| VUndefined
| VNull
| VBool (b : bool)
| VNum (n : Z)
| VNaN
| VStr (s : string)
| VDate (ms : Z)
| VFun (id : fnid) (src : string)
| VArr (xs : list value)
| VObj (kvs : list (string * value)).

Definition isNil (v : value) : bool :=
  match v with VUndefined | VNull => true | _ => false end.

Definition isArray (v : value) : bool :=
  match v with VArr _ => true | _ => false end.

Definition isObject (v : value) : bool :=
  match v with VObj _ => true | _ => false end.

Definition isFunction (v : value) : bool :=
  match v with VFun _ _ => true | _ => false end.

Definition isDate (v : value) : bool :=
  match v with VDate _ => true | _ => false end.

Definition isString (v : value) : bool :=
  match v with VStr _ => true | _ => false end.

(** [!isNaN(v) && typeof v === "number"] *)
Definition isNumber (v : value) : bool :=
  match v with VNum _ => true | _ => false end.

(** [v === Object(v)]: objects, arrays, functions and dates. *)
Definition isObjectLike (v : value) : bool :=
  match v with VArr _ | VObj _ | VFun _ _ | VDate _ => true | _ => false end.

(** ** sortBy *)

(** [Array.prototype.sort] with a comparator.  ECMAScript requires the
    sort to be stable, and for a consistent comparator the stably sorted
    array is unique; it is computed here by stable insertion: a later
    element never overtakes an earlier one it does not strictly precede. *)
Fixpoint sort_insert {T} (cmp : T -> T -> Z) (x : T) (l : list T) : list T :=
  match l with
  | [] => [x]
  | y :: l' => if 0 <? cmp x y then y :: sort_insert cmp x l' else x :: y :: l'
  end.

Fixpoint Array_sort {T} (cmp : T -> T -> Z) (l : list T) : list T :=
  match l with
  | [] => []
  | x :: l' => sort_insert cmp x (Array_sort cmp l')
  end.

Section SortBy.
Context {A : Type}.

(** The [for] loop of [sortBy]: [result] collects the elements whose key
    is null or undefined, [sorted] the [[key, obj]] pairs of the others. *)
Fixpoint sortBy_loop (keyFn : A -> nat -> value) (collection : list A) (i : nat)
    (result : list A) (sorted : list (value * A)) : list A * list (value * A) :=
  match collection with
  | [] => (result, sorted)
  | obj :: rest =>
      let key := keyFn obj i in
      if isNil key
      then sortBy_loop keyFn rest (S i) (result ++ [obj]) sorted
      else sortBy_loop keyFn rest (S i) result (sorted ++ [(key, obj)])
  end.

(** [into(result, sorted.map(o => o[1]))] pushes the sorted objects onto
    [result] and returns [result]. *)
Definition sortBy (collection : list A) (keyFn : A -> nat -> value)
    (comparator : value -> value -> Z) : list A :=
  match collection with
  | [] => collection
  | _ =>
      let '(result, sorted) := sortBy_loop keyFn collection 0 [] [] in
      let sorted' := Array_sort (fun a b => comparator (fst a) (fst b)) sorted in
      result ++ map snd sorted'
  end.

(** The two halves of the input, as the loop separates them. *)
Fixpoint nil_keyed (keyFn : A -> nat -> value) (collection : list A) (i : nat) : list A :=
  match collection with
  | [] => []
  | obj :: rest =>
      if isNil (keyFn obj i) then obj :: nil_keyed keyFn rest (S i)
      else nil_keyed keyFn rest (S i)
  end.

Fixpoint keyed (keyFn : A -> nat -> value) (collection : list A) (i : nat)
    : list (value * A) :=
  match collection with
  | [] => []
  | obj :: rest =>
      if isNil (keyFn obj i) then keyed keyFn rest (S i)
      else (keyFn obj i, obj) :: keyed keyFn rest (S i)
  end.

(** A comparator is consistent on a list of keys when, on those keys, it
    is antisymmetric in sign and its "not after" relation is
    transitive. *)
Definition consistent_on (comparator : value -> value -> Z) (ks : list value) : Prop :=
  (forall a b, In a ks -> In b ks -> (comparator a b < 0 <-> 0 < comparator b a)) /\
  (forall a b c, In a ks -> In b ks -> In c ks ->
     comparator a b <= 0 -> comparator b c <= 0 -> comparator a c <= 0).

(** Stability: the elements of any one key class keep their input order. *)
Definition same_key (comparator : value -> value -> Z) (k : value) (p : value * A) : bool :=
  comparator (fst p) k =? 0.

Definition Stable (comparator : value -> value -> Z) (input output : list (value * A)) : Prop :=
  forall k, In k (map fst input) ->
    List.filter (same_key comparator k) output = List.filter (same_key comparator k) input.

Definition key_le (comparator : value -> value -> Z) (p q : value * A) : Prop :=
  comparator (fst p) (fst q) <= 0.
End SortBy.

(** A comparator for number keys, used to run [sortBy] on examples. *)
Definition by_number (a b : value) : Z :=
  match a, b with
  | VNum x, VNum y => x - y
  | _, _ => 0
  end.

(** ** Strings *)

Definition char_between (lo hi : N) (c : ascii) : bool :=
  ((lo <=? N_of_ascii c) && (N_of_ascii c <=? hi))%N.

Definition is_digit : ascii -> bool := char_between 48 57.
Definition is_lower : ascii -> bool := char_between 97 122.
Definition is_upper : ascii -> bool := char_between 65 90.
Definition is_alnum (c : ascii) : bool := is_digit c || is_lower c || is_upper c.

Fixpoint all_chars (p : ascii -> bool) (s : string) : bool :=
  match s with
  | EmptyString => true
  | String c s' => p c && all_chars p s'
  end.

(** [/^\d+$/] *)
Definition NUMBER_RE (s : string) : bool :=
  negb (s =? "")%string && all_chars is_digit s.

(** [OPERATOR_NAME_PATTERN = /^\$[a-zA-Z0-9_]+$/] *)
Definition isOperator (name : string) : bool :=
  match name with
  | String c rest =>
      Ascii.eqb c "$" && negb (rest =? "")%string &&
      all_chars (fun c => is_alnum c || Ascii.eqb c "_") rest
  | EmptyString => false
  end.

(** [FILTER_IDENT_RE = /^[a-z]+[a-zA-Z0-9]*$/] *)
Definition FILTER_IDENT_RE (s : string) : bool :=
  match s with
  | String c rest => is_lower c && all_chars is_alnum rest
  | EmptyString => false
  end.

(** [s.split(".")]: never empty, [""] for the empty string. *)
Fixpoint split_dot (s : string) : list string :=
  match s with
  | EmptyString => [""]
  | String c s' =>
      if Ascii.eqb c "." then "" :: split_dot s'
      else match split_dot s' with
           | [] => [String c ""]
           | w :: ws => String c w :: ws
           end
  end.

(** [names.join(".")] *)
Definition join_dot (names : list string) : string := String.concat "." names.

Definition toLowerCase_char (c : ascii) : ascii :=
  if is_upper c then ascii_of_N (N_of_ascii c + 32) else c.

Fixpoint toLowerCase (s : string) : string :=
  match s with
  | EmptyString => EmptyString
  | String c s' => String (toLowerCase_char c) (toLowerCase s')
  end.

(** [s.indexOf(pat)], -1 when absent. *)
Definition indexOf (s pat : string) : Z :=
  match String.index 0 pat s with
  | Some i => Z.of_nat i
  | None => if (pat =? "")%string then 0 else -1
  end.

Definition includes (s pat : string) : bool := 0 <=? indexOf s pat.

Definition startsWith (s pat : string) : bool := String.prefix pat s.

(** [s.substring(start, end)]: arguments are clamped to the string and
    swapped when out of order. *)
Definition clamp (len i : Z) : Z := Z.max 0 (Z.min len i).

Definition substring2 (s : string) (start end_ : Z) : string :=
  let len := Z.of_nat (String.length s) in
  let a := clamp len start in
  let b := clamp len end_ in
  let lo := Z.min a b in
  let hi := Z.max a b in
  String.substring (Z.to_nat lo) (Z.to_nat (hi - lo)) s.

(** [s.substring(start)] *)
Definition substring1 (s : string) (start : Z) : string :=
  substring2 s start (Z.of_nat (String.length s)).

(** The index a canonical numeric string denotes: an array is indexed by
    ["0"], ["1"], ... up to 2^32 - 2, but not by ["01"]. *)
Definition digit_value (c : ascii) : N := (N_of_ascii c - 48)%N.

Fixpoint parse_digits (acc : N) (s : string) : N :=
  match s with
  | EmptyString => acc
  | String c s' => parse_digits (acc * 10 + digit_value c) s'
  end.

Definition index_below_limit (n : N) : option nat :=
  if (n <? 4294967295)%N then Some (N.to_nat n) else None.

Definition array_index (s : string) : option nat :=
  if NUMBER_RE s then
    match s with
    | String c (String _ _) =>
        if Ascii.eqb c "0" then None else index_below_limit (parse_digits 0 s)
    | _ => index_below_limit (parse_digits 0 s)
    end
  else None.

(** Zero-padded decimal, as date formatting needs it. *)
Fixpoint zeros (n : nat) : string :=
  match n with
  | O => EmptyString
  | S n' => String "0" (zeros n')
  end.

Definition pad_left (width : nat) (s : string) : string :=
  zeros (width - String.length s) +:+ s.

Definition pad (width : nat) (n : Z) : string := pad_left width (pretty (Z.abs n)).

(** [Date.prototype.toISOString] for a time value of [ms] milliseconds:
    the proleptic Gregorian date of day [ms / 86400000]. *)
Definition toISOString (ms : Z) : string :=
  let days := ms / 86400000 in
  let t := ms mod 86400000 in
  let z := days + 719468 in
  let era := z / 146097 in
  let doe := z mod 146097 in
  let yoe := (doe - doe / 1460 + doe / 36524 - doe / 146096) / 365 in
  let doy := doe - (365 * yoe + yoe / 4 - yoe / 100) in
  let mp := (5 * doy + 2) / 153 in
  let d := doy - (153 * mp + 2) / 5 + 1 in
  let m := if mp <? 10 then mp + 3 else mp - 9 in
  let y := yoe + era * 400 + (if m <=? 2 then 1 else 0) in
  let year :=
    if (0 <=? y) && (y <=? 9999) then pad 4 y
    else (if y <? 0 then "-" else "+") +:+ pad 6 y in
  year +:+ "-" +:+ pad 2 m +:+ "-" +:+ pad 2 d +:+ "T" +:+
  pad 2 (t / 3600000) +:+ ":" +:+ pad 2 (t / 60000 mod 60) +:+ ":" +:+
  pad 2 (t / 1000 mod 60) +:+ "." +:+ pad 3 (t mod 1000) +:+ "Z".

(** [JSON.stringify] of a string: quoted, with the JSON escapes. *)
Definition hex_digit (n : N) : ascii :=
  if (n <? 10)%N then ascii_of_N (48 + n) else ascii_of_N (87 + n).

Definition json_escape (c : ascii) : string :=
  let n := N_of_ascii c in
  if (n =? 34)%N then String "\" (String c EmptyString)
  else if (n =? 92)%N then "\\"
  else if (n =? 8)%N then "\b"
  else if (n =? 9)%N then "\t"
  else if (n =? 10)%N then "\n"
  else if (n =? 12)%N then "\f"
  else if (n =? 13)%N then "\r"
  else if (n <? 32)%N then
    "\u00" +:+ String (hex_digit (n / 16)) (String (hex_digit (n mod 16)) "")
  else String c "".

Fixpoint json_escape_all (s : string) : string :=
  match s with
  | EmptyString => EmptyString
  | String c s' => json_escape c +:+ json_escape_all s'
  end.

(** ** Types, constructors and conversions *)

(** What [getConstructor] tells apart: the classes of the values of the
    embedding, and [COther] for a [constructor] that is none of them. *)
Inductive ctor : Type :=
| CNull | CUndefined | CBoolean | CNumber | CString | CDate | CFunction | CArray | CObject
| COther.

#[global] Instance ctor_eq_dec : EqDecision ctor.
Proof. solve_decision. Defined.

Definition has_constructor (kvs : list (string * value)) : bool :=
  existsb (fun kv => (fst kv =? "constructor")%string) kvs.

(** [getConstructor(v)]: [v.constructor], which on a mapping is the
    class [Object], found on the prototype, unless the mapping has a
    member of its own under that name.  Such a member is a value of the
    document: it is no class, and it is not identical to the member of
    another object unless both are the same primitive, which is no class
    either; either way [isEqual] answers false and [stringify] has no
    converter for it. *)
Definition getConstructor (v : value) : ctor :=
  match v with
  | VNull => CNull
  | VUndefined => CUndefined
  | VBool _ => CBoolean
  | VNum _ | VNaN => CNumber
  | VStr _ => CString
  | VDate _ => CDate
  | VFun _ _ => CFunction
  | VArr _ => CArray
  | VObj kvs => if has_constructor kvs then COther else CObject
  end.

(** [getType(v)]: the tag of [Object.prototype.toString.call(v)]. *)
Definition getType (v : value) : string :=
  match v with
  | VNull => "Null"
  | VUndefined => "Undefined"
  | VBool _ => "Boolean"
  | VNum _ | VNaN => "Number"
  | VStr _ => "String"
  | VDate _ => "Date"
  | VFun _ _ => "Function"
  | VArr _ => "Array"
  | VObj _ => "Object"
  end.

Definition JS_SIMPLE_TYPES : list string :=
  ["null"; "undefined"; "boolean"; "number"; "string"; "date"; "regexp"].

Definition in_strings (s : string) (l : list string) : bool :=
  existsb (String.eqb s) l.

Definition quote : string := String (ascii_of_N 34) EmptyString.

(** What the entries of [STRING_CONVERTERS] print: [toString] for numbers,
    booleans and functions, [toISOString] for dates, [JSON.stringify] for
    strings, the constants [null] and [undefined]. *)
Definition convert (v : value) : string :=
  match v with
  | VNum n => pretty n
  | VNaN => "NaN"
  | VBool b => if b then "true" else "false"
  | VFun _ src => src
  | VDate ms => toISOString ms
  | VStr s => quote +:+ json_escape_all s +:+ quote
  | VNull => "null"
  | _ => "undefined"
  end.

(** [STRING_CONVERTERS.get(ctor)]; arrays and plain objects have none. *)
Definition STRING_CONVERTERS (c : ctor) : option (value -> string) :=
  match c with
  | CArray | CObject | COther => None
  | _ => Some convert
  end.

(** [a === b].  Two arrays, objects or dates met in a tree are distinct
    references; functions are identified by [id]. *)
Definition strictEq (a b : value) : bool :=
  match a, b with
  | VUndefined, VUndefined | VNull, VNull => true
  | VBool x, VBool y => Bool.eqb x y
  | VNum x, VNum y => x =? y
  | VStr x, VStr y => (x =? y)%string
  | VFun i _, VFun j _ => bool_decide (i = j)
  | _, _ => false
  end.

(** [!!v] *)
Definition toBoolean (v : value) : bool :=
  match v with
  | VUndefined | VNull | VNaN => false
  | VBool b => b
  | VNum n => negb (n =? 0)
  | VStr s => negb (s =? "")%string
  | _ => true
  end.

(** [truthy(arg, strict)] *)
Definition truthy (arg : value) (strict : bool) : bool :=
  toBoolean arg || (strict && strictEq arg (VStr "")).

(** ** Properties *)

Fixpoint lookup_key (k : string) (kvs : list (string * value)) : option value :=
  match kvs with
  | [] => None
  | (k', v) :: rest => if (k' =? k)%string then Some v else lookup_key k rest
  end.

(** The property names of [OBJECT_PROTO], the prototype of every plain
    object: under these names [o[k]] finds a member of the prototype when
    [o] has no property of its own. *)
Definition OBJECT_PROTO : list string :=
  ["constructor"; "__defineGetter__"; "__defineSetter__"; "hasOwnProperty";
   "__lookupGetter__"; "__lookupSetter__"; "isPrototypeOf"; "propertyIsEnumerable";
   "toString"; "valueOf"; "__proto__"; "toLocaleString"].

Definition inherited (k : string) : bool := in_strings k OBJECT_PROTO.

(** [o[k]] for a value that has properties, as far as its own properties
    go: on a mapping this is [o[k]] for a key that the mapping has and for
    a name that is not [inherited]. *)
Definition getProp (o : value) (k : string) : value :=
  match o with
  | VObj kvs => default VUndefined (lookup_key k kvs)
  | VArr xs =>
      match array_index k with
      | Some i => nth i xs VUndefined
      | None => if (k =? "length")%string then VNum (Z.of_nat (length xs)) else VUndefined
      end
  | _ => VUndefined
  end.

(** [getValue(obj, key)] *)
Definition getValue (obj : value) (key : string) : value :=
  if isObjectLike obj then getProp obj key else VUndefined.

(** [has(obj, prop)]: [!!obj && hasOwnProperty(obj, prop)]. *)
Definition has (obj : value) (prop : string) : bool :=
  match obj with
  | VObj kvs => bool_decide (is_Some (lookup_key prop kvs))
  | VArr xs =>
      match array_index prop with
      | Some i => (i <? length xs)%nat
      | None => (prop =? "length")%string
      end
  | _ => false
  end.

(** [o[k] = v] on the property list of a plain object. *)
Fixpoint set_key (k : string) (v : value) (kvs : list (string * value))
    : list (string * value) :=
  match kvs with
  | [] => [(k, v)]
  | (k', v') :: rest =>
      if (k' =? k)%string then (k, v) :: rest else (k', v') :: set_key k v rest
  end.

(** [delete o[k]] *)
Fixpoint delete_key (k : string) (kvs : list (string * value)) : list (string * value) :=
  match kvs with
  | [] => []
  | (k', v') :: rest =>
      if (k' =? k)%string then delete_key k rest else (k', v') :: delete_key k rest
  end.

(** [Object.keys] of a plain object. *)
Definition keys (kvs : list (string * value)) : list string := map fst kvs.

(** [Object.assign(target, source)] on property lists. *)
Definition assign (target source : list (string * value)) : list (string * value) :=
  fold_left (fun acc kv => set_key (fst kv) (snd kv) acc) source target.

(** The property list of a value used as an [Object.assign] source or as
    the operand of an object spread: nothing for null or undefined. *)
Definition own_props (v : value) : list (string * value) :=
  match v with
  | VObj kvs => kvs
  | VArr xs => imap (fun i x => (pretty i, x)) xs
  | _ => []
  end.

Definition ensureArray_1 (x : value) : list value :=
  match x with VArr xs => xs | _ => [x] end.

(** [isEmpty(x)] *)
Definition isEmpty (x : value) : bool :=
  match x with
  | VUndefined | VNull => true
  | VStr s => (s =? "")%string
  | VArr [] => true
  | VObj [] => true
  | _ => false
  end.

(** ** Deep equality *)

Fixpoint weight (v : value) : nat :=
  match v with
  | VArr xs => S (list_sum (map weight xs))
  | VObj kvs => S (list_sum (map (fun kv => weight (snd kv)) kvs))
  | _ => 1
  end.

(** One turn of the [while] loop of [isEqual] on the pair popped from the
    work stack: [inl r] when the function returns [r] at once, [inr ps]
    when it pushes the pairs [ps] (possibly none) and moves on. *)
Definition isEqual_step (a b : value) : bool + list (value * value) :=
  if strictEq a b then inr []
  else if negb (bool_decide (getConstructor a = getConstructor b)) || isFunction a
  then inl false
  else match STRING_CONVERTERS (getConstructor a) with
       | Some str => if negb (str a =? str b)%string then inl false else inr []
       | None =>
           match getConstructor a with
           | CArray | CObject =>
               match a, b with
               | VArr xs, VArr ys =>
                   if negb (length xs =? length ys)%nat then inl false
                   else inr (combine xs ys)
               | VObj ka, VObj kb =>
                   if negb (length ka =? length kb)%nat then inl false
                   else if negb (length (remove_dups (keys ka ++ keys kb)) =? length ka)%nat
                   then inl false
                   else inr (map (fun kv => (snd kv, getProp b (fst kv))) ka)
               | _, _ => inl false
               end
           | _ => inl false
           end
       end.

(** The work stack has its top at the head; [push]ing a list of pairs one
    after the other leaves the last of them on top. *)
Fixpoint isEqual_loop (fuel : nat) (args : list (value * value)) : option bool :=
  match fuel with
  | O => None
  | S fuel' =>
      match args with
      | [] => Some true
      | (a, b) :: args' =>
          match isEqual_step a b with
          | inl r => Some r
          | inr pushed => isEqual_loop fuel' (rev pushed ++ args')
          end
      end
  end.

(** Every turn of the loop retires one node of [a], so [weight a] turns
    and the final test of the empty stack suffice ([isEqual_loop_fuel]). *)
Definition isEqual (a b : value) : bool :=
  match isEqual_loop (S (weight a)) [(a, b)] with
  | Some r => r
  | None => false
  end.

(** The relation [isEqual] computes, by recursion on the first value. *)
Fixpoint deepEq (a b : value) {struct a} : bool :=
  if strictEq a b then true
  else if negb (bool_decide (getConstructor a = getConstructor b)) || isFunction a
  then false
  else match STRING_CONVERTERS (getConstructor a) with
       | Some str => (str a =? str b)%string
       | None =>
           match a, b with
           | VArr xs, VArr ys =>
               (length xs =? length ys)%nat &&
               (fix all2 (xs ys : list value) : bool :=
                  match xs, ys with
                  | x :: xs', y :: ys' => deepEq x y && all2 xs' ys'
                  | _, _ => true
                  end) xs ys
           | VObj ka, VObj kb =>
               negb (has_constructor ka) &&
               (length ka =? length kb)%nat &&
               (length (remove_dups (keys ka ++ keys kb)) =? length ka)%nat &&
               (fix all (ka : list (string * value)) : bool :=
                  match ka with
                  | [] => true
                  | kv :: ka' => deepEq (snd kv) (getProp b (fst kv)) && all ka'
                  end) ka
           | _, _ => false
           end
       end.

(** ** Comparison *)

(** [SORT_ORDER_BY_TYPE[getType(n).toLowerCase()]] *)
Definition SORT_ORDER_BY_TYPE (t : string) : Z :=
  if (t =? "null")%string then 0
  else if (t =? "undefined")%string then 0
  else if (t =? "number")%string then 1
  else if (t =? "string")%string then 2
  else if (t =? "object")%string then 3
  else if (t =? "array")%string then 4
  else if (t =? "boolean")%string then 5
  else if (t =? "date")%string then 6
  else if (t =? "regexp")%string then 7
  else 8.

(** [a < b] for two numbers, two strings or two dates. *)
Definition lessThan (a b : value) : bool :=
  match a, b with
  | VNum x, VNum y => x <? y
  | VStr x, VStr y => String.ltb x y
  | VDate x, VDate y => x <? y
  | VBool x, VBool y => negb x && y
  | _, _ => false
  end.

(** [compare$1]: MongoDB's comparison order.  For two unequal arrays,
    objects or functions the source falls back on [a < b], which compares
    their string conversions; that is outside the embedding except for
    plain objects without [toString] or [valueOf] of their own, which all
    convert to the same string. *)
Definition compare_1 (a b : value) : result Z :=
  let u := SORT_ORDER_BY_TYPE (toLowerCase (getType a)) in
  let v := SORT_ORDER_BY_TYPE (toLowerCase (getType b)) in
  if negb (u =? v) then Ok (u - v)
  else if (u =? 1) || (u =? 2) || (u =? 6) then
    if lessThan a b then Ok (-1) else if lessThan b a then Ok 1 else Ok 0
  else if isEqual a b then Ok 0
  else match a, b with
       | VBool _, VBool _ =>
           if lessThan a b then Ok (-1) else if lessThan b a then Ok 1 else Ok 0
       | VObj ka, VObj kb =>
           if has a "toString" || has a "valueOf" || has b "toString" || has b "valueOf"
           then OutOfModel else Ok 0
       | VArr _, _ | VFun _ _, _ => OutOfModel
       | _, _ => Ok 0
       end.

(** ** Deep equality *)

Definition stack_size (args : list (value * value)) : nat :=
  list_sum (map (fun p => weight (fst p)) args).

Definition all_deepEq (args : list (value * value)) : bool :=
  forallb (fun p => deepEq (fst p) (snd p)) args.

(** ** Documents *)

(** The default order of [Array.prototype.sort] on strings. *)
Definition compare_strings (a b : string) : Z :=
  match String.compare a b with
  | Lt => -1
  | Eq => 0
  | Gt => 1
  end.

(** A document, in the sense of the data model: a tree of null, booleans,
    numbers, strings, dates, sequences and mappings with distinct keys.
    It holds no function. *)
Fixpoint document (v : value) : Prop :=
  match v with
  | VFun _ _ => False
  | VArr xs => (fix all (xs : list value) : Prop :=
                  match xs with
                  | [] => True
                  | x :: xs' => document x /\ all xs'
                  end) xs
  | VObj kvs => NoDup (keys kvs) /\
                (fix all (kvs : list (string * value)) : Prop :=
                   match kvs with
                   | [] => True
                   | kv :: kvs' => document (snd kv) /\ all kvs'
                   end) kvs
  | _ => True
  end.

(** A value none of whose mappings has a member of its own named
    [constructor]: every mapping in it is of class [Object] to
    [getConstructor]. *)
Fixpoint no_constructor (v : value) : bool :=
  match v with
  | VArr xs => forallb no_constructor xs
  | VObj kvs =>
      negb (has_constructor kvs) && forallb (fun kv => no_constructor (snd kv)) kvs
  | _ => true
  end.

(** A value none of whose mappings has a member of its own named
    [__proto__].  The assignment [o[k] = v] under that name, by which
    [clone] and [Object.assign] copy the members of a mapping, sets the
    prototype of [o] instead of making a member. *)
Fixpoint no_proto (v : value) : bool :=
  match v with
  | VArr xs => forallb no_proto xs
  | VObj kvs =>
      negb (existsb (fun kv => (fst kv =? "__proto__")%string) kvs) &&
      forallb (fun kv => no_proto (snd kv)) kvs
  | _ => true
  end.

(** ** Object graphs

    The values above are trees, in which two arrays or mappings are
    never one and the same object.  Identity of objects and cycles are
    about object graphs, in which arrays and mappings are heap cells
    reached through references: two references are identical when they
    lead to the same cell, and a cell can be its own descendant.  The
    functions that the claims relate on graphs, [isEqual] and
    [stringify], are embedded on them here. *)
Module Graph.

Inductive gvalue : Type :=
| GUndefined
| GNull
| GBool (b : bool)
| GNum (n : Z)
| GNaN
| GStr (s : string)
| GDate (ms : Z)
| GFun (id : fnid) (src : string)
| GRef (l : nat).

Inductive node : Type :=
| NArr (items : list gvalue)
| NObj (props : list (string * gvalue)).

Abbreviation heap := (gmap nat node).

(** The [STRING_CONVERTERS] entry of a value that is not a reference. *)
Definition convert (v : gvalue) : string :=
  match v with
  | GNum n => pretty n
  | GNaN => "NaN"
  | GBool b => if b then "true" else "false"
  | GFun _ src => src
  | GDate ms => toISOString ms
  | GStr s => quote +:+ json_escape_all s +:+ quote
  | GNull => "null"
  | _ => "undefined"
  end.

Fixpoint lookup_prop (k : string) (props : list (string * gvalue)) : option gvalue :=
  match props with
  | [] => None
  | (k', v) :: rest => if (k' =? k)%string then Some v else lookup_prop k rest
  end.

(** [v[k]] on an object cell, for a key it has or a name it does not
    inherit. *)
Definition get (props : list (string * gvalue)) (k : string) : gvalue :=
  default GUndefined (lookup_prop k props).

Definition isFunction (v : gvalue) : bool :=
  match v with GFun _ _ => true | _ => false end.

(** [a === b]: two references are identical when they lead to the same
    cell; functions are identified by [id]; a date is an object of its
    own. *)
Definition strictEq (a b : gvalue) : bool :=
  match a, b with
  | GUndefined, GUndefined | GNull, GNull => true
  | GBool x, GBool y => Bool.eqb x y
  | GNum x, GNum y => x =? y
  | GStr x, GStr y => (x =? y)%string
  | GFun i _, GFun j _ => bool_decide (i = j)
  | GRef l, GRef l' => (l =? l')%nat
  | _, _ => false
  end.

Definition has_toJSON (n : node) : bool :=
  match n with
  | NObj props => match get props "toJSON" with GFun _ _ => true | _ => false end
  | NArr _ => false
  end.

(** Whether a mapping has a member of its own named [constructor], which
    [v.constructor] then finds instead of the class [Object]. *)
Definition has_constructor (props : list (string * gvalue)) : bool :=
  existsb (fun kv => (fst kv =? "constructor")%string) props.

(** [getMembersOf(v)] on a mapping that has own property names: the
    literal that [o[k] = value[k]] builds from them.  Under the name
    [__proto__] the assignment sets the prototype of [o] and makes no
    member. *)
Definition getMembersOf (props : list (string * gvalue)) : list (string * gvalue) :=
  List.filter (fun kv => negb (fst kv =? "__proto__")%string) props.

(** The members of a mapping that [str] converts: its own when its
    class is [Object], those of the literal otherwise. *)
Definition members (props : list (string * gvalue)) : list (string * gvalue) :=
  if has_constructor props then getMembersOf props else props.

(** [`${tag}`]: the text a template literal makes of a primitive.  The
    text of a date depends on the time zone, and that of an object on
    its methods. *)
Definition template (t : gvalue) : result string :=
  match t with
  | GStr s => Ok s
  | GRef _ | GDate _ | GFun _ _ => OutOfModel
  | _ => Ok (convert t)
  end.

(** Run the conversions of the members from left to right, stopping at
    the first that does not return; [None] is a run cut short by
    [fuel]. *)
Fixpoint sequence (rs : list (option (result string))) : option (result (list string)) :=
  match rs with
  | [] => Some (Ok [])
  | None :: _ => None
  | Some (Ok s) :: rs' =>
      match sequence rs' with
      | Some (Ok ss) => Some (Ok (s :: ss))
      | other => other
      end
  | Some (Throw e) :: _ => Some (Throw e)
  | Some OutOfModel :: _ => Some OutOfModel
  end.

Definition wrap (l r : string) (parts : option (result (list string)))
    : option (result string) :=
  match parts with
  | Some (Ok ss) => Some (Ok (l +:+ String.concat "," ss +:+ r))
  | Some (Throw e) => Some (Throw e)
  | Some OutOfModel => Some OutOfModel
  | None => None
  end.

Section Heap.
Variable h : heap.

(** [getConstructor(v)] *)
Definition getConstructor (v : gvalue) : result ctor :=
  match v with
  | GNull => Ok CNull
  | GUndefined => Ok CUndefined
  | GBool _ => Ok CBoolean
  | GNum _ | GNaN => Ok CNumber
  | GStr _ => Ok CString
  | GDate _ => Ok CDate
  | GFun _ _ => Ok CFunction
  | GRef l =>
      match h !! l with
      | Some (NArr _) => Ok CArray
      | Some (NObj props) => Ok (if has_constructor props then COther else CObject)
      | None => OutOfModel
      end
  end.

(** One turn of the [while] loop of [isEqual] on the pair popped from the
    work stack: [inl r] when the function returns [r] at once, [inr ps]
    when it pushes the pairs [ps] (possibly none) and moves on. *)
Definition isEqual_step (a b : gvalue) : result (bool + list (gvalue * gvalue)) :=
  if strictEq a b then Ok (inr [])
  else
    ca ← getConstructor a;
    cb ← getConstructor b;
    if negb (bool_decide (ca = cb)) || isFunction a then Ok (inl false)
    else match STRING_CONVERTERS ca with
         | Some _ =>
             Ok (if negb (convert a =? convert b)%string then inl false else inr [])
         | None =>
             match ca, a, b with
             | (CArray | CObject), GRef la, GRef lb =>
                 match h !! la, h !! lb with
                 | Some (NArr xs), Some (NArr ys) =>
                     Ok (if negb (length xs =? length ys)%nat then inl false
                         else inr (combine xs ys))
                 | Some (NObj pa), Some (NObj pb) =>
                     Ok (if negb (length pa =? length pb)%nat then inl false
                         else if negb (length (remove_dups (map fst pa ++ map fst pb))
                                       =? length pa)%nat
                         then inl false
                         else inr (map (fun k => (get pa k, get pb k)) (map fst pa)))
                 | _, _ => OutOfModel
                 end
             | _, _, _ => Ok (inl false)
             end
         end.

(** The work stack has its top at the head.  The loop does not stop on
    a cycle; [None] is a run cut short by [fuel]. *)
Fixpoint isEqual_loop (fuel : nat) (args : list (gvalue * gvalue))
    : option (result bool) :=
  match fuel with
  | O => None
  | S fuel' =>
      match args with
      | [] => Some (Ok true)
      | (a, b) :: args' =>
          match isEqual_step a b with
          | Ok (inl r) => Some (Ok r)
          | Ok (inr pushed) => isEqual_loop fuel' (rev pushed ++ args')
          | Throw e => Some (Throw e)
          | OutOfModel => Some OutOfModel
          end
      end
  end.

(** [isEqual(a, b)] *)
Definition isEqual (fuel : nat) (a b : gvalue) : option (result bool) :=
  isEqual_loop fuel [(a, b)].

(** [ctor.name], for the member [ctor] that a mapping has under
    [constructor]: a property read, which throws on null and undefined
    and finds nothing on a primitive, a date or an array. *)
Definition name_of (ctor : gvalue) : result gvalue :=
  match ctor with
  | GUndefined | GNull =>
      Throw (TypeError "Cannot read properties of null or undefined")
  | GFun _ _ => OutOfModel
  | GRef l =>
      match h !! l with
      | Some (NObj props) => Ok (get props "name")
      | Some (NArr _) => Ok GUndefined
      | None => OutOfModel
      end
  | _ => Ok GUndefined
  end.

(** [ctor === Object ? "" : ctor.name] *)
Definition tag (n : node) : result gvalue :=
  match n with
  | NArr _ => Ok (GStr "Array")
  | NObj props =>
      match lookup_prop "constructor" props with
      | None => Ok (GStr "")
      | Some ctor => name_of ctor
      end
  end.
End Heap.

Section Stringify.
Variable JSON_stringify : heap -> gvalue -> result string.
Variable h : heap.

(** The inner [str] of [stringify], with its visited set [cycle]:
    a cell is added on entry and removed again on exit ([finally]),
    so the set holds the cells under conversion, the ancestors of
    [v].  The tag is read first and printed when the string is put
    together, before the members are converted.  Each level of
    recursion takes one unit of [fuel]. *)
Fixpoint str (fuel : nat) (cycle : gset nat) (v : gvalue) : option (result string) :=
  match v with
  | GRef l =>
      match h !! l with
      | None => Some OutOfModel
      | Some n =>
          match tag h n with
          | Throw e => Some (Throw e)
          | OutOfModel => Some OutOfModel
          | Ok t =>
              if has_toJSON n
              then Some (t ← template t; s ← JSON_stringify h v;
                         Ok (t +:+ "(" +:+ s +:+ ")"))
              else if bool_decide (l ∈ cycle) then Some (Throw CYCLE_FOUND_ERROR)
              else
                match fuel with
                | O => None
                | S fuel' =>
                    let cycle' := cycle ∪ {[l]} in
                    match n with
                    | NArr items =>
                        wrap "[" "]" (sequence (map (str fuel' cycle') items))
                    | NObj props =>
                        match template t with
                        | Throw e => Some (Throw e)
                        | OutOfModel => Some OutOfModel
                        | Ok t =>
                            let objKeys :=
                              Array_sort compare_strings (map fst (members props)) in
                            wrap (t +:+ "{") "}"
                              (sequence
                                 (map (fun k =>
                                         match str fuel' cycle' (get props k) with
                                         | Some (Ok s) => Some (Ok (k +:+ ":" +:+ s))
                                         | other => other
                                         end) objKeys))
                        end
                    end
                end
          end
      end
  | _ => Some (Ok (convert v))
  end.

(** [stringify(value)]: the visited set starts empty.  A path without
    repetition visits at most [size h] cells, which bounds the depth
    of the recursion ([stringify_returns]). *)
Definition stringify (value : gvalue) : option (result string) :=
  str (size h) ∅ value.
End Stringify.

(** The members of a cell that conversion descends into. *)
Definition child (n : node) (c : gvalue) : Prop :=
  match n with
  | NArr items => In c items
  | NObj props => exists k, In k (map fst (members props)) /\ get props k = c
  end.

(** [reaches h v l]: cell [l] is [v] itself or one of its descendants. *)
Inductive reaches (h : heap) : gvalue -> nat -> Prop :=
| reaches_here l : reaches h (GRef l) l
| reaches_child l n c l' :
    h !! l = Some n -> child n c -> reaches h c l' -> reaches h (GRef l) l'.

(** A cell lies on a cycle when it is its own descendant. *)
Definition on_cycle (h : heap) (l : nat) : Prop :=
  exists n c, h !! l = Some n /\ child n c /\ reaches h c l.

(** A self-referential value: some cell it reaches lies on a cycle. *)
Definition cyclic (h : heap) (v : gvalue) : Prop :=
  exists l, reaches h v l /\ on_cycle h l.

(** A heap of documents: every reference leads to a cell, no cell
    holds a function, and the keys of a mapping are distinct. *)
Definition is_data (v : gvalue) : Prop :=
  match v with GFun _ _ => False | _ => True end.

Definition data_heap (h : heap) : Prop :=
  forall l n c, h !! l = Some n -> child n c ->
    is_data c /\ (forall l', c = GRef l' -> is_Some (h !! l')).

Definition distinct_keys (h : heap) : Prop :=
  forall l props, h !! l = Some (NObj props) -> NoDup (map fst props).

(** A heap for every cell of which [stringify] obtains the tag: no
    mapping has a member named [constructor] whose [name] cannot be
    read or printed. *)
Definition tagged (h : heap) : Prop :=
  forall l n, h !! l = Some n -> exists t, (t ← tag h n; template t) = Ok t.

(** Values from which every path of members ends: the acyclic ones. *)
Inductive finite (h : heap) : gvalue -> Prop :=
| finite_scalar v : (forall l, v <> GRef l) -> finite h v
| finite_cell l n :
    h !! l = Some n -> (forall c, child n c -> finite h c) -> finite h (GRef l).

End Graph.

(** What [str] puts together for a cell: the members it converts, each
    with the decoration of its string, and the brackets around them. *)
Definition cell_parts (n : Graph.node) : list ((string -> string) * Graph.gvalue) :=
  match n with
  | Graph.NArr items => map (fun c => (fun s : string => s, c)) items
  | Graph.NObj props =>
      map (fun k => (fun s : string => k +:+ ":" +:+ s, Graph.get props k))
        (Array_sort compare_strings (map fst (Graph.members props)))
  end.

Definition cell_open (t : string) (n : Graph.node) : string :=
  match n with Graph.NArr _ => "[" | Graph.NObj _ => t +:+ "{" end.

Definition cell_close (n : Graph.node) : string :=
  match n with Graph.NArr _ => "]" | Graph.NObj _ => "}" end.

(** ** Example data *)

(** Two mappings with the same members in two key orders, each with an
    array of its own. *)
Definition example_pair : Graph.heap :=
  <[ 0%nat := Graph.NObj [("a", Graph.GNum 1); ("b", Graph.GRef 2)] ]>
    (<[ 1%nat := Graph.NObj [("b", Graph.GRef 3); ("a", Graph.GNum 1)] ]>
       (<[ 2%nat := Graph.NArr [Graph.GNum 2; Graph.GStr "x"] ]>
          (<[ 3%nat := Graph.NArr [Graph.GNum 2; Graph.GStr "x"] ]> ∅))).

(** An object whose [self] member is the object itself. *)
Definition example_loop : Graph.heap :=
  {[ 0%nat := Graph.NObj [("self", Graph.GRef 0)] ]}.

(** An object whose member [constructor] is null. *)
Definition example_null_constructor : Graph.heap :=
  {[ 0%nat := Graph.NObj [("constructor", Graph.GNull)] ]}.

(** ** Path resolution *)

Definition isUndefined (v : value) : bool :=
  match v with VUndefined => true | _ => false end.

(** [unwrap(arr, depth)]: a string of length one is its own first
    character. *)
Fixpoint unwrap (arr : value) (depth : nat) : value :=
  match depth with
  | O => arr
  | S depth' =>
      match arr with
      | VArr [x] => unwrap x depth'
      | _ => arr
      end
  end.

(** The inner [resolve2] of [resolve].  [first] says whether the loop is at
    [i === 0]; [depth] is the counter the closure shares with its
    recursive calls, returned with the value.  [getValue] is written out
    so that the loop continues on the member found. *)
Fixpoint resolve2 (o : value) (path : list string) (first : bool) (depth : nat)
    {struct o} : value * nat :=
  match path with
  | [] => (o, depth)
  | field :: rest =>
      match o with
      | VArr items =>
          if negb (NUMBER_RE field) then
            if first && (0 <? depth)%nat then (o, depth)
            else
              let '(acc, d) :=
                (fix reduce (items : list value) (acc : list value) (d : nat)
                   : list value * nat :=
                   match items with
                   | [] => (acc, d)
                   | item :: items' =>
                       let '(v, d') := resolve2 item path true d in
                       reduce items' (if isUndefined v then acc else acc ++ [v]) d'
                   end) items [] (S depth) in
              (VArr acc, d)
          else
            match array_index field with
            | None => (VUndefined, depth)
            | Some i =>
                (fix at_index (items : list value) (i : nat) : value * nat :=
                   match items, i with
                   | [], _ => (VUndefined, depth)
                   | v :: _, O =>
                       if isUndefined v then (VUndefined, depth)
                       else resolve2 v rest false depth
                   | _ :: items', S i' => at_index items' i'
                   end) items i
            end
      | VObj kvs =>
          (fix at_key (kvs : list (string * value)) : value * nat :=
             match kvs with
             | [] => (VUndefined, depth)
             | kv :: kvs' =>
                 if (fst kv =? field)%string then
                   if isUndefined (snd kv) then (VUndefined, depth)
                   else resolve2 (snd kv) rest false depth
                 else at_key kvs'
             end) kvs
      | _ => (VUndefined, depth)
      end
  end.

(** [resolve(obj, selector, options)]; [unwrapArray] is
    [options?.unwrapArray]. *)
Definition resolve (obj : value) (selector : string) (unwrapArray : bool) : value :=
  if in_strings (toLowerCase (getType obj)) JS_SIMPLE_TYPES then obj
  else
    let '(result, depth) := resolve2 obj (split_dot selector) true 0 in
    if isArray result && unwrapArray then unwrap result depth else result.

(** ** Operator registry *)

Inductive OperatorType : Type :=
| ACCUMULATOR | EXPRESSION | PIPELINE | PROJECTION | QUERY | WINDOW.

#[global] Instance OperatorType_eq_dec : EqDecision OperatorType.
Proof. solve_decision. Defined.

(** The name of an operator class, as it appears in messages. *)
Definition OperatorType_name (t : OperatorType) : string :=
  match t with
  | ACCUMULATOR => "accumulator"
  | EXPRESSION => "expression"
  | PIPELINE => "pipeline"
  | PROJECTION => "projection"
  | QUERY => "query"
  | WINDOW => "window"
  end.

(** A [Context]: per operator class, the operators registered by name. *)
Record Context : Type := { operators : OperatorType -> gmap string value }.

Module ContextOps.
(** [new Context({})] *)
Definition empty : Context := {| operators := fun _ => ∅ |}.

(** [ctx.getOperator(type, name)]: [this.operators[type][name] || null] *)
Definition getOperator (ctx : Context) (type : OperatorType) (name : string) : value :=
  match operators ctx type !! name with
  | Some fn => if toBoolean fn then fn else VNull
  | None => VNull
  end.

(** [ctx.addOperators(type, ops)]: a name that is bound stays as it is. *)
Definition addOperators (ctx : Context) (type : OperatorType)
    (ops : list (string * value)) : Context :=
  fold_left
    (fun ctx '(name, fn) =>
       if negb (toBoolean (getOperator ctx type name))
       then {| operators := fun t =>
                 if decide (t = type) then <[name := fn]> (operators ctx t)
                 else operators ctx t |}
       else ctx)
    ops ctx.

(** [Context.init(ops)] *)
Definition init (ops : list (OperatorType * list (string * value))) : Context :=
  fold_left (fun ctx '(type, operators) => addOperators ctx type operators) ops empty.
End ContextOps.

(** ** Options *)

(** An options object.  A field that is absent (or undefined) is [None];
    flags are read by truthiness. *)
Record Options : Type := {
  idKey : option string;
  scriptEnabled : option bool;
  useStrictMode : option bool;
  useGlobalContext : option bool;
  context : option Context;
  variables : value;
}.

Definition flag (f : option bool) : bool := default false f.

(** The options object [{}]. *)
Definition no_options : Options :=
  {| idKey := None; scriptEnabled := None; useStrictMode := None;
     useGlobalContext := None; context := None; variables := VUndefined |}.

(** [initOptions(options)] for a plain options object: the defaults, the
    given fields over them, and a copy of the given context or an empty
    one. *)
Definition initOptions (options : option Options) : Options :=
  let o := default no_options options in
  {| idKey := Some (default "_id" (idKey o));
     scriptEnabled := Some (default true (scriptEnabled o));
     useStrictMode := Some (default true (useStrictMode o));
     useGlobalContext := Some (default true (useGlobalContext o));
     context := Some (default ContextOps.empty (context o));
     variables := variables o |}.

(** [getOperator(type, operator, options)] reads two fields of its
    options, [context] and [useGlobalContext]; [GLOBAL_CONTEXT] is the
    registry of the process at the time of the call. *)
Definition getOperator (GLOBAL_CONTEXT : Context) (type : OperatorType) (operator : string)
    (ctx : option Context) (fallback : bool) : value :=
  let fn := match ctx with
            | Some c => ContextOps.getOperator c type operator
            | None => VNull
            end in
  if negb (toBoolean fn) && fallback
  then ContextOps.getOperator GLOBAL_CONTEXT type operator
  else fn.

(** The body of the validation loop of [useOperators]. *)
Definition useOperators_check (GLOBAL_CONTEXT : Context) (type : OperatorType)
    (entry : string * value) : result unit :=
  let '(name, fn) := entry in
  _ ← assert (isFunction fn && isOperator name)
        ("'" +:+ name +:+ "' is not a valid operator");
  (* [getOperator(type, name, null)]: no context and no fallback *)
  let currentFn := getOperator GLOBAL_CONTEXT type name None false in
  assert (negb (toBoolean currentFn) || strictEq fn currentFn)
    (name +:+ " already exists for '" +:+ OperatorType_name type +:+
     "' operators. Cannot change operator function once registered.").

(** [useOperators(type, operators)]: returns the global registry after the
    call. *)
Definition useOperators (GLOBAL_CONTEXT : Context) (type : OperatorType)
    (operators : list (string * value)) : result Context :=
  _ ← mapM (useOperators_check GLOBAL_CONTEXT type) operators;
  Ok (ContextOps.addOperators GLOBAL_CONTEXT type operators).

(** Two different functions of a caller. *)
Definition example_f1 : value := VFun (User 1) "function f1() {}".
Definition example_f2 : value := VFun (User 2) "function f2() {}".

(** A global registry in which the query operator [$foo] is [example_f1]. *)
Definition example_registry : Context :=
  ContextOps.addOperators ContextOps.empty QUERY [("$foo", example_f1)].

(** ** Expression evaluation *)

(** A [ComputeOptions]: the caller's options with the mutable slice. *)
Record ComputeOptions : Type := {
  _opts : option Options;
  _root : value;
  _local : value;
  timestamp : Z;
}.

(** What is passed for [options]: nothing, a plain options object, or a
    [ComputeOptions] ([options instanceof ComputeOptions]). *)
Inductive options_arg : Type :=
| NoOptions
| Plain (o : Options)
| Compute (c : ComputeOptions).

(** [v?.variables] *)
Definition variables_of (v : value) : value :=
  if isNil v then VUndefined else getProp v "variables".

Module ComputeOptionsOps.
(** [copts.update(root, local)] *)
Definition update (c : ComputeOptions) (root local : value) : ComputeOptions :=
  {| _opts := _opts c;
     _root := root;
     _local :=
       if toBoolean local then
         VObj (assign (assign [] (own_props local))
                 [("variables",
                   VObj (assign (assign [] (own_props (variables_of (_local c))))
                           (own_props (variables_of local))))])
       else local;
     timestamp := timestamp c |}.

(** [new ComputeOptions(_opts, _root, _local, timestamp)] *)
Definition new (opts : option Options) (root local : value) (timestamp : Z)
    : ComputeOptions :=
  update {| _opts := opts; _root := root; _local := local; timestamp := timestamp |}
    root local.

(** [ComputeOptions.init(options, root, local)]; the constructor reads
    the clock for the timestamp. *)
Definition init (Date_now : Z) (options : options_arg) (root local : value)
    : ComputeOptions :=
  match options with
  | Compute c =>
      new (_opts c) (if isNil (_root c) then root else _root c)
        (VObj (assign (assign [] (own_props (_local c))) (own_props local)))
        Date_now
  | Plain o => new (Some o) root local Date_now
  | NoOptions => new None root local Date_now
  end.

(** The getters [variables], [context] and [useGlobalContext]. *)
Definition get_variables (c : ComputeOptions) : value :=
  match _opts c with Some o => variables o | None => VUndefined end.
End ComputeOptionsOps.

(** The two fields [getOperator] reads from the options it is given. *)
Definition operator_scope (options : options_arg) : option Context * bool :=
  match options with
  | NoOptions => (None, false)
  | Plain o => (context o, flag (useGlobalContext o))
  | Compute c =>
      match _opts c with
      | Some o => (context o, flag (useGlobalContext o))
      | None => (None, false)
      end
  end.

Definition redactVariables : list string := ["$$KEEP"; "$$PRUNE"; "$$DESCEND"].

(** [systemVariables[name](obj, null, options)], when [name] is one. *)
Definition systemVariables (name : string) (obj : value) (options : ComputeOptions)
    : option value :=
  if (name =? "$$ROOT")%string then Some (_root options)
  else if (name =? "$$CURRENT")%string then Some obj
  else if (name =? "$$REMOVE")%string then Some VUndefined
  else if (name =? "$$NOW")%string then Some (VDate (timestamp options))
  else None.

Section ComputeValue.
(** The registry of the process, the reading of the clock, what calling a
    function registered as an expression or accumulator operator does,
    and [JSON.stringify], which builds the message of a failed
    assertion before the assertion is tested. *)
Variable GLOBAL_CONTEXT : Context.
Variable Date_now : Z.
Variable apply_operator : fnid -> value -> value -> ComputeOptions -> result value.
Variable JSON_stringify : value -> result string.

Definition lookup_operator (type : OperatorType) (operator : string)
    (options : options_arg) : value :=
  getOperator GLOBAL_CONTEXT type operator
    (fst (operator_scope options)) (snd (operator_scope options)).

(** [fn(obj, expr, options)] for a value taken from the registry. *)
Definition call_operator (fn obj expr : value) (options : ComputeOptions)
    : result value :=
  match fn with
  | VFun id _ => apply_operator id obj expr options
  | _ => Throw (TypeError "not a function")
  end.

(** The branch of [computeValue] for an expression that is a string
    starting with the sigil: a variable or a field path. *)
Definition compute_path (obj : value) (expr : string) (copts : ComputeOptions)
    : result value :=
  if in_strings expr redactVariables then Ok (VStr expr)
  else
    let arr0 := hd EmptyString (split_dot expr) in
    '(context, expr) ←
      match systemVariables arr0 obj copts with
      | Some v => Ok (v, substring1 expr (Z.of_nat (String.length arr0) + 1))
      | None =>
          if (substring2 arr0 0 2 =? "$$")%string then
            let context :=
              VObj (assign
                      (assign (assign [] (own_props (ComputeOptionsOps.get_variables copts)))
                         [("this", obj)])
                      (own_props (variables_of (_local copts)))) in
            let prefix := substring1 arr0 2 in
            _ ← assert (has context prefix) ("Use of undefined variable: " +:+ prefix);
            Ok (context, substring1 expr 2)
          else Ok (_root copts, substring1 expr 1)
      end;
    if (expr =? "")%string then Ok context else Ok (resolve context expr false).

(** The branch of [computeValue] taken when [operator] is the name of an
    operator.  [self] evaluates an expression without an operator. *)
Definition compute_operator
    (self : value -> value -> options_arg -> result value)
    (obj expr : value) (operator : string) (options : options_arg)
    (copts : ComputeOptions) : result value :=
  let callExpression := lookup_operator EXPRESSION operator options in
  if toBoolean callExpression then call_operator callExpression obj expr copts
  else
    let callAccumulator := lookup_operator ACCUMULATOR operator options in
    if toBoolean callAccumulator then
      '(obj, expr) ←
        (if negb (isArray obj)
         then obj' ← self obj expr (Compute copts); Ok (obj', VNull)
         else Ok (obj, expr));
      _ ← assert (isArray obj) ("'" +:+ operator +:+ "' target must be an array.");
      call_operator callAccumulator obj expr
        (ComputeOptionsOps.update copts VNull (_local copts))
    else Throw (Error ("operator '" +:+ operator +:+ "' is not registered")).

(** [computeValue(obj, expr, null, options)]: the evaluation of an
    expression that is not the operand of an operator.  The call
    [computeValue(obj, val, key, copts)] of the loop over a mapping is
    [compute_operator] when [key] is the name of an operator and this
    function otherwise. *)
Fixpoint computeExpr (obj expr : value) (options : options_arg) : result value :=
  let copts := ComputeOptionsOps.init Date_now options obj VUndefined in
  match expr with
  | VStr s =>
      if (0 <? String.length s)%nat && (substring2 s 0 1 =? "$")%string
      then compute_path obj s copts
      else Ok expr
  | VArr items => xs ← mapM (fun item => computeExpr obj item (Compute copts)) items;
                  Ok (VArr xs)
  | VObj entries =>
      (fix loop (rest : list (string * value)) (res : list (string * value))
         : result value :=
         match rest with
         | [] => Ok (VObj res)
         | (key, val) :: rest' =>
             let copts' :=
               ComputeOptionsOps.init Date_now (Compute copts) obj VUndefined in
             v ← (if isOperator key
                  then compute_operator computeExpr obj val key (Compute copts) copts'
                  else computeExpr obj val (Compute copts));
             if toBoolean (lookup_operator EXPRESSION key options) ||
                toBoolean (lookup_operator ACCUMULATOR key options)
             then
               text ← JSON_stringify expr;
               _ ← assert (length entries =? 1)%nat
                     ("Invalid aggregation expression '" +:+ text +:+ "'");
               Ok v
             else loop rest' (set_key key v res)
         end) entries []
  | _ => Ok expr
  end.

(** [computeValue(obj, expr, operator, options)] *)
Definition computeValue (obj expr : value) (operator : option string)
    (options : options_arg) : result value :=
  let copts := ComputeOptionsOps.init Date_now options obj VUndefined in
  let operator := default EmptyString operator in
  if isOperator operator
  then compute_operator computeExpr obj expr operator options copts
  else computeExpr obj expr options.
End ComputeValue.

Section ComputeValueLoop.
Variable GLOBAL_CONTEXT : Context.
Variable Date_now : Z.
Variable apply_operator : fnid -> value -> value -> ComputeOptions -> result value.
Variable JSON_stringify : value -> result string.

(** Whether [key] names a registered expression or accumulator operator,
    as the loop over a mapping tests it. *)
Definition registered (key : string) (options : options_arg) : bool :=
  toBoolean (lookup_operator GLOBAL_CONTEXT EXPRESSION key options) ||
  toBoolean (lookup_operator GLOBAL_CONTEXT ACCUMULATOR key options).

(** The loop of [computeValue] over the entries of a mapping, from the
    entries [rest] on, with [res] built so far. *)
Definition mapping_loop (obj : value) (entries : list (string * value))
    (options : options_arg) :=
  let copts := ComputeOptionsOps.init Date_now options obj VUndefined in
  fix loop (rest : list (string * value)) (res : list (string * value))
      : result value :=
    match rest with
    | [] => Ok (VObj res)
    | (key, val) :: rest' =>
        let copts' := ComputeOptionsOps.init Date_now (Compute copts) obj VUndefined in
        v ← (if isOperator key
             then compute_operator GLOBAL_CONTEXT apply_operator
                    (computeExpr GLOBAL_CONTEXT Date_now apply_operator JSON_stringify)
                    obj val key (Compute copts) copts'
             else computeExpr GLOBAL_CONTEXT Date_now apply_operator JSON_stringify
                    obj val (Compute copts));
        if registered key options
        then
          text ← JSON_stringify (VObj entries);
          _ ← assert (length entries =? 1)%nat
                ("Invalid aggregation expression '" +:+ text +:+ "'");
          Ok v
        else loop rest' (set_key key v res)
    end.
End ComputeValueLoop.

(** A registry in which [$foo] is an expression operator, and options that
    fall back on it. *)
Definition example_expressions : Context :=
  ContextOps.addOperators ContextOps.empty EXPRESSION [("$foo", example_f1)].

Definition default_options : Options := initOptions None.

(** ** Query predicates *)

(** A compiled predicate: [obj => ...], read by truthiness. *)
Definition predicate : Type := value -> result bool.

(** [xs.some(f)] and [xs.every(f)] for a callback that may throw. *)
Fixpoint someM {A} (f : A -> result bool) (l : list A) : result bool :=
  match l with
  | [] => Ok false
  | x :: l' => b ← f x; if b : bool then Ok true else someM f l'
  end.

Fixpoint everyM {A} (f : A -> result bool) (l : list A) : result bool :=
  match l with
  | [] => Ok true
  | x :: l' => b ← f x; if b : bool then everyM f l' else Ok false
  end.

(** [flatten2(ys, n)] on one element [y] of [ys]. *)
Fixpoint flatten_value (y : value) (n : Z) : list value :=
  match y with
  | VArr zs =>
      if negb (n =? 0)
      then concat (map (fun z => flatten_value z (Z.max (-1) (n - 1))) zs)
      else [y]
  | _ => [y]
  end.

(** [flatten(xs, depth)] *)
Definition flatten (xs : list value) (depth : Z) : list value :=
  concat (map (fun y => flatten_value y depth) xs).

(** [$eq$2(a, b, options)]; [depth] is [options.depth]. *)
Definition eq_2 (a b : value) (depth : Z) : bool :=
  if isEqual a b then true
  else if isNil a && isNil b then true
  else match a with
       | VArr xs => existsb (isEqual b) xs || existsb (isEqual b) (flatten xs depth)
       | _ => false
       end.

(** [compare(a, b, f)] of the predicates, with [f] a test on the sign of
    [compare$1(x, b)]. *)
Definition compare_with (a b : value) (f : Z -> bool) : result bool :=
  someM (fun x =>
           if (getType x =? getType b)%string
           then z ← compare_1 x b; Ok (f z)
           else Ok false)
        (ensureArray_1 a).

Definition lt_2 (a b : value) : result bool := compare_with a b (fun z => z <? 0).
Definition lte_2 (a b : value) : result bool := compare_with a b (fun z => z <=? 0).
Definition gt_2 (a b : value) : result bool := compare_with a b (fun z => 0 <? z).
Definition gte_2 (a b : value) : result bool := compare_with a b (fun z => 0 <=? z).

(** [$exists$1(a, b)] *)
Definition exists_1 (a b : value) : bool :=
  ((strictEq b (VBool false) || strictEq b (VNum 0)) && isUndefined a) ||
  ((strictEq b (VBool true) || strictEq b (VNum 1)) && negb (isUndefined a)).

(** [$size$1(a, b)] *)
Definition size_1 (a b : value) : bool :=
  match a with
  | VArr xs => strictEq (VNum (Z.of_nat (length xs))) b
  | _ => false
  end.

(** [createQueryOperator(predicate)(selector, value, options)]: the field
    is resolved with [unwrapArray], and the predicate is given the depth
    of the selector. *)
Definition createQueryOperator (pred : value -> value -> Z -> result bool)
    (selector : string) (value : value) : predicate :=
  let depth := Z.max 1 (Z.of_nat (length (split_dot selector)) - 1) in
  fun obj => pred (resolve obj selector true) value depth.

(** [normalize(expr)].  A mapping with a [$regex] key gets a regular
    expression built, which is outside the embedding. *)
Definition normalize (expr : value) : result value :=
  if in_strings (toLowerCase (getType expr)) JS_SIMPLE_TYPES
  then Ok (VObj [("$eq", expr)])
  else if isObjectLike expr then
    if negb (existsb isOperator (keys (own_props expr))) then Ok (VObj [("$eq", expr)])
    else if has expr "$regex" then OutOfModel
    else Ok expr
  else Ok expr.

(** Arrays are objects, passed by reference: a [Store] maps the reference
    of an array of documents to its elements. *)
Abbreviation Store := (gmap nat (list value)).

Section Query.
Variable GLOBAL_CONTEXT : Context.
Variable Date_now : Z.
Variable apply_operator : fnid -> value -> value -> ComputeOptions -> result value.
Variable JSON_stringify : value -> result string.
(** [f.call(obj)] for a function of the caller, and what a function of
    the caller does when it is called as a query operator. *)
Variable call_method : fnid -> value -> result value.
Variable user_query_operator : nat -> string -> value -> Options -> result predicate.

(** [q.test(obj)] on the compiled predicates. *)
Fixpoint test_compiled (compiled : list predicate) (obj : value) : result bool :=
  match compiled with
  | [] => Ok true
  | p :: compiled' => b ← p obj; if b : bool then test_compiled compiled' obj else Ok false
  end.

(** [$or(_, rhs, options)], [$and] and [$nor]; [mk expr] is
    [new Query(expr, options)], yielding the compiled predicates. *)
Definition op_or (mk : value -> result (list predicate)) (rhs : value) : result predicate :=
  match rhs with
  | VArr exprs =>
      queries ← mapM mk exprs;
      Ok (fun obj => someM (fun q => test_compiled q obj) queries)
  | _ => Throw (Error "Invalid expression. $or expects value to be an Array")
  end.

Definition op_and (mk : value -> result (list predicate)) (rhs : value) : result predicate :=
  match rhs with
  | VArr exprs =>
      queries ← mapM mk exprs;
      Ok (fun obj => everyM (fun q => test_compiled q obj) queries)
  | _ => Throw (Error "Invalid expression: $and expects value to be an Array.")
  end.

Definition op_nor (mk : value -> result (list predicate)) (rhs : value) : result predicate :=
  match rhs with
  | VArr exprs =>
      f ← op_or mk rhs;
      Ok (fun obj => b ← f obj; Ok (negb b))
  | _ => Throw (Error "Invalid expression. $nor expects value to be an array.")
  end.

(** [$where(_, rhs, options)] *)
Definition op_where (rhs : value) (options : Options) : result predicate :=
  _ ← assert (flag (scriptEnabled options))
        "$where operator requires 'scriptEnabled' option to be true";
  match rhs with
  | VFun f _ =>
      Ok (fun obj => v ← call_method f obj; Ok (truthy v (flag (useStrictMode options))))
  | _ => Throw (Error "$where only accepts a Function object")
  end.

(** [$expr(_, rhs, options)] *)
Definition op_expr (rhs : value) (options : Options) : result predicate :=
  Ok (fun obj =>
        v ← computeValue GLOBAL_CONTEXT Date_now apply_operator JSON_stringify
              obj rhs None (Plain options);
        Ok (toBoolean v)).

(** [call(field, value, this.options)] for the value [call] found in the
    registry.  Of the query operators of the bundle the logical, the
    comparison and the element operators are embedded. *)
Definition call_query_operator (mk : value -> result (list predicate))
    (call : value) (field : string) (value : value) (options : Options)
    : result predicate :=
  match call with
  | VFun (Bundle name) _ =>
      if (name =? "$and")%string then op_and mk value
      else if (name =? "$or")%string then op_or mk value
      else if (name =? "$nor")%string then op_nor mk value
      else if (name =? "$where")%string then op_where value options
      else if (name =? "$expr")%string then op_expr value options
      else if (name =? "$eq")%string
      then Ok (createQueryOperator (fun a b depth => Ok (eq_2 a b depth)) field value)
      else if (name =? "$ne")%string
      then Ok (createQueryOperator (fun a b depth => Ok (negb (eq_2 a b depth))) field value)
      else if (name =? "$gt")%string
      then Ok (createQueryOperator (fun a b _ => gt_2 a b) field value)
      else if (name =? "$gte")%string
      then Ok (createQueryOperator (fun a b _ => gte_2 a b) field value)
      else if (name =? "$lt")%string
      then Ok (createQueryOperator (fun a b _ => lt_2 a b) field value)
      else if (name =? "$lte")%string
      then Ok (createQueryOperator (fun a b _ => lte_2 a b) field value)
      else if (name =? "$exists")%string
      then Ok (createQueryOperator (fun a b _ => Ok (exists_1 a b)) field value)
      else if (name =? "$size")%string
      then Ok (createQueryOperator (fun a b _ => Ok (size_1 a b)) field value)
      else OutOfModel
  | VFun (User n) _ => user_query_operator n field value options
  | _ => Throw (TypeError "call is not a function")
  end.

(** [this.processOperator(field, operator, value)], returning the
    predicate it pushes. *)
Definition processOperator (mk : value -> result (list predicate))
    (options : Options) (field operator : string) (value : value)
    : result predicate :=
  let call := getOperator GLOBAL_CONTEXT QUERY operator
                (context options) (flag (useGlobalContext options)) in
  if negb (toBoolean call) then Throw (Error ("unknown operator " +:+ operator))
  else call_query_operator mk call field value options.

Definition TOP_LEVEL : list string := ["$and"; "$or"; "$nor"; "$expr"; "$jsonSchema"].

(** [this.compile()] for a query with condition [condition] and options
    [options] (already initialised): the predicates pushed on
    [this.compiled], in order.  The loop carries [compiled] and the
    [whereOperator] holder.  Once the [$where] key has been met the
    holder is [Some] of what [processOperator] yields for it, which is
    the same at every later call since [processOperator] only reads its
    arguments, the options and the registry.  In the branch for a
    field, the entries of [normalize(expr)] are those of [expr] itself
    when it is a mapping with an operator key; otherwise the one entry
    [$eq: expr]. *)
Fixpoint compile (condition : value) (options : Options) {struct condition}
    : result (list predicate) :=
  let mk := fun expr : value => compile expr (initOptions (Some options)) in
  text ← JSON_stringify condition;
  match condition with
  | VObj entries =>
      (fix loop (entries : list (string * value)) (compiled : list predicate)
           (whereOperator : option (result predicate)) : result (list predicate) :=
         match entries with
         | [] => Ok compiled
         | (field, expr) :: entries' =>
             '(compiled, whereOperator) ←
               (if (field =? "$where")%string
                then Ok (compiled,
                         Some (processOperator mk options "$where" "$where" expr))
                else if in_strings field TOP_LEVEL then
                  fn ← processOperator mk options field field expr;
                  Ok (compiled ++ [fn], whereOperator)
                else
                  _ ← assert (negb (isOperator field))
                        ("unknown top level operator: " +:+ field);
                  fns ← match expr with
                        | VObj kvs =>
                            if existsb isOperator (keys kvs) then
                              if has expr "$regex" then OutOfModel
                              else mapM (fun kv => processOperator mk options field
                                                     (fst kv) (snd kv)) kvs
                            else fn ← processOperator mk options field "$eq" expr; Ok [fn]
                        | _ => fn ← processOperator mk options field "$eq" expr; Ok [fn]
                        end;
                  Ok (compiled ++ fns, whereOperator));
             compiled ←
               match whereOperator with
               | Some processed => fn ← processed; Ok (compiled ++ [fn])
               | None => Ok compiled
               end;
             loop entries' compiled whereOperator
         end) entries [] None
  | _ => Throw (Error ("query criteria must be an object: " +:+ text))
  end.

(** A [Query]. *)
Record Query : Type := {
  condition : value;
  options : Options;
  compiled : list predicate;
}.

(** [new Query(condition, options)] *)
Definition new_Query (condition : value) (options : option Options) : result Query :=
  let options := initOptions options in
  compiled ← compile condition options;
  Ok {| condition := condition; options := options; compiled := compiled |}.

(** [q.test(obj)] *)
Definition test (q : Query) (obj : value) : result bool := test_compiled (compiled q) obj.

(** The [reduce] of [q.remove(collection)]: a document that fails the
    test is pushed on the array [acc]. *)
Fixpoint remove_reduce (q : Query) (docs : list value) (acc : nat) (s : Store)
    : result Store :=
  match docs with
  | [] => Ok s
  | obj :: docs' =>
      b ← test q obj;
      remove_reduce q docs' acc
        (if b : bool then s else alter (fun xs => xs ++ [obj]) acc s)
  end.

(** [q.remove(collection)]: [acc] is a newly allocated empty array. *)
Definition Query_remove (q : Query) (s : Store) (collection : nat)
    : result (Store * nat) :=
  match s !! collection with
  | None => OutOfModel
  | Some docs =>
      let acc := fresh (dom s) in
      s' ← remove_reduce q docs acc (<[acc := []]> s);
      Ok (s', acc)
  end.

(** [remove$1(collection, criteria, options)] *)
Definition remove_1 (s : Store) (collection : nat) (criteria : value)
    (options : option Options) : result (Store * nat) :=
  q ← new_Query criteria options; Query_remove q s collection.

(** The [Collection] facade: [this.collection] refers to an array. *)
Record Collection : Type := { collection : nat }.

(** [remove(data, query)] of the facade passes no options on. *)
Definition remove (s : Store) (data : nat) (query : value) : result (Store * nat) :=
  remove_1 s data query None.

(** [Collection.remove]: returns the store, the collection object and
    the array returned. *)
Definition Collection_remove (s : Store) (this : Collection) (query : value)
    : result (Store * Collection * nat) :=
  '(s', newData) ← remove s (collection this) query;
  Ok (s', {| collection := newData |}, newData).
End Query.

(** ** The registry after the bundle is loaded *)

(** A function the bundle defines, by the name it has in the bundle. *)
Definition bundle_function (name : string) : value := VFun (Bundle name) EmptyString.

Definition bundle_functions (names : list (string * string)) : list (string * value) :=
  map (fun '(operator, name) => (operator, bundle_function name)) names.

(** [queryOperators] *)
Definition queryOperators : list (string * value) :=
  bundle_functions
    (map (fun name => (name, name))
       ["$all"; "$and"; "$bitsAllClear"; "$bitsAllSet"; "$bitsAnyClear"; "$bitsAnySet";
        "$elemMatch"; "$eq"; "$exists"; "$expr"; "$gt"; "$gte"; "$in"; "$jsonSchema";
        "$lt"; "$lte"; "$mod"; "$ne"; "$nin"; "$nor"; "$not"; "$or"; "$regex"; "$size";
        "$type"; "$where"]).

(** [booleanOperators] and [comparisonOperators] *)
Definition expressionOperators : list (string * value) :=
  bundle_functions
    [("$and", "$and$1"); ("$not", "$not$1"); ("$or", "$or$1"); ("$cmp", "$cmp");
     ("$eq", "$eq$1"); ("$gt", "$gt$1"); ("$gte", "$gte$1"); ("$lt", "$lt$1");
     ("$lte", "$lte$1"); ("$ne", "$ne$1")].

Definition pipelineOperators : list (string * value) :=
  bundle_functions
    [("$project", "$project"); ("$skip", "$skip"); ("$limit", "$limit"); ("$sort", "$sort")].

Definition projectionOperators : list (string * value) :=
  bundle_functions [("$elemMatch", "$elemMatch$1"); ("$slice", "$slice")].

(** The global registry once the four [useOperators] calls of the bundle
    have run. *)
Definition bundle_registry : Context :=
  ContextOps.addOperators
    (ContextOps.addOperators
       (ContextOps.addOperators
          (ContextOps.addOperators ContextOps.empty EXPRESSION expressionOperators)
          PIPELINE pipelineOperators)
       PROJECTION projectionOperators)
    QUERY queryOperators.

(** What [getOperator(QUERY, name, this.options)] finds for a query made
    with [options]. *)
Definition query_operator (GLOBAL_CONTEXT : Context) (name : string)
    (options : option Options) : value :=
  getOperator GLOBAL_CONTEXT QUERY name
    (context (initOptions options)) (flag (useGlobalContext (initOptions options))).

(** An environment to run examples in: operators that return their
    operand, a [JSON.stringify] that yields the empty text, and the
    functions of a caller, of which number 7 returns true and number 8
    throws. *)
Definition example_apply (f : fnid) (obj expr : value) (options : ComputeOptions)
    : result value := Ok expr.

Definition example_JSON (v : value) : result string := Ok EmptyString.

Definition example_call (f : fnid) (this : value) : result value :=
  match f with
  | User 7 => Ok (VBool true)
  | User 8 => Throw (Error "boom")
  | _ => Ok (VBool false)
  end.

Definition example_user (n : nat) (field : string) (v : value) (options : Options)
    : result predicate := OutOfModel.

Definition example_doc : value := VObj [("a", VNum 1); ("b", VNum 2)].

(** A document that the query tests as false. *)
Definition non_matching (test : value -> result bool) (d : value) : bool :=
  match test d with
  | Ok false => true
  | _ => false
  end.

(** A store with one array of three documents, and a collection on it. *)
Definition example_store : gmap nat (list value) :=
  {[ 0%nat := [VObj [("a", VNum 1); ("b", VNum 2)];
               VObj [("a", VNum 2); ("b", VNum 2)];
               VObj [("a", VNum 3); ("b", VNum 4)]] ]}.

(** ** The update engine *)

(** The key an update callback is given: the name that [walk] split off
    the selector, or the index that [Array.prototype.map] passes. *)
Inductive prop_key : Type :=
| KStr (s : string)
| KIdx (i : nat).

Definition name_of_key (k : prop_key) : string :=
  match k with
  | KStr s => s
  | KIdx i => pretty i
  end.

Definition index_of_key (k : prop_key) : option nat :=
  match k with
  | KStr s => array_index s
  | KIdx i => Some i
  end.

(** [o[k]]: reading a property of null or undefined is a TypeError; a
    string has its characters and its length. *)
Definition member (o : value) (k : prop_key) : result value :=
  match o with
  | VUndefined | VNull =>
      Throw (TypeError "Cannot read properties of null or undefined")
  | VFun _ _ => OutOfModel
  | VStr s =>
      match index_of_key k with
      | Some i =>
          Ok (match String.get i s with
              | Some c => VStr (String c EmptyString)
              | None => VUndefined
              end)
      | None =>
          Ok (if (name_of_key k =? "length")%string
              then VNum (Z.of_nat (String.length s)) else VUndefined)
      end
  | VArr xs =>
      match k with
      | KIdx i => Ok (nth i xs VUndefined)
      | KStr s => Ok (getProp o s)
      end
  | _ => Ok (getProp o (name_of_key k))
  end.

(** A property that [o[k] = v] creates on a plain object goes after the
    existing ones, except that array indices come first, in ascending
    order. *)
Fixpoint insert_index (i : nat) (k : string) (v : value) (kvs : list (string * value))
    : list (string * value) :=
  match kvs with
  | [] => [(k, v)]
  | (k', v') :: rest =>
      match array_index k' with
      | Some j =>
          if (j <? i)%nat then (k', v') :: insert_index i k v rest else (k, v) :: kvs
      | None => (k, v) :: kvs
      end
  end.

Definition define_key (k : string) (v : value) (kvs : list (string * value))
    : list (string * value) :=
  match lookup_key k kvs with
  | Some _ => set_key k v kvs
  | None =>
      match array_index k with
      | Some i => insert_index i k v kvs
      | None => kvs ++ [(k, v)]
      end
  end.

(** [o[k] = v] in strict mode, as the container after the assignment.
    Writing past the end of an array leaves holes, and a property on an
    array, a date or a function is not part of a tree. *)
Definition assign_member (o : value) (k : prop_key) (v : value) : result value :=
  match o with
  | VObj kvs => Ok (VObj (define_key (name_of_key k) v kvs))
  | VArr xs =>
      match index_of_key k with
      | Some i =>
          if (i <? length xs)%nat then Ok (VArr (<[i := v]> xs))
          else if (i =? length xs)%nat then Ok (VArr (xs ++ [v]))
          else OutOfModel
      | None => OutOfModel
      end
  | VDate _ | VFun _ _ => OutOfModel
  | VUndefined | VNull =>
      Throw (TypeError "Cannot set properties of null or undefined")
  | _ => Throw (TypeError "Cannot create property on a primitive value")
  end.

(** A member that was mutated in place, seen from its container: the
    container with the member at [key] replaced. *)
Definition with_member (obj : value) (key : prop_key) (item : value) : value :=
  match obj with
  | VObj kvs => VObj (set_key (name_of_key key) item kvs)
  | VArr xs =>
      match index_of_key key with
      | Some i => VArr (<[i := item]> xs)
      | None => obj
      end
  | _ => obj
  end.

Record WalkOptions : Type := { buildGraph : bool; descendArray : bool }.

(** A callback [(o, k) => ...] that mutates its container [o]: it yields
    the container afterwards and its return value as a boolean. *)
Definition updater : Type := value -> prop_key -> result (value * bool).

(** [walk(obj, selector, fn, options)] on [names = selector.split(".")];
    the recursive calls get [names.slice(1).join(".")], which splits into
    the rest of the list.  [fn] is the collector [g] of [applyUpdate],
    [(u, k) => b = Boolean(f(u, k)) || b], and [b] is threaded along.
    The object is returned as the walk leaves it. *)
Fixpoint walk_names (obj : value) (names : list string) (fn : updater)
    (options : WalkOptions) (b : bool) {struct names} : result (value * bool) :=
  match names with
  | [] => Ok (obj, b)
  | [key] =>
      if isObject obj || isArray obj && NUMBER_RE key then
        '(obj, r) ← fn obj (KStr key);
        Ok (obj, r || b)
      else Ok (obj, b)
  | key :: (next_key :: _) as next =>
      obj ← (if buildGraph options then
               cur ← member obj (KStr key);
               if isNil cur then assign_member obj (KStr key) (VObj []) else Ok obj
             else Ok obj);
      item ← member obj (KStr key);
      if negb (toBoolean item) then Ok (obj, b)
      else
        let isNextArrayIndex := NUMBER_RE next_key in
        '(item, b) ←
          match item with
          | VArr elems =>
              if descendArray options && negb isNextArrayIndex then
                '(elems, b) ←
                  (fix forEach (elems : list value) (b : bool)
                     : result (list value * bool) :=
                     match elems with
                     | [] => Ok ([], b)
                     | e :: elems' =>
                         '(e, b) ← walk_names e next fn options b;
                         '(elems', b) ← forEach elems' b;
                         Ok (e :: elems', b)
                     end) elems b;
                Ok (VArr elems, b)
              else walk_names item next fn options b
          | _ => walk_names item next fn options b
          end;
        Ok (with_member obj (KStr key) item, b)
  end.

Definition walk (obj : value) (selector : string) (fn : updater) (options : WalkOptions)
    : result (value * bool) :=
  walk_names obj (split_dot selector) fn options false.

(** [cloneDeep(obj)] on a tree: there is no cycle to find. *)
Fixpoint cloneDeep (obj : value) : value :=
  match obj with
  | VArr xs => VArr (map cloneDeep xs)
  | VObj kvs => VObj (map (fun kv => (fst kv, cloneDeep (snd kv))) kvs)
  | _ => obj
  end.

(** [clone(mode, val)] *)
Definition clone (mode : option string) (val : value) : value :=
  match mode with
  | Some mode =>
      if (mode =? "deep")%string then cloneDeep val
      else if (mode =? "copy")%string then
        match val with
        | VDate ms => VDate ms
        | VArr xs => VArr xs
        | VObj kvs => VObj (assign [] kvs)
        | _ => val
        end
      else val
  | None => val
  end.

(** The nodes [tokenizePath] builds: [{selector, parent, child, next}],
    where a selector without array filter has neither child nor next. *)
Inductive path_node : Type :=
| Node (selector parent : string) (child : option string) (next : option path_node).

Definition node_parent (n : path_node) : string :=
  match n with Node _ parent _ _ => parent end.

Definition node_child (n : path_node) : option string :=
  match n with Node _ _ child _ => child end.

Definition nonempty (s : string) : bool := negb (s =? "")%string.

(** [tokenizePath(selector)]: each recursive call is on a proper suffix
    of the selector, so its length is fuel enough. *)
Fixpoint tokenize (fuel : nat) (selector : string) : result (path_node * list string) :=
  if negb (includes selector ".$") then Ok (Node selector selector None None, [])
  else
    match fuel with
    | O => OutOfModel
    | S fuel' =>
        let begin := indexOf selector ".$" in
        let end_ := indexOf selector "]" in
        let parent := substring2 selector 0 begin in
        let child := substring2 selector (begin + 3) end_ in
        _ ← assert ((child =? "")%string || FILTER_IDENT_RE child)
              "The filter <identifier> must begin with a lowercase letter and contain only alphanumeric characters.";
        let rest := substring1 selector (end_ + 2) in
        '(next, elems) ←
          (if nonempty rest then
             '(next, elems) ← tokenize fuel' rest; Ok (Some next, elems)
           else Ok (None, []));
        Ok (Node selector parent (Some (if nonempty child then child else "$")) next,
            List.filter nonempty (child :: elems))
    end.

Definition tokenizePath (selector : string) : result (path_node * list string) :=
  tokenize (String.length selector) selector.

(** The counter [depth] of [resolve] when it returns: zero when the value
    returned is the member of [obj] that the selector leads to, positive
    when it is an array collected from the members of an array. *)
Definition resolve_depth (obj : value) (selector : string) : nat :=
  snd (resolve2 obj (split_dot selector) true 0).

(** The document after the member that [path] leads to was mutated into
    [v]. *)
Fixpoint put_path (o : value) (path : list string) (v : value) : value :=
  match path with
  | [] => v
  | field :: rest => with_member o (KStr field) (put_path (getProp o field) rest v)
  end.

(** [Object.keys(o)] and [Object.entries(o)] *)
Definition Object_entries (o : value) : result (list (string * value)) :=
  match o with
  | VUndefined | VNull => Throw (TypeError "Cannot convert undefined or null to object")
  | VStr _ => OutOfModel
  | _ => Ok (own_props o)
  end.

Definition Object_keys (o : value) : result (list string) :=
  entries ← Object_entries o; Ok (keys entries).

(** ** Arithmetic of the update operators *)

(** [ToNumber] of a primitive as a number value; parsing a string as a
    numeric literal and converting an object are outside the embedding. *)
Definition toNumber (v : value) : result value :=
  match v with
  | VNum n => Ok (VNum n)
  | VNaN | VUndefined => Ok VNaN
  | VNull => Ok (VNum 0)
  | VBool b => Ok (VNum (if b then 1 else 0))
  | _ => OutOfModel
  end.

(** [ToString] of a primitive. *)
Definition toString (v : value) : result string :=
  match v with
  | VStr s => Ok s
  | VArr _ | VObj _ | VDate _ | VFun _ _ => OutOfModel
  | _ => Ok (convert v)
  end.

Definition is_object (v : value) : bool :=
  match v with VArr _ | VObj _ | VDate _ | VFun _ _ => true | _ => false end.

(** [Number.MAX_SAFE_INTEGER] and [Number.MIN_SAFE_INTEGER]. *)
Definition MAX_LONG : Z := 9007199254740991.
Definition MIN_LONG : Z := -9007199254740991.

(** [isLong(a)]: a number between the two; every number of the embedding
    is an integer. *)
Definition isLong (a : value) : bool :=
  match a with
  | VNum n => (MIN_LONG <=? n) && (n <=? MAX_LONG)
  | _ => false
  end.

(** [a + b].  The sum of two numbers is the sum of the integers, which is
    what the addition of doubles gives when the operands and the sum are
    [isLong]; beyond that range a double is rounded. *)
Definition js_add (a b : value) : result value :=
  if is_object a || is_object b then OutOfModel
  else if isString a || isString b then
    x ← toString a; y ← toString b; Ok (VStr (x +:+ y))
  else
    x ← toNumber a; y ← toNumber b;
    match x, y with
    | VNum m, VNum n => Ok (VNum (m + n))
    | _, _ => Ok VNaN
    end.

(** [a * b], exact under the same proviso as [js_add].  A zero product
    has no sign: [===], [toString] and the comparisons of the bundle do
    not tell -0 from 0. *)
Definition js_mul (a b : value) : result value :=
  x ← toNumber a; y ← toNumber b;
  match x, y with
  | VNum m, VNum n => Ok (VNum (m * n))
  | _, _ => Ok VNaN
  end.

(** [ToInt32]: the integer modulo 2^32, in the signed range. *)
Definition wrap32 (n : Z) : Z := (n + 2 ^ 31) mod 2 ^ 32 - 2 ^ 31.

Definition toInt32 (v : value) : result Z :=
  x ← toNumber v;
  match x with
  | VNum n => Ok (wrap32 n)
  | _ => Ok 0
  end.

Definition BIT_OPS : list string := ["and"; "or"; "xor"].

(** The [switch] of [$bit] on [op[0]], which is one of [BIT_OPS] there. *)
Definition bit_op (op : string) (n v : value) : result value :=
  x ← toInt32 n; y ← toInt32 v;
  if (op =? "and")%string then Ok (VNum (Z.land x y))
  else if (op =? "or")%string then Ok (VNum (Z.lor x y))
  else if (op =? "xor")%string then Ok (VNum (Z.lxor x y))
  else OutOfModel.

(** ** Update operators *)

Record UpdateOptions : Type := {
  cloneMode : option string;
  queryOptions : option Options;
}.

Fixpoint lookup_query (c : string) (q : list (string * Query)) : option Query :=
  match q with
  | [] => None
  | (k, query) :: rest => if (k =? c)%string then Some query else lookup_query c rest
  end.

(** The loop of [t.map(callback)]: [count] elements from index [i] on; the
    callback may mutate [t], and yields [t] afterwards with its return
    value. *)
Fixpoint map_items (callback : value -> nat -> value -> result (value * bool))
    (count i : nat) (t : value) : result (value * list bool) :=
  match count with
  | O => Ok (t, [])
  | S count' =>
      e ← member t (KIdx i);
      '(t, r) ← callback e i t;
      '(t, rs) ← map_items callback count' (S i) t;
      Ok (t, r :: rs)
  end.

(** [applyUpdate(o, n, q, f, opts)], yielding [o] afterwards and the
    boolean returned.  When [resolve] returns an array it collected
    itself, the updates go to that array and, through its elements, to
    parts of the document: this leaves the tree model. *)
Fixpoint applyUpdate (o : value) (n : path_node) (q : list (string * Query))
    (f : updater) (opts : WalkOptions) {struct n} : result (value * bool) :=
  match n with
  | Node _ parent None _ => walk o parent f opts
  | Node _ parent (Some c) next =>
      match resolve o parent false with
      | VArr elems =>
          if (0 <? resolve_depth o parent)%nat then OutOfModel
          else
            '(t, rs) ←
              map_items
                (fun e i t =>
                   excluded ←
                     match lookup_query c q with
                     | Some query => b ← test query (VObj [(c, e)]); Ok (negb b)
                     | None => Ok false
                     end;
                   if excluded : bool then Ok (t, false)
                   else
                     match next with
                     | Some next =>
                         '(e, r) ← applyUpdate e next q f opts;
                         Ok (with_member t (KIdx i) e, r)
                     | None => f t (KIdx i)
                     end)
                (length elems) 0 (VArr elems);
            Ok (put_path o (split_dot parent) t, existsb id rs)
      | _ => Ok (o, false)
      end
  end.

(** [conditions[w] = conditions[w] || {}; Object.assign(conditions[w], {[k]: v})] *)
Definition add_condition (conditions : list (string * value)) (w k : string) (v : value)
    : list (string * value) :=
  let current :=
    match lookup_key w conditions with
    | Some c => if toBoolean c then c else VObj []
    | None => VObj []
    end in
  set_key w (VObj (assign (own_props current) [(k, v)])) conditions.

(** The three nested [forEach] of [walkExpression]. *)
Fixpoint extract_conditions (arrayFilter : list value) (vars : list string)
    (conditions : list (string * value)) : result (list (string * value)) :=
  match arrayFilter with
  | [] => Ok conditions
  | o :: arrayFilter' =>
      ks ← Object_keys o;
      extract_conditions arrayFilter' vars
        (fold_left
           (fun conditions k =>
              fold_left
                (fun conditions w =>
                   if (k =? w)%string || startsWith k (w +:+ ".")
                   then add_condition conditions w k (getProp o k)
                   else conditions)
                vars conditions)
           ks conditions)
  end.

Section Update.
Variable GLOBAL_CONTEXT : Context.
Variable Date_now : Z.
Variable apply_operator : fnid -> value -> value -> ComputeOptions -> result value.
Variable JSON_stringify : value -> result string.
Variable call_method : fnid -> value -> result value.
Variable user_query_operator : nat -> string -> value -> Options -> result predicate.

(** [walkExpression(expr, arrayFilter, options, callback)].  The
    callback closes over the object under update: here it is given the
    object and yields it afterwards. *)
Definition walkExpression (expr : value) (arrayFilter : list value)
    (options : UpdateOptions)
    (callback : value -> path_node -> list (string * Query) -> value ->
                result (value * bool))
    (obj : value) : result (value * list string) :=
  entries ← Object_entries expr;
  (fix loop (entries : list (string * value)) (obj : value) (res : list string)
     : result (value * list string) :=
     match entries with
     | [] => Ok (obj, res)
     | (selector, val) :: entries' =>
         '(node, vars) ← tokenizePath selector;
         queries ←
           (if (length vars =? 0)%nat then Ok []
            else
              conditions ← extract_conditions arrayFilter vars [];
              mapM (fun kc : string * value =>
                      q ← new_Query GLOBAL_CONTEXT Date_now apply_operator JSON_stringify
                            call_method user_query_operator
                            (snd kc) (queryOptions options);
                      Ok (fst kc, q))
                   conditions);
         '(obj, changed) ← callback val node queries obj;
         loop entries' obj (if changed : bool then res ++ [node_parent node] else res)
     end) entries obj [].

Definition build_graph : WalkOptions := {| buildGraph := true; descendArray := false |}.

(** [$set(obj, expr, arrayFilters, options)]: the object afterwards and
    the list returned. *)
Definition update_set (obj expr : value) (arrayFilters : list value)
    (options : UpdateOptions) : result (value * list string) :=
  walkExpression expr arrayFilters options
    (fun val node queries obj =>
       applyUpdate obj node queries
         (fun o k =>
            cur ← member o k;
            if isEqual cur val then Ok (o, false)
            else
              o ← assign_member o k (clone (cloneMode options) val);
              Ok (o, true))
         build_graph)
    obj.

(** [$inc(obj, expr, arrayFilters, options)] *)
Definition update_inc (obj expr : value) (arrayFilters : list value)
    (options : UpdateOptions) : result (value * list string) :=
  walkExpression expr arrayFilters options
    (fun val node queries obj =>
       _ ← match node_child node with
           | None =>
               let n := resolve obj (node_parent node) false in
               assert (isUndefined n || isNumber n)
                 "cannot apply $inc to a value of non-numeric type"
           | Some _ => Ok tt
           end;
       applyUpdate obj node queries
         (fun o k =>
            cur ← member o k;
            '(o, lhs) ←
              (if toBoolean cur then Ok (o, cur)
               else o ← assign_member o k (VNum 0); Ok (o, VNum 0));
            sum ← js_add lhs val;
            o ← assign_member o k sum;
            Ok (o, true))
         build_graph)
    obj.

(** [$mul(obj, expr, arrayFilters, options)] *)
Definition update_mul (obj expr : value) (arrayFilters : list value)
    (options : UpdateOptions) : result (value * list string) :=
  walkExpression expr arrayFilters options
    (fun val node queries obj =>
       applyUpdate obj node queries
         (fun o k =>
            prev ← member o k;
            product ← (if isUndefined prev then Ok (VNum 0) else js_mul prev val);
            o ← assign_member o k product;
            Ok (o, negb (strictEq product prev)))
         build_graph)
    obj.

(** [$bit(obj, expr, arrayFilters, options)] *)
Definition update_bit (obj expr : value) (arrayFilters : list value)
    (options : UpdateOptions) : result (value * list string) :=
  walkExpression expr arrayFilters options
    (fun val node queries obj =>
       op ← Object_keys val;
       let op0 := hd "undefined" op in
       _ ← assert ((length op =? 1)%nat && in_strings op0 BIT_OPS)
             ("Invalid bit operator '" +:+ op0 +:+
              "'. Must be one of 'and', 'or', or 'xor'.");
       applyUpdate obj node queries
         (fun o k =>
            n ← member o k;
            let v := getProp val op0 in
            if negb (isUndefined n) && negb (isNumber n && isNumber v) then Ok (o, false)
            else
              let n := if toBoolean n then n else VNum 0 in
              r ← bit_op op0 n v;
              o ← assign_member o k r;
              Ok (o, negb (strictEq r n)))
         build_graph)
    obj.
End Update.

(** ** Vocabulary of the update claims *)

(** Whether the property reads along [names] find own properties only.
    A name that a mapping on the way lacks is not [inherited]; where the
    member is missing, null or undefined, so that [walk] with [buildGraph]
    puts an empty mapping there, no name after it is inherited either. *)
Definition own_names_below (names : list string) : bool :=
  forallb (fun k => negb (inherited k)) names.

Fixpoint own_names (o : value) (names : list string) {struct names} : bool :=
  match names with
  | [] => true
  | k :: rest =>
      match o with
      | VObj kvs =>
          match lookup_key k kvs with
          | Some v => if isNil v then own_names_below rest else own_names v rest
          | None => own_names_below names
          end
      | VArr xs =>
          match array_index k with
          | Some i =>
              if (i <? length xs)%nat then
                let v := nth i xs VUndefined in
                if isNil v then own_names_below rest else own_names v rest
              else own_names_below rest
          | None => false
          end
      | _ => false
      end
  end.

(** The paths along which [walk], building the graph, gets to a field:
    every name but the last is a member of a mapping, or an element of a
    sequence at an index up to its length, that is a mapping or a
    sequence itself, or is missing, null or undefined, in which case an
    empty mapping is put there; the last name is a key of a mapping or
    an index of a sequence up to its length. *)
Fixpoint settable (o : value) (names : list string) {struct names} : bool :=
  match names with
  | [] => false
  | [k] =>
      match o with
      | VObj _ => true
      | VArr xs =>
          match array_index k with
          | Some i => (i <=? length xs)%nat
          | None => false
          end
      | _ => false
      end
  | k :: rest =>
      match o with
      | VObj kvs =>
          match lookup_key k kvs with
          | Some item => if isNil item then settable (VObj []) rest else settable item rest
          | None => settable (VObj []) rest
          end
      | VArr xs =>
          match array_index k with
          | Some i =>
              if (i <? length xs)%nat then
                let item := nth i xs VUndefined in
                if isNil item then settable (VObj []) rest else settable item rest
              else if (i =? length xs)%nat then settable (VObj []) rest
              else false
          | None => false
          end
      | _ => false
      end
  end.

(** The value of the field at the end of such a path: undefined where a
    member on the way is missing, null or undefined. *)
Fixpoint field_value (o : value) (names : list string) {struct names} : value :=
  match names with
  | [] => o
  | [k] => getProp o k
  | k :: rest =>
      let item := getProp o k in
      if isNil item then VUndefined else field_value item rest
  end.

(** [o[k] = v] on a mapping, or on a sequence at an index up to its
    length. *)
Definition put_member (o : value) (k : string) (v : value) : value :=
  match o with
  | VObj kvs => VObj (define_key k v kvs)
  | VArr xs =>
      match array_index k with
      | Some i => if (i <? length xs)%nat then VArr (<[i := v]> xs) else VArr (xs ++ [v])
      | None => o
      end
  | _ => o
  end.

(** The document after [walk] went along such a path: the members that
    were missing on the way are there, as mappings, and the field holds
    [v], or is as it was when there is no [v]. *)
Fixpoint put_field (o : value) (names : list string) (v : option value)
    {struct names} : value :=
  match names with
  | [] => o
  | [k] => match v with Some v => put_member o k v | None => o end
  | k :: rest =>
      let item := getProp o k in
      put_member o k (put_field (if isNil item then VObj [] else item) rest v)
  end.

(** The field that a list of names leads to through mappings: every name
    but the last is a member that is a mapping; the last one names the
    field, whose value is undefined when the mapping has no such member. *)
Fixpoint field_at (o : value) (names : list string) {struct names} : option value :=
  match o, names with
  | VObj kvs, [k] => Some (getProp o k)
  | VObj kvs, k :: rest =>
      match lookup_key k kvs with
      | Some (VObj kvs') => field_at (VObj kvs') rest
      | _ => None
      end
  | _, _ => None
  end.

(** The document with that field assigned. *)
Fixpoint set_field (o : value) (names : list string) (v : value) {struct names} : value :=
  match o, names with
  | VObj kvs, [k] => VObj (define_key k v kvs)
  | VObj kvs, k :: rest => VObj (set_key k (set_field (getProp o k) rest v) kvs)
  | _, _ => o
  end.

(** An element of [items] whose [qty] is a number above 5, and the
    element after its [qty] went up by [c]. *)
Definition qty_above_5 (e : value) : bool :=
  match e with
  | VObj kvs =>
      match lookup_key "qty" kvs with
      | Some (VNum n) => 5 <? n
      | _ => false
      end
  | _ => false
  end.

Definition inc_qty (c : Z) (e : value) : value :=
  match e with
  | VObj kvs =>
      match lookup_key "qty" kvs with
      | Some (VNum n) => if 5 <? n then VObj (set_key "qty" (VNum (n + c)) kvs) else e
      | _ => e
      end
  | _ => e
  end.

(** The elements whose [qty], when a number, is within [MIN_LONG] and
    [MAX_LONG], as is its sum with [c] when it is above 5: the range in
    which the addition of doubles is exact. *)
Definition qty_exact (c : Z) (e : value) : bool :=
  match e with
  | VObj kvs =>
      match lookup_key "qty" kvs with
      | Some (VNum n) => isLong (VNum n) && (negb (5 <? n) || isLong (VNum (n + c)))
      | _ => true
      end
  | _ => true
  end.

(** The elements on which the filter [{"x.qty": {$gt: 5}}] is decided by
    one comparison: anything but an array, with a [qty] that is not an
    array. *)
Definition plain_item (e : value) : bool :=
  match e with
  | VArr _ => false
  | VObj kvs =>
      match lookup_key "qty" kvs with
      | Some (VArr _) => false
      | _ => true
      end
  | _ => true
  end.

Definition qty_filter : value := VObj [("x.qty", VObj [("$gt", VNum 5)])].

Definition example_update_options : UpdateOptions :=
  {| cloneMode := Some "copy"; queryOptions := None |}.

Definition example_items : value :=
  VObj [("items",
         VArr [VObj [("qty", VNum 10)]; VObj [("qty", VNum 3)];
               VObj [("name", VStr "c")]; VStr "d"; VObj [("qty", VNum 6)]])].

(** A name without a dot, as [split(".")] yields them. *)
Definition no_dot (s : string) : bool :=
  all_chars (fun c => negb (Ascii.eqb c ".")) s.

(** ** Vocabulary of further properties *)

(** [Math.max(1, selector.split(".").length - 1)], the depth that
    [createQueryOperator] hands to its predicate. *)
Definition selector_depth (selector : string) : Z :=
  Z.max 1 (Z.of_nat (length (split_dot selector)) - 1).

(** An entry [field: value] of a condition that [Query.compile] turns
    into one equality test: the field is not the name of an operator, and
    the value is not a mapping with an operator among its keys. *)
Definition equality_entry (kv : string * value) : bool :=
  negb (isOperator (fst kv)) &&
  match snd kv with
  | VObj kvs => negb (existsb isOperator (keys kvs))
  | _ => true
  end.

(** The comparison operators of a condition, each with the comparison of
    integers it stands for. *)
Definition comparison_table : list (string * (Z -> Z -> bool)) :=
  [("$eq", Z.eqb); ("$ne", fun n m => negb (n =? m));
   ("$lt", Z.ltb); ("$lte", Z.leb); ("$gt", Z.gtb); ("$gte", Z.geb)].

(** ** More of the update engine *)

(** [has(o, k)] and [delete o[k]] for a key as the update callbacks have
    it. *)
Definition has_member (o : value) (k : prop_key) : bool :=
  match k, o with
  | KIdx i, VArr xs => (i <? length xs)%nat
  | _, _ => has o (name_of_key k)
  end.

Definition delete_member (o : value) (k : prop_key) : value :=
  match o with
  | VObj kvs => VObj (delete_key (name_of_key k) kvs)
  | _ => o
  end.

(** The walk options of a call that passes none. *)
Definition no_walk_options : WalkOptions := {| buildGraph := false; descendArray := false |}.

Definition node_selector (n : path_node) : string :=
  match n with Node selector _ _ _ => selector end.

(** [setValue(obj, selector, value)] for a value that is not a function
    (a function is called on the old value to give the new one): the
    object afterwards. *)
Definition setValue (obj : value) (selector : string) (val : value) : result value :=
  match val with
  | VFun _ _ => OutOfModel
  | _ =>
      '(obj, _) ← walk obj selector
                    (fun item key => item ← assign_member item key val; Ok (item, true))
                    {| buildGraph := true; descendArray := false |};
      Ok obj
  end.

(** [item.splice(i, 1)] *)
Definition splice_one (i : nat) (xs : list value) : list value :=
  take i xs ++ drop (S i) xs.

(** [removeValue(obj, selector, options)]: the object afterwards. *)
Definition removeValue (obj : value) (selector : string) (options : option WalkOptions)
    : result value :=
  '(obj, _) ←
    walk obj selector
      (fun item key =>
         match item with
         | VArr xs =>
             if NUMBER_RE (name_of_key key)
             then Ok (VArr (splice_one (N.to_nat (parse_digits 0 (name_of_key key))) xs),
                      true)
             else if default false (descendArray <$> options)
             then Ok (VArr (map (fun elem => if isObject elem
                                             then delete_member elem key else elem) xs),
                      true)
             else Ok (item, true)
         | VObj _ => Ok (delete_member item key, true)
         | _ => Ok (item, true)
         end)
      (default no_walk_options options);
  Ok obj.

Section MoreUpdate.
Variable GLOBAL_CONTEXT : Context.
Variable Date_now : Z.
Variable apply_operator : fnid -> value -> value -> ComputeOptions -> result value.
Variable JSON_stringify : value -> result string.
Variable call_method : fnid -> value -> result value.
Variable user_query_operator : nat -> string -> value -> Options -> result predicate.

Local Abbreviation walkExpression_u :=
  (walkExpression GLOBAL_CONTEXT Date_now apply_operator JSON_stringify call_method
     user_query_operator).

(** [$unset(obj, expr, arrayFilters, options)] *)
Definition update_unset (obj expr : value) (arrayFilters : list value)
    (options : UpdateOptions) : result (value * list string) :=
  walkExpression_u expr arrayFilters options
    (fun _ node queries obj =>
       applyUpdate obj node queries
         (fun o k =>
            if negb (has_member o k) then Ok (o, false)
            else if isArray o then o ← assign_member o k VNull; Ok (o, true)
            else Ok (delete_member o k, true))
         no_walk_options)
    obj.

(** [$max] and [$min]: [keeps c] is the test on [compare$1(o[k], val)]
    under which the field stays as it is. *)
Definition update_extremum (keeps : Z -> bool) (obj expr : value)
    (arrayFilters : list value) (options : UpdateOptions)
    : result (value * list string) :=
  walkExpression_u expr arrayFilters options
    (fun val node queries obj =>
       applyUpdate obj node queries
         (fun o k =>
            cur ← member o k;
            stays ← (if negb (isUndefined cur)
                     then c ← compare_1 cur val; Ok (keeps c)
                     else Ok false);
            if stays : bool then Ok (o, false)
            else o ← assign_member o k val; Ok (o, true))
         build_graph)
    obj.

Definition update_max := update_extremum (fun c => -1 <? c).
Definition update_min := update_extremum (fun c => c <? 1).

(** [$currentDate(obj, expr, arrayFilters, options)]: the field gets the
    number [Date.now()] returned. *)
Definition update_currentDate (obj expr : value) (arrayFilters : list value)
    (options : UpdateOptions) : result (value * list string) :=
  let now := Date_now in
  walkExpression_u expr arrayFilters options
    (fun _ node queries obj =>
       applyUpdate obj node queries
         (fun o k => o ← assign_member o k (VNum now); Ok (o, true))
         build_graph)
    obj.

(** [$pop(obj, expr, arrayFilters, options)]: the array is changed in
    place. *)
Definition update_pop (obj expr : value) (arrayFilters : list value)
    (options : UpdateOptions) : result (value * list string) :=
  walkExpression_u expr arrayFilters options
    (fun val node queries obj =>
       applyUpdate obj node queries
         (fun o k =>
            arr ← member o k;
            _ ← assert (isArray arr)
                  ("path '" +:+ node_selector node +:+
                   "' contains an element of non-array type.");
            match arr with
            | VArr [] => Ok (o, false)
            | VArr (x :: xs) =>
                let arr' := if strictEq val (VNum (-1)) then xs
                            else removelast (x :: xs) in
                Ok (with_member o k (VArr arr'), true)
            | _ => Ok (o, false)
            end)
         no_walk_options)
    obj.

Definition UPDATE_OPERATORS : list string :=
  ["$addToSet"; "$bit"; "$currentDate"; "$inc"; "$max"; "$min"; "$mul"; "$pop";
   "$pull"; "$pullAll"; "$push"; "$rename"; "$set"; "$unset"].

(** [UPDATE_OPERATORS[op](obj, args, arrayFilters, opts)], for the
    operators that are embedded. *)
Definition mutate (op : string) (obj args : value) (arrayFilters : list value)
    (opts : UpdateOptions) : result (value * list string) :=
  if (op =? "$bit")%string
  then update_bit GLOBAL_CONTEXT Date_now apply_operator JSON_stringify call_method
         user_query_operator obj args arrayFilters opts
  else if (op =? "$currentDate")%string then update_currentDate obj args arrayFilters opts
  else if (op =? "$inc")%string
  then update_inc GLOBAL_CONTEXT Date_now apply_operator JSON_stringify call_method
         user_query_operator obj args arrayFilters opts
  else if (op =? "$max")%string then update_max obj args arrayFilters opts
  else if (op =? "$min")%string then update_min obj args arrayFilters opts
  else if (op =? "$mul")%string
  then update_mul GLOBAL_CONTEXT Date_now apply_operator JSON_stringify call_method
         user_query_operator obj args arrayFilters opts
  else if (op =? "$pop")%string then update_pop obj args arrayFilters opts
  else if (op =? "$set")%string
  then update_set GLOBAL_CONTEXT Date_now apply_operator JSON_stringify call_method
         user_query_operator obj args arrayFilters opts
  else if (op =? "$unset")%string then update_unset obj args arrayFilters opts
  else OutOfModel.

(** [Object.assign({useStrictMode: false}, queryOptions)] *)
Definition lenient (queryOptions : option Options) : Options :=
  let o := default no_options queryOptions in
  {| idKey := idKey o; scriptEnabled := scriptEnabled o;
     useStrictMode := Some (default false (useStrictMode o));
     useGlobalContext := useGlobalContext o; context := context o;
     variables := variables o |}.

(** [createUpdater(defaultOptions)(obj, expr, arrayFilters, conditions,
    options)]: the object afterwards and the list returned.  A missing
    [conditions] is the empty mapping. *)
Definition createUpdater (defaultOptions : UpdateOptions) (obj expr : value)
    (arrayFilters : list value) (conditions : value) (options : UpdateOptions)
    : result (value * list string) :=
  let opts :=
    {| cloneMode :=
         match cloneMode options, cloneMode defaultOptions with
         | Some mode, _ => Some mode
         | None, Some mode => Some mode
         | None, None => Some "copy"
         end;
       queryOptions :=
         Some (initOptions
                 (Some (lenient (match queryOptions options with
                                 | Some q => Some q
                                 | None => queryOptions defaultOptions
                                 end)))) |} in
  let conditions := if toBoolean conditions then conditions else VObj [] in
  entry ← Object_entries expr;
  _ ← assert (length entry =? 1)%nat "Update expression must contain only one operator.";
  match entry with
  | (op, args) :: _ =>
      _ ← assert (in_strings op UPDATE_OPERATORS)
            ("Update operator '" +:+ op +:+ "' is not supported.");
      ks ← Object_keys conditions;
      matched ←
        (if (0 <? length ks)%nat then
           q ← new_Query GLOBAL_CONTEXT Date_now apply_operator JSON_stringify
                 call_method user_query_operator conditions (queryOptions opts);
           test q obj
         else Ok true);
      if matched : bool then mutate op obj args arrayFilters opts
      else Ok (obj, [])
  | [] => OutOfModel
  end.

Definition no_update_options : UpdateOptions := {| cloneMode := None; queryOptions := None |}.

(** [updateObject = createUpdater({})] *)
Definition updateObject := createUpdater no_update_options.

(** [updateDocument(data, updateCmd)] of the facade. *)
Definition updateDocument (data updateCmd : value) : result (value * list string) :=
  updateObject data updateCmd [] (VObj []) no_update_options.
End MoreUpdate.

(** Whether the mapping that a list of names leads to has the last name
    as a key, and the document without that key. *)
Fixpoint field_present (o : value) (names : list string) {struct names} : bool :=
  match o, names with
  | VObj kvs, [k] => has o k
  | VObj kvs, k :: rest =>
      match lookup_key k kvs with
      | Some (VObj kvs') => field_present (VObj kvs') rest
      | _ => false
      end
  | _, _ => false
  end.

Fixpoint remove_field (o : value) (names : list string) {struct names} : value :=
  match o, names with
  | VObj kvs, [k] => VObj (delete_key k kvs)
  | VObj kvs, k :: rest => VObj (set_key k (remove_field (getProp o k) rest) kvs)
  | _, _ => o
  end.

(** A path along which [walk] can build the graph: every name but the
    last is a member that is a mapping, or is null, undefined or absent,
    in which case the rest of the path is built from empty mappings. *)
Fixpoint buildable (o : value) (names : list string) {struct names} : bool :=
  match o, names with
  | VObj kvs, [k] => true
  | VObj kvs, k :: rest =>
      match lookup_key k kvs with
      | None | Some VUndefined | Some VNull => buildable (VObj []) rest
      | Some (VObj kvs') => buildable (VObj kvs') rest
      | _ => false
      end
  | _, _ => false
  end.

(** The document with the field at the end of such a path assigned. *)
Fixpoint build_field (o : value) (names : list string) (v : value) {struct names}
    : value :=
  match o, names with
  | VObj kvs, [k] => VObj (define_key k v kvs)
  | VObj kvs, k :: rest =>
      match lookup_key k kvs with
      | Some (VObj kvs') => VObj (set_key k (build_field (VObj kvs') rest v) kvs)
      | _ => VObj (define_key k (build_field (VObj []) rest v) kvs)
      end
  | _, _ => o
  end.

(** ** Lazy iterators *)

(** An entry of [iteratees]: [{action, func}] or [{action, count}].  A
    function is called with the value and its index in the source; the
    function of a FILTER is read by the truthiness of what it returns. *)
Inductive iteratee : Type :=
| MAP (func : value -> Z -> result value)
| FILTER (func : value -> Z -> result bool)
| TAKE (count : Z)
| DROP (count : Z).

(** How one turn of the loop [outer] ends: at its end, with the value [o]
    and the flag [innerDone], or at a [continue outer]. *)
Inductive turn : Type :=
| Yielded (o : value) (innerDone : bool)
| Continued.

(** The loop [while (++i < size)] over the iteratees, which decrements
    the counts in place and takes a DROP whose count reaches zero out of
    the list ([dropItem]).  It yields the iteratees afterwards. *)
Fixpoint run_iteratees (iteratees : list iteratee) (o : value) (index : Z)
    (innerDone : bool) : result (list iteratee * turn) :=
  match iteratees with
  | [] => Ok ([], Yielded o innerDone)
  | MAP func :: rest =>
      o ← func o index;
      '(rest, t) ← run_iteratees rest o index innerDone;
      Ok (MAP func :: rest, t)
  | FILTER func :: rest =>
      b ← func o index;
      if b : bool then
        '(rest, t) ← run_iteratees rest o index innerDone;
        Ok (FILTER func :: rest, t)
      else Ok (iteratees, Continued)
  | TAKE count :: rest =>
      let count := count - 1 in
      '(rest, t) ← run_iteratees rest o index (if count =? 0 then true else innerDone);
      Ok (TAKE count :: rest, t)
  | DROP count :: rest =>
      let count := count - 1 in
      Ok (if count =? 0 then rest else DROP count :: rest, Continued)
  end.

(** An [Iterator]: the state of the closure that yields the next value of
    the source, the iteratees, the variables [done] and [index] of the
    closure [createCallback] returns, and the fields [yieldedValues] and
    [isDone].  The buffer is written by that closure only, at
    [bufferIndex], which is therefore its length. *)
Record Iterator (Src : Type) : Type := {
  source : Src;
  iteratees : list iteratee;
  closure_done : bool;
  closure_index : Z;
  yieldedValues : list value;
  isDone : bool;
}.
Arguments source {Src} _.
Arguments iteratees {Src} _.
Arguments closure_done {Src} _.
Arguments closure_index {Src} _.
Arguments yieldedValues {Src} _.
Arguments isDone {Src} _.

Section CreateCallback.
Context {Src : Type}.

(** [nextFn()]: the next value of the source, or [None] where it throws
    [DONE]. *)
Variable nextFn : Src -> result (option value * Src).

(** The function [createCallback(nextFn, iteratees, buffer)] returns,
    called with [storeResult]: the result [{value, done: false}] is
    [Some value] and [{done: true}] is [None].  Every turn of the loop
    calls [nextFn] once, and [fuel] bounds the turns.  An exception other
    than [DONE] ends the call; the iterator is not used after it. *)
Fixpoint createCallback (fuel : nat) (storeResult : bool) (it : Iterator Src)
    : result (option value * Iterator Src) :=
  if closure_done it then Ok (None, it)
  else
    match fuel with
    | O => OutOfModel
    | S fuel' =>
        '(o, src) ← nextFn (source it);
        match o with
        | None =>
            Ok (None,
                {| source := src; iteratees := iteratees it; closure_done := true;
                   closure_index := closure_index it;
                   yieldedValues := yieldedValues it; isDone := isDone it |})
        | Some o =>
            let index := closure_index it + 1 in
            '(iteratees, t) ← run_iteratees (iteratees it) o index false;
            match t with
            | Continued =>
                createCallback fuel' storeResult
                  {| source := src; iteratees := iteratees; closure_done := false;
                     closure_index := index;
                     yieldedValues := yieldedValues it; isDone := isDone it |}
            | Yielded o innerDone =>
                if storeResult then
                  createCallback fuel' storeResult
                    {| source := src; iteratees := iteratees; closure_done := innerDone;
                       closure_index := index;
                       yieldedValues := yieldedValues it ++ [o]; isDone := isDone it |}
                else
                  Ok (Some o,
                      {| source := src; iteratees := iteratees; closure_done := innerDone;
                         closure_index := index;
                         yieldedValues := yieldedValues it; isDone := isDone it |})
            end
        end
    end.

(** [value()] *)
Definition Iterator_value (fuel : nat) (it : Iterator Src)
    : result (list value * Iterator Src) :=
  if isDone it then Ok (yieldedValues it, it)
  else
    '(o, it) ← createCallback fuel true it;
    Ok (yieldedValues it,
        {| source := source it; iteratees := iteratees it;
           closure_done := closure_done it; closure_index := closure_index it;
           yieldedValues := yieldedValues it;
           isDone := match o with None => true | Some _ => false end |}).
End CreateCallback.

(** [new Iterator(source)] around the state of a source. *)
Definition new_Iterator {Src : Type} (source : Src) : Iterator Src :=
  {| source := source; iteratees := []; closure_done := false; closure_index := -1;
     yieldedValues := []; isDone := false |}.

(** The methods that add an iteratee.  [take(n)] and [drop(n)] add one
    for a number above zero only: [push] adds nothing for a count that is
    not a number, and for a number that is not above zero they return the
    iterator as it is. *)
Module IteratorOps.
Definition push {Src : Type} (it : Iterator Src) (r : iteratee) : Iterator Src :=
  {| source := source it; iteratees := iteratees it ++ [r];
     closure_done := closure_done it; closure_index := closure_index it;
     yieldedValues := yieldedValues it; isDone := isDone it |}.

Definition map {Src : Type} (it : Iterator Src) (f : value -> Z -> result value)
    : Iterator Src := push it (MAP f).

Definition filter {Src : Type} (it : Iterator Src) (predicate : value -> Z -> result bool)
    : Iterator Src := push it (FILTER predicate).

Definition take {Src : Type} (it : Iterator Src) (n : value) : Iterator Src :=
  match n with
  | VNum n => if 0 <? n then push it (TAKE n) else it
  | _ => it
  end.

Definition drop {Src : Type} (it : Iterator Src) (n : value) : Iterator Src :=
  match n with
  | VNum n => if 0 <? n then push it (DROP n) else it
  | _ => it
  end.
End IteratorOps.

(** The source of an iterator over an array: [data], [size] and [index]
    of the closure [nextVal]. *)
Record ArraySource : Type := { src_data : list value; src_size : nat; src_index : nat }.

Definition array_nextVal (s : ArraySource) : result (option value * ArraySource) :=
  if (src_index s <? src_size s)%nat then
    Ok (Some (nth (src_index s) (src_data s) VUndefined),
        {| src_data := src_data s; src_size := src_size s; src_index := S (src_index s) |})
  else Ok (None, s).

Definition Lazy_array (data : list value) : Iterator ArraySource :=
  new_Iterator {| src_data := data; src_size := length data; src_index := 0 |}.

(** [next()] of an iterator over an array: each turn of the loop takes
    one element, so the elements left bound the turns. *)
Definition array_next (it : Iterator ArraySource)
    : result (option value * Iterator ArraySource) :=
  createCallback array_nextVal (S (src_size (source it) - src_index (source it))) false it.

(** [Lazy(source)] for a value: an array gives an iterator over it; a
    function and an object with a method [next] give an iterator that
    calls them, which is not embedded; anything else is refused. *)
Definition Lazy (source : value) : result (Iterator ArraySource) :=
  match source with
  | VArr data => Ok (Lazy_array data)
  | VFun _ _ => OutOfModel
  | _ =>
      if isFunction (getProp source "next") then OutOfModel
      else Throw (Error "Lazy must be initialized with an array, generator, or function.")
  end.

(** [compose(...iterators)]: the source of the iterator it returns is the
    closure over [iterators] and [index].  [steps] counts the iterators
    from [index] on. *)
Record ComposeSource : Type := {
  iterators : list (Iterator ArraySource);
  compose_index : nat;
}.

Fixpoint compose_loop (steps : nat) (s : ComposeSource)
    : result (option value * ComposeSource) :=
  match steps with
  | O => Ok (None, s)
  | S steps' =>
      match iterators s !! compose_index s with
      | None => Ok (None, s)
      | Some it =>
          '(o, it) ← array_next it;
          let iterators := <[compose_index s := it]> (iterators s) in
          match o with
          | Some v => Ok (Some v, {| iterators := iterators; compose_index := compose_index s |})
          | None =>
              compose_loop steps'
                {| iterators := iterators; compose_index := S (compose_index s) |}
          end
      end
  end.

Definition compose_nextVal (s : ComposeSource) : result (option value * ComposeSource) :=
  compose_loop (length (iterators s) - compose_index s) s.

Definition compose (iterators : list (Iterator ArraySource)) : Iterator ComposeSource :=
  new_Iterator {| iterators := iterators; compose_index := 0 |}.

(** The elements the arrays under a composed iterator have left. *)
Definition elements_left (s : ComposeSource) : nat :=
  foldr (fun it n => (src_size (source it) - src_index (source it) + n)%nat) 0%nat
    (iterators s).

(** [value()] of a composed iterator: each turn of the loop takes an
    element of one of the arrays. *)
Definition compose_value (it : Iterator ComposeSource)
    : result (list value * Iterator ComposeSource) :=
  Iterator_value compose_nextVal (S (elements_left (source it))) it.

(** ** The pipeline of a cursor *)

Section Cursor.
Variable GLOBAL_CONTEXT : Context.
Variable Date_now : Z.
Variable apply_operator : fnid -> value -> value -> ComputeOptions -> result value.
Variable JSON_stringify : value -> result string.
Variable call_method : fnid -> value -> result value.
Variable user_query_operator : nat -> string -> value -> Options -> result predicate.

(** [call(iterator, operator[opName], this.options)] for the value [call]
    found in the registry.  Of the pipeline operators of the bundle
    [$limit], [$skip] and [$project] with an empty expression are
    embedded. *)
Definition call_pipeline_operator (call : value) (collection : Iterator ArraySource)
    (expr : value) (options : Options) : result (Iterator ArraySource) :=
  match call with
  | VFun (Bundle name) _ =>
      if (name =? "$project")%string
      then if isEmpty expr then Ok collection else OutOfModel
      else if (name =? "$limit")%string then Ok (IteratorOps.take collection expr)
      else if (name =? "$skip")%string then Ok (IteratorOps.drop collection expr)
      else OutOfModel
  | VFun (User _) _ => OutOfModel
  | _ => Throw (TypeError "call is not a function")
  end.

(** [new Aggregator(pipeline, options).stream(collection)] for an
    iterator [collection].  The options of the embedding carry no
    [processingMode], so the mode is [CLONE_OFF] and nothing is cloned. *)
Fixpoint stream_loop (pipeline : list value) (options : Options)
    (iterator : Iterator ArraySource) : result (Iterator ArraySource) :=
  match pipeline with
  | [] => Ok iterator
  | operator :: pipeline' =>
      operatorKeys ← Object_keys operator;
      let opName := hd "undefined" operatorKeys in
      let call := getOperator GLOBAL_CONTEXT PIPELINE opName
                    (context options) (flag (useGlobalContext options)) in
      _ ← assert ((length operatorKeys =? 1)%nat && toBoolean call)
            ("invalid pipeline operator " +:+ opName);
      iterator ← call_pipeline_operator call iterator (getProp operator opName) options;
      stream_loop pipeline' options iterator
  end.

Definition Aggregator_stream (pipeline : list value) (options : Options)
    (collection : Iterator ArraySource) : result (Iterator ArraySource) :=
  stream_loop pipeline (initOptions (Some options)) collection.

(** ** Cursors *)

(** A [Cursor].  [cursor_result] is the iterator [fetch] made, which the
    cursor shares with the iterators composed over it: what they take
    from it is taken from the cursor. *)
Record Cursor : Type := {
  cursor_source : value;
  cursor_predicate : predicate;
  cursor_projection : value;
  cursor_options : Options;
  cursor_operators : list value;
  cursor_result : option (Iterator ArraySource);
  cursor_buffer : list value;
}.

Definition with_result (c : Cursor) (it : Iterator ArraySource) : Cursor :=
  {| cursor_source := cursor_source c; cursor_predicate := cursor_predicate c;
     cursor_projection := cursor_projection c; cursor_options := cursor_options c;
     cursor_operators := cursor_operators c; cursor_result := Some it;
     cursor_buffer := cursor_buffer c |}.

Definition with_buffer (c : Cursor) (buffer : list value) : Cursor :=
  {| cursor_source := cursor_source c; cursor_predicate := cursor_predicate c;
     cursor_projection := cursor_projection c; cursor_options := cursor_options c;
     cursor_operators := cursor_operators c; cursor_result := cursor_result c;
     cursor_buffer := buffer |}.

Definition with_operator (c : Cursor) (operator : value) : Cursor :=
  {| cursor_source := cursor_source c; cursor_predicate := cursor_predicate c;
     cursor_projection := cursor_projection c; cursor_options := cursor_options c;
     cursor_operators := cursor_operators c ++ [operator];
     cursor_result := cursor_result c; cursor_buffer := cursor_buffer c |}.

(** [fetch()] *)
Definition Cursor_fetch (c : Cursor) : result (Iterator ArraySource * Cursor) :=
  match cursor_result c with
  | Some it => Ok (it, c)
  | None =>
      let c := if isObject (cursor_projection c)
               then with_operator c (VObj [("$project", cursor_projection c)])
               else c in
      it ← Lazy (cursor_source c);
      let it := IteratorOps.filter it (fun o _ => cursor_predicate c o) in
      it ← (if (0 <? length (cursor_operators c))%nat
            then Aggregator_stream (cursor_operators c) (cursor_options c) it
            else Ok it);
      Ok (it, with_result c it)
  end.

(** [all()]: the iterator composed over the buffered values and the
    result is run to its end, and with it the result of the cursor. *)
Definition Cursor_all (c : Cursor) : result (list value * Cursor) :=
  let buffered := Lazy_array (cursor_buffer c) in
  let c := with_buffer c [] in
  '(it, c) ← Cursor_fetch c;
  '(values, composed) ← compose_value (compose [buffered; it]);
  Ok (values, with_result c (default it (iterators (source composed) !! 1%nat))).

(** [count()], [skip(n)] and [limit(n)] *)
Definition Cursor_count (c : Cursor) : result (Z * Cursor) :=
  '(values, c) ← Cursor_all c; Ok (Z.of_nat (length values), c).

Definition Cursor_skip (c : Cursor) (n : value) : Cursor :=
  with_operator c (VObj [("$skip", n)]).

Definition Cursor_limit (c : Cursor) (n : value) : Cursor :=
  with_operator c (VObj [("$limit", n)]).

(** [next()]: [buffer.pop()] takes the last value of the buffer. *)
Definition Cursor_next (c : Cursor) : result (value * Cursor) :=
  match rev (cursor_buffer c) with
  | v :: buffer => Ok (v, with_buffer c (rev buffer))
  | [] =>
      '(it, c) ← Cursor_fetch c;
      '(o, it) ← array_next it;
      Ok (default VUndefined o, with_result c it)
  end.

(** [hasNext()] *)
Definition Cursor_hasNext (c : Cursor) : result (bool * Cursor) :=
  if (0 <? length (cursor_buffer c))%nat then Ok (true, c)
  else
    '(it, c) ← Cursor_fetch c;
    '(o, it) ← array_next it;
    let c := with_result c it in
    match o with
    | None => Ok (false, c)
    | Some v => Ok (true, with_buffer c (cursor_buffer c ++ [v]))
    end.

(** [query.find(collection, projection)] *)
Definition Query_find (q : Query) (collection projection : value) : Cursor :=
  {| cursor_source := collection;
     cursor_predicate := test q;
     cursor_projection := if toBoolean projection then projection else VObj [];
     cursor_options := options q;
     cursor_operators := [];
     cursor_result := None;
     cursor_buffer := [] |}.

(** [find$1(collection, criteria, projection, options)] *)
Definition find_1 (collection criteria projection : value) (options : option Options)
    : result Cursor :=
  q ← new_Query GLOBAL_CONTEXT Date_now apply_operator JSON_stringify call_method
        user_query_operator criteria options;
  Ok (Query_find q collection projection).

(** ** The facade over cursors *)

(** [find(...args)] and [findOne(...args)], which pass their arguments
    on; an argument that is not given is undefined. *)
Definition find (data query projection : value) (options : option Options)
    : result (list value) :=
  c ← find_1 data query projection options;
  '(values, _) ← Cursor_all c;
  Ok values.

Definition findOne (data query projection : value) (options : option Options)
    : result value :=
  c ← find_1 data query projection options;
  '(v, _) ← Cursor_next c;
  Ok v.

(** [exists(data, query)] *)
Definition facade_exists (data query : value) : result bool :=
  v ← findOne data query VUndefined None;
  Ok (toBoolean v).

(** [update(data, query, updateCmd)]: [Cursor.map] maps over the array
    [all()] returns.  The documents found are objects of the array
    [data], updated in place: for each of them, in order, the document
    afterwards and the list [updateDocument] returns.  The documents of
    the array are taken to be distinct objects. *)
Definition update (data query updateCmd : value)
    : result (list (value * list string)) :=
  c ← find_1 data query VUndefined None;
  '(items, _) ← Cursor_all c;
  mapM (fun item =>
          updateDocument GLOBAL_CONTEXT Date_now apply_operator JSON_stringify
            call_method user_query_operator item updateCmd)
       items.
End Cursor.

(** A document that the query tests as true. *)
Definition matching (test : value -> result bool) (d : value) : bool :=
  match test d with
  | Ok true => true
  | _ => false
  end.

(** The iterator over [seen ++ rest] that has taken the elements [seen]
    from its source. *)
Definition array_iterator (seen rest : list value) (iteratees : list iteratee)
    (index : Z) (finished : bool) : Iterator ArraySource :=
  {| source := {| src_data := seen ++ rest; src_size := length (seen ++ rest);
                  src_index := length seen |};
     iteratees := iteratees; closure_done := finished; closure_index := index;
     yieldedValues := []; isDone := false |}.

(** The values an iterator yields, call by call of [next()], until it
    is done. *)
Inductive Drains : Iterator ArraySource -> list value -> Prop :=
| Drains_done it it' :
    array_next it = Ok (None, it') -> Drains it []
| Drains_next it it' v vs :
    array_next it = Ok (Some v, it') -> Drains it' vs -> Drains it (v :: vs).

(** What [getOperator(PIPELINE, name, this.options)] finds for an
    aggregator made with [options]. *)
Definition pipeline_operator (GLOBAL_CONTEXT : Context) (name : string)
    (options : option Options) : value :=
  getOperator GLOBAL_CONTEXT PIPELINE name
    (context (initOptions options)) (flag (useGlobalContext (initOptions options))).

(** The values [compare$1] orders by [<] or finds equal without a
    conversion to string: numbers (not NaN), strings, dates, booleans,
    null and undefined. *)
Definition scalar_key (v : value) : bool :=
  match v with
  | VNum _ | VStr _ | VDate _ | VBool _ | VNull | VUndefined => true
  | _ => false
  end.

(** [compare$1] as the comparator [sortBy] uses by default: the number
    it returns. *)
Definition default_comparator (a b : value) : Z :=
  match compare_1 a b with
  | Ok c => c
  | _ => 0
  end.

(** What [resolve] takes from an element of an array it meets on a
    path, for the name that follows: the member of a mapping, an array as
    it is, and nothing from any other value. *)
Definition member_of_item (field : string) (item : value) : value :=
  match item with
  | VObj _ => getProp item field
  | VArr _ => item
  | _ => VUndefined
  end.

(** * Theorems *)

(** ** sortBy *)

Section ArraySortFacts.
Context {T : Type} (cmp : T -> T -> Z).

Lemma sort_insert_perm x l : Permutation (sort_insert cmp x l) (x :: l).
Proof.
  induction l as [|y l IH]; simpl; [done|].
  destruct (0 <? cmp x y); [|done].
  rewrite IH. apply perm_swap.
Qed.

Lemma Array_sort_perm l : Permutation (Array_sort cmp l) l.
Proof.
  induction l as [|x l IH]; simpl; [done|].
  rewrite sort_insert_perm. by constructor.
Qed.

Lemma Array_sort_Forall (P : T -> Prop) l :
  Forall P l -> Forall P (Array_sort cmp l).
Proof.
  intros Hl. eapply Permutation_Forall; [symmetry; apply Array_sort_perm|done].
Qed.

(** The comparator is consistent on the elements that satisfy [P]. *)
Variable P : T -> Prop.
Hypothesis Hanti : forall a b, P a -> P b -> (cmp a b < 0 <-> 0 < cmp b a).
Hypothesis Htrans : forall a b c, P a -> P b -> P c ->
  cmp a b <= 0 -> cmp b c <= 0 -> cmp a c <= 0.

Lemma sort_insert_sorted x l :
  P x -> Forall P l ->
  StronglySorted (fun a b => cmp a b <= 0) l ->
  StronglySorted (fun a b => cmp a b <= 0) (sort_insert cmp x l).
Proof using Hanti Htrans.
  intros Hx Hl Hs. induction Hs as [|y l Hs IH Hy]; cbn [sort_insert].
  - repeat constructor.
  - apply Forall_cons_1 in Hl as [Hyk Hl].
    destruct (0 <? cmp x y) eqn:Hxy.
    + apply Z.ltb_lt in Hxy. constructor; [by apply IH|].
      eapply Permutation_Forall; [symmetry; apply sort_insert_perm|].
      constructor; [|done].
      apply (Hanti y x Hyk Hx) in Hxy. lia.
    + apply Z.ltb_ge in Hxy. constructor; [by constructor|].
      constructor; [done|].
      rewrite !List.Forall_forall in *. intros z Hz.
      apply (Htrans _ y _ Hx Hyk (Hl z Hz) Hxy (Hy z Hz)).
Qed.

Lemma Array_sort_sorted l :
  Forall P l -> StronglySorted (fun a b => cmp a b <= 0) (Array_sort cmp l).
Proof using Hanti Htrans.
  intros Hl. induction Hl as [|x l Hx Hl IH]; cbn [Array_sort]; [constructor|].
  apply sort_insert_sorted; [done| |done]. by apply Array_sort_Forall.
Qed.

(** Sorting does not reorder the members of a class [E] of elements
    none of which is strictly after another. *)
Variable E : T -> bool.
Hypothesis Hclass : forall x y, P x -> P y -> E x = true -> E y = true -> cmp x y <= 0.

Lemma sort_insert_filter x l :
  P x -> Forall P l ->
  List.filter E (sort_insert cmp x l) = List.filter E (x :: l).
Proof using Hclass.
  intros Hx Hl. induction Hl as [|y l Hy Hl IH]; [done|].
  cbn [sort_insert]. destruct (0 <? cmp x y) eqn:Hxy; [|done].
  apply Z.ltb_lt in Hxy.
  cbn [List.filter]. rewrite IH. cbn [List.filter].
  destruct (E x) eqn:Ex, (E y) eqn:Ey; try done.
  pose proof (Hclass x y Hx Hy Ex Ey). lia.
Qed.

Lemma Array_sort_filter l :
  Forall P l -> List.filter E (Array_sort cmp l) = List.filter E l.
Proof using Hclass.
  intros Hl. induction Hl as [|x l Hx Hl IH]; [done|].
  cbn [Array_sort]. rewrite sort_insert_filter; [|done|by apply Array_sort_Forall].
  cbn [List.filter]. by rewrite IH.
Qed.
End ArraySortFacts.

Section SortByFacts.
Context {A : Type}.
Implicit Types (keyFn : A -> nat -> value) (comparator : value -> value -> Z).

Lemma sortBy_loop_spec keyFn collection i result sorted :
  sortBy_loop keyFn collection i result sorted =
  (result ++ nil_keyed keyFn collection i, sorted ++ keyed keyFn collection i).
Proof.
  revert i result sorted.
  induction collection as [|obj rest IH]; intros i result sorted; simpl.
  - by rewrite !app_nil_r.
  - destruct (isNil (keyFn obj i)); rewrite IH; by rewrite <- !app_assoc.
Qed.

Lemma sortBy_unfold collection keyFn comparator :
  sortBy collection keyFn comparator =
  nil_keyed keyFn collection 0 ++
  map snd (Array_sort (fun a b => comparator (fst a) (fst b)) (keyed keyFn collection 0)).
Proof.
  unfold sortBy. destruct collection as [|obj rest]; [done|].
  by rewrite sortBy_loop_spec.
Qed.

Lemma consistent_flip comparator ks a b :
  consistent_on comparator ks ->
  In a ks -> In b ks -> comparator a b = 0 -> comparator b a = 0.
Proof.
  intros [Hanti _] Ha Hb Hab.
  pose proof (Hanti a b Ha Hb). pose proof (Hanti b a Hb Ha). lia.
Qed.

(** C1 (as amended): [sortBy] returns the elements whose key is null or
    undefined first, in their input order, followed by the remaining
    elements stably sorted by key: a permutation of them, ascending for
    the comparator, in which the elements of each key class keep their
    input order.  The comparator is assumed consistent on the keys that
    occur, as [Array.prototype.sort] requires. *)
Theorem sortBy_nil_keyed_first_then_stable collection keyFn comparator :
  consistent_on comparator (map fst (keyed keyFn collection 0)) ->
  exists sorted : list (value * A),
    sortBy collection keyFn comparator =
      nil_keyed keyFn collection 0 ++ map snd sorted /\
    Permutation sorted (keyed keyFn collection 0) /\
    StronglySorted (key_le comparator) sorted /\
    Stable comparator (keyed keyFn collection 0) sorted.
Proof.
  intros Hcons.
  set (ks := map fst (keyed keyFn collection 0)) in *.
  set (cmp := fun a b : value * A => comparator (fst a) (fst b)).
  exists (Array_sort cmp (keyed keyFn collection 0)).
  assert (Hall : Forall (fun p : value * A => In (fst p) ks) (keyed keyFn collection 0)).
  { apply List.Forall_forall. intros p Hp. by apply in_map. }
  pose proof Hcons as [Hanti Htrans].
  split; [apply sortBy_unfold|].
  split; [apply Array_sort_perm|].
  split.
  - apply (Array_sort_sorted cmp (fun p => In (fst p) ks)); [|by eauto|done].
    intros a b Ha Hb. by apply Hanti.
  - intros k Hk.
    apply (Array_sort_filter cmp (fun p => In (fst p) ks)); [|done].
    unfold same_key, cmp. intros x y Hx Hy Ex Ey.
    apply Z.eqb_eq in Ex, Ey.
    apply (Htrans _ k _ Hx Hk Hy); [lia|].
    rewrite (consistent_flip comparator ks _ _ Hcons Hy Hk Ey). lia.
Qed.
End SortByFacts.

Lemma sortBy_nil_keyed_first_then_stable_witness :
  exists sorted : list (value * value),
    sortBy [VNum 2; VNull; VNum 1; VNum 2] (fun v _ => v) by_number =
      nil_keyed (fun v _ => v) [VNum 2; VNull; VNum 1; VNum 2] 0%nat ++ map snd sorted /\
    Permutation sorted (keyed (fun v _ => v) [VNum 2; VNull; VNum 1; VNum 2] 0%nat) /\
    StronglySorted (key_le by_number) sorted /\
    Stable by_number (keyed (fun v _ => v) [VNum 2; VNull; VNum 1; VNum 2] 0%nat) sorted.
Proof.
  apply (sortBy_nil_keyed_first_then_stable
           [VNum 2; VNull; VNum 1; VNum 2] (fun v _ => v) by_number).
  split.
  - intros a b Ha Hb. simpl in Ha, Hb.
    destruct Ha as [<-|[<-|[<-|[]]]], Hb as [<-|[<-|[<-|[]]]]; simpl; lia.
  - intros a b c Ha Hb Hc. simpl in Ha, Hb, Hc.
    destruct Ha as [<-|[<-|[<-|[]]]], Hb as [<-|[<-|[<-|[]]]],
      Hc as [<-|[<-|[<-|[]]]]; simpl; lia.
Defined.

(** C1 (as stated) fails: the element with a null key is returned before
    the sorted portion, not after it. *)
Lemma sortBy_nil_keyed_not_appended :
  sortBy [VNull; VNum 1] (fun v _ => v) by_number = [VNull; VNum 1] /\
  ~ (exists sorted : list (value * value),
       Permutation sorted (keyed (fun v _ => v) [VNull; VNum 1] 0%nat) /\
       sortBy [VNull; VNum 1] (fun v _ => v) by_number =
         map snd sorted ++ nil_keyed (fun v _ => v) [VNull; VNum 1] 0%nat).
Proof.
  split; [reflexivity|].
  intros (sorted & Hperm & Heq). cbn in Hperm, Heq.
  apply Permutation_length in Hperm.
  destruct sorted as [|p [|q sorted]]; simpl in Hperm, Heq; discriminate.
Qed.

Lemma stack_size_app args1 args2 :
  stack_size (args1 ++ args2) = (stack_size args1 + stack_size args2)%nat.
Proof. unfold stack_size. by rewrite map_app, list_sum_app. Qed.

Lemma stack_size_rev args : stack_size (rev args) = stack_size args.
Proof.
  induction args as [|p args IH]; [done|].
  simpl. rewrite stack_size_app, IH. unfold stack_size. simpl. lia.
Qed.

Lemma all_deepEq_app args1 args2 :
  all_deepEq (args1 ++ args2) = all_deepEq args1 && all_deepEq args2.
Proof. apply forallb_app. Qed.

Lemma all_deepEq_rev args : all_deepEq (rev args) = all_deepEq args.
Proof.
  induction args as [|p args IH]; [done|].
  simpl. rewrite all_deepEq_app, IH. simpl.
  rewrite andb_true_r. apply andb_comm.
Qed.

Lemma weight_pos v : (1 <= weight v)%nat.
Proof. destruct v; simpl; lia. Qed.

Lemma all2_combine (xs ys : list value) :
  length xs = length ys ->
  (fix all2 (xs ys : list value) : bool :=
     match xs, ys with
     | x :: xs', y :: ys' => deepEq x y && all2 xs' ys'
     | _, _ => true
     end) xs ys = all_deepEq (combine xs ys).
Proof.
  revert ys. induction xs as [|x xs IH]; intros [|y ys] Hlen; try done.
  simpl in Hlen. cbn [combine all_deepEq forallb fst snd].
  f_equal. apply IH. lia.
Qed.

Lemma stack_size_combine (xs ys : list value) :
  length xs = length ys -> stack_size (combine xs ys) = list_sum (map weight xs).
Proof.
  revert ys. induction xs as [|x xs IH]; intros [|y ys] Hlen; try done.
  simpl in Hlen. unfold stack_size in *. simpl. rewrite IH; lia.
Qed.

Lemma all_props (b : value) (ka : list (string * value)) :
  (fix all (ka : list (string * value)) : bool :=
     match ka with
     | [] => true
     | kv :: ka' => deepEq (snd kv) (getProp b (fst kv)) && all ka'
     end) ka = all_deepEq (map (fun kv => (snd kv, getProp b (fst kv))) ka).
Proof.
  induction ka as [|kv ka IH]; [done|].
  cbn [map all_deepEq forallb fst snd]. f_equal. apply IH.
Qed.

Lemma stack_size_props (b : value) (ka : list (string * value)) :
  stack_size (map (fun kv => (snd kv, getProp b (fst kv))) ka) =
  list_sum (map (fun kv => weight (snd kv)) ka).
Proof.
  induction ka as [|kv ka IH]; [done|].
  unfold stack_size in *. simpl. by rewrite IH.
Qed.

Lemma isEqual_step_spec a b :
  match isEqual_step a b with
  | inl r => r = false /\ deepEq a b = false
  | inr pushed =>
      deepEq a b = all_deepEq pushed /\ (stack_size pushed < weight a)%nat
  end.
Proof.
  unfold isEqual_step.
  destruct a as [| | | | | | | |xs|ka];
    (cbn [deepEq]; destruct (strictEq _ b) eqn:Hs;
     [split; [done | pose proof (weight_pos b); simpl; unfold stack_size; simpl; lia]|]);
    (destruct (negb (bool_decide (_ = getConstructor b)) || _) eqn:Hc; [done|]);
    cbn [getConstructor STRING_CONVERTERS].
  all: try (match goal with
            | |- context [(?x =? ?y)%string] => destruct (x =? y)%string
            end; cbn [negb]; [split; [done | unfold stack_size; simpl; lia] | done]).
  - destruct b as [| | | | | | | |ys|kb]; try done.
    destruct (length xs =? length ys)%nat eqn:Hlen; cbn [negb andb]; [|done].
    apply Nat.eqb_eq in Hlen.
    rewrite all2_combine, stack_size_combine by done. simpl. split; [done|lia].
  - destruct (has_constructor ka) eqn:Hk; destruct b as [| | | | | | | |ys|kb];
      try done; cbn [negb andb STRING_CONVERTERS].
    destruct (length ka =? length kb)%nat; cbn [negb andb]; [|done].
    destruct (length (remove_dups (keys ka ++ keys kb)) =? length ka)%nat;
      cbn [negb andb]; [|done].
    rewrite all_props, stack_size_props. simpl. split; [done|lia].
Qed.

Lemma isEqual_loop_fuel fuel args :
  (stack_size args < fuel)%nat ->
  isEqual_loop fuel args = Some (all_deepEq args).
Proof.
  revert args. induction fuel as [|fuel IH]; intros args Hfuel; [lia|].
  destruct args as [|[a b] args]; [done|].
  cbn [isEqual_loop all_deepEq forallb fst snd].
  pose proof (isEqual_step_spec a b) as Hstep.
  destruct (isEqual_step a b) as [r|pushed].
  - destruct Hstep as [-> ->]. done.
  - destruct Hstep as [-> Hsize].
    rewrite IH.
    + by rewrite all_deepEq_app, all_deepEq_rev.
    + rewrite stack_size_app, stack_size_rev.
      unfold stack_size in *. simpl in *. lia.
Qed.

(** The work-stack loop of [isEqual] always runs to completion and computes
    the recursive relation [deepEq]. *)
Lemma isEqual_spec a b : isEqual a b = deepEq a b.
Proof.
  unfold isEqual. rewrite isEqual_loop_fuel.
  - simpl. by rewrite andb_true_r.
  - unfold stack_size. simpl. lia.
Qed.

(** ** Documents and deep equality *)

Lemma value_ind' (P : value -> Prop) :
  P VUndefined -> P VNull -> (forall b, P (VBool b)) -> (forall n, P (VNum n)) ->
  P VNaN -> (forall s, P (VStr s)) -> (forall ms, P (VDate ms)) ->
  (forall id src, P (VFun id src)) ->
  (forall xs, Forall P xs -> P (VArr xs)) ->
  (forall kvs, Forall (fun kv => P (snd kv)) kvs -> P (VObj kvs)) ->
  forall v, P v.
Proof.
  intros Hu Hn Hb Hz Hnan Hs Hd Hf Ha Ho.
  fix IH 1.
  intros [| |b|n| |s|ms|id src|xs|kvs];
    [apply Hu|apply Hn|apply Hb|apply Hz|apply Hnan|apply Hs|apply Hd|apply Hf| |].
  - apply Ha. induction xs as [|x xs IHxs]; constructor; [apply IH|apply IHxs].
  - apply Ho. induction kvs as [|kv kvs IHkvs]; constructor; [apply IH|apply IHkvs].
Qed.

Lemma ascii_compare_trans a b c :
  Ascii.compare a b = Lt -> Ascii.compare b c = Lt -> Ascii.compare a c = Lt.
Proof.
  unfold Ascii.compare. rewrite !N.compare_lt_iff. lia.
Qed.

Lemma ascii_compare_eq a b : Ascii.compare a b = Eq -> a = b.
Proof.
  unfold Ascii.compare. rewrite N.compare_eq_iff.
  intros H. by rewrite <- (ascii_N_embedding a), <- (ascii_N_embedding b), H.
Qed.

Lemma string_compare_trans a b c :
  String.compare a b = Lt -> String.compare b c = Lt -> String.compare a c = Lt.
Proof.
  revert b c. induction a as [|x a IH]; intros [|y b] [|z c]; simpl; try done.
  destruct (Ascii.compare x y) eqn:Hxy; try done;
    destruct (Ascii.compare y z) eqn:Hyz; try done.
  - apply ascii_compare_eq in Hxy, Hyz. subst.
    assert (Ascii.compare z z = Eq) as ->; [|by apply IH].
    unfold Ascii.compare. apply N.compare_refl.
  - apply ascii_compare_eq in Hxy. subst. by rewrite Hyz.
  - apply ascii_compare_eq in Hyz. subst. by rewrite Hxy.
  - by rewrite (ascii_compare_trans _ _ _ Hxy Hyz).
Qed.

Lemma compare_strings_lt a b : compare_strings a b < 0 <-> String.compare a b = Lt.
Proof. unfold compare_strings. destruct (String.compare a b); split; (done || lia). Qed.

Lemma compare_strings_gt a b : 0 < compare_strings a b <-> String.compare b a = Lt.
Proof.
  unfold compare_strings. rewrite (String.compare_antisym b a).
  destruct (String.compare a b); simpl; split; (done || lia).
Qed.

Lemma compare_strings_zero a b : compare_strings a b = 0 <-> a = b.
Proof.
  unfold compare_strings. split.
  - destruct (String.compare a b) eqn:H; try lia. intros _. by apply String.compare_eq_iff.
  - intros ->. assert (String.compare b b = Eq) as ->; [|done].
    pose proof (String.compare_antisym b b) as H. destruct (String.compare b b); done.
Qed.

Lemma compare_strings_anti a b : compare_strings a b < 0 <-> 0 < compare_strings b a.
Proof. by rewrite compare_strings_lt, compare_strings_gt. Qed.

Lemma compare_strings_trans a b c :
  compare_strings a b <= 0 -> compare_strings b c <= 0 -> compare_strings a c <= 0.
Proof.
  intros Hab Hbc.
  destruct (Z.eq_dec (compare_strings a b) 0) as [Ha|Ha].
  { apply compare_strings_zero in Ha. by subst. }
  destruct (Z.eq_dec (compare_strings b c) 0) as [Hb|Hb].
  { apply compare_strings_zero in Hb. by subst. }
  assert (compare_strings a c < 0); [|lia].
  apply compare_strings_lt.
  apply (string_compare_trans a b c); apply compare_strings_lt; lia.
Qed.

Lemma document_arr xs : document (VArr xs) <-> Forall document xs.
Proof.
  simpl. induction xs as [|x xs IH]; [by split; auto|].
  rewrite Forall_cons. by rewrite IH.
Qed.

Lemma document_obj kvs :
  document (VObj kvs) <-> NoDup (keys kvs) /\ Forall (fun kv => document (snd kv)) kvs.
Proof.
  simpl. apply and_iff_compat_l.
  induction kvs as [|kv kvs IH]; [by split; auto|].
  rewrite Forall_cons. by rewrite IH.
Qed.

Lemma lookup_key_In k v kvs : lookup_key k kvs = Some v -> In (k, v) kvs.
Proof.
  induction kvs as [|[k' v'] kvs IH]; simpl; [done|].
  destruct (String.eqb_spec k' k) as [->|Hne].
  - intros [= ->]. by left.
  - intros H. right. by apply IH.
Qed.

Lemma lookup_key_NoDup k v kvs :
  NoDup (keys kvs) -> In (k, v) kvs -> lookup_key k kvs = Some v.
Proof.
  induction kvs as [|[k' v'] kvs IH]; simpl; [done|].
  intros Hnd Hin. apply NoDup_cons in Hnd as [Hnotin Hnd].
  destruct (String.eqb_spec k' k) as [->|Hne].
  - destruct Hin as [[= ->]|Hin]; [done|].
    exfalso. apply Hnotin. apply list_elem_of_In.
    change k with (fst (k, v)). by apply in_map.
  - destruct Hin as [[= -> ->]|Hin]; [done|]. by apply IH.
Qed.

Lemma lookup_key_None k kvs : lookup_key k kvs = None -> ~ In k (keys kvs).
Proof.
  induction kvs as [|[k' v'] kvs IH]; simpl; [tauto|].
  destruct (String.eqb_spec k' k) as [->|Hne]; [done|].
  intros H [Heq|Hin]; [done|]. by apply IH.
Qed.

Lemma document_getProp kvs k : document (VObj kvs) -> document (getProp (VObj kvs) k).
Proof.
  rewrite document_obj. intros [_ Hall]. simpl.
  destruct (lookup_key k kvs) as [v|] eqn:Hk; [|done].
  apply lookup_key_In in Hk. rewrite List.Forall_forall in Hall.
  apply (Hall _ Hk).
Qed.

Lemma document_not_function v : document v -> isFunction v = false.
Proof. by destruct v. Qed.

(** The key-set test of [isEqual]: two lists of distinct keys of the same
    length whose union has that length hold the same keys. *)
Lemma same_keys (ka kb : list string) :
  NoDup ka -> NoDup kb -> length ka = length kb ->
  length (remove_dups (ka ++ kb)) = length ka ->
  forall k, In k ka <-> In k kb.
Proof.
  intros Ha Hb Hlen Hunion.
  assert (Hsub : incl kb ka).
  { intros k Hk.
    apply (@NoDup_length_incl _ ka (remove_dups (ka ++ kb))).
    - by apply NoDup_ListNoDup.
    - lia.
    - intros x Hx. apply list_elem_of_In, elem_of_remove_dups, list_elem_of_In.
      apply in_or_app. by left.
    - apply list_elem_of_In, elem_of_remove_dups, list_elem_of_In.
      apply in_or_app. by right. }
  intros k. split; [|apply Hsub].
  apply (@NoDup_length_incl _ kb ka); [by apply NoDup_ListNoDup|lia|done].
Qed.

Lemma strictEq_eq a b : strictEq a b = true -> isFunction a = false -> a = b.
Proof.
  destruct a, b; simpl; try done; intros H _; f_equal.
  - by apply Bool.eqb_prop.
  - by apply Z.eqb_eq.
  - by apply String.eqb_eq.
Qed.

Lemma deepEq_unfold_scalar a b :
  isArray a = false -> isObject a = false ->
  deepEq a b =
    if strictEq a b then true
    else if negb (bool_decide (getConstructor a = getConstructor b)) || isFunction a
    then false
    else (convert a =? convert b)%string.
Proof. by destruct a. Qed.

Lemma deepEq_obj ka kb :
  deepEq (VObj ka) (VObj kb) =
    negb (has_constructor ka) && negb (has_constructor kb) &&
    (length ka =? length kb)%nat &&
    (length (remove_dups (keys ka ++ keys kb)) =? length ka)%nat &&
    forallb (fun kv => deepEq (snd kv) (getProp (VObj kb) (fst kv))) ka.
Proof.
  cbn [deepEq strictEq getConstructor isFunction].
  by destruct (has_constructor ka), (has_constructor kb).
Qed.

(** ** Deep equality and canonical stringification on object graphs *)

Module GraphFacts.
Import Graph.

Lemma sequence_Some rs :
  Forall (fun r => r <> None) rs -> sequence rs <> None.
Proof.
  induction 1 as [|r rs Hr Hrs IH]; [done|].
  simpl. destruct r as [[s|e|]|]; try done.
  by destruct (sequence rs) as [[ss|e|]|].
Qed.

Lemma sequence_Ok rs ss :
  sequence rs = Some (Ok ss) -> Forall (fun r => exists s, r = Some (Ok s)) rs.
Proof.
  revert ss. induction rs as [|r rs IH]; intros ss; [by constructor|].
  simpl. destruct r as [[s|e|]|]; try done.
  destruct (sequence rs) as [[ss'|e|]|] eqn:Hrs; try done.
  intros _. constructor; [by eexists|]. by eapply IH.
Qed.

Lemma sequence_Throw rs e :
  sequence rs = Some (Throw e) -> In (Some (Throw e)) rs.
Proof.
  induction rs as [|r rs IH]; [done|].
  simpl. destruct r as [[s|e'|]|]; try done.
  - destruct (sequence rs) as [[ss'|e'|]|] eqn:Hrs; try done.
    intros [= <-]. right. by apply IH.
  - intros [= <-]. by left.
Qed.

Lemma sequence_OutOfModel rs :
  sequence rs = Some OutOfModel -> In (Some OutOfModel) rs.
Proof.
  induction rs as [|r rs IH]; [done|].
  simpl. destruct r as [[s|e'|]|]; try done.
  - destruct (sequence rs) as [[ss'|e'|]|] eqn:Hrs; try done.
    intros _. right. by apply IH.
  - intros _. by left.
Qed.

(** Two runs that return, over members that correspond one to one and
    give the same strings, return the same strings. *)
Lemma sequence_Forall2 {A B} (R : A -> B -> Prop)
    (f : A -> option (result string)) (g : B -> option (result string)) xs ys :
  Forall2 R xs ys ->
  (forall x y s1 s2, R x y -> f x = Some (Ok s1) -> g y = Some (Ok s2) -> s1 = s2) ->
  forall ss1 ss2,
    sequence (map f xs) = Some (Ok ss1) -> sequence (map g ys) = Some (Ok ss2) ->
    ss1 = ss2.
Proof.
  intros HR Hfg. induction HR as [|x y xs ys Hxy HR IH]; intros ss1 ss2.
  - simpl. by intros [= <-] [= <-].
  - simpl. destruct (f x) as [[s1|e|]|] eqn:Hf; try done.
    destruct (g y) as [[s2|e|]|] eqn:Hg; try done.
    destruct (sequence (map f xs)) as [[ss1'|e|]|]; try done.
    destruct (sequence (map g ys)) as [[ss2'|e|]|]; try done.
    intros [= <-] [= <-]. f_equal; [by eapply Hfg|by apply IH].
Qed.

Lemma Forall2_same {A} (R : A -> A -> Prop) xs :
  (forall x, In x xs -> R x x) -> Forall2 R xs xs.
Proof.
  induction xs as [|x xs IH]; intros H; constructor.
  - apply H. by left.
  - apply IH. intros y Hy. apply H. by right.
Qed.

(** Sorting distinct keys gives the same list for every order they come
    in. *)
Lemma Array_sort_keys (ka kb : list string) :
  NoDup ka -> NoDup kb -> (forall k, In k ka <-> In k kb) ->
  Array_sort compare_strings ka = Array_sort compare_strings kb.
Proof.
  intros Ha Hb Hkeys.
  assert (Hs : forall ks, NoDup ks ->
            StronglySorted (fun p q => compare_strings p q < 0)
              (Array_sort compare_strings ks)).
  { intros ks Hnd.
    assert (Hle : StronglySorted (fun p q => compare_strings p q <= 0)
                    (Array_sort compare_strings ks)).
    { apply (Array_sort_sorted compare_strings (fun _ => True)).
      - intros a b _ _. apply compare_strings_anti.
      - intros a b c _ _ _. apply compare_strings_trans.
      - apply List.Forall_forall. done. }
    assert (Hnd' : NoDup (Array_sort compare_strings ks)).
    { eapply NoDup_Permutation_proper; [apply Array_sort_perm|done]. }
    induction Hle as [|p t Hle IH Hp]; [constructor|].
    apply NoDup_cons in Hnd' as [Hnotin Hnd'].
    constructor; [by apply IH|].
    rewrite !List.Forall_forall in *. intros q Hq. specialize (Hp q Hq).
    destruct (Z.eq_dec (compare_strings p q) 0) as [Hz|Hz]; [|lia].
    apply compare_strings_zero in Hz. subst q. exfalso. apply Hnotin.
    by apply list_elem_of_In. }
  assert (Hanti : AntiSymm eq (fun p q : string => compare_strings p q < 0)).
  { intros p q Hpq Hqp. apply compare_strings_anti in Hqp. lia. }
  apply (StronglySorted_unique (fun p q : string => compare_strings p q < 0));
    [by apply Hs|by apply Hs|].
  rewrite !Array_sort_perm. apply NoDup_Permutation; [done..|].
  intros k. rewrite !list_elem_of_In. apply Hkeys.
Qed.
Section Stringify.
Variable JSON_stringify : heap -> gvalue -> result string.
Variable h : heap.
Hypothesis Hdata : data_heap h.

Local Abbreviation str' := (str JSON_stringify h).

(** The conversion of the members, as [str] runs it for a cell. *)
Local Abbreviation run fuel cycle n :=
  (sequence (map (fun kc : (string -> string) * gvalue =>
                    match str' fuel cycle (snd kc) with
                    | Some (Ok s) => Some (Ok (fst kc s))
                    | other => other
                    end) (cell_parts n))).

Lemma lookup_prop_In k v props : lookup_prop k props = Some v -> In k (map fst props).
Proof.
  induction props as [|[k' v'] props IH]; [done|].
  simpl. destruct (String.eqb_spec k' k); [by left|]. right. by apply IH.
Qed.

Lemma members_In k props :
  k <> "__proto__" -> In k (map fst props) -> In k (map fst (members props)).
Proof.
  intros Hk Hin. unfold members. destruct (has_constructor props); [|done].
  unfold getMembersOf. apply in_map_iff in Hin as ([k' v] & <- & Hin).
  apply in_map_iff. exists (k', v). split; [done|].
  apply filter_In. split; [done|]. simpl.
  apply negb_true_iff. by apply String.eqb_neq.
Qed.

Lemma data_no_toJSON l n : h !! l = Some n -> has_toJSON n = false.
Proof using Hdata.
  intros Hl. destruct n as [items|props]; [done|]. simpl.
  destruct (get props "toJSON") eqn:Hget; try done.
  destruct (lookup_prop "toJSON" props) as [c|] eqn:Hlook.
  - assert (Hchild : child (NObj props) (get props "toJSON")).
    { exists "toJSON". split; [|done].
      apply members_In; [done|]. by eapply lookup_prop_In. }
    destruct (Hdata l _ _ Hl Hchild) as [Hd _]. by rewrite Hget in Hd.
  - unfold get in Hget. by rewrite Hlook in Hget.
Qed.

Lemma cell_parts_child n c : child n c <-> In c (map snd (cell_parts n)).
Proof.
  destruct n as [items|props]; cbn [child cell_parts].
  - rewrite map_map. simpl. by rewrite map_id.
  - rewrite map_map. simpl. rewrite in_map_iff. split.
    + intros (k & Hk & Hget). exists k. split; [done|].
      eapply Permutation_in; [symmetry; apply Array_sort_perm|done].
    + intros (k & Hget & Hk). exists k. split; [|done].
      eapply Permutation_in; [apply Array_sort_perm|done].
Qed.

Lemma template_Array : template (GStr "Array") = Ok "Array".
Proof. reflexivity. Qed.

(** One level of [str] on a cell whose tag is obtained. *)
Lemma str_unfold fuel cycle l n t0 t :
  h !! l = Some n -> l ∉ cycle ->
  tag h n = Ok t0 -> template t0 = Ok t ->
  str' (S fuel) cycle (GRef l) =
    wrap (cell_open t n) (cell_close n) (run fuel (cycle ∪ {[l]}) n).
Proof using Hdata.
  intros Hl Hcycle Htag Ht. cbn [str]. rewrite Hl, Htag, (data_no_toJSON l n Hl).
  rewrite bool_decide_false by done.
  destruct n as [items|props]; cbn [cell_parts cell_open cell_close].
  - rewrite !map_map. f_equal. f_equal. apply map_ext. intros c. simpl.
    by destruct (str _ _ _ _ c) as [[s|e|]|].
  - rewrite Ht. by rewrite !map_map.
Qed.

(** A conversion of a cell that returns has obtained its tag, has not
    met the cell among its ancestors, and has converted the members. *)
Lemma str_Ok_inv fuel cycle l s :
  str' fuel cycle (GRef l) = Some (Ok s) ->
  exists n t0 t fuel' ss,
    h !! l = Some n /\ tag h n = Ok t0 /\ template t0 = Ok t /\ l ∉ cycle /\
    fuel = S fuel' /\
    run fuel' (cycle ∪ {[l]}) n = Some (Ok ss) /\
    s = cell_open t n +:+ String.concat "," ss +:+ cell_close n.
Proof using Hdata.
  intros Hstr.
  assert (str' fuel cycle (GRef l) =
          match h !! l with
          | None => Some OutOfModel
          | Some n =>
              match tag h n with
              | Throw e => Some (Throw e)
              | OutOfModel => Some OutOfModel
              | Ok t0 =>
                  if bool_decide (l ∈ cycle) then Some (Throw CYCLE_FOUND_ERROR)
                  else match fuel with
                       | O => None
                       | S fuel' => str' (S fuel') cycle (GRef l)
                       end
              end
          end) as Hcases.
  { destruct fuel; cbn [str]; destruct (h !! l) as [n|] eqn:Hl; try done;
      destruct (tag h n); try done; rewrite (data_no_toJSON l n Hl);
      by destruct (bool_decide (l ∈ cycle)). }
  rewrite Hcases in Hstr. clear Hcases.
  destruct (h !! l) as [n|] eqn:Hl; [|done].
  destruct (tag h n) as [t0| |] eqn:Htag; [|done..].
  destruct (bool_decide_reflect (l ∈ cycle)) as [Hin|Hnotin]; [done|].
  destruct fuel as [|fuel]; [done|].
  assert (exists t, template t0 = Ok t) as [t Ht].
  { destruct n as [items|props].
    - injection Htag as <-. by eexists.
    - cbn [str] in Hstr. rewrite Hl, Htag, (data_no_toJSON _ _ Hl) in Hstr.
      rewrite bool_decide_false in Hstr by done.
      destruct (template t0); [by eexists|done..]. }
  rewrite (str_unfold fuel cycle l n t0 t Hl Hnotin Htag Ht) in Hstr.
  unfold wrap in Hstr.
  destruct (run fuel (cycle ∪ {[l]}) n) as [[ss|e|]|] eqn:Hseq; try done.
  injection Hstr as <-. by exists n, t0, t, fuel, ss.
Qed.

(** Conversion returns or throws within the fuel [stringify] gives it. *)
Lemma str_returns fuel : forall cycle v,
  (size (dom h ∖ cycle) <= fuel)%nat ->
  str' fuel cycle v <> None.
Proof using Hdata.
  induction fuel as [|fuel IH]; intros cycle v Hfuel.
  - destruct v as [| | | | | | | |l]; try done. cbn [str].
    destruct (h !! l) as [n|] eqn:Hl; [|done].
    destruct (tag h n) as [t0| |]; [|done..].
    rewrite (data_no_toJSON l n Hl).
    destruct (bool_decide_reflect (l ∈ cycle)) as [Hin|Hnotin]; [done|].
    assert (l ∈ dom h ∖ cycle) as Hmem.
    { apply elem_of_difference. split; [|done]. apply elem_of_dom. by eexists. }
    assert (size (dom h ∖ cycle) ≠ 0%nat); [|lia].
    intros Hz. apply size_empty_inv in Hz. set_solver.
  - destruct v as [| | | | | | | |l]; try done.
    destruct (h !! l) as [n|] eqn:Hl; [|by cbn [str]; rewrite Hl].
    destruct (tag h n) as [t0| |] eqn:Htag; [|by cbn [str]; rewrite Hl, Htag..].
    destruct (decide (l ∈ cycle)) as [Hin|Hnotin].
    { cbn [str]. rewrite Hl, Htag, (data_no_toJSON l n Hl).
      by rewrite bool_decide_true by done. }
    destruct (template t0) as [t| |] eqn:Ht.
    2,3: destruct n as [items|props]; [by injection Htag as <-|];
         cbn [str]; rewrite Hl, Htag, (data_no_toJSON _ _ Hl), Ht;
         by rewrite bool_decide_false by done.
    rewrite (str_unfold fuel cycle l n t0 t Hl Hnotin Htag Ht).
    assert (run fuel (cycle ∪ {[l]}) n <> None) as Hseq.
    { apply sequence_Some. apply List.Forall_forall. intros r Hr.
      apply in_map_iff in Hr as (kc & <- & _).
      assert (str' fuel (cycle ∪ {[l]}) (snd kc) <> None) as Hc.
      { apply IH.
        assert (l ∈ dom h ∖ cycle) as Hmem.
        { apply elem_of_difference. split; [|done]. apply elem_of_dom. by eexists. }
        replace (dom h ∖ (cycle ∪ {[l]})) with ((dom h ∖ cycle) ∖ {[l]})
          by set_solver.
        rewrite size_difference by set_solver.
        rewrite size_singleton.
        assert (size (dom h ∖ cycle) ≠ 0%nat); [|lia].
        intros Hz. apply size_empty_inv in Hz. set_solver. }
      by destruct (str _ _ _ _ _) as [[s|e|]|]. }
    unfold wrap. by destruct (sequence _) as [[ss|e|]|].
Qed.

(** A conversion that returns has followed every path to its end. *)
Lemma str_Ok_finite fuel : forall cycle v s,
  str' fuel cycle v = Some (Ok s) -> finite h v.
Proof using Hdata.
  induction fuel as [|fuel IH]; intros cycle v s Hstr;
    (destruct v as [| | | | | | | |l]; try (by apply finite_scalar));
    apply str_Ok_inv in Hstr as (n & t0 & t & fuel' & ss & Hl & _ & _ & _ & Hf & Hseq & _);
    [done|]. injection Hf as <-.
  apply sequence_Ok in Hseq. rewrite List.Forall_forall in Hseq.
  apply (finite_cell h l n Hl). intros c Hc.
  apply cell_parts_child in Hc. apply in_map_iff in Hc as (kc & <- & Hkc).
  destruct (Hseq _ (in_map _ _ _ Hkc)) as [s' Hs'].
  destruct (str' fuel (cycle ∪ {[l]}) (snd kc)) as [[s''|e|]|] eqn:Hc; try done.
  by eapply IH.
Qed.

Lemma str_scalar fuel cycle v :
  (forall l, v <> GRef l) -> str' fuel cycle v = Some (Ok (convert v)).
Proof. intros Hv. destruct fuel, v; try done; by destruct (Hv l). Qed.

(** The string that a conversion returns does not depend on the fuel
    and on the ancestors it started with. *)
Lemma str_stable f1 : forall c1 v s1 f2 c2 s2,
  str' f1 c1 v = Some (Ok s1) -> str' f2 c2 v = Some (Ok s2) -> s1 = s2.
Proof using Hdata.
  induction f1 as [|f1 IH]; intros c1 v s1 f2 c2 s2 H1 H2;
    (destruct v as [| | | | | | | |l];
     [by (rewrite str_scalar in H1, H2 by done; congruence)..|]);
    apply str_Ok_inv in H1 as (n & t0 & t & f1' & ss1 & Hl & Htag & Ht & _ & Hf & Hseq1 & ->);
    [done|]. injection Hf as <-.
  apply str_Ok_inv in H2 as (n' & t0' & t' & f2' & ss2 & Hl' & Htag' & Ht' & _ & _ & Hseq2 & ->).
  rewrite Hl in Hl'. injection Hl' as <-. rewrite Htag in Htag'. injection Htag' as <-.
  rewrite Ht in Ht'. injection Ht' as <-.
  f_equal. f_equal. f_equal.
  eapply (sequence_Forall2 eq); [apply Forall2_same; by intros| |exact Hseq1|exact Hseq2].
  intros kc ? s1 s2 <- Hs1 Hs2.
  destruct (str' f1 (c1 ∪ {[l]}) (snd kc)) as [[x1|e|]|] eqn:Hx1; try done.
  destruct (str' f2' (c2 ∪ {[l]}) (snd kc)) as [[x2|e|]|] eqn:Hx2; try done.
  injection Hs1 as <-. injection Hs2 as <-. f_equal. by eapply IH.
Qed.

Section Tagged.
Hypothesis Htagged : tagged h.

Lemma tagged_cell l n :
  h !! l = Some n -> exists t0 t, tag h n = Ok t0 /\ template t0 = Ok t.
Proof using Htagged.
  intros Hl. destruct (Htagged l n Hl) as [t Ht].
  destruct (tag h n) as [t0| |]; [|done..]. by exists t0, t.
Qed.

(** The only exception conversion raises is the cycle error, and it
    raises it on a cell that is its own descendant or is among the
    ancestors it started with. *)
Lemma str_Throw fuel : forall cycle v e,
  str' fuel cycle v = Some (Throw e) ->
  e = CYCLE_FOUND_ERROR /\ (cyclic h v \/ exists l, l ∈ cycle /\ reaches h v l).
Proof using Hdata Htagged.
  induction fuel as [|fuel IH]; intros cycle v e Hstr.
  - destruct v as [| | | | | | | |l]; try done.
    cbn [str] in Hstr. destruct (h !! l) as [n|] eqn:Hl; [|done].
    destruct (tagged_cell l n Hl) as (t0 & t & Htag & Ht). rewrite Htag in Hstr.
    rewrite (data_no_toJSON l n Hl) in Hstr.
    destruct (bool_decide_reflect (l ∈ cycle)); [|done]. injection Hstr as <-.
    split; [done|]. right. exists l. split; [done|constructor].
  - destruct v as [| | | | | | | |l]; try done.
    destruct (h !! l) as [n|] eqn:Hl; [|by cbn [str] in Hstr; rewrite Hl in Hstr].
    destruct (tagged_cell l n Hl) as (t0 & t & Htag & Ht).
    destruct (decide (l ∈ cycle)) as [Hin|Hnotin].
    { cbn [str] in Hstr. rewrite Hl, Htag, (data_no_toJSON l n Hl) in Hstr.
      rewrite bool_decide_true in Hstr by done. injection Hstr as <-.
      split; [done|]. right. exists l. split; [done|constructor]. }
    rewrite (str_unfold fuel cycle l n t0 t Hl Hnotin Htag Ht) in Hstr.
    unfold wrap in Hstr.
    destruct (sequence _) as [[ss|e'|]|] eqn:Hseq; try done.
    injection Hstr as ->.
    apply sequence_Throw in Hseq. apply in_map_iff in Hseq as (kc & Hkc & Hin).
    destruct (str' fuel (cycle ∪ {[l]}) (snd kc)) as [[s''|e'|]|] eqn:Hc; try done.
    injection Hkc as ->.
    assert (child n (snd kc)) as Hchild.
    { apply cell_parts_child. by apply in_map. }
    destruct (IH _ _ _ Hc) as [-> [(l' & Hr & Hcyc)|(l' & Hl' & Hr)]]; (split; [done|]).
    + left. exists l'. split; [by eapply reaches_child|done].
    + apply elem_of_union in Hl' as [Hl'|Hl'].
      * right. exists l'. split; [done|by eapply reaches_child].
      * apply elem_of_singleton in Hl'. subst l'. left. exists l.
        split; [constructor|]. by exists n, (snd kc).
Qed.

(** Every reference met is to a cell of the heap. *)
Lemma str_not_OutOfModel fuel : forall cycle v,
  (forall l, v = GRef l -> is_Some (h !! l)) ->
  str' fuel cycle v <> Some OutOfModel.
Proof using Hdata Htagged.
  induction fuel as [|fuel IH]; intros cycle v Hv Hstr.
  - destruct v as [| | | | | | | |l]; try done.
    destruct (Hv l eq_refl) as [n Hl].
    destruct (tagged_cell l n Hl) as (t0 & t & Htag & Ht).
    cbn [str] in Hstr. rewrite Hl, Htag, (data_no_toJSON l n Hl) in Hstr.
    by destruct (bool_decide (l ∈ cycle)).
  - destruct v as [| | | | | | | |l]; try done.
    destruct (Hv l eq_refl) as [n Hl].
    destruct (tagged_cell l n Hl) as (t0 & t & Htag & Ht).
    destruct (decide (l ∈ cycle)) as [Hin|Hnotin].
    { cbn [str] in Hstr. rewrite Hl, Htag, (data_no_toJSON l n Hl) in Hstr.
      by rewrite bool_decide_true in Hstr by done. }
    rewrite (str_unfold fuel cycle l n t0 t Hl Hnotin Htag Ht) in Hstr.
    unfold wrap in Hstr.
    destruct (sequence _) as [[ss|e'|]|] eqn:Hseq; try done.
    apply sequence_OutOfModel in Hseq. apply in_map_iff in Hseq as (kc & Hkc & Hin).
    destruct (str' fuel (cycle ∪ {[l]}) (snd kc)) as [[s''|e'|]|] eqn:Hc; try done.
    eapply IH; [|exact Hc].
    intros l' Hl'.
    assert (child n (GRef l')) as Hchild.
    { apply cell_parts_child. rewrite <- Hl'. by apply in_map. }
    by destruct (Hdata l n _ Hl Hchild) as [_ Halloc]; apply Halloc.
Qed.
End Tagged.
End Stringify.

(** A value all of whose paths end reaches no cell on a cycle. *)
Lemma finite_not_cyclic h v : finite h v -> ~ cyclic h v.
Proof.
  intros Hfin. unfold cyclic.
  assert (forall l, reaches h v l -> ~ on_cycle h l) as Hall; [|by intros (l & Hr & Hc); eapply Hall].
  induction Hfin as [v Hv|l0 n Hl0 Hch IH]; intros l Hr.
  - inversion Hr; subst; by destruct (Hv _ eq_refl).
  - inversion Hr as [|? n' c ? Hl0' Hc Hrc]; subst.
    + intros (n' & c & Hl & Hc & Hrc).
      rewrite Hl0 in Hl. injection Hl as <-.
      apply (IH c Hc l Hrc). by exists n, c.
    + rewrite Hl0 in Hl0'. injection Hl0' as <-. by apply (IH c Hc).
Qed.

(** On an acyclic value [stringify] returns a string. *)
Lemma stringify_finite JSON_stringify h v :
  data_heap h -> tagged h -> finite h v ->
  exists s, stringify JSON_stringify h v = Some (Ok s).
Proof.
  intros Hdata Htagged Hfin. unfold stringify.
  destruct (str JSON_stringify h (size h) ∅ v) as [[s|e|]|] eqn:Hstr.
  - by eexists.
  - exfalso. destruct (str_Throw JSON_stringify h Hdata Htagged _ _ _ _ Hstr)
      as [_ [Hc|(l & Hl & _)]]; [by apply (finite_not_cyclic h v)|set_solver].
  - exfalso. eapply str_not_OutOfModel; [done|done| |exact Hstr].
    intros l ->. inversion Hfin as [? Hv|? n Hl _]; subst; [by destruct (Hv l)|by eexists].
  - exfalso. eapply str_returns; [done| |exact Hstr].
    replace (dom h ∖ ∅) with (dom h) by set_solver.
    by rewrite size_dom.
Qed.

Section IsEqual.
Variable JSON_stringify : heap -> gvalue -> result string.
Variable h : heap.
Hypothesis Hdata : data_heap h.
Hypothesis Hkeys : distinct_keys h.

Local Abbreviation str' := (str JSON_stringify h).
Local Abbreviation loop := (isEqual_loop h).

(** A turn of the loop that returns at once returns false. *)
Lemma isEqual_step_inl a b r : isEqual_step h a b = Ok (inl r) -> r = false.
Proof.
  unfold isEqual_step. destruct (strictEq a b); [done|].
  destruct (getConstructor h a) as [ca| |]; [|done..].
  destruct (getConstructor h b) as [cb| |]; [|done..].
  cbn [mbind result_bind bind].
  destruct (negb (bool_decide (ca = cb)) || isFunction a); [by intros [= <-]|].
  destruct (STRING_CONVERTERS ca).
  { destruct (negb _); [by intros [= <-]|done]. }
  destruct ca, a as [| | | | | | | |la], b as [| | | | | | | |lb];
    try (by intros [= <-]);
    destruct (h !! la) as [[xs|pa]|], (h !! lb) as [[ys|pb]|]; try done;
    repeat (destruct (negb _)); try done; by intros [= <-].
Qed.

Lemma isEqual_loop_mono fuel : forall args r,
  loop fuel args = Some r -> loop (S fuel) args = Some r.
Proof.
  induction fuel as [|fuel IH]; intros args r H; [done|].
  destruct args as [|[a b] args]; [done|].
  cbn [isEqual_loop] in H |- *.
  destruct (isEqual_step h a b) as [[r'|pushed]| |]; try done.
  by apply IH.
Qed.

(** A run that ends with true has found every pair of the stack equal,
    in a run of its own. *)
Lemma isEqual_loop_app fuel : forall xs ys,
  loop fuel (xs ++ ys) = Some (Ok true) ->
  loop fuel xs = Some (Ok true) /\ loop fuel ys = Some (Ok true).
Proof.
  induction fuel as [|fuel IH]; intros xs ys H; [done|].
  destruct xs as [|[a b] xs]; [done|].
  cbn [isEqual_loop app] in H |- *.
  destruct (isEqual_step h a b) as [[r'|pushed]| |] eqn:Hstep; try done.
  - apply isEqual_step_inl in Hstep. subst. done.
  - rewrite app_assoc in H. apply IH in H as [H1 H2].
    split; [done|]. by apply isEqual_loop_mono.
Qed.

Lemma isEqual_loop_In fuel args p :
  loop fuel args = Some (Ok true) -> In p args -> loop fuel [p] = Some (Ok true).
Proof.
  induction args as [|q args IH]; [done|].
  intros H Hin. change (q :: args) with ([q] ++ args) in H.
  apply isEqual_loop_app in H as [H1 H2].
  destruct Hin as [->|Hin]; [done|by apply IH].
Qed.

Lemma strictEq_same a b : is_data a -> strictEq a b = true -> a = b.
Proof.
  destruct a, b; simpl; try done; intros _ H; f_equal.
  - by apply Bool.eqb_prop.
  - by apply Z.eqb_eq.
  - by apply String.eqb_eq.
  - by apply Nat.eqb_eq.
Qed.

Lemma has_constructor_lookup props :
  has_constructor props = false -> lookup_prop "constructor" props = None.
Proof.
  induction props as [|[k v] props IH]; [done|]. simpl.
  destruct (k =? "constructor")%string; [done|]. apply IH.
Qed.

(** Two values that [isEqual] finds equal have the same string, in
    whichever conversions return one for each. *)
Lemma isEqual_str fuel : forall a b,
  is_data a ->
  loop fuel [(a, b)] = Some (Ok true) ->
  forall f1 c1 s1 f2 c2 s2,
    str' f1 c1 a = Some (Ok s1) -> str' f2 c2 b = Some (Ok s2) -> s1 = s2.
Proof using Hdata Hkeys.
  induction fuel as [|fuel IH]; intros a b Ha Hloop f1 c1 s1 f2 c2 s2 H1 H2; [done|].
  cbn [isEqual_loop] in Hloop.
  destruct (isEqual_step h a b) as [[r|pushed]| |] eqn:Hstep; try done.
  { apply isEqual_step_inl in Hstep. by subst. }
  rewrite app_nil_r in Hloop.
  assert (Hpairs : forall p, In p pushed -> loop fuel [p] = Some (Ok true)).
  { intros p Hp. eapply isEqual_loop_In; [exact Hloop|]. by apply in_rev in Hp. }
  clear Hloop. unfold isEqual_step in Hstep.
  destruct (strictEq a b) eqn:Hs.
  { apply (strictEq_same _ _ Ha) in Hs. subst b.
    by eapply (str_stable JSON_stringify h Hdata). }
  destruct (getConstructor h a) as [ca| |] eqn:Hca; try done.
  destruct (getConstructor h b) as [cb| |] eqn:Hcb; try done.
  cbn [mbind result_bind bind] in Hstep.
  destruct (bool_decide_reflect (ca = cb)) as [<-|Hne]; [|done].
  destruct (isFunction a) eqn:Hfun; [done|]. cbn [negb orb] in Hstep.
  destruct (STRING_CONVERTERS ca) as [converter|] eqn:Hconv.
  - (* two primitives, or two dates *)
    assert (forall v, getConstructor h v = Ok ca -> forall l, v <> GRef l) as Hscalar.
    { intros v Hv l ->. cbn [getConstructor] in Hv.
      destruct (h !! l) as [[items|props]|]; try done; injection Hv as <-; try done.
      by destruct (has_constructor props). }
    destruct (String.eqb_spec (convert a) (convert b)) as [Heq|]; [|done].
    rewrite str_scalar in H1, H2 by eauto. congruence.
  - destruct ca; try done; destruct a as [| | | | | | | |la]; try done;
      destruct b as [| | | | | | | |lb]; try done;
      cbn [getConstructor] in Hca, Hcb;
      destruct (h !! la) as [[xs|pa]|] eqn:Hla; try done;
      destruct (h !! lb) as [[ys|pb]|] eqn:Hlb; try done;
      try (by destruct (has_constructor pa)); try (by destruct (has_constructor pb)).
    + (* two arrays *)
      destruct (Nat.eqb_spec (length xs) (length ys)) as [Hlen|]; [|done].
      injection Hstep as <-.
      apply (str_Ok_inv JSON_stringify h Hdata) in H1
        as (n1 & t1 & u1 & g1 & ss1 & Hl1 & Htag1 & Ht1 & _ & _ & Hseq1 & ->).
      apply (str_Ok_inv JSON_stringify h Hdata) in H2
        as (n2 & t2 & u2 & g2 & ss2 & Hl2 & Htag2 & Ht2 & _ & _ & Hseq2 & ->).
      rewrite Hla in Hl1. injection Hl1 as <-. rewrite Hlb in Hl2. injection Hl2 as <-.
      cbn [cell_open cell_close cell_parts] in *. rewrite map_map in Hseq1, Hseq2.
      f_equal. f_equal. f_equal.
      eapply (sequence_Forall2 (fun x y => In (x, y) (combine xs ys)));
        [| |exact Hseq1|exact Hseq2].
      * clear -Hlen. revert ys Hlen.
        induction xs as [|x xs IHxs]; intros [|y ys] Hlen; try done;
          try (by constructor).
        constructor; [by left|]. simpl in Hlen.
        eapply Forall2_impl; [apply IHxs; lia|]. intros ? ? ?. by right.
      * intros x y s1 s2 Hxy Hs1 Hs2. cbn [fst snd] in Hs1, Hs2.
        destruct (str' g1 _ x) as [[x1|e|]|] eqn:Hx1; try done.
        destruct (str' g2 _ y) as [[x2|e|]|] eqn:Hx2; try done.
        injection Hs1 as <-. injection Hs2 as <-.
        eapply (IH x y); [|by apply Hpairs|exact Hx1|exact Hx2].
        apply (Hdata la (NArr xs) x Hla). simpl. by eapply in_combine_l.
    + (* two mappings of class Object *)
      destruct (has_constructor pa) eqn:Hcpa; [done|].
      destruct (has_constructor pb) eqn:Hcpb; [done|].
      destruct (Nat.eqb_spec (length pa) (length pb)) as [Hlen|]; [|done].
      cbn [negb] in Hstep.
      destruct (Nat.eqb_spec (length (remove_dups (map fst pa ++ map fst pb))) (length pa))
        as [Hunion|]; [|done].
      injection Hstep as <-.
      pose proof (Hkeys la pa Hla) as Hnda. pose proof (Hkeys lb pb Hlb) as Hndb.
      assert (Hsame : forall k, In k (map fst pa) <-> In k (map fst pb)).
      { apply same_keys; rewrite ?length_map; done. }
      apply (str_Ok_inv JSON_stringify h Hdata) in H1
        as (n1 & t1 & u1 & g1 & ss1 & Hl1 & Htag1 & Ht1 & _ & _ & Hseq1 & ->).
      apply (str_Ok_inv JSON_stringify h Hdata) in H2
        as (n2 & t2 & u2 & g2 & ss2 & Hl2 & Htag2 & Ht2 & _ & _ & Hseq2 & ->).
      rewrite Hla in Hl1. injection Hl1 as <-. rewrite Hlb in Hl2. injection Hl2 as <-.
      cbn [tag] in Htag1, Htag2.
      rewrite (has_constructor_lookup _ Hcpa) in Htag1.
      rewrite (has_constructor_lookup _ Hcpb) in Htag2.
      injection Htag1 as <-. injection Htag2 as <-.
      cbn [template] in Ht1, Ht2. injection Ht1 as <-. injection Ht2 as <-.
      cbn [cell_open cell_close cell_parts] in *. unfold members in *.
      rewrite Hcpa in Hseq1. rewrite Hcpb in Hseq2.
      rewrite <- (Array_sort_keys (map fst pa) (map fst pb) Hnda Hndb Hsame) in Hseq2.
      rewrite map_map in Hseq1, Hseq2.
      f_equal. f_equal. f_equal.
      eapply (sequence_Forall2 (fun k k' => k = k' /\ In k (map fst pa)));
        [| |exact Hseq1|exact Hseq2].
      * apply Forall2_same. intros k Hk. split; [done|].
        eapply Permutation_in; [apply Array_sort_perm|done].
      * intros k ? s1 s2 [<- Hk] Hs1 Hs2. cbn [fst snd] in Hs1, Hs2.
        destruct (str' g1 _ (get pa k)) as [[x1|e|]|] eqn:Hx1; try done.
        destruct (str' g2 _ (get pb k)) as [[x2|e|]|] eqn:Hx2; try done.
        injection Hs1 as <-. injection Hs2 as <-.
        assert (x1 = x2) as ->; [|done].
        eapply (IH (get pa k) (get pb k)); [| |exact Hx1|exact Hx2].
        -- apply (Hdata la (NObj pa) _ Hla). exists k. split; [|done].
           unfold members. by rewrite Hcpa.
        -- apply Hpairs. apply in_map_iff. by exists k.
Qed.
End IsEqual.
End GraphFacts.




(** ** Operator registry *)

(** [getOperator(type, name, null)] finds nothing: without options there
    is neither a context to look in nor a fallback on the global one. *)
Lemma getOperator_without_options G type name :
  getOperator G type name None false = VNull.
Proof. reflexivity. Qed.

(** So the collision test of [useOperators] never fires: every map of
    functions under operator names is accepted. *)
Lemma useOperators_accepts G type operators :
  Forall (fun '(name, fn) => isFunction fn && isOperator name = true) operators ->
  useOperators G type operators = Ok (ContextOps.addOperators G type operators).
Proof.
  intros Hvalid. unfold useOperators.
  assert (exists us, mapM (useOperators_check G type) operators = Ok us) as [us ->];
    [|done].
  induction Hvalid as [|[name fn] operators Hfn _ [us IH]]; [by eexists|].
  exists (tt :: us). cbn [mapM useOperators_check]. rewrite Hfn. cbn. by rewrite IH.
Qed.

(** A name that is bound keeps its implementation when operators are
    added. *)
Lemma addOperators_keeps_binding ctx type ops type' name :
  toBoolean (ContextOps.getOperator ctx type' name) = true ->
  ContextOps.getOperator (ContextOps.addOperators ctx type ops) type' name =
  ContextOps.getOperator ctx type' name.
Proof.
  revert ctx. induction ops as [|[name0 fn] ops IH]; intros ctx Hbound; [done|].
  cbn [ContextOps.addOperators fold_left].
  fold (ContextOps.addOperators
          (if negb (toBoolean (ContextOps.getOperator ctx type name0))
           then {| operators := fun t =>
                     if decide (t = type) then <[name0 := fn]> (operators ctx t)
                     else operators ctx t |}
           else ctx) type ops).
  destruct (toBoolean (ContextOps.getOperator ctx type name0)) eqn:Hname0; cbn [negb].
  { by apply IH. }
  assert (ContextOps.getOperator
            {| operators := fun t =>
                 if decide (t = type) then <[name0 := fn]> (operators ctx t)
                 else operators ctx t |} type' name =
          ContextOps.getOperator ctx type' name) as Hsame.
  { unfold ContextOps.getOperator. cbn [operators].
    destruct (decide (type' = type)) as [->|Hne]; [|done].
    destruct (decide (name0 = name)) as [->|Hne]; [|by rewrite lookup_insert_ne].
    by rewrite Hname0 in Hbound. }
  rewrite IH; by rewrite Hsame.
Qed.

(** C7, at the failing input: [$foo] is registered as [example_f1];
    registering [example_f2] under the same name is not rejected.  The
    call returns, and the registry still binds [$foo] to [example_f1]. *)
Theorem useOperators_conflict_is_not_rejected :
  strictEq example_f2 example_f1 = false /\
  exists G,
    useOperators example_registry QUERY [("$foo", example_f2)] = Ok G /\
    ContextOps.getOperator G QUERY "$foo" = example_f1.
Proof.
  split; [reflexivity|].
  eexists. split; [reflexivity|].
  vm_compute. reflexivity.
Qed.

(** ** Expression evaluation *)

Section ComputeValueFacts.
Variable GLOBAL_CONTEXT : Context.
Variable Date_now : Z.
Variable apply_operator : fnid -> value -> value -> ComputeOptions -> result value.
Variable JSON_stringify : value -> result string.

Local Abbreviation computeExpr' :=
  (computeExpr GLOBAL_CONTEXT Date_now apply_operator JSON_stringify).
Local Abbreviation computeValue' :=
  (computeValue GLOBAL_CONTEXT Date_now apply_operator JSON_stringify).
Local Abbreviation mapping_loop' :=
  (mapping_loop GLOBAL_CONTEXT Date_now apply_operator JSON_stringify).
Local Abbreviation compute_operator' :=
  (compute_operator GLOBAL_CONTEXT apply_operator computeExpr').
Local Abbreviation registered' := (registered GLOBAL_CONTEXT).
Local Abbreviation init' := (ComputeOptionsOps.init Date_now).

Lemma computeExpr_mapping obj entries options :
  computeExpr' obj (VObj entries) options = mapping_loop' obj entries options entries [].
Proof. reflexivity. Qed.

(** The call [computeValue(obj, val, key, copts)] that the loop over a
    mapping makes for an entry. *)
Lemma computeValue_entry obj key val copts :
  computeValue' obj val (Some key) (Compute copts) =
  if isOperator key
  then compute_operator' obj val key (Compute copts) (init' (Compute copts) obj VUndefined)
  else computeExpr' obj val (Compute copts).
Proof. reflexivity. Qed.

(** One turn of the loop. *)
Lemma mapping_loop_cons obj entries options key val rest res :
  mapping_loop' obj entries options ((key, val) :: rest) res =
  v ← computeValue' obj val (Some key) (Compute (init' options obj VUndefined));
  if registered' key options then
    text ← JSON_stringify (VObj entries);
    _ ← assert (length entries =? 1)%nat
          ("Invalid aggregation expression '" +:+ text +:+ "'");
    Ok v
  else mapping_loop' obj entries options rest (set_key key v res).
Proof. reflexivity. Qed.

(** The registry is the same seen through the options and through the
    [ComputeOptions] made from them. *)
Lemma lookup_operator_init type key options obj local :
  lookup_operator GLOBAL_CONTEXT type key (Compute (init' options obj local)) =
  lookup_operator GLOBAL_CONTEXT type key options.
Proof.
  unfold lookup_operator, operator_scope.
  by destruct options as [|o|c]; [| |destruct c as [[o|] ? ? ?]].
Qed.

Lemma mapping_loop_rejects obj entries options key :
  registered' key options = true -> length entries <> 1%nat ->
  forall rest res v, In key (keys rest) ->
    mapping_loop' obj entries options rest res <> Ok v.
Proof.
  intros Hreg Hlen rest. induction rest as [|[k val] rest IH]; intros res v Hin; [done|].
  rewrite mapping_loop_cons.
  destruct (computeValue' obj val (Some k) _) as [w|e|]; try done.
  cbn [mbind result_bind bind].
  destruct (registered' k options) eqn:Hk.
  - destruct (JSON_stringify (VObj entries)) as [text|e|]; try done.
    cbn [mbind result_bind bind].
    destruct (Nat.eqb_spec (length entries) 1) as [Hone|_]; [done|]. done.
  - apply IH. destruct Hin as [Heq|Hin]; [|done].
    simpl in Heq. subst. by rewrite Hreg in Hk.
Qed.

(** When each member is evaluated without error, the loop stops at the
    first registered key with the failed assertion. *)
Lemma mapping_loop_throws obj entries options key text :
  registered' key options = true -> length entries <> 1%nat ->
  JSON_stringify (VObj entries) = Ok text ->
  forall rest res,
    In key (keys rest) ->
    (forall k val, In (k, val) rest ->
       exists w, computeValue' obj val (Some k)
                   (Compute (init' options obj VUndefined)) = Ok w) ->
    mapping_loop' obj entries options rest res =
      Throw (Error ("Invalid aggregation expression '" +:+ text +:+ "'")).
Proof.
  intros Hreg Hlen Htext rest.
  induction rest as [|[k val] rest IH]; intros res Hin Hall; [done|].
  rewrite mapping_loop_cons.
  destruct (Hall k val) as [w ->]; [by left|].
  cbn [mbind result_bind bind].
  destruct (registered' k options) eqn:Hk.
  - rewrite Htext. cbn [mbind result_bind bind].
    by destruct (Nat.eqb_spec (length entries) 1).
  - apply IH.
    + destruct Hin as [Heq|Hin]; [|done]. simpl in Heq. subst. by rewrite Hreg in Hk.
    + intros k' val' Hin'. apply Hall. by right.
Qed.

Section Outcomes.
(** The operators and [JSON.stringify] return or throw. *)
Hypothesis apply_operator_outcome : forall id o e c, apply_operator id o e c <> OutOfModel.
Hypothesis JSON_stringify_outcome : forall v, JSON_stringify v <> OutOfModel.

Lemma mapM_outcome {A B} (f : A -> result B) l :
  Forall (fun x => f x <> OutOfModel) l -> mapM f l <> OutOfModel.
Proof using All.
  induction 1 as [|x l Hx Hl IH]; [done|]. simpl.
  destruct (f x); [|done..]. cbn [mbind result_bind bind].
  by destruct (mapM f l).
Qed.

Lemma compute_path_outcome obj s copts : compute_path obj s copts <> OutOfModel.
Proof using All.
  unfold compute_path, assert.
  repeat (case_match; cbn [mbind result_bind bind]; try done).
Qed.

Lemma call_operator_outcome fn obj expr copts :
  call_operator apply_operator fn obj expr copts <> OutOfModel.
Proof using All. destruct fn; try done. apply apply_operator_outcome. Qed.

Lemma compute_operator_outcome obj val key options copts :
  (forall obj options, computeExpr' obj val options <> OutOfModel) ->
  compute_operator' obj val key options copts <> OutOfModel.
Proof using All.
  intros IH. unfold compute_operator.
  destruct (toBoolean (lookup_operator _ EXPRESSION _ _)); [apply call_operator_outcome|].
  destruct (toBoolean (lookup_operator _ ACCUMULATOR _ _)); [|done].
  destruct (negb (isArray obj)).
  - specialize (IH obj (Compute copts)).
    destruct (computeExpr' obj val (Compute copts)) as [obj'|e|]; [|done..].
    cbn [mbind result_bind bind]. unfold assert.
    destruct (isArray obj'); [|done]. cbn [mbind result_bind bind].
    apply call_operator_outcome.
  - cbn [mbind result_bind bind]. unfold assert.
    destruct (isArray obj); [|done]. cbn [mbind result_bind bind].
    apply call_operator_outcome.
Qed.

(** An evaluation has no other outcome than they have. *)
Lemma computeExpr_outcome expr : forall obj options,
  computeExpr' obj expr options <> OutOfModel.
Proof using All.
  induction expr as [| |x|x| |s|x|id src|xs IH|entries IH] using value_ind';
    intros obj options; try done.
  - cbn [computeExpr]. case_match; [apply compute_path_outcome|done].
  - cbn [computeExpr].
    match goal with |- mbind _ ?m <> _ => assert (m <> OutOfModel) as Hm end.
    { apply mapM_outcome. eapply Forall_impl; [exact IH|]. intros x Hx. apply Hx. }
    match goal with |- mbind _ ?m <> _ => by destruct m end.
  - rewrite computeExpr_mapping.
    assert (forall rest res, Forall (fun kv => forall obj options,
                computeExpr' obj (snd kv) options <> OutOfModel) rest ->
              mapping_loop' obj entries options rest res <> OutOfModel) as Hloop;
      [|by apply Hloop].
    clear IH. intros rest. induction rest as [|[k val] rest IHrest]; intros res Hall; [done|].
    apply Forall_cons in Hall as [Hval Hall]. cbn [snd] in Hval.
    rewrite mapping_loop_cons, computeValue_entry.
    assert ((if isOperator k
             then compute_operator' obj val k (Compute (init' options obj VUndefined))
                    (init' (Compute (init' options obj VUndefined)) obj VUndefined)
             else computeExpr' obj val (Compute (init' options obj VUndefined)))
            <> OutOfModel) as Hv.
    { destruct (isOperator k); [by apply compute_operator_outcome|apply Hval]. }
    match goal with |- mbind _ ?m <> _ => destruct m as [v|e|] end; [|done..].
    cbn [mbind result_bind bind].
    destruct (registered' k options); [|by apply IHrest].
    pose proof (JSON_stringify_outcome (VObj entries)) as Hj.
    destruct (JSON_stringify (VObj entries)); [|done..].
    cbn [mbind result_bind bind]. unfold assert. by case_match.
Qed.
End Outcomes.

(** The mapping with one key, a registered operator: its evaluation is
    the call the loop makes for that key. *)
Lemma computeValue_single_operator obj key val text options :
  registered' key options = true ->
  JSON_stringify (VObj [(key, val)]) = Ok text ->
  computeValue' obj (VObj [(key, val)]) None options =
  computeValue' obj val (Some key) (Compute (init' options obj VUndefined)).
Proof.
  intros Hreg Htext.
  unfold computeValue at 1. cbn [default isOperator].
  rewrite computeExpr_mapping, mapping_loop_cons, Hreg, Htext.
  by destruct (computeValue' obj val (Some key) _).
Qed.

(** C9: take a mapping one of whose keys names a registered expression
    or accumulator operator.

    With more than one key its evaluation fails: it never returns; it
    throws, provided the operators and [JSON.stringify] return or throw;
    and where every member is evaluated without error what it throws is
    the error [Invalid aggregation expression] with the text of the
    mapping.

    With that key alone, its evaluation is the call
    [computeValue(obj, val, key, copts)] made for the key, whose outcome
    is returned as it is, not under [key] in a mapping.  For a key that
    has the form of an operator name this is the registered function
    applied: the expression operator to the document and the operand, or,
    when there is none, the accumulator to the array -- the document
    itself, or else what the operand evaluates to on it -- under options
    whose root is reset.  (The text of the mapping, which the source
    builds for the message before it tests the assertion, is assumed to
    be obtained.) *)
Theorem computeValue_one_operator_per_mapping obj options :
  let copts := init' options obj VUndefined in
  let copts' := init' (Compute copts) obj VUndefined in
  (forall entries key,
     In key (keys entries) -> registered' key options = true ->
     (1 < length entries)%nat ->
     (forall v, computeValue' obj (VObj entries) None options <> Ok v) /\
     ((forall id o e c, apply_operator id o e c <> OutOfModel) ->
      (forall v, JSON_stringify v <> OutOfModel) ->
      exists e, computeValue' obj (VObj entries) None options = Throw e) /\
     (forall text,
        (forall k val, In (k, val) entries ->
           exists w, computeValue' obj val (Some k) (Compute copts) = Ok w) ->
        JSON_stringify (VObj entries) = Ok text ->
        computeValue' obj (VObj entries) None options =
          Throw (Error ("Invalid aggregation expression '" +:+ text +:+ "'")))) /\
  (forall key val text,
     registered' key options = true ->
     JSON_stringify (VObj [(key, val)]) = Ok text ->
     computeValue' obj (VObj [(key, val)]) None options =
       computeValue' obj val (Some key) (Compute copts) /\
     (isOperator key = true ->
      (forall id src,
         lookup_operator GLOBAL_CONTEXT EXPRESSION key options = VFun id src ->
         computeValue' obj (VObj [(key, val)]) None options =
           apply_operator id obj val copts') /\
      (forall id src,
         toBoolean (lookup_operator GLOBAL_CONTEXT EXPRESSION key options) = false ->
         lookup_operator GLOBAL_CONTEXT ACCUMULATOR key options = VFun id src ->
         computeValue' obj (VObj [(key, val)]) None options =
           '(target, operand) ←
             (if isArray obj then Ok (obj, val)
              else target ← computeValue' obj val None (Compute copts');
                   Ok (target, VNull));
           _ ← assert (isArray target) ("'" +:+ key +:+ "' target must be an array.");
           apply_operator id target operand
             (ComputeOptionsOps.update copts' VNull (_local copts'))))).
Proof.
  intros copts copts'. split.
  - intros entries key Hin Hreg Hlen.
    assert (length entries <> 1%nat) as Hne by lia.
    assert (forall v, computeValue' obj (VObj entries) None options <> Ok v) as Hnot.
    { intros v. unfold computeValue. cbn [default isOperator].
      rewrite computeExpr_mapping. by eapply mapping_loop_rejects. }
    split; [done|split].
    + intros Happly Hjson.
      pose proof (computeExpr_outcome Happly Hjson (VObj entries) obj options) as Hout.
      unfold computeValue in *. cbn [default isOperator] in *.
      destruct (computeExpr' obj (VObj entries) options) as [v|e|]; [|by eexists|done].
      by destruct (Hnot v).
    + intros text Hall Htext. unfold computeValue at 1. cbn [default isOperator].
      rewrite computeExpr_mapping. by eapply mapping_loop_throws.
  - intros key val text Hreg Htext.
    rewrite (computeValue_single_operator obj key val text options Hreg Htext).
    split; [done|]. intros Hop. rewrite computeValue_entry, Hop.
    unfold compute_operator. rewrite !lookup_operator_init. split.
    + intros id src ->. reflexivity.
    + intros id src -> ->. cbn [toBoolean call_operator].
      unfold computeValue. cbn [default isOperator].
      subst copts copts'.
      destruct (isArray obj) eqn:Harr; cbn [negb mbind result_bind bind];
        reflexivity.
Qed.
End ComputeValueFacts.

Lemma computeValue_one_operator_per_mapping_witness :
  computeValue example_expressions 0 example_apply example_JSON
    VNull (VObj [("$foo", VNum 1); ("a", VNum 2)]) None (Plain default_options) =
    Throw (Error "Invalid aggregation expression ''") /\
  computeValue example_expressions 0 example_apply example_JSON
    VNull (VObj [("$foo", VNum 1)]) None (Plain default_options) = Ok (VNum 1).
Proof.
  destruct (computeValue_one_operator_per_mapping example_expressions 0 example_apply
              example_JSON VNull (Plain default_options)) as [Hmany Hone].
  split.
  - destruct (Hmany [("$foo", VNum 1); ("a", VNum 2)] "$foo") as (_ & _ & H);
      [by left|reflexivity|simpl; lia|].
    apply (H EmptyString); [|reflexivity].
    intros k val [[= <- <-]|[[= <- <-]|[]]]; by eexists.
  - destruct (Hone "$foo" (VNum 1) EmptyString) as [_ H]; [reflexivity|reflexivity|].
    destruct (H eq_refl) as [Hexpr _].
    rewrite (Hexpr (User 1) "function f1() {}" eq_refl). reflexivity.
Defined.

(** ** Queries *)

Lemma initOptions_idem o : initOptions (Some (initOptions o)) = initOptions o.
Proof. reflexivity. Qed.

Section QueryFacts.
Variable GLOBAL_CONTEXT : Context.
Variable Date_now : Z.
Variable apply_operator : fnid -> value -> value -> ComputeOptions -> result value.
Variable JSON_stringify : value -> result string.
Variable call_method : fnid -> value -> result value.
Variable user_query_operator : nat -> string -> value -> Options -> result predicate.

Local Abbreviation compile' :=
  (compile GLOBAL_CONTEXT Date_now apply_operator JSON_stringify call_method
     user_query_operator).
Local Abbreviation new_Query' :=
  (new_Query GLOBAL_CONTEXT Date_now apply_operator JSON_stringify call_method
     user_query_operator).
Local Abbreviation processOperator' :=
  (processOperator GLOBAL_CONTEXT Date_now apply_operator JSON_stringify call_method
     user_query_operator).

(** A condition with the single top-level key [op] compiles to the one
    predicate [processOperator] yields for it. *)
Lemma compile_top_level op rhs options text :
  in_strings op TOP_LEVEL = true ->
  JSON_stringify (VObj [(op, rhs)]) = Ok text ->
  compile' (VObj [(op, rhs)]) options =
    fn ← processOperator' (fun expr => compile' expr (initOptions (Some options)))
           options op op rhs;
    Ok [fn].
Proof.
  intros Hop Htext. cbn [compile]. rewrite Htext. cbn [mbind result_bind bind].
  assert ((op =? "$where")%string = false) as ->.
  { destruct (String.eqb_spec op "$where") as [->|]; [done|done]. }
  rewrite Hop.
  by destruct (processOperator' _ options op op rhs) as [fn|e|].
Qed.

Lemma test_new_Query cond o q :
  new_Query' cond o = Ok q -> compile' cond (initOptions o) = Ok (compiled q).
Proof.
  unfold new_Query.
  destruct (compile' cond (initOptions o)) as [c|e|]; [|done..].
  by intros [= <-].
Qed.

End QueryFacts.


Section QueryRemoveFacts.
Variable GLOBAL_CONTEXT : Context.
Variable Date_now : Z.
Variable apply_operator : fnid -> value -> value -> ComputeOptions -> result value.
Variable JSON_stringify : value -> result string.
Variable call_method : fnid -> value -> result value.
Variable user_query_operator : nat -> string -> value -> Options -> result predicate.

Local Abbreviation new_Query' :=
  (new_Query GLOBAL_CONTEXT Date_now apply_operator JSON_stringify call_method
     user_query_operator).
Local Abbreviation Collection_remove' :=
  (Collection_remove GLOBAL_CONTEXT Date_now apply_operator JSON_stringify call_method
     user_query_operator).

Lemma remove_reduce_spec q docs acc : forall (s : Store) xs,
  (forall d, In d docs -> exists b, test q d = Ok b) ->
  s !! acc = Some xs ->
  remove_reduce q docs acc s =
    Ok (<[acc := xs ++ List.filter (non_matching (test q)) docs]> s).
Proof.
  induction docs as [|d docs IH]; intros s xs Htests Hacc.
  - cbn [remove_reduce List.filter]. by rewrite app_nil_r, insert_id.
  - cbn [remove_reduce List.filter]. unfold non_matching at 1.
    destruct (Htests d (or_introl eq_refl)) as [b Hb]. rewrite Hb.
    cbn [mbind result_bind bind].
    destruct b.
    + apply IH; [|done]. intros d' Hd'. apply Htests. by right.
    + rewrite (IH _ (xs ++ [d])).
      * f_equal. rewrite <- app_assoc. cbn [app].
        apply map_eq. intros l. destruct (decide (l = acc)) as [->|Hne].
        -- by rewrite !lookup_insert_eq.
        -- rewrite !lookup_insert_ne by done. by rewrite lookup_alter_ne.
      * intros d' Hd'. apply Htests. by right.
      * rewrite lookup_alter_eq. by rewrite Hacc.
Qed.

(** C10: [Collection.remove] on a collection whose array holds [docs],
    for a query that compiles and whose tests on the documents return:
    the array returned is a new one, it holds exactly the documents
    that do not match, in their order; every other array of the store
    is as before, the input array among them; and the collection then
    refers to the new array. *)
Theorem Collection_remove_returns_new_array (s : Store) this query docs q :
  s !! collection this = Some docs ->
  new_Query' query None = Ok q ->
  (forall d, In d docs -> exists b, test q d = Ok b) ->
  exists (s' : Store) newData,
    Collection_remove' s this query = Ok (s', {| collection := newData |}, newData) /\
    s !! newData = None /\
    s' !! newData = Some (List.filter (non_matching (test q)) docs) /\
    s' !! collection this = Some docs /\
    (forall l, l <> newData -> s' !! l = s !! l).
Proof.
  intros Hdocs Hq Htests.
  set (acc := fresh (dom s)).
  assert (Hfresh : s !! acc = None).
  { apply not_elem_of_dom. apply is_fresh. }
  exists (<[acc := List.filter (non_matching (test q)) docs]> s), acc.
  assert (Hne : collection this <> acc).
  { intros Heq. rewrite Heq, Hfresh in Hdocs. done. }
  split; [|split; [done|split; [by rewrite lookup_insert_eq|split]]].
  - unfold Collection_remove, remove, remove_1.
    rewrite Hq. cbn [mbind result_bind bind]. unfold Query_remove. rewrite Hdocs.
    fold acc.
    rewrite (remove_reduce_spec q docs acc _ []) by (done || by rewrite lookup_insert_eq).
    cbn. by rewrite insert_insert_eq.
  - by rewrite lookup_insert_ne.
  - intros l Hl. by rewrite lookup_insert_ne.
Qed.
End QueryRemoveFacts.

Lemma Collection_remove_returns_new_array_witness :
  exists (s' : Store) newData,
    Collection_remove bundle_registry 0 example_apply example_JSON example_call example_user
      example_store {| collection := 0 |} (VObj [("b", VNum 2)]) =
      Ok (s', {| collection := newData |}, newData) /\
    example_store !! newData = None /\
    s' !! newData = Some [VObj [("a", VNum 3); ("b", VNum 4)]] /\
    s' !! 0%nat = example_store !! 0%nat /\
    (forall l, l <> newData -> s' !! l = example_store !! l).
Proof.
  destruct (Collection_remove_returns_new_array bundle_registry 0 example_apply
              example_JSON example_call example_user
              example_store {| collection := 0 |} (VObj [("b", VNum 2)])
              [VObj [("a", VNum 1); ("b", VNum 2)];
               VObj [("a", VNum 2); ("b", VNum 2)];
               VObj [("a", VNum 3); ("b", VNum 4)]]
              {| condition := VObj [("b", VNum 2)]; options := default_options;
                 compiled := [createQueryOperator (fun a b depth => Ok (eq_2 a b depth))
                                "b" (VNum 2)] |})
    as (s' & newData & Hrun & Hnew & Hkept & Hinput & Hframe).
  - reflexivity.
  - reflexivity.
  - intros d [<-|[<-|[<-|[]]]]; eexists; reflexivity.
  - exists s', newData. repeat split; try done.
Defined.

Section WhereFacts.
Variable Date_now : Z.
Variable apply_operator : fnid -> value -> value -> ComputeOptions -> result value.
Variable JSON_stringify : value -> result string.
Variable call_method : fnid -> value -> result value.
Variable user_query_operator : nat -> string -> value -> Options -> result predicate.

(** With the registry of the bundle and the default options, a
    condition with [$where] before a field compiles to three
    predicates: the one for [$where], the one for the field, and the one
    for [$where] again. *)
Lemma compile_where_then_field f src field n text :
  JSON_stringify (VObj [("$where", VFun f src); (field, VNum n)]) = Ok text ->
  (field =? "$where")%string = false ->
  in_strings field TOP_LEVEL = false ->
  isOperator field = false ->
  exists where_predicate,
    op_where call_method (VFun f src) default_options = Ok where_predicate /\
    compile bundle_registry Date_now apply_operator JSON_stringify call_method
      user_query_operator
      (VObj [("$where", VFun f src); (field, VNum n)]) default_options =
    Ok [where_predicate;
        createQueryOperator (fun a b depth => Ok (eq_2 a b depth)) field (VNum n);
        where_predicate].
Proof.
  intros Htext Hfield Htop Hop.
  eexists. split; [reflexivity|].
  cbn [compile]. rewrite Htext. cbn [mbind result_bind bind].
  cbn [String.eqb Ascii.eqb Bool.eqb].
  rewrite Hfield, Htop, Hop. reflexivity.
Qed.
End WhereFacts.

(** C5, at the failing input: in [{$where: f, a: 2}] the [$where] clause
    is compiled before the predicate for [a] and once more after it.  On
    a document that [a: 2] rejects, the function [f] is called all the
    same, and its exception becomes the outcome of the test; with the
    keys in the other order the test returns false without calling
    [f]. *)
Theorem where_is_compiled_first_and_twice :
  let make query :=
    new_Query bundle_registry 0 example_apply example_JSON example_call example_user
      query None in
  let where_first := VObj [("$where", VFun (User 8) EmptyString); ("a", VNum 2)] in
  let where_last := VObj [("a", VNum 2); ("$where", VFun (User 8) EmptyString)] in
  (q ← make where_first; Ok (length (compiled q))) = Ok 3%nat /\
  (q ← make where_first; test q example_doc) = Throw (Error "boom") /\
  (q ← make where_last; Ok (length (compiled q))) = Ok 2%nat /\
  (q ← make where_last; test q example_doc) = Ok false.
Proof.
  repeat split; vm_compute; reflexivity.
Qed.

(** ** Selectors *)

Lemma split_dot_cons s : exists w ws, split_dot s = w :: ws.
Proof.
  induction s as [|c s (w & ws & IH)]; simpl; [by eexists _, _|].
  destruct (Ascii.eqb c "."); [by eexists _, _|]. rewrite IH. by eexists _, _.
Qed.

Lemma split_dot_no_dot s : Forall (fun w => no_dot w = true) (split_dot s).
Proof.
  induction s as [|c s IH]; simpl; [by repeat constructor|].
  destruct (Ascii.eqb c ".") eqn:Hc; [by constructor|].
  destruct (split_dot s) as [|w ws]; [constructor; [unfold no_dot; cbn [all_chars]; by rewrite Hc|constructor]|].
  apply Forall_cons in IH as [Hw Hws]. constructor; [|done].
  unfold no_dot in *. cbn [all_chars]. by rewrite Hc, Hw.
Qed.

Lemma split_dot_name w : no_dot w = true -> split_dot w = [w].
Proof.
  induction w as [|c w IH]; [done|]. unfold no_dot in *. cbn [all_chars].
  intros [Hc Hw]%andb_prop. apply negb_true_iff in Hc.
  cbn [split_dot]. rewrite Hc. by rewrite (IH Hw).
Qed.

Lemma split_dot_app w s :
  no_dot w = true -> split_dot (w +:+ String "." s) = w :: split_dot s.
Proof.
  induction w as [|c w IH]; [done|]. unfold no_dot in *. cbn [all_chars].
  intros [Hc Hw]%andb_prop. apply negb_true_iff in Hc.
  change (String c w +:+ String "." s) with (String c (w +:+ String "." s)).
  cbn [split_dot]. rewrite Hc. by rewrite (IH Hw).
Qed.

(** Joining names with dots and splitting again gives the names back:
    the recursive call of [walk] on [names.slice(1).join(".")] sees the
    rest of the names. *)
Lemma split_dot_join_dot names :
  names <> [] -> Forall (fun w => no_dot w = true) names ->
  split_dot (join_dot names) = names.
Proof.
  unfold join_dot.
  induction names as [|w names IH]; [done|]. intros _ [Hw Hnames]%Forall_cons.
  destruct names as [|w' names]; [by apply split_dot_name|].
  assert (String.concat "." (w :: w' :: names) =
          w +:+ String "." (String.concat "." (w' :: names))) as -> by reflexivity.
  rewrite (split_dot_app _ _ Hw). by rewrite IH.
Qed.

Lemma walk_next_names selector key next :
  split_dot selector = key :: next -> next <> [] ->
  split_dot (join_dot next) = next.
Proof.
  intros Hsplit Hnext. apply split_dot_join_dot; [done|].
  pose proof (split_dot_no_dot selector) as H. rewrite Hsplit in H.
  by apply Forall_cons in H as [_ H].
Qed.

Lemma length_substring s : forall n m,
  (n + m <= String.length s)%nat -> String.length (String.substring n m s) = m.
Proof.
  induction s as [|c s IH]; intros [|n] [|m]; simpl; try lia.
  - intros H. rewrite IH; lia.
  - intros H. apply IH. lia.
  - intros H. apply IH. lia.
Qed.

Lemma indexOf_lower s pat : -1 <= indexOf s pat.
Proof.
  unfold indexOf. destruct (index 0 pat s); [lia|]. destruct (pat =? "")%string; lia.
Qed.

(** The rest of a selector after the first array filter is shorter than
    the selector. *)
Lemma length_rest selector k :
  1 <= k -> (0 < String.length selector)%nat ->
  (String.length (substring1 selector k) < String.length selector)%nat.
Proof.
  intros Hk Hlen. unfold substring1, substring2, clamp.
  rewrite length_substring; lia.
Qed.

(** [tokenizePath] returns or throws on every selector: the fuel is
    enough. *)
Lemma tokenize_fuel fuel : forall selector,
  (String.length selector <= fuel)%nat -> tokenize fuel selector <> OutOfModel.
Proof.
  induction fuel as [|fuel IH]; intros selector Hlen.
  - destruct selector; [done|simpl in Hlen; lia].
  - cbn [tokenize]. destruct (includes selector ".$") eqn:Hinc; cbn [negb]; [|done].
    unfold assert at 1.
    destruct (_ || FILTER_IDENT_RE _); cbn [mbind result_bind bind]; [|done].
    set (rest := substring1 selector (indexOf selector "]" + 2)).
    destruct (nonempty rest); cbn [mbind result_bind bind]; [|done].
    assert (tokenize fuel rest <> OutOfModel) as Hrest.
    { apply IH. subst rest.
      assert (0 < String.length selector)%nat by (destruct selector; [done|simpl; lia]).
      pose proof (indexOf_lower selector "]").
      pose proof (length_rest selector (indexOf selector "]" + 2)). lia. }
    destruct (tokenize fuel rest) as [[next elems]|e|]; cbn [mbind result_bind bind]; done.
Qed.

Lemma tokenizePath_returns selector : tokenizePath selector <> OutOfModel.
Proof. by apply tokenize_fuel. Qed.

(** ** The update engine *)

Lemma set_key_same k v kvs : lookup_key k kvs = Some v -> set_key k v kvs = kvs.
Proof.
  induction kvs as [|[k' v'] kvs IH]; simpl; [done|].
  destruct (String.eqb_spec k' k) as [->|Hne].
  - by intros [= ->].
  - intros H. by rewrite IH.
Qed.

Lemma lookup_set_key k v kvs : lookup_key k (set_key k v kvs) = Some v.
Proof.
  induction kvs as [|[k' v'] kvs IH]; simpl.
  - by rewrite String.eqb_refl.
  - destruct (String.eqb_spec k' k) as [->|Hne]; simpl.
    + by rewrite String.eqb_refl.
    + destruct (String.eqb_spec k' k); [done|]. apply IH.
Qed.

Lemma lookup_key_app k kvs kvs' :
  lookup_key k (kvs ++ kvs') =
  match lookup_key k kvs with Some v => Some v | None => lookup_key k kvs' end.
Proof.
  induction kvs as [|[k' v'] kvs IH]; simpl; [done|].
  by destruct (k' =? k)%string.
Qed.

Lemma lookup_insert_index i k v kvs :
  lookup_key k kvs = None -> lookup_key k (insert_index i k v kvs) = Some v.
Proof.
  induction kvs as [|[k' v'] kvs IH]; simpl.
  - by rewrite String.eqb_refl.
  - destruct (String.eqb_spec k' k) as [->|Hne]; [done|]. intros H.
    destruct (array_index k') as [j|]; [destruct (j <? i)%nat|]; simpl;
      rewrite ?String.eqb_refl; try done.
    destruct (String.eqb_spec k' k); [done|]. by apply IH.
Qed.

(** After [o[k] = v] the mapping has [v] at [k]. *)
Lemma lookup_define_key k v kvs : lookup_key k (define_key k v kvs) = Some v.
Proof.
  unfold define_key. destruct (lookup_key k kvs) eqn:E.
  - apply lookup_set_key.
  - destruct (array_index k).
    + by apply lookup_insert_index.
    + rewrite lookup_key_app, E. simpl. by rewrite String.eqb_refl.
Qed.

Lemma define_key_present k v w kvs :
  lookup_key k kvs = Some w -> define_key k v kvs = set_key k v kvs.
Proof. unfold define_key. by intros ->. Qed.

(** A tree is its own deep clone. *)
Lemma cloneDeep_id v : cloneDeep v = v.
Proof.
  induction v as [| | | | | | | |xs IH|kvs IH] using value_ind'; simpl; try done.
  - f_equal. induction IH as [|x xs Hx _ IHxs]; simpl; [done|]. by rewrite Hx, IHxs.
  - f_equal. induction IH as [|[k x] kvs Hx _ IHkvs]; simpl; [done|].
    simpl in Hx. by rewrite Hx, IHkvs.
Qed.

(** A selector without [.$] is a node of its own, with no filter
    identifier. *)
Lemma tokenizePath_plain selector :
  includes selector ".$" = false ->
  tokenizePath selector = Ok (Node selector selector None None, []).
Proof.
  intros H. unfold tokenizePath.
  destruct (String.length selector); simpl; by rewrite H.
Qed.

(** [resolve2] on a mapping goes on with the member found. *)
Lemma resolve2_obj kvs field rest first depth :
  resolve2 (VObj kvs) (field :: rest) first depth =
  match lookup_key field kvs with
  | Some v => if isUndefined v then (VUndefined, depth) else resolve2 v rest false depth
  | None => (VUndefined, depth)
  end.
Proof.
  simpl. induction kvs as [|[k v] kvs IH]; [done|].
  simpl. by destruct (k =? field)%string.
Qed.

Lemma field_at_cons kvs k rest cur :
  field_at (VObj kvs) (k :: rest) = Some cur ->
  (rest = [] /\ cur = getProp (VObj kvs) k) \/
  (rest <> [] /\ exists kvs', lookup_key k kvs = Some (VObj kvs') /\
                             field_at (VObj kvs') rest = Some cur).
Proof.
  destruct rest as [|k2 rest].
  - simpl. intros [= <-]. by left.
  - cbn [field_at]. destruct (lookup_key k kvs) as [[]|] eqn:E; try done.
    intros H. right. split; [done|]. by eexists.
Qed.

Lemma field_at_obj o names cur : field_at o names = Some cur -> isObject o = true.
Proof. destruct o, names as [|? []]; simpl; done. Qed.

Lemma resolve2_field names : forall o cur first,
  field_at o names = Some cur -> resolve2 o names first 0 = (cur, 0%nat).
Proof.
  induction names as [|k rest IH]; intros o cur first H.
  - by destruct o.
  - destruct o as [| | | | | | | | |kvs]; try (by destruct rest).
    rewrite resolve2_obj.
    apply field_at_cons in H as [[-> ->]|[Hne (kvs' & Hk & H)]].
    + simpl. destruct (lookup_key k kvs) as [v|]; simpl; [|done]. by destruct v.
    + rewrite Hk. cbn [isUndefined]. by apply IH.
Qed.

(** [resolve] finds the field, without collecting an array. *)
Lemma resolve_field o selector cur :
  field_at o (split_dot selector) = Some cur ->
  resolve o selector false = cur /\ resolve_depth o selector = 0%nat.
Proof.
  intros H. unfold resolve, resolve_depth.
  rewrite (resolve2_field _ _ _ true H).
  destruct o; try (by destruct (split_dot selector) as [|? []]).
  simpl. split; [|done]. by rewrite andb_false_r.
Qed.

(** One step of [walk] when [descendArray] is off. *)
Lemma walk_names_step obj key next_key rest (fn : updater) graph b :
  walk_names obj (key :: next_key :: rest) fn
    {| buildGraph := graph; descendArray := false |} b =
  obj ← (if graph then
           cur ← member obj (KStr key);
           if isNil cur then assign_member obj (KStr key) (VObj []) else Ok obj
         else Ok obj);
  item ← member obj (KStr key);
  if negb (toBoolean item) then Ok (obj, b)
  else
    '(item, b) ← walk_names item (next_key :: rest) fn
                   {| buildGraph := graph; descendArray := false |} b;
    Ok (with_member obj (KStr key) item, b).
Proof.
  cbn [walk_names buildGraph descendArray].
  destruct (if graph then _ else _) as [obj1|e|]; [|done..].
  cbn [mbind result_bind bind].
  destruct (member obj1 (KStr key)) as [item|e|]; [|done..].
  cbn [mbind result_bind bind].
  by destruct item.
Qed.

(** [walk] along mappings, with a callback that leaves the leaf as it
    is. *)
Lemma walk_names_no_change (fn : updater) names : forall obj cur b,
  field_at obj names = Some cur ->
  (forall kvs k, getProp (VObj kvs) k = cur -> fn (VObj kvs) (KStr k) = Ok (VObj kvs, false)) ->
  walk_names obj names fn {| buildGraph := true; descendArray := false |} b = Ok (obj, b).
Proof.
  induction names as [|k rest IH]; intros obj cur b H Hfn.
  - by destruct obj.
  - destruct obj as [| | | | | | | | |kvs]; try (by destruct rest).
    apply field_at_cons in H as [[-> ->]|[Hne (kvs' & Hk & H)]].
    + simpl. by rewrite Hfn.
    + destruct rest as [|k2 rest]; [done|].
      rewrite walk_names_step. cbn [member name_of_key getProp].
      rewrite Hk. cbn [default from_option id mbind result_bind bind isNil member name_of_key getProp].
      rewrite Hk. cbn [default from_option id mbind result_bind bind toBoolean negb].
      rewrite (IH _ _ _ H Hfn). cbn [mbind result_bind bind with_member name_of_key].
      by rewrite set_key_same.
Qed.

(** [walk] along mappings, with a callback that assigns [v] at the
    leaf. *)
Lemma walk_names_assign (fn : updater) v names : forall obj cur b,
  field_at obj names = Some cur ->
  (forall kvs k, getProp (VObj kvs) k = cur ->
                 fn (VObj kvs) (KStr k) = Ok (VObj (define_key k v kvs), true)) ->
  walk_names obj names fn {| buildGraph := true; descendArray := false |} b =
    Ok (set_field obj names v, true).
Proof.
  induction names as [|k rest IH]; intros obj cur b H Hfn.
  - by destruct obj.
  - destruct obj as [| | | | | | | | |kvs]; try (by destruct rest).
    apply field_at_cons in H as [[-> ->]|[Hne (kvs' & Hk & H)]].
    + simpl. by rewrite Hfn.
    + destruct rest as [|k2 rest]; [done|].
      rewrite walk_names_step. cbn [member name_of_key getProp].
      rewrite Hk. cbn [default from_option id mbind result_bind bind isNil member name_of_key getProp].
      rewrite Hk. cbn [default from_option id mbind result_bind bind toBoolean negb].
      rewrite (IH _ _ _ H Hfn). cbn [mbind result_bind bind with_member name_of_key].
      cbn [set_field getProp]. by rewrite Hk.
Qed.

(** The field is there after [set_field]. *)
Lemma field_at_set_field names : forall o cur v,
  field_at o names = Some cur -> field_at (set_field o names v) names = Some v.
Proof.
  induction names as [|k rest IH]; intros o cur v H.
  - by destruct o.
  - destruct o as [| | | | | | | | |kvs]; try (by destruct rest).
    apply field_at_cons in H as [[-> ->]|[Hne (kvs' & Hk & H)]].
    + simpl. by rewrite lookup_define_key.
    + destruct rest as [|k2 rest]; [done|].
      specialize (IH _ _ v H).
      cbn [set_field field_at getProp]. rewrite Hk, lookup_set_key.
      cbn [default from_option id].
      destruct rest; exact IH.
Qed.

Lemma set_key_fresh k v kvs : lookup_key k kvs = None -> set_key k v kvs = kvs ++ [(k, v)].
Proof.
  induction kvs as [|[k' v'] kvs IH]; simpl; [done|].
  destruct (k' =? k)%string; [done|]. intros H. by rewrite IH.
Qed.

Lemma lookup_key_not_In k kvs : ~ In k (keys kvs) -> lookup_key k kvs = None.
Proof.
  induction kvs as [|[k' v'] kvs IH]; simpl; [done|].
  intros H. destruct (String.eqb_spec k' k) as [->|Hne]; [tauto|]. apply IH. tauto.
Qed.

Lemma assign_distinct source : forall target,
  List.NoDup (keys source) ->
  (forall k, In k (keys source) -> ~ In k (keys target)) ->
  assign target source = target ++ source.
Proof.
  unfold assign.
  induction source as [|[k v] source IH]; intros target Hnd Hdisj; simpl.
  - by rewrite app_nil_r.
  - inversion Hnd as [|? ? Hk Hnd']; subst.
    rewrite set_key_fresh by (apply lookup_key_not_In, Hdisj; by left).
    rewrite IH; [by rewrite <- app_assoc|done|].
    intros k' Hk'. unfold keys. rewrite map_app, in_app_iff. simpl.
    intros [Hin|[->|[]]]; [|done].
    apply (Hdisj k'); [by right|done].
Qed.

(** On a document every clone mode yields the value itself. *)
Lemma clone_document mode val : document val -> clone mode val = val.
Proof.
  intros Hdoc. destruct mode as [mode|]; [|done]. unfold clone.
  destruct (mode =? "deep")%string; [apply cloneDeep_id|].
  destruct (mode =? "copy")%string; [|done].
  destruct val as [| | | | | | | | |kvs]; try done.
  apply document_obj in Hdoc as [Hnd _].
  rewrite assign_distinct; [done| |by intros ? ? []].
  by apply NoDup_ListNoDup.
Qed.

Section UpdateFacts.
Variable GLOBAL_CONTEXT : Context.
Variable Date_now : Z.
Variable apply_operator : fnid -> value -> value -> ComputeOptions -> result value.
Variable JSON_stringify : value -> result string.
Variable call_method : fnid -> value -> result value.
Variable user_query_operator : nat -> string -> value -> Options -> result predicate.

Local Abbreviation walkExpression' :=
  (walkExpression GLOBAL_CONTEXT Date_now apply_operator JSON_stringify call_method
     user_query_operator).
Local Abbreviation update_set' :=
  (update_set GLOBAL_CONTEXT Date_now apply_operator JSON_stringify call_method
     user_query_operator).
Local Abbreviation update_inc' :=
  (update_inc GLOBAL_CONTEXT Date_now apply_operator JSON_stringify call_method
     user_query_operator).
Local Abbreviation update_bit' :=
  (update_bit GLOBAL_CONTEXT Date_now apply_operator JSON_stringify call_method
     user_query_operator).

(** An expression with one selector, which has no array filter: the
    callback is called once, with no query. *)
Lemma walkExpression_plain selector val arrayFilters options callback obj :
  includes selector ".$" = false ->
  walkExpression' (VObj [(selector, val)]) arrayFilters options callback obj =
    '(obj, changed) ← callback val (Node selector selector None None) [] obj;
    Ok (obj, if changed : bool then [selector] else []).
Proof.
  intros H. unfold walkExpression.
  cbn [Object_entries own_props mbind result_bind bind].
  rewrite (tokenizePath_plain _ H).
  cbn [mbind result_bind bind length Nat.eqb node_parent].
  destruct (callback _ _ _ _) as [[obj' []]|e|]; done.
Qed.

(** C6 (amended): take a selector without array filter that leads
    through existing mappings to a field whose value is there and is not
    a number.  [$inc] throws; [$bit], for each of its three operations,
    returns the empty list and leaves the document as it is. *)
Theorem inc_throws_and_bit_skips_on_non_number
    obj selector cur val arrayFilters options :
  includes selector ".$" = false ->
  field_at obj (split_dot selector) = Some cur ->
  isUndefined cur = false ->
  isNumber cur = false ->
  update_inc' obj (VObj [(selector, val)]) arrayFilters options =
    Throw (Error "cannot apply $inc to a value of non-numeric type") /\
  forall op, In op BIT_OPS ->
    update_bit' obj (VObj [(selector, VObj [(op, val)])]) arrayFilters options =
      Ok (obj, []).
Proof.
  intros Hplain Hfield Hundef Hnum. split.
  - unfold update_inc. rewrite walkExpression_plain by done.
    cbn [node_child node_parent].
    destruct (resolve_field _ _ _ Hfield) as [-> _].
    by rewrite Hundef, Hnum.
  - intros op Hop. unfold update_bit. rewrite walkExpression_plain by done.
    cbn [Object_keys Object_entries own_props keys map fst mbind result_bind bind
         length hd Nat.eqb andb].
    assert (in_strings op BIT_OPS = true) as ->.
    { simpl in Hop. destruct Hop as [<-|[<-|[<-|[]]]]; reflexivity. }
    cbn [assert mbind result_bind bind applyUpdate]. unfold walk.
    rewrite (walk_names_no_change _ _ _ cur false Hfield); [done|].
    intros kvs k Hk. cbn [member name_of_key]. rewrite Hk.
    cbn [mbind result_bind bind]. by rewrite Hundef, Hnum.
Qed.
End UpdateFacts.

(** C3 (as stated) fails on the document [{a: 5}] and the path [a.b]:
    the field has no value, the value 1 differs from it, and [$set]
    returns the empty list and leaves the document as it is. *)
Lemma set_below_a_number_reports_nothing :
  isEqual (resolve (VObj [("a", VNum 5)]) "a.b" false) (VNum 1) = false /\
  update_set bundle_registry 0 example_apply example_JSON example_call example_user
    (VObj [("a", VNum 5)]) (VObj [("a.b", VNum 1)]) [] example_update_options =
  Ok (VObj [("a", VNum 5)], []).
Proof. split; reflexivity. Qed.

Lemma inc_throws_and_bit_skips_on_non_number_witness :
  update_inc bundle_registry 0 example_apply example_JSON example_call example_user
    (VObj [("a", VStr "x")]) (VObj [("a", VNum 1)]) [] example_update_options =
  Throw (Error "cannot apply $inc to a value of non-numeric type") /\
  update_bit bundle_registry 0 example_apply example_JSON example_call example_user
    (VObj [("a", VStr "x")]) (VObj [("a", VObj [("xor", VNum 1)])]) []
    example_update_options =
  Ok (VObj [("a", VStr "x")], []).
Proof.
  pose proof (inc_throws_and_bit_skips_on_non_number
                bundle_registry 0 example_apply example_JSON example_call example_user
                (VObj [("a", VStr "x")]) "a" (VStr "x") (VNum 1) []
                example_update_options eq_refl eq_refl eq_refl eq_refl) as [Hinc Hbit].
  split; [exact Hinc|]. apply Hbit. simpl. auto.
Defined.

(** C6 (as stated) fails for [$bit] and [$mul]: on a field holding a
    string, [$bit] returns the empty list without an error; on a field
    holding null, [$mul] stores 0 and reports the path. *)
Lemma bit_and_mul_do_not_raise :
  update_bit bundle_registry 0 example_apply example_JSON example_call example_user
    (VObj [("a", VStr "x")]) (VObj [("a", VObj [("and", VNum 1)])]) []
    example_update_options =
  Ok (VObj [("a", VStr "x")], []) /\
  update_mul bundle_registry 0 example_apply example_JSON example_call example_user
    (VObj [("a", VNull)]) (VObj [("a", VNum 2)]) [] example_update_options =
  Ok (VObj [("a", VNum 0)], ["a"]).
Proof. split; reflexivity. Qed.

(** [$gt] against the number 5, for a value that is not an array. *)
Lemma gt_2_five v :
  isArray v = false ->
  gt_2 v (VNum 5) = Ok (match v with VNum n => 5 <? n | _ => false end).
Proof.
  intros Harr. destruct v as [| |b|n| |s|ms|id src|xs|kvs]; try done.
  unfold gt_2, compare_with, compare_1. cbn [ensureArray_1 someM getType].
  cbn -[Z.ltb lessThan].
  unfold lessThan. cbn -[Z.ltb].
  destruct (Z.ltb_spec n 5), (Z.ltb_spec 5 n); cbn; try done; lia.
Qed.

(** The filter [{"x.qty": {$gt: 5}}] on [{x: e}]. *)
Lemma gt_2_x_qty e :
  plain_item e = true ->
  gt_2 (resolve (VObj [("x", e)]) "x.qty" true) (VNum 5) = Ok (qty_above_5 e).
Proof.
  intros Hplain. unfold resolve.
  change (split_dot "x.qty") with ["x"; "qty"].
  cbn [getType]. change (in_strings _ JS_SIMPLE_TYPES) with false. cbv iota.
  rewrite resolve2_obj. cbn [lookup_key String.eqb Ascii.eqb Bool.eqb].
  destruct e as [| |b|n| |s|ms|id src|xs|kvs]; try done.
  cbn [isUndefined]. rewrite resolve2_obj.
  cbn [plain_item qty_above_5] in *.
  destruct (lookup_key "qty" kvs) as [v|]; [|done].
  destruct v; try done; cbn [isUndefined resolve2 isArray andb]; by rewrite gt_2_five.
Qed.

Lemma insert_at_length {A} (seen rest : list A) (x y : A) :
  <[length seen := y]> (seen ++ x :: rest) = seen ++ y :: rest.
Proof. induction seen as [|d seen IH]; simpl; [done|]. by rewrite IH. Qed.

Lemma nth_at_length {A} (seen rest : list A) (x d : A) :
  nth (length seen) (seen ++ x :: rest) d = x.
Proof. induction seen as [|? seen IH]; simpl; done. Qed.

(** The loop of [t.map] when the callback replaces the element it is at
    by [g e] and returns [r e]. *)
Lemma map_items_spec callback (P : value -> Prop) (g : value -> value) (r : value -> bool) :
  (forall seen e rest, P e ->
     callback e (length seen) (VArr (seen ++ e :: rest)) =
       Ok (VArr (seen ++ g e :: rest), r e)) ->
  forall rest seen, Forall P rest ->
    map_items callback (length rest) (length seen) (VArr (seen ++ rest)) =
      Ok (VArr (seen ++ map g rest), map r rest).
Proof.
  intros Hcb. induction rest as [|e rest IH]; intros seen HP; [done|].
  apply Forall_cons in HP as [He HP].
  cbn [length map_items member]. rewrite nth_at_length.
  cbn [mbind result_bind bind]. rewrite (Hcb _ _ _ He).
  cbn [mbind result_bind bind].
  assert (S (length seen) = length (seen ++ [g e])) as ->.
  { rewrite length_app. simpl. lia. }
  assert (seen ++ g e :: rest = (seen ++ [g e]) ++ rest) as ->.
  { by rewrite <- app_assoc. }
  rewrite (IH _ HP). cbn [mbind result_bind bind map].
  by rewrite <- app_assoc.
Qed.

Section ArrayFilterFacts.
Variable GLOBAL_CONTEXT : Context.
Variable Date_now : Z.
Variable apply_operator : fnid -> value -> value -> ComputeOptions -> result value.
Variable JSON_stringify : value -> result string.
Variable call_method : fnid -> value -> result value.
Variable user_query_operator : nat -> string -> value -> Options -> result predicate.

Local Abbreviation new_Query'' :=
  (new_Query GLOBAL_CONTEXT Date_now apply_operator JSON_stringify call_method
     user_query_operator).
Local Abbreviation update_inc'' :=
  (update_inc GLOBAL_CONTEXT Date_now apply_operator JSON_stringify call_method
     user_query_operator).

(** The query made from the filter has one predicate, the comparison of
    [x.qty] with 5. *)
Lemma new_Query_qty_filter o text :
  query_operator GLOBAL_CONTEXT "$gt" o = bundle_function "$gt" ->
  JSON_stringify qty_filter = Ok text ->
  exists q, new_Query'' qty_filter o = Ok q /\
            forall e, plain_item e = true ->
                      test q (VObj [("x", e)]) = Ok (qty_above_5 e).
Proof.
  intros Hgt Htext. unfold new_Query, qty_filter in *.
  cbn [compile]. rewrite Htext. cbn [mbind result_bind bind].
  cbn [String.eqb Ascii.eqb Bool.eqb in_strings TOP_LEVEL existsb orb].
  change (isOperator "x.qty") with false.
  cbn [negb assert mbind result_bind bind keys map fst existsb].
  change (isOperator "$gt") with true.
  cbn [orb has lookup_key String.eqb Ascii.eqb Bool.eqb].
  change (bool_decide (is_Some None)) with false. cbv iota.
  cbn [mapM fst snd]. unfold processOperator at 1.
  unfold query_operator in Hgt. rewrite Hgt.
  cbn [bundle_function toBoolean negb call_query_operator String.eqb Ascii.eqb Bool.eqb].
  cbn [mbind result_bind bind app].
  eexists. split; [reflexivity|].
  intros e He. unfold test, createQueryOperator. cbn [compiled test_compiled].
  cbv beta zeta.
  rewrite (gt_2_x_qty _ He). by destruct (qty_above_5 e).
Qed.

Lemma inc_qty_other c e : qty_above_5 e = false -> inc_qty c e = e.
Proof.
  destruct e as [| | | | | | | | |kvs]; try done. simpl.
  destruct (lookup_key "qty" kvs) as [[]|]; try done. by intros ->.
Qed.

Lemma existsb_id_map {A} (f : A -> bool) l : existsb id (map f l) = existsb f l.
Proof. induction l as [|x l IH]; simpl; [done|]. by rewrite IH. Qed.

(** C4 (amended): let [items] be an array of elements that are not
    arrays and whose [qty] is not an array.  [$inc] of [c] at
    [items.$[x].qty] with the filter [{"x.qty": {$gt: 5}}] adds [c] to the
    [qty] of the elements whose [qty] is a number above 5 and leaves the
    other elements as they are; the list returned is [items], the path of
    the array, when an element matched, and empty otherwise.  The
    increment, the numbers under [qty] and the sums are within
    [MIN_LONG] and [MAX_LONG], where the addition of doubles is exact. *)
Theorem inc_with_array_filter kvs items c o mode text :
  query_operator GLOBAL_CONTEXT "$gt" o = bundle_function "$gt" ->
  JSON_stringify qty_filter = Ok text ->
  lookup_key "items" kvs = Some (VArr items) ->
  Forall (fun e => plain_item e = true) items ->
  isLong (VNum c) = true ->
  Forall (fun e => qty_exact c e = true) items ->
  update_inc'' (VObj kvs) (VObj [("items.$[x].qty", VNum c)]) [qty_filter]
      {| cloneMode := mode; queryOptions := o |} =
    Ok (VObj (set_key "items" (VArr (map (inc_qty c) items)) kvs),
        if existsb qty_above_5 items then ["items"] else []).
Proof.
  intros Hgt Htext Hitems Hplain Hc Hexact.
  destruct (new_Query_qty_filter o text Hgt Htext) as (q & Hq & Htest).
  unfold update_inc, walkExpression.
  cbn [Object_entries own_props mbind result_bind bind].
  change (tokenizePath "items.$[x].qty")
    with (Ok (Node "items.$[x].qty" "items" (Some "x")
                (Some (Node "qty" "qty" None None)), ["x"])).
  cbn [mbind result_bind bind length Nat.eqb].
  change (extract_conditions [qty_filter] ["x"] []) with (Ok [("x", qty_filter)]).
  cbn [mbind result_bind bind mapM snd fst queryOptions]. rewrite Hq.
  cbn [mbind result_bind bind node_child node_parent applyUpdate].
  destruct (resolve_field (VObj kvs) "items" (VArr items)) as [-> ->].
  { change (split_dot "items") with ["items"]. cbn [field_at getProp].
    by rewrite Hitems. }
  cbn [Nat.ltb Nat.leb].
  unshelve erewrite (map_items_spec _ (fun e => plain_item e = true) (inc_qty c)
                       qty_above_5 _ items [] Hplain).
  2:{ cbn [mbind result_bind bind app]. change (split_dot "items") with ["items"].
      cbn [put_path with_member name_of_key]. rewrite existsb_id_map.
      by destruct (existsb qty_above_5 items). }
  - intros seen e rest He. cbv beta.
    cbn [lookup_query String.eqb Ascii.eqb Bool.eqb]. rewrite (Htest _ He).
    cbn [mbind result_bind bind].
    destruct (qty_above_5 e) eqn:Hm; cbn [negb]; [|by rewrite inc_qty_other].
    destruct e as [| | | | | | | | |ekvs]; try done.
    cbn [qty_above_5 inc_qty] in *.
    destruct (lookup_key "qty" ekvs) as [[| | |n| | | | | |]|] eqn:Hqty; try done.
    rewrite Hm. cbn [applyUpdate]. unfold walk.
    change (split_dot "qty") with ["qty"].
    cbn [walk_names isObject orb member name_of_key getProp]. rewrite Hqty.
    cbn [default from_option id mbind result_bind bind toBoolean].
    assert ((n =? 0) = false) as -> by lia.
    cbn [negb mbind result_bind bind js_add is_object orb isString toNumber
         assign_member name_of_key].
    rewrite (define_key_present _ _ _ _ Hqty).
    cbn [mbind result_bind bind with_member index_of_key orb].
    by rewrite insert_at_length.
Qed.
End ArrayFilterFacts.

Lemma inc_with_array_filter_witness :
  update_inc bundle_registry 0 example_apply example_JSON example_call example_user
    example_items (VObj [("items.$[x].qty", VNum 2)]) [qty_filter]
    example_update_options =
  Ok (VObj [("items",
             VArr [VObj [("qty", VNum 12)]; VObj [("qty", VNum 3)];
                   VObj [("name", VStr "c")]; VStr "d"; VObj [("qty", VNum 8)]])],
      ["items"]).
Proof.
  pose proof (inc_with_array_filter
                bundle_registry 0 example_apply example_JSON example_call example_user
                [("items",
                  VArr [VObj [("qty", VNum 10)]; VObj [("qty", VNum 3)];
                        VObj [("name", VStr "c")]; VStr "d"; VObj [("qty", VNum 6)]])]
                [VObj [("qty", VNum 10)]; VObj [("qty", VNum 3)];
                 VObj [("name", VStr "c")]; VStr "d"; VObj [("qty", VNum 6)]]
                2 None (Some "copy") EmptyString eq_refl eq_refl eq_refl) as H.
  unfold example_items, example_update_options.
  rewrite H; [reflexivity| |reflexivity|]; repeat constructor.
Defined.

(** C4 (as stated) fails: with one element, which matches, the list
    returned is [items]; the path [items.qty] is not in it. *)
Lemma inc_with_array_filter_reports_parent :
  update_inc bundle_registry 0 example_apply example_JSON example_call example_user
    (VObj [("items", VArr [VObj [("qty", VNum 10)]])])
    (VObj [("items.$[x].qty", VNum 1)]) [qty_filter] example_update_options =
  Ok (VObj [("items", VArr [VObj [("qty", VNum 11)]])], ["items"]) /\
  ~ In "items.qty" ["items"].
Proof.
  split; [reflexivity|]. by intros [|[]].
Qed.

(** ** Conditions *)

Lemma isOperator_not_special field :
  isOperator field = false ->
  (field =? "$where")%string = false /\ in_strings field TOP_LEVEL = false.
Proof.
  intros H. split.
  - destruct (String.eqb_spec field "$where") as [->|]; [done|done].
  - unfold in_strings, TOP_LEVEL. cbn [existsb].
    repeat match goal with
           | |- context [(field =? ?s)%string] =>
               destruct (String.eqb_spec field s) as [->|]; [done|]
           end.
    done.
Qed.

Section ConditionFacts.
Variable GLOBAL_CONTEXT : Context.
Variable Date_now : Z.
Variable apply_operator : fnid -> value -> value -> ComputeOptions -> result value.
Variable JSON_stringify : value -> result string.
Variable call_method : fnid -> value -> result value.
Variable user_query_operator : nat -> string -> value -> Options -> result predicate.

Local Abbreviation compile_c :=
  (compile GLOBAL_CONTEXT Date_now apply_operator JSON_stringify call_method
     user_query_operator).
Local Abbreviation new_Query_c :=
  (new_Query GLOBAL_CONTEXT Date_now apply_operator JSON_stringify call_method
     user_query_operator).

Lemma test_compiled_app ps qs d :
  test_compiled (ps ++ qs) d =
  b ← test_compiled ps d; if b : bool then test_compiled qs d else Ok false.
Proof.
  induction ps as [|p ps IH]; simpl; [done|].
  destruct (p d) as [[]|e|]; simpl; try done.
Qed.

(** A condition made of equality entries compiles to one equality
    predicate per entry, in order. *)
Lemma compile_equalities entries options text :
  getOperator GLOBAL_CONTEXT QUERY "$eq" (context options)
    (flag (useGlobalContext options)) = bundle_function "$eq" ->
  JSON_stringify (VObj entries) = Ok text ->
  forallb equality_entry entries = true ->
  compile_c (VObj entries) options =
    Ok (map (fun kv => createQueryOperator (fun a b depth => Ok (eq_2 a b depth))
                         (fst kv) (snd kv)) entries).
Proof.
  intros Heq Htext Hall. cbn [compile]. rewrite Htext. cbn [mbind result_bind bind].
  clear Htext.
  match goal with
  | |- ?loop entries [] None = _ =>
      enough (H : forall acc,
                loop entries acc None =
                Ok (acc ++ map (fun kv => createQueryOperator
                                            (fun a b depth => Ok (eq_2 a b depth))
                                            (fst kv) (snd kv)) entries))
        by apply (H [])
  end.
  intros acc. revert acc Hall.
  induction entries as [|[field expr] entries IH]; intros acc Hall.
  - by rewrite app_nil_r.
  - cbn [forallb] in Hall. apply andb_prop in Hall as [Hentry Hall].
    unfold equality_entry in Hentry. cbn [fst snd] in Hentry.
    apply andb_prop in Hentry as [Hfield Hexpr]. apply negb_true_iff in Hfield.
    destruct (isOperator_not_special _ Hfield) as [Hwhere Htop].
    rewrite Hwhere, Htop, Hfield.
    cbn [negb assert mbind result_bind bind].
    assert (Hexpr' : match expr with
                     | VObj kvs => existsb isOperator (keys kvs) = false
                     | _ => True
                     end).
    { destruct expr; try done. by apply negb_true_iff in Hexpr. }
    destruct expr; try rewrite Hexpr';
      match goal with
      | |- context [processOperator ?G ?D ?a ?J ?c ?u ?mk options field "$eq" ?e] =>
          assert (Hp : processOperator G D a J c u mk options field "$eq" e =
                       Ok (createQueryOperator (fun a b depth => Ok (eq_2 a b depth))
                             field e))
            by (unfold processOperator; rewrite Heq; reflexivity);
          rewrite Hp
      end;
      cbn [mbind result_bind bind];
      rewrite (IH _ Hall); cbn [map fst snd]; by rewrite <- app_assoc.
Qed.

Lemma createQueryOperator_apply pred selector v d :
  createQueryOperator pred selector v d =
  pred (resolve d selector true) v (selector_depth selector).
Proof. reflexivity. Qed.

Lemma test_compiled_equalities entries d :
  test_compiled
    (map (fun kv => createQueryOperator (fun a b depth => Ok (eq_2 a b depth))
                      (fst kv) (snd kv)) entries) d =
  Ok (forallb (fun kv => eq_2 (resolve d (fst kv) true) (snd kv)
                           (selector_depth (fst kv))) entries).
Proof.
  induction entries as [|[field v] entries IH]; [done|].
  cbn [map test_compiled fst snd forallb]. rewrite createQueryOperator_apply.
  cbn [mbind result_bind bind].
  destruct (eq_2 _ _ _); [by rewrite IH|done].
Qed.

(** X1: a condition whose entries are plain [field: value] pairs is the
    conjunction of the equality tests of its entries: the query compiles,
    and it tests a document as true exactly when for every entry the
    field, resolved in the document, passes [$eq] against the value.  A
    condition without entries tests every document as true.  [$eq] is
    assumed bound to the operator of the bundle, and the text of the
    condition is assumed to be obtained. *)
Theorem condition_is_conjunction_of_equalities entries o text :
  query_operator GLOBAL_CONTEXT "$eq" o = bundle_function "$eq" ->
  JSON_stringify (VObj entries) = Ok text ->
  forallb equality_entry entries = true ->
  exists q,
    new_Query_c (VObj entries) o = Ok q /\
    forall d,
      test q d =
      Ok (forallb (fun kv => eq_2 (resolve d (fst kv) true) (snd kv)
                               (selector_depth (fst kv))) entries).
Proof.
  intros Heq Htext Hall. unfold new_Query.
  rewrite (compile_equalities entries (initOptions o) text Heq Htext Hall).
  eexists. split; [reflexivity|].
  intros d. unfold test. cbn [compiled]. apply test_compiled_equalities.
Qed.
End ConditionFacts.

Lemma condition_is_conjunction_of_equalities_witness :
  exists q,
    new_Query bundle_registry 0 example_apply example_JSON example_call example_user
      (VObj [("a", VNum 1); ("b", VNum 2)]) None = Ok q /\
    test q example_doc = Ok true.
Proof.
  destruct (condition_is_conjunction_of_equalities
              bundle_registry 0 example_apply example_JSON example_call example_user
              [("a", VNum 1); ("b", VNum 2)] None EmptyString
              eq_refl eq_refl eq_refl) as (q & Hq & Htest).
  exists q. split; [exact Hq|]. rewrite Htest. reflexivity.
Defined.

Section ComparisonFacts.
Variable GLOBAL_CONTEXT : Context.
Variable Date_now : Z.
Variable apply_operator : fnid -> value -> value -> ComputeOptions -> result value.
Variable JSON_stringify : value -> result string.
Variable call_method : fnid -> value -> result value.
Variable user_query_operator : nat -> string -> value -> Options -> result predicate.

Local Abbreviation compile_f :=
  (compile GLOBAL_CONTEXT Date_now apply_operator JSON_stringify call_method
     user_query_operator).
Local Abbreviation new_Query_f :=
  (new_Query GLOBAL_CONTEXT Date_now apply_operator JSON_stringify call_method
     user_query_operator).
Local Abbreviation call_query_operator_f :=
  (call_query_operator GLOBAL_CONTEXT Date_now apply_operator JSON_stringify call_method
     user_query_operator).

(** The condition [{field: {name: v}}] with one operator of the bundle
    compiles to the predicate that operator makes. *)
Lemma new_Query_field_operator field name v o text pred :
  isOperator field = false ->
  isOperator name = true ->
  (name =? "$regex")%string = false ->
  query_operator GLOBAL_CONTEXT name o = bundle_function name ->
  JSON_stringify (VObj [(field, VObj [(name, v)])]) = Ok text ->
  (forall mk, call_query_operator_f mk (bundle_function name) field v (initOptions o) =
              Ok pred) ->
  exists q,
    new_Query_f (VObj [(field, VObj [(name, v)])]) o = Ok q /\ compiled q = [pred].
Proof.
  intros Hfield Hname Hregex Hbound Htext Hcall.
  unfold new_Query. cbn [compile]. rewrite Htext. cbn [mbind result_bind bind].
  destruct (isOperator_not_special _ Hfield) as [-> ->]. rewrite Hfield.
  cbn [negb assert mbind result_bind bind keys map fst existsb]. rewrite Hname.
  cbn [orb has lookup_key]. rewrite Hregex.
  change (bool_decide (is_Some None)) with false. cbv iota.
  cbn [mapM fst snd].
  match goal with
  | |- context [processOperator ?G ?D ?a ?J ?c ?u ?mk ?opts field name v] =>
      assert (Hp : processOperator G D a J c u mk opts field name v = Ok pred)
        by (unfold processOperator; unfold query_operator in Hbound; rewrite Hbound;
            cbn [bundle_function toBoolean negb]; apply Hcall);
      rewrite Hp
  end.
  cbn [mbind result_bind bind app]. eexists. split; reflexivity.
Qed.

Lemma isEqual_numbers n m : isEqual (VNum n) (VNum m) = (n =? m).
Proof.
  rewrite isEqual_spec. cbn [deepEq strictEq].
  destruct (Z.eqb_spec n m) as [->|Hne]; [done|].
  cbn [getConstructor]. rewrite bool_decide_eq_true_2 by done.
  cbn [negb isFunction orb STRING_CONVERTERS convert].
  destruct (String.eqb_spec (pretty n) (pretty m)) as [Heq|]; [|done].
  by apply pretty_Z_inj in Heq.
Qed.

Lemma compare_with_numbers n m f :
  compare_with (VNum n) (VNum m) f =
  Ok (f (if n <? m then -1 else if m <? n then 1 else 0)).
Proof.
  unfold compare_with, compare_1. cbn [ensureArray_1 someM getType].
  change ("Number" =? "Number")%string with true.
  change (SORT_ORDER_BY_TYPE (toLowerCase "Number")) with 1.
  change (1 =? 1) with true. cbn [negb orb lessThan].
  destruct (n <? m), (m <? n); cbn [mbind result_bind bind]; by destruct (f _).
Qed.

(** X2: on a field that holds a number, the six comparison operators
    against a number are the comparisons of integers: the condition
    [{field: {op: m}}] compiles and tests the document as true exactly
    when the number in the field stands in that relation to [m].  The
    operators are assumed bound to those of the bundle, and the text of
    each condition is assumed to be obtained. *)
Theorem comparison_operators_on_a_number field o d n m :
  isOperator field = false ->
  resolve d field true = VNum n ->
  (forall name, In name (map fst comparison_table) ->
     query_operator GLOBAL_CONTEXT name o = bundle_function name) ->
  (forall name, In name (map fst comparison_table) ->
     exists text, JSON_stringify (VObj [(field, VObj [(name, VNum m)])]) = Ok text) ->
  forall name holds, In (name, holds) comparison_table ->
    exists q,
      new_Query_f (VObj [(field, VObj [(name, VNum m)])]) o = Ok q /\
      test q d = Ok (holds n m).
Proof.
  intros Hfield Hres Hbound Htext name holds Hin.
  assert (Hname : In name (map fst comparison_table)).
  { by apply (in_map fst) in Hin. }
  destruct (Htext name Hname) as [text Ht].
  specialize (Hbound name Hname).
  cbn [comparison_table In] in Hin.
  destruct Hin as [H|[H|[H|[H|[H|[H|[]]]]]]]; injection H as <- <-;
    (match type of Hbound with
     | query_operator _ ?nm _ = _ =>
         edestruct (new_Query_field_operator field nm (VNum m) o text) as (q & Hq & Hc);
         [exact Hfield|reflexivity|reflexivity|exact Hbound|exact Ht|
          intros mk; reflexivity|]
     end);
    exists q; (split; [exact Hq|]); unfold test; rewrite Hc;
    cbn [test_compiled]; rewrite createQueryOperator_apply, Hres;
    unfold gt_2, gte_2, lt_2, lte_2; rewrite ?compare_with_numbers;
    cbn [mbind result_bind bind]; unfold eq_2; rewrite ?isEqual_numbers.
  - by destruct (n =? m).
  - cbn [isNil andb]. by destruct (n =? m).
  - destruct (Z.ltb_spec n m), (Z.ltb_spec m n); cbn; try done; lia.
  - destruct (Z.ltb_spec n m), (Z.ltb_spec m n), (Z.leb_spec n m); cbn; try done; lia.
  - unfold Z.gtb. rewrite Z.compare_antisym.
    destruct (Z.ltb_spec n m), (Z.ltb_spec m n), (Z.compare_spec m n); cbn; try done; lia.
  - unfold Z.geb.
    destruct (Z.ltb_spec n m), (Z.ltb_spec m n), (Z.compare_spec n m); cbn; try done; lia.
Qed.
End ComparisonFacts.

Lemma comparison_operators_on_a_number_witness :
  exists q,
    new_Query bundle_registry 0 example_apply example_JSON example_call example_user
      (VObj [("b", VObj [("$gt", VNum 1)])]) None = Ok q /\
    test q example_doc = Ok true.
Proof.
  destruct (comparison_operators_on_a_number
              bundle_registry 0 example_apply example_JSON example_call example_user
              "b" None example_doc 2 1 eq_refl eq_refl) with (name := "$gt") (holds := Z.gtb)
    as (q & Hq & Htest).
  - intros name H. simpl in H.
    destruct H as [<-|[<-|[<-|[<-|[<-|[<-|[]]]]]]]; reflexivity.
  - intros name _. by eexists.
  - simpl. tauto.
  - exists q. split; [exact Hq|]. rewrite Htest. reflexivity.
Defined.

Section LogicalFacts.
Variable GLOBAL_CONTEXT : Context.
Variable Date_now : Z.
Variable apply_operator : fnid -> value -> value -> ComputeOptions -> result value.
Variable JSON_stringify : value -> result string.
Variable call_method : fnid -> value -> result value.
Variable user_query_operator : nat -> string -> value -> Options -> result predicate.

Local Abbreviation compile_l :=
  (compile GLOBAL_CONTEXT Date_now apply_operator JSON_stringify call_method
     user_query_operator).
Local Abbreviation new_Query_l :=
  (new_Query GLOBAL_CONTEXT Date_now apply_operator JSON_stringify call_method
     user_query_operator).
Local Abbreviation processOperator_l :=
  (processOperator GLOBAL_CONTEXT Date_now apply_operator JSON_stringify call_method
     user_query_operator).

Lemma mapM_compile exprs qs o :
  Forall2 (fun e q => new_Query_l e o = Ok q) exprs qs ->
  mapM (fun e => compile_l e (initOptions o)) exprs = Ok (map compiled qs).
Proof.
  induction 1 as [|e q exprs qs Hq _ IH]; [done|].
  cbn [mapM map].
  rewrite (test_new_Query _ _ _ _ _ _ _ _ _ Hq), IH. done.
Qed.

Lemma everyM_tests qs d bs :
  Forall2 (fun q b => test q d = Ok b) qs bs ->
  everyM (fun c => test_compiled c d) (map compiled qs) = Ok (forallb id bs).
Proof.
  induction 1 as [|q b qs bs Hq _ IH]; [done|].
  cbn [map everyM forallb]. unfold test in Hq. rewrite Hq.
  cbn [mbind result_bind bind id]. by destruct b.
Qed.

Lemma someM_tests qs d bs :
  Forall2 (fun q b => test q d = Ok b) qs bs ->
  someM (fun c => test_compiled c d) (map compiled qs) = Ok (existsb id bs).
Proof.
  induction 1 as [|q b qs bs Hq _ IH]; [done|].
  cbn [map someM existsb]. unfold test in Hq. rewrite Hq.
  cbn [mbind result_bind bind id]. by destruct b.
Qed.

(** X3: [$and], [$or] and [$nor] over any list of sub-queries.  When the
    sub-queries compile and their tests on a document return, [$and]
    tests it as true exactly when all of them do, [$or] when one of them
    does, and [$nor] when none does; over the empty list [$and] and
    [$nor] accept every document and [$or] none.  The three operators
    are assumed bound to those of the bundle. *)
Theorem logical_operators_over_branches o exprs qs d bs :
  (forall name, In name ["$and"; "$or"; "$nor"] ->
     query_operator GLOBAL_CONTEXT name o = bundle_function name) ->
  (forall name, In name ["$and"; "$or"; "$nor"] ->
     exists text, JSON_stringify (VObj [(name, VArr exprs)]) = Ok text) ->
  Forall2 (fun e q => new_Query_l e o = Ok q) exprs qs ->
  Forall2 (fun q b => test q d = Ok b) qs bs ->
  exists q_and q_or q_nor,
    new_Query_l (VObj [("$and", VArr exprs)]) o = Ok q_and /\
    new_Query_l (VObj [("$or", VArr exprs)]) o = Ok q_or /\
    new_Query_l (VObj [("$nor", VArr exprs)]) o = Ok q_nor /\
    test q_and d = Ok (forallb id bs) /\
    test q_or d = Ok (existsb id bs) /\
    test q_nor d = Ok (negb (existsb id bs)).
Proof.
  intros Hbound Htext Hqs Hbs.
  pose proof (mapM_compile _ _ _ Hqs) as Hmap.
  destruct (Htext "$and") as [t1 Ht1]; [simpl; tauto|].
  destruct (Htext "$or") as [t2 Ht2]; [simpl; tauto|].
  destruct (Htext "$nor") as [t3 Ht3]; [simpl; tauto|].
  pose proof (Hbound "$and" ltac:(simpl; tauto)) as Hand.
  pose proof (Hbound "$or" ltac:(simpl; tauto)) as Hor.
  pose proof (Hbound "$nor" ltac:(simpl; tauto)) as Hnor.
  unfold query_operator in Hand, Hor, Hnor.
  eexists {| condition := _; options := _; compiled := _ |},
          {| condition := _; options := _; compiled := _ |},
          {| condition := _; options := _; compiled := _ |}.
  unfold new_Query.
  rewrite (compile_top_level _ _ _ _ _ _ "$and" _ _ t1) by done.
  rewrite (compile_top_level _ _ _ _ _ _ "$or" _ _ t2) by done.
  rewrite (compile_top_level _ _ _ _ _ _ "$nor" _ _ t3) by done.
  unfold processOperator. rewrite Hand, Hor, Hnor.
  cbn [toBoolean bundle_function negb call_query_operator String.eqb Ascii.eqb Bool.eqb
       op_and op_or op_nor].
  change (initOptions (Some (initOptions o))) with (initOptions o).
  rewrite Hmap. cbn [mbind result_bind bind].
  repeat (split; [reflexivity|]).
  unfold test. cbn [compiled test_compiled].
  rewrite (everyM_tests _ _ _ Hbs), (someM_tests _ _ _ Hbs).
  cbn [mbind result_bind bind].
  by destruct (forallb id bs), (existsb id bs).
Qed.
End LogicalFacts.

Lemma logical_operators_over_branches_witness :
  exists q_and,
    new_Query bundle_registry 0 example_apply example_JSON example_call example_user
      (VObj [("$and", VArr [VObj [("a", VNum 1)]; VObj [("b", VNum 3)]])]) None =
      Ok q_and /\
    test q_and example_doc = Ok false.
Proof.
  destruct (logical_operators_over_branches
              bundle_registry 0 example_apply example_JSON example_call example_user
              None [VObj [("a", VNum 1)]; VObj [("b", VNum 3)]]
              [{| condition := VObj [("a", VNum 1)]; options := default_options;
                  compiled := [createQueryOperator (fun a b depth => Ok (eq_2 a b depth))
                                 "a" (VNum 1)] |};
               {| condition := VObj [("b", VNum 3)]; options := default_options;
                  compiled := [createQueryOperator (fun a b depth => Ok (eq_2 a b depth))
                                 "b" (VNum 3)] |}]
              example_doc [true; false])
    as (q_and & _ & _ & Hq & _ & _ & Ht & _).
  - intros name H. simpl in H. destruct H as [<-|[<-|[<-|[]]]]; reflexivity.
  - intros name _. by eexists.
  - constructor; [reflexivity|]. constructor; [reflexivity|]. constructor.
  - constructor; [reflexivity|]. constructor; [reflexivity|]. constructor.
  - exists q_and. split; [exact Hq|exact Ht].
Defined.

Section RejectionFacts.
Variable GLOBAL_CONTEXT : Context.
Variable Date_now : Z.
Variable apply_operator : fnid -> value -> value -> ComputeOptions -> result value.
Variable JSON_stringify : value -> result string.
Variable call_method : fnid -> value -> result value.
Variable user_query_operator : nat -> string -> value -> Options -> result predicate.

Local Abbreviation new_Query_r :=
  (new_Query GLOBAL_CONTEXT Date_now apply_operator JSON_stringify call_method
     user_query_operator).

(** X4: the conditions [new Query] rejects.  A condition that is not a
    mapping, an operator at the top level other than [$where], [$and],
    [$or], [$nor], [$expr] and [$jsonSchema], and an operator under a
    field that neither the context of the options nor the global registry
    binds, each end the construction with an error that names the
    culprit. *)
Theorem new_Query_rejects o :
  (forall cond text,
     isObject cond = false -> JSON_stringify cond = Ok text ->
     new_Query_r cond o = Throw (Error ("query criteria must be an object: " +:+ text))) /\
  (forall name v rest text,
     isOperator name = true -> (name =? "$where")%string = false ->
     in_strings name TOP_LEVEL = false ->
     JSON_stringify (VObj ((name, v) :: rest)) = Ok text ->
     new_Query_r (VObj ((name, v) :: rest)) o =
       Throw (Error ("unknown top level operator: " +:+ name))) /\
  (forall field name v rest text,
     isOperator field = false -> isOperator name = true ->
     (name =? "$regex")%string = false ->
     query_operator GLOBAL_CONTEXT name o = VNull ->
     JSON_stringify (VObj ((field, VObj [(name, v)]) :: rest)) = Ok text ->
     new_Query_r (VObj ((field, VObj [(name, v)]) :: rest)) o =
       Throw (Error ("unknown operator " +:+ name))).
Proof.
  split; [|split].
  - intros cond text Hobj Htext. unfold new_Query.
    destruct cond; try discriminate Hobj; cbn [compile]; by rewrite Htext.
  - intros name v rest text Hop Hwhere Htop Htext. unfold new_Query.
    cbn [compile]. rewrite Htext. cbn [mbind result_bind bind].
    by rewrite Hwhere, Htop, Hop.
  - intros field name v rest text Hfield Hname Hregex Hnull Htext. unfold new_Query.
    cbn [compile]. rewrite Htext. cbn [mbind result_bind bind].
    destruct (isOperator_not_special _ Hfield) as [-> ->]. rewrite Hfield.
    cbn [negb assert mbind result_bind bind keys map fst existsb]. rewrite Hname.
    cbn [orb has lookup_key]. rewrite Hregex.
    change (bool_decide (is_Some None)) with false. cbv iota.
    cbn [mapM fst snd].
    match goal with
    | |- context [processOperator ?G ?D ?a ?J ?c ?u ?mk ?opts field name v] =>
        assert (Hp : processOperator G D a J c u mk opts field name v =
                     Throw (Error ("unknown operator " +:+ name)))
          by (unfold processOperator; unfold query_operator in Hnull; by rewrite Hnull);
        rewrite Hp
    end.
    done.
Qed.
End RejectionFacts.

Lemma new_Query_rejects_witness :
  new_Query bundle_registry 0 example_apply example_JSON example_call example_user
    (VNum 3) None =
  Throw (Error "query criteria must be an object: ") /\
  new_Query bundle_registry 0 example_apply example_JSON example_call example_user
    (VObj [("$foo", VNum 1)]) None =
  Throw (Error "unknown top level operator: $foo") /\
  new_Query bundle_registry 0 example_apply example_JSON example_call example_user
    (VObj [("a", VObj [("$foo", VNum 1)])]) None =
  Throw (Error "unknown operator $foo").
Proof.
  destruct (new_Query_rejects bundle_registry 0 example_apply example_JSON example_call
              example_user None) as (H1 & H2 & H3).
  split; [|split].
  - exact (H1 (VNum 3) EmptyString eq_refl eq_refl).
  - exact (H2 "$foo" (VNum 1) [] EmptyString eq_refl eq_refl eq_refl eq_refl).
  - exact (H3 "a" "$foo" (VNum 1) [] EmptyString eq_refl eq_refl eq_refl eq_refl eq_refl).
Defined.

(** A field name without dot leads nowhere in a mapping that lacks it. *)
Lemma resolve_missing kvs field unwrapArray :
  no_dot field = true -> lookup_key field kvs = None ->
  resolve (VObj kvs) field unwrapArray = VUndefined.
Proof.
  intros Hdot Hmiss. unfold resolve. cbn [getType].
  change (in_strings _ JS_SIMPLE_TYPES) with false. cbv iota.
  rewrite (split_dot_name _ Hdot), resolve2_obj, Hmiss. done.
Qed.

Section MissingFieldFacts.
Variable GLOBAL_CONTEXT : Context.
Variable Date_now : Z.
Variable apply_operator : fnid -> value -> value -> ComputeOptions -> result value.
Variable JSON_stringify : value -> result string.
Variable call_method : fnid -> value -> result value.
Variable user_query_operator : nat -> string -> value -> Options -> result predicate.

Local Abbreviation new_Query_m :=
  (new_Query GLOBAL_CONTEXT Date_now apply_operator JSON_stringify call_method
     user_query_operator).

(** X5: a field that a document lacks.  The condition [{field: null}]
    accepts the document, as does [{field: {$exists: false}}], while
    [{field: {$ne: null}}] and [{field: {$exists: true}}] reject it: a
    query for null finds the documents without the field.  The field
    name is not one that a mapping inherits from its prototype (reading
    [toString] on a document finds the method), and the operators are
    assumed bound to those of the bundle. *)
Theorem null_matches_missing_field field kvs o :
  isOperator field = false -> no_dot field = true ->
  lookup_key field kvs = None -> inherited field = false ->
  (forall name, In name ["$eq"; "$ne"; "$exists"] ->
     query_operator GLOBAL_CONTEXT name o = bundle_function name) ->
  (forall v, exists text, JSON_stringify (VObj [(field, v)]) = Ok text) ->
  exists q_null q_ne q_absent q_present,
    new_Query_m (VObj [(field, VNull)]) o = Ok q_null /\
    new_Query_m (VObj [(field, VObj [("$ne", VNull)])]) o = Ok q_ne /\
    new_Query_m (VObj [(field, VObj [("$exists", VBool false)])]) o = Ok q_absent /\
    new_Query_m (VObj [(field, VObj [("$exists", VBool true)])]) o = Ok q_present /\
    test q_null (VObj kvs) = Ok true /\
    test q_ne (VObj kvs) = Ok false /\
    test q_absent (VObj kvs) = Ok true /\
    test q_present (VObj kvs) = Ok false.
Proof.
  intros Hfield Hdot Hmiss Hown Hbound Htext.
  pose proof (resolve_missing kvs field true Hdot Hmiss) as Hres.
  destruct (Htext VNull) as [t0 Ht0].
  assert (exists q0, new_Query_m (VObj [(field, VNull)]) o = Ok q0 /\
                     test q0 (VObj kvs) = Ok true) as (q0 & Hq0 & Htest0).
  { unfold new_Query.
    rewrite (compile_equalities GLOBAL_CONTEXT Date_now apply_operator JSON_stringify
               call_method user_query_operator [(field, VNull)] (initOptions o) t0).
    - eexists. split; [reflexivity|]. unfold test. cbn [compiled].
      rewrite test_compiled_equalities. cbn [forallb fst snd]. by rewrite Hres.
    - apply (Hbound "$eq"). simpl. tauto.
    - done.
    - unfold equality_entry. cbn [forallb fst snd]. by rewrite Hfield. }
  destruct (Htext (VObj [("$ne", VNull)])) as [t1 Ht1].
  destruct (new_Query_field_operator GLOBAL_CONTEXT Date_now apply_operator JSON_stringify
              call_method user_query_operator field "$ne" VNull o t1
              (createQueryOperator (fun a b depth => Ok (negb (eq_2 a b depth)))
                 field VNull)) as (q1 & Hq1 & Hc1);
    [done|done|done|apply Hbound; simpl; tauto|done|by intros mk|].
  destruct (Htext (VObj [("$exists", VBool false)])) as [t2 Ht2].
  destruct (new_Query_field_operator GLOBAL_CONTEXT Date_now apply_operator JSON_stringify
              call_method user_query_operator field "$exists" (VBool false) o t2
              (createQueryOperator (fun a b _ => Ok (exists_1 a b)) field (VBool false)))
    as (q2 & Hq2 & Hc2);
    [done|done|done|apply Hbound; simpl; tauto|done|by intros mk|].
  destruct (Htext (VObj [("$exists", VBool true)])) as [t3 Ht3].
  destruct (new_Query_field_operator GLOBAL_CONTEXT Date_now apply_operator JSON_stringify
              call_method user_query_operator field "$exists" (VBool true) o t3
              (createQueryOperator (fun a b _ => Ok (exists_1 a b)) field (VBool true)))
    as (q3 & Hq3 & Hc3);
    [done|done|done|apply Hbound; simpl; tauto|done|by intros mk|].
  exists q0, q1, q2, q3.
  repeat (split; [done|]).
  unfold test. rewrite Hc1, Hc2, Hc3.
  cbn [test_compiled]. rewrite !createQueryOperator_apply, Hres.
  done.
Qed.
End MissingFieldFacts.

Lemma null_matches_missing_field_witness :
  exists q_null,
    new_Query bundle_registry 0 example_apply example_JSON example_call example_user
      (VObj [("c", VNull)]) None = Ok q_null /\
    test q_null example_doc = Ok true.
Proof.
  destruct (null_matches_missing_field
              bundle_registry 0 example_apply example_JSON example_call example_user
              "c" [("a", VNum 1); ("b", VNum 2)] None eq_refl eq_refl eq_refl eq_refl)
    as (q_null & _ & _ & _ & Hq & _ & _ & _ & Ht & _).
  - intros name H. simpl in H. destruct H as [<-|[<-|[<-|[]]]]; reflexivity.
  - intros cond. by eexists.
  - exists q_null. split; [exact Hq|exact Ht].
Defined.

Lemma flatten_numbers ns depth : flatten (map VNum ns) depth = map VNum ns.
Proof. unfold flatten. induction ns as [|n ns IH]; [done|]. simpl. by rewrite IH. Qed.

Lemma existsb_isEqual_numbers m ns :
  existsb (isEqual (VNum m)) (map VNum ns) = existsb (Z.eqb m) ns.
Proof.
  induction ns as [|n ns IH]; [done|]. simpl. by rewrite isEqual_numbers, IH.
Qed.

Lemma existsb_pointwise {A} (g h : A -> bool) l :
  (forall x, g x = h x) -> existsb g l = existsb h l.
Proof. intros Hgh. induction l as [|x l IH]; [done|]. simpl. by rewrite Hgh, IH. Qed.

Lemma compare_with_array_of_numbers ns m f :
  compare_with (VArr (map VNum ns)) (VNum m) f =
  Ok (existsb (fun n => f (if n <? m then -1 else if m <? n then 1 else 0)) ns).
Proof.
  unfold compare_with. cbn [ensureArray_1].
  induction ns as [|n ns IH]; [done|].
  cbn [map someM existsb].
  pose proof (compare_with_numbers n m f) as H.
  unfold compare_with in H. cbn [ensureArray_1 someM] in H.
  destruct (if (getType (VNum n) =? getType (VNum m))%string then _ else _)
    as [b|e|]; try discriminate H.
  cbn [mbind result_bind bind] in H |- *.
  destruct b; injection H as <-; [done|]. by rewrite IH.
Qed.

Section ArrayFieldFacts.
Variable GLOBAL_CONTEXT : Context.
Variable Date_now : Z.
Variable apply_operator : fnid -> value -> value -> ComputeOptions -> result value.
Variable JSON_stringify : value -> result string.
Variable call_method : fnid -> value -> result value.
Variable user_query_operator : nat -> string -> value -> Options -> result predicate.

Local Abbreviation new_Query_a :=
  (new_Query GLOBAL_CONTEXT Date_now apply_operator JSON_stringify call_method
     user_query_operator).

(** X6: on a field that holds an array of numbers a comparison is
    passed by the array when one of its elements passes it: [$eq], [$lt],
    [$lte], [$gt] and [$gte] against a number accept the document exactly
    when some element stands in the relation, and [$ne] exactly when no
    element equals the number.  The operators are assumed bound to those
    of the bundle. *)
Theorem comparison_operators_on_an_array_of_numbers field o d ns m :
  isOperator field = false ->
  resolve d field true = VArr (map VNum ns) ->
  (forall name, In name (map fst comparison_table) ->
     query_operator GLOBAL_CONTEXT name o = bundle_function name) ->
  (forall name, In name (map fst comparison_table) ->
     exists text, JSON_stringify (VObj [(field, VObj [(name, VNum m)])]) = Ok text) ->
  forall name holds, In (name, holds) comparison_table ->
    exists q,
      new_Query_a (VObj [(field, VObj [(name, VNum m)])]) o = Ok q /\
      test q d =
        Ok (if (name =? "$ne")%string then negb (existsb (fun n => n =? m) ns)
            else existsb (fun n => holds n m) ns).
Proof.
  intros Hfield Hres Hbound Htext name holds Hin.
  assert (Hname : In name (map fst comparison_table)).
  { by apply (in_map fst) in Hin. }
  destruct (Htext name Hname) as [text Ht].
  specialize (Hbound name Hname).
  cbn [comparison_table In] in Hin.
  destruct Hin as [H|[H|[H|[H|[H|[H|[]]]]]]]; injection H as <- <-;
    (match type of Hbound with
     | query_operator _ ?nm _ = _ =>
         edestruct (new_Query_field_operator GLOBAL_CONTEXT Date_now apply_operator
                      JSON_stringify call_method user_query_operator
                      field nm (VNum m) o text) as (q & Hq & Hc);
         [exact Hfield|reflexivity|reflexivity|exact Hbound|exact Ht|
          intros mk; reflexivity|]
     end);
    exists q; (split; [exact Hq|]); unfold test; rewrite Hc;
    cbn [test_compiled]; rewrite createQueryOperator_apply, Hres;
    unfold gt_2, gte_2, lt_2, lte_2; rewrite ?compare_with_array_of_numbers;
    cbn [mbind result_bind bind String.eqb Ascii.eqb Bool.eqb].
  1,2: unfold eq_2; rewrite isEqual_spec; cbn [deepEq strictEq getConstructor];
       rewrite ?bool_decide_eq_false_2 by discriminate; cbn [negb orb isNil andb];
       rewrite flatten_numbers, existsb_isEqual_numbers, orb_diag;
       rewrite (existsb_pointwise (Z.eqb m) (fun n => n =? m))
         by (intros n; apply Z.eqb_sym);
       by destruct (existsb _ ns).
  all: match goal with
       | |- _ = Ok (existsb ?h ?l) =>
           rewrite (existsb_pointwise _ h); [by destruct (existsb h l)|]
       end; intros n; cbv beta.
  - destruct (Z.ltb_spec n m), (Z.ltb_spec m n); cbn; try done; lia.
  - destruct (Z.ltb_spec n m), (Z.ltb_spec m n), (Z.leb_spec n m); cbn; try done; lia.
  - unfold Z.gtb. rewrite Z.compare_antisym.
    destruct (Z.ltb_spec n m), (Z.ltb_spec m n), (Z.compare_spec m n); cbn; try done; lia.
  - unfold Z.geb.
    destruct (Z.ltb_spec n m), (Z.ltb_spec m n), (Z.compare_spec n m); cbn; try done; lia.
Qed.
End ArrayFieldFacts.

Lemma comparison_operators_on_an_array_of_numbers_witness :
  exists q,
    new_Query bundle_registry 0 example_apply example_JSON example_call example_user
      (VObj [("a", VObj [("$gt", VNum 5)])]) None = Ok q /\
    test q (VObj [("a", VArr [VNum 1; VNum 7])]) = Ok true.
Proof.
  destruct (comparison_operators_on_an_array_of_numbers
              bundle_registry 0 example_apply example_JSON example_call example_user
              "a" None (VObj [("a", VArr [VNum 1; VNum 7])]) [1; 7] 5 eq_refl eq_refl)
    with (name := "$gt") (holds := Z.gtb) as (q & Hq & Htest).
  - intros name H. simpl in H.
    destruct H as [<-|[<-|[<-|[<-|[<-|[<-|[]]]]]]]; reflexivity.
  - intros name _. by eexists.
  - simpl. tauto.
  - exists q. split; [exact Hq|]. rewrite Htest. reflexivity.
Defined.

Section WhereGuardFacts.
Variable GLOBAL_CONTEXT : Context.
Variable Date_now : Z.
Variable apply_operator : fnid -> value -> value -> ComputeOptions -> result value.
Variable JSON_stringify : value -> result string.
Variable call_method : fnid -> value -> result value.
Variable user_query_operator : nat -> string -> value -> Options -> result predicate.

Local Abbreviation new_Query_w :=
  (new_Query GLOBAL_CONTEXT Date_now apply_operator JSON_stringify call_method
     user_query_operator).

(** X7: the guards of [$where].  With the option [scriptEnabled] set to
    false the condition [{$where: rhs}] is refused, whatever [rhs] is;
    with scripts enabled it is refused unless [rhs] is a function; and
    for a function the query calls it with the document as [this] and
    accepts the document when the value returned is truthy (an exception
    of the function is the outcome of the test).  [$where] is assumed
    bound to the operator of the bundle. *)
Theorem where_is_guarded o rhs text :
  query_operator GLOBAL_CONTEXT "$where" (Some o) = bundle_function "$where" ->
  JSON_stringify (VObj [("$where", rhs)]) = Ok text ->
  (scriptEnabled o = Some false ->
     new_Query_w (VObj [("$where", rhs)]) (Some o) =
       Throw (Error "$where operator requires 'scriptEnabled' option to be true")) /\
  (scriptEnabled o <> Some false -> isFunction rhs = false ->
     new_Query_w (VObj [("$where", rhs)]) (Some o) =
       Throw (Error "$where only accepts a Function object")) /\
  (scriptEnabled o <> Some false ->
     forall f src, rhs = VFun f src ->
       exists q,
         new_Query_w (VObj [("$where", rhs)]) (Some o) = Ok q /\
         forall d,
           test q d =
           v ← call_method f d;
           Ok (truthy v (default true (useStrictMode o)))).
Proof.
  intros Hbound Htext.
  assert (Hcompile :
    compile GLOBAL_CONTEXT Date_now apply_operator JSON_stringify call_method
      user_query_operator (VObj [("$where", rhs)]) (initOptions (Some o)) =
    fn ← op_where call_method rhs (initOptions (Some o)); Ok [fn]).
  { cbn [compile]. rewrite Htext.
    cbn [mbind result_bind bind String.eqb Ascii.eqb Bool.eqb].
    unfold processOperator. unfold query_operator in Hbound. rewrite Hbound.
    cbn [bundle_function toBoolean negb call_query_operator String.eqb Ascii.eqb
         Bool.eqb].
    destruct (op_where call_method rhs (initOptions (Some o))); done. }
  unfold new_Query. rewrite Hcompile. unfold op_where.
  cbn [initOptions scriptEnabled useStrictMode default from_option id flag].
  split; [|split].
  - intros ->. done.
  - intros Hscript Hfun.
    destruct (scriptEnabled o) as [[]|]; try done; by destruct rhs.
  - intros Hscript f src ->.
    destruct (scriptEnabled o) as [[]|]; try done;
      (eexists; split; [reflexivity|]); intros d; unfold test;
      cbn [compiled test_compiled];
      destruct (call_method f d) as [v|e|]; try done;
      cbn [mbind result_bind bind]; by destruct (truthy v _).
Qed.
End WhereGuardFacts.

Lemma where_is_guarded_witness :
  new_Query bundle_registry 0 example_apply example_JSON example_call example_user
    (VObj [("$where", VNum 1)])
    (Some {| idKey := None; scriptEnabled := Some false; useStrictMode := None;
             useGlobalContext := None; context := None; variables := VUndefined |}) =
  Throw (Error "$where operator requires 'scriptEnabled' option to be true").
Proof.
  destruct (where_is_guarded
              bundle_registry 0 example_apply example_JSON example_call example_user
              {| idKey := None; scriptEnabled := Some false; useStrictMode := None;
                 useGlobalContext := None; context := None; variables := VUndefined |}
              (VNum 1) EmptyString eq_refl eq_refl) as [H _].
  exact (H eq_refl).
Defined.

(** ** More of the update engine *)

Lemma set_key_set_key k v w kvs : set_key k v (set_key k w kvs) = set_key k v kvs.
Proof.
  induction kvs as [|[k' v'] kvs IH]; simpl.
  - by rewrite String.eqb_refl.
  - destruct (String.eqb_spec k' k) as [->|Hne]; simpl.
    + by rewrite String.eqb_refl.
    + destruct (String.eqb_spec k' k); [done|]. by rewrite IH.
Qed.

Lemma set_key_insert_index i k v w kvs :
  lookup_key k kvs = None ->
  set_key k v (insert_index i k w kvs) = insert_index i k v kvs.
Proof.
  induction kvs as [|[k' v'] kvs IH]; simpl.
  - by rewrite String.eqb_refl.
  - destruct (String.eqb_spec k' k) as [->|Hne]; [done|]. intros Hmiss.
    destruct (array_index k') as [j|]; [destruct (j <? i)%nat|]; simpl;
      rewrite ?String.eqb_refl; try done.
    destruct (String.eqb_spec k' k); [done|]. by rewrite IH.
Qed.

Lemma set_key_app_fresh k v w kvs :
  lookup_key k kvs = None -> set_key k v (kvs ++ [(k, w)]) = kvs ++ [(k, v)].
Proof.
  induction kvs as [|[k' v'] kvs IH]; simpl.
  - by rewrite String.eqb_refl.
  - destruct (String.eqb_spec k' k) as [->|Hne]; [done|]. intros H. by rewrite IH.
Qed.

(** Assigning a key that was just assigned keeps its place. *)
Lemma set_key_define_key k v w kvs :
  set_key k v (define_key k w kvs) = define_key k v kvs.
Proof.
  unfold define_key. destruct (lookup_key k kvs) eqn:E.
  - apply set_key_set_key.
  - destruct (array_index k).
    + by apply set_key_insert_index.
    + by apply set_key_app_fresh.
Qed.

Lemma define_key_define_key k v w kvs :
  define_key k v (define_key k w kvs) = define_key k v kvs.
Proof.
  rewrite (define_key_present k v w (define_key k w kvs)) by apply lookup_define_key.
  apply set_key_define_key.
Qed.

Lemma buildable_cons kvs k k2 rest :
  buildable (VObj kvs) (k :: k2 :: rest) = true ->
  (exists kvs', lookup_key k kvs = Some (VObj kvs') /\
                buildable (VObj kvs') (k2 :: rest) = true) \/
  (isNil (getProp (VObj kvs) k) = true /\ buildable (VObj []) (k2 :: rest) = true).
Proof.
  cbn [buildable getProp].
  destruct (lookup_key k kvs) as [[]|]; try done; eauto.
Qed.

Lemma build_field_obj o names v : isObject o = true -> isObject (build_field o names v) = true.
Proof.
  destruct o as [| | | | | | | | |kvs]; try done. intros _.
  destruct names as [|k [|k2 rest]]; try done.
  cbn [build_field]. by destruct (lookup_key k kvs) as [[]|].
Qed.

(** [walk] with graph building, for a callback that assigns [v] at the
    leaf whatever is there. *)
Lemma walk_names_build (fn : updater) v names : forall obj b,
  buildable obj names = true ->
  (forall kvs k, fn (VObj kvs) (KStr k) = Ok (VObj (define_key k v kvs), true)) ->
  walk_names obj names fn {| buildGraph := true; descendArray := false |} b =
    Ok (build_field obj names v, true).
Proof.
  induction names as [|k rest IH]; intros obj b Hb Hfn.
  - by destruct obj.
  - destruct obj as [| | | | | | | | |kvs]; try (by destruct rest).
    destruct rest as [|k2 rest].
    + simpl. by rewrite Hfn.
    + rewrite walk_names_step. cbn [member name_of_key].
      apply buildable_cons in Hb as [(kvs' & Hk & Hb)|[Hnil Hb]].
      * cbn [getProp]. rewrite Hk.
        cbn [default from_option id mbind result_bind bind isNil member name_of_key
             getProp].
        rewrite Hk. cbn [default from_option id mbind result_bind bind toBoolean negb].
        rewrite (IH _ _ Hb Hfn). cbn [mbind result_bind bind with_member name_of_key].
        cbn [build_field]. by rewrite Hk.
      * cbn [mbind result_bind bind]. rewrite Hnil.
        cbn [assign_member name_of_key mbind result_bind bind member getProp].
        rewrite lookup_define_key.
        cbn [default from_option id mbind result_bind bind toBoolean negb].
        rewrite (IH _ _ Hb Hfn). cbn [mbind result_bind bind with_member name_of_key].
        rewrite set_key_define_key. cbn [build_field].
        cbn [getProp] in Hnil.
        destruct (lookup_key k kvs) as [[]|]; try done.
Qed.

(** The field is found where [build_field] put it. *)
Lemma resolve2_build_field names : forall o v first,
  buildable o names = true ->
  resolve2 (build_field o names v) names first 0 = (v, 0%nat).
Proof.
  induction names as [|k rest IH]; intros o v first Hb.
  - by destruct o.
  - destruct o as [| | | | | | | | |kvs]; try (by destruct rest).
    destruct rest as [|k2 rest].
    + cbn [build_field]. rewrite resolve2_obj, lookup_define_key. by destruct v.
    + assert (Hchild : exists child,
                build_field (VObj kvs) (k :: k2 :: rest) v = VObj child /\
                exists o', lookup_key k child = Some (build_field o' (k2 :: rest) v) /\
                           buildable o' (k2 :: rest) = true /\ isObject o' = true).
      { apply buildable_cons in Hb as [(kvs' & Hk & Hb)|[Hnil Hb]].
        - cbn [build_field]. rewrite Hk. eexists. split; [reflexivity|].
          exists (VObj kvs'). by rewrite lookup_set_key.
        - cbn [build_field getProp] in *.
          destruct (lookup_key k kvs) as [[]|]; try done;
            (eexists; split; [reflexivity|]); exists (VObj []);
            by rewrite lookup_define_key. }
      destruct Hchild as (child & -> & o' & Hk & Hb' & Hobj).
      rewrite resolve2_obj, Hk.
      pose proof (build_field_obj o' (k2 :: rest) v Hobj) as Hobj'.
      destruct (build_field o' (k2 :: rest) v) eqn:E; try done.
      cbn [isUndefined]. rewrite <- E. by apply IH.
Qed.

Lemma lookup_set_key_ne k k' v kvs :
  k <> k' -> lookup_key k' (set_key k v kvs) = lookup_key k' kvs.
Proof.
  intros Hne. induction kvs as [|[k0 v0] kvs IH]; simpl.
  - destruct (String.eqb_spec k k'); done.
  - destruct (String.eqb_spec k0 k) as [->|]; simpl.
    + destruct (String.eqb_spec k k'); done.
    + by rewrite IH.
Qed.

Lemma lookup_insert_index_ne i k k' v kvs :
  k <> k' -> lookup_key k' (insert_index i k v kvs) = lookup_key k' kvs.
Proof.
  intros Hne. induction kvs as [|[k0 v0] kvs IH]; simpl.
  - destruct (String.eqb_spec k k'); done.
  - destruct (array_index k0) as [j|]; [destruct (j <? i)%nat|]; simpl;
      try (destruct (String.eqb_spec k k'); done).
    by rewrite IH.
Qed.

Lemma lookup_define_key_ne k k' v kvs :
  k <> k' -> lookup_key k' (define_key k v kvs) = lookup_key k' kvs.
Proof.
  intros Hne. unfold define_key. destruct (lookup_key k kvs).
  - by apply lookup_set_key_ne.
  - destruct (array_index k).
    + by apply lookup_insert_index_ne.
    + rewrite lookup_key_app. destruct (lookup_key k' kvs); [done|].
      simpl. destruct (String.eqb_spec k k'); done.
Qed.

Lemma build_field_frame kvs k rest v k' :
  k <> k' ->
  getProp (build_field (VObj kvs) (k :: rest) v) k' = getProp (VObj kvs) k'.
Proof.
  intros Hne. destruct rest as [|k2 rest]; cbn [build_field getProp].
  - by rewrite lookup_define_key_ne.
  - destruct (lookup_key k kvs) as [[]|]; cbn [getProp];
      by rewrite ?lookup_define_key_ne, ?lookup_set_key_ne.
Qed.

(** X8: [setValue] and [resolve] round trip.  Along a path whose
    members are mappings, or are missing and then created as mappings,
    [setValue] returns normally, [resolve] with the same selector then
    finds the value that was set, and every other member of the object
    is as it was.  No name that is missing on the way is one that a
    mapping inherits from its prototype ([own_names]): under such a name
    [walk] finds the inherited member instead of nothing. *)
Theorem setValue_then_resolve obj selector val :
  buildable obj (split_dot selector) = true ->
  own_names obj (split_dot selector) = true ->
  isFunction val = false ->
  exists obj',
    setValue obj selector val = Ok obj' /\
    resolve obj' selector false = val /\
    forall k, k <> hd EmptyString (split_dot selector) -> getProp obj' k = getProp obj k.
Proof.
  intros Hb Hown Hfun. exists (build_field obj (split_dot selector) val).
  split; [|split].
  - assert (walk obj selector
              (fun item key => item ← assign_member item key val; Ok (item, true))
              {| buildGraph := true; descendArray := false |} =
            Ok (build_field obj (split_dot selector) val, true)) as Hwalk.
    { unfold walk. by apply walk_names_build. }
    unfold setValue. rewrite Hwalk. by destruct val.
  - unfold resolve. rewrite (resolve2_build_field _ _ _ true Hb).
    destruct obj as [| | | | | | | | |kvs];
      try (by destruct (split_dot selector) as [|? []]).
    assert (isObject (build_field (VObj kvs) (split_dot selector) val) = true) as Hobj
      by by apply build_field_obj.
    destruct (build_field (VObj kvs) (split_dot selector) val); try done.
    cbn [getType]. change (in_strings _ JS_SIMPLE_TYPES) with false.
    by rewrite andb_false_r.
  - intros k Hk.
    destruct obj as [| | | | | | | | |kvs];
      try (by destruct (split_dot selector) as [|? []]).
    destruct (split_dot selector) as [|k0 rest]; [done|].
    apply build_field_frame. cbn [hd] in Hk. congruence.
Qed.

Lemma setValue_then_resolve_witness :
  exists obj',
    setValue (VObj [("a", VNum 1)]) "b.c" (VNum 3) = Ok obj' /\
    resolve obj' "b.c" false = VNum 3.
Proof.
  destruct (setValue_then_resolve (VObj [("a", VNum 1)]) "b.c" (VNum 3)
              eq_refl eq_refl eq_refl)
    as (obj' & Hset & Hres & _).
  exists obj'. split; [exact Hset|exact Hres].
Defined.

(** [walk] along existing mappings, whatever the graph option, for a
    callback that deletes the key at the leaf, and for one that leaves
    the leaf as it is. *)
Lemma walk_names_delete graph (fn : updater) names : forall obj cur b,
  field_at obj names = Some cur ->
  (forall kvs k, fn (VObj kvs) (KStr k) = Ok (VObj (delete_key k kvs), true)) ->
  walk_names obj names fn {| buildGraph := graph; descendArray := false |} b =
    Ok (remove_field obj names, true).
Proof.
  induction names as [|k rest IH]; intros obj cur b H Hfn.
  - by destruct obj.
  - destruct obj as [| | | | | | | | |kvs]; try (by destruct rest).
    apply field_at_cons in H as [[-> ->]|[Hne (kvs' & Hk & H)]].
    + simpl. by rewrite Hfn.
    + destruct rest as [|k2 rest]; [done|].
      rewrite walk_names_step. cbn [member name_of_key getProp].
      rewrite Hk.
      assert ((if graph
               then Ok (default VUndefined (Some (VObj kvs'))) ≫= λ cur0 : value,
                      if isNil cur0 then assign_member (VObj kvs) (KStr k) (VObj [])
                      else Ok (VObj kvs)
               else Ok (VObj kvs)) = Ok (VObj kvs)) as -> by by destruct graph.
      cbn [default from_option id mbind result_bind bind isNil member name_of_key getProp].
      rewrite Hk. cbn [default from_option id mbind result_bind bind toBoolean negb].
      rewrite (IH _ _ _ H Hfn). cbn [mbind result_bind bind with_member name_of_key].
      cbn [remove_field getProp]. by rewrite Hk.
Qed.

Lemma walk_names_keep graph (fn : updater) names : forall obj cur b,
  field_at obj names = Some cur ->
  (forall kvs k, field_at obj names = Some (getProp (VObj kvs) k) ->
                 fn (VObj kvs) (KStr k) = Ok (VObj kvs, false)) ->
  walk_names obj names fn {| buildGraph := graph; descendArray := false |} b = Ok (obj, b).
Proof.
  induction names as [|k rest IH]; intros obj cur b H Hfn.
  - by destruct obj.
  - destruct obj as [| | | | | | | | |kvs]; try (by destruct rest).
    pose proof H as H0.
    apply field_at_cons in H as [[-> ->]|[Hne (kvs' & Hk & H)]].
    + simpl. by rewrite Hfn.
    + destruct rest as [|k2 rest]; [done|].
      rewrite walk_names_step. cbn [member name_of_key getProp].
      rewrite Hk.
      assert ((if graph
               then Ok (default VUndefined (Some (VObj kvs'))) ≫= λ cur0 : value,
                      if isNil cur0 then assign_member (VObj kvs) (KStr k) (VObj [])
                      else Ok (VObj kvs)
               else Ok (VObj kvs)) = Ok (VObj kvs)) as -> by by destruct graph.
      cbn [default from_option id mbind result_bind bind isNil member name_of_key getProp].
      rewrite Hk. cbn [default from_option id mbind result_bind bind toBoolean negb].
      rewrite (IH _ _ _ H).
      * cbn [mbind result_bind bind with_member name_of_key]. by rewrite set_key_same.
      * intros kvs0 k0 Hf. apply Hfn. cbn [field_at]. by rewrite Hk.
Qed.

Lemma lookup_delete_key k kvs : lookup_key k (delete_key k kvs) = None.
Proof.
  induction kvs as [|[k' v'] kvs IH]; simpl; [done|].
  destruct (String.eqb_spec k' k) as [->|Hne]; [done|].
  simpl. destruct (String.eqb_spec k' k); [done|]. apply IH.
Qed.

Lemma delete_key_absent k kvs : lookup_key k kvs = None -> delete_key k kvs = kvs.
Proof.
  induction kvs as [|[k' v'] kvs IH]; simpl; [done|].
  destruct (String.eqb_spec k' k) as [->|Hne]; [done|]. intros H. by rewrite IH.
Qed.

Lemma field_present_remove_field names : forall o cur,
  field_at o names = Some cur ->
  field_present (remove_field o names) names = false /\
  field_at (remove_field o names) names = Some VUndefined.
Proof.
  induction names as [|k rest IH]; intros o cur H.
  - by destruct o.
  - destruct o as [| | | | | | | | |kvs]; try (by destruct rest).
    apply field_at_cons in H as [[-> ->]|[Hne (kvs' & Hk & H)]].
    + cbn [remove_field field_present field_at has getProp].
      rewrite lookup_delete_key. done.
    + destruct rest as [|k2 rest]; [done|].
      destruct (IH _ _ H) as [IH1 IH2].
      cbn [remove_field field_present field_at getProp].
      rewrite Hk, lookup_set_key. cbn [default from_option id].
      destruct rest; cbn [remove_field] in *; done.
Qed.

(** X9: [removeValue] along existing mappings deletes the field, and
    nothing else: it returns normally, the mapping at the end of the path
    no longer has the key, so that the field resolves to undefined, and
    when the key was not there the object is as it was.  The name of the
    field is not one that a mapping inherits from its prototype: where an
    own [toString] is deleted, the inherited method shows again. *)
Theorem removeValue_deletes_field obj selector cur options :
  field_at obj (split_dot selector) = Some cur ->
  inherited (List.last (split_dot selector) EmptyString) = false ->
  default false (descendArray <$> options) = false ->
  removeValue obj selector options = Ok (remove_field obj (split_dot selector)) /\
  field_present (remove_field obj (split_dot selector)) (split_dot selector) = false /\
  resolve (remove_field obj (split_dot selector)) selector false = VUndefined /\
  (field_present obj (split_dot selector) = false ->
   remove_field obj (split_dot selector) = obj).
Proof.
  intros Hfield Hown Hdescend.
  destruct (field_present_remove_field _ _ _ Hfield) as [Hgone Hundef].
  split; [|split; [done|split]].
  - unfold removeValue, walk.
    assert (default no_walk_options options =
            {| buildGraph := default false (buildGraph <$> options);
               descendArray := false |}) as ->.
    { destruct options as [[g d]|]; [|done]. simpl in *. by subst. }
    erewrite walk_names_delete; [done|exact Hfield|]. by intros kvs k.
  - by destruct (resolve_field _ _ _ Hundef).
  - clear Hgone Hundef Hown. revert obj cur Hfield.
    induction (split_dot selector) as [|k rest IH]; intros obj cur Hfield Habsent.
    + by destruct obj.
    + destruct obj as [| | | | | | | | |kvs]; try (by destruct rest).
      apply field_at_cons in Hfield as [[-> ->]|[Hne (kvs' & Hk & H)]].
      * cbn [field_present has remove_field] in *.
        rewrite delete_key_absent; [done|].
        destruct (lookup_key k kvs); [|done].
        by rewrite bool_decide_eq_true_2 in Habsent by eauto.
      * destruct rest as [|k2 rest]; [done|].
        cbn [field_present remove_field getProp] in *. rewrite Hk in *.
        cbn [default from_option id]. rewrite (IH _ _ H Habsent).
        by rewrite set_key_same.
Qed.

Lemma removeValue_deletes_field_witness :
  removeValue (VObj [("a", VObj [("c", VNum 3); ("d", VNum 4)])]) "a.c" None =
  Ok (VObj [("a", VObj [("d", VNum 4)])]).
Proof.
  destruct (removeValue_deletes_field
              (VObj [("a", VObj [("c", VNum 3); ("d", VNum 4)])]) "a.c" (VNum 3) None
              eq_refl eq_refl eq_refl) as [H _].
  exact H.
Defined.

(** ** [$set] along the paths that [walk] builds *)

Lemma array_index_NUMBER_RE k i : array_index k = Some i -> NUMBER_RE k = true.
Proof. unfold array_index. by destruct (NUMBER_RE k). Qed.

Lemma lookup_nth_lt {A} (xs : list A) i d :
  (i < length xs)%nat -> xs !! i = Some (nth i xs d).
Proof.
  revert i. induction xs as [|x xs IH]; intros [|i] Hi; simpl in *; try lia; [done|].
  apply IH. lia.
Qed.

Lemma nth_insert_same {A} (xs : list A) i v d :
  (i < length xs)%nat -> nth i (<[i := v]> xs) d = v.
Proof.
  revert i. induction xs as [|x xs IH]; intros [|i] Hi; simpl in *; try lia; [done|].
  apply IH. lia.
Qed.

Lemma put_member_same o k :
  isNil (getProp o k) = false -> put_member o k (getProp o k) = o.
Proof.
  destruct o as [| | | | | | | |xs|kvs]; try done; cbn [put_member getProp].
  - destruct (array_index k) as [i|]; [|done]. intros Hnil.
    destruct (Nat.ltb_spec i (length xs)) as [Hi|Hi].
    + f_equal. apply list_insert_id. by apply lookup_nth_lt.
    + by rewrite nth_overflow in Hnil.
  - destruct (lookup_key k kvs) as [v|] eqn:Hk; [|done]. intros _.
    cbn [default from_option id]. rewrite (define_key_present _ _ _ _ Hk).
    by rewrite (set_key_same _ _ _ Hk).
Qed.

Lemma getProp_put_member o k v :
  settable o [k] = true -> getProp (put_member o k v) k = v.
Proof.
  destruct o as [| | | | | | | |xs|kvs]; try done; cbn [settable put_member getProp].
  - destruct (array_index k) as [i|] eqn:Hk; [|done]. intros Hi%Nat.leb_le.
    destruct (Nat.ltb_spec i (length xs)) as [Hlt|Hge]; cbn [getProp]; rewrite Hk.
    + by apply nth_insert_same.
    + assert (i = length xs) as -> by lia. apply (nth_at_length xs []).
  - intros _. by rewrite lookup_define_key.
Qed.

(** The first step of a path of two names or more. *)
Lemma settable_cons o k k2 rest :
  settable o (k :: k2 :: rest) = true ->
  settable o [k] = true /\
  settable (if isNil (getProp o k) then VObj [] else getProp o k) (k2 :: rest) = true.
Proof.
  destruct o as [| | | | | | | |xs|kvs]; try done; cbn [settable getProp].
  - destruct (array_index k) as [i|]; [|done].
    destruct (Nat.ltb_spec i (length xs)) as [Hlt|Hge].
    + intros H. split; [apply Nat.leb_le; lia|]. by destruct (isNil (nth i xs VUndefined)).
    + destruct (Nat.eqb_spec i (length xs)) as [->|]; [|done].
      intros H. split; [by apply Nat.leb_le|]. by rewrite nth_overflow.
  - intros H. split; [done|].
    destruct (lookup_key k kvs) as [item|]; [|done]. cbn [default from_option id].
    by destruct (isNil item).
Qed.

Lemma put_field_cons o k k2 rest v :
  put_field o (k :: k2 :: rest) v =
  put_member o k
    (put_field (if isNil (getProp o k) then VObj [] else getProp o k) (k2 :: rest) v).
Proof. reflexivity. Qed.

Lemma field_value_cons o k k2 rest :
  field_value o (k :: k2 :: rest) =
  if isNil (getProp o k) then VUndefined else field_value (getProp o k) (k2 :: rest).
Proof. reflexivity. Qed.

Lemma put_field_container o names v :
  settable o names = true -> isNil (put_field o names v) = false.
Proof.
  destruct names as [|k [|k2 rest]]; [done| |];
    destruct o as [| | | | | | | |xs|kvs]; try done; cbn [settable put_field put_member].
  - destruct v; [|done]. by destruct (array_index k) as [i|]; [destruct (i <? length xs)%nat|].
  - by destruct v.
  - by destruct (array_index k) as [i|]; [destruct (i <? length xs)%nat|].
Qed.

(** The field holds what [put_field] put there. *)
Lemma field_value_put_field names : forall o v,
  settable o names = true -> field_value (put_field o names (Some v)) names = v.
Proof.
  induction names as [|k rest IH]; intros o v Hs; [done|].
  destruct rest as [|k2 rest].
  - cbn [field_value put_field]. by apply getProp_put_member.
  - apply settable_cons in Hs as [Hk Hs].
    rewrite put_field_cons, field_value_cons, (getProp_put_member _ _ _ Hk).
    rewrite (put_field_container _ _ _ Hs). by apply IH.
Qed.

Lemma isEqual_undefined val : isEqual VUndefined val = true -> isUndefined val = true.
Proof. rewrite isEqual_spec. destruct val; try done. simpl. by destruct (has_constructor _). Qed.

(** Where the field holds a value equal to one that is not undefined,
    nothing was missing on the way, and the walk leaves the document as
    it is. *)
Lemma put_field_None names : forall o val,
  settable o names = true ->
  isEqual (field_value o names) val = true -> isUndefined val = false ->
  put_field o names None = o.
Proof.
  induction names as [|k rest IH]; intros o val Hs Heq Hval; [done|].
  destruct rest as [|k2 rest]; [done|].
  apply settable_cons in Hs as [Hk Hs].
  rewrite put_field_cons. rewrite field_value_cons in Heq.
  destruct (isNil (getProp o k)) eqn:Hnil.
  - apply isEqual_undefined in Heq. congruence.
  - rewrite (IH _ val Hs Heq Hval). by apply put_member_same.
Qed.

Lemma member_settable o k :
  settable o [k] = true -> member o (KStr k) = Ok (getProp o k).
Proof. by destruct o. Qed.

Lemma assign_member_settable o k v :
  settable o [k] = true -> assign_member o (KStr k) v = Ok (put_member o k v).
Proof.
  destruct o as [| | | | | | | |xs|kvs]; try done; cbn [settable assign_member put_member].
  cbn [index_of_key]. destruct (array_index k) as [i|]; [|done]. intros Hi%Nat.leb_le.
  destruct (Nat.ltb_spec i (length xs)); [done|].
  by destruct (Nat.eqb_spec i (length xs)); [|lia].
Qed.

Lemma settable_put_member o k v :
  settable o [k] = true -> settable (put_member o k v) [k] = true.
Proof.
  destruct o as [| | | | | | | |xs|kvs]; try done; cbn [settable put_member].
  destruct (array_index k) as [i|] eqn:Hk; [|done]. intros Hi%Nat.leb_le.
  destruct (Nat.ltb_spec i (length xs)); cbn [settable]; apply Nat.leb_le.
  - rewrite length_insert. lia.
  - rewrite length_app. simpl. lia.
Qed.

Lemma with_member_put_member o k w v :
  settable o [k] = true ->
  with_member (put_member o k w) (KStr k) v = put_member o k v.
Proof.
  destruct o as [| | | | | | | |xs|kvs]; try done;
    cbn [settable put_member with_member name_of_key index_of_key].
  - destruct (array_index k) as [i|] eqn:Hk; [|done]. intros Hi%Nat.leb_le.
    destruct (Nat.ltb_spec i (length xs)); cbn [with_member index_of_key]; rewrite Hk.
    + by rewrite list_insert_insert_eq.
    + assert (i = length xs) as -> by lia. f_equal.
      apply (insert_at_length xs [] w v).
  - intros _. by rewrite set_key_define_key.
Qed.

Lemma with_member_present o k v :
  settable o [k] = true -> isNil (getProp o k) = false ->
  with_member o (KStr k) v = put_member o k v.
Proof.
  intros Hs Hnil. rewrite <- (put_member_same o k Hnil) at 1.
  by apply with_member_put_member.
Qed.

Lemma settable_truthy o names : settable o names = true -> toBoolean o = true.
Proof. destruct names as [|k [|k2 rest]]; [done|by destruct o..]. Qed.

Lemma field_value_empty names : names <> [] -> field_value (VObj []) names = VUndefined.
Proof. by destruct names as [|k [|k2 rest]]. Qed.

(** [walk] with graph building, for the callback of [$set]. *)
Lemma walk_names_set val stored names : forall obj b,
  settable obj names = true ->
  walk_names obj names
    (fun o k =>
       cur ← member o k;
       if isEqual cur val then Ok (o, false)
       else o ← assign_member o k stored; Ok (o, true))
    {| buildGraph := true; descendArray := false |} b =
  Ok (if isEqual (field_value obj names) val then (put_field obj names None, b)
      else (put_field obj names (Some stored), true)).
Proof.
  induction names as [|k rest IH]; intros obj b Hs; [done|].
  destruct rest as [|k2 rest].
  - cbn [walk_names field_value put_field].
    assert (isObject obj || isArray obj && NUMBER_RE k = true) as ->.
    { destruct obj as [| | | | | | | |xs|kvs]; try done. cbn [settable] in Hs.
      destruct (array_index k) as [i|] eqn:Hk; [|done].
      by rewrite (array_index_NUMBER_RE _ _ Hk). }
    rewrite (member_settable _ _ Hs). cbn [mbind result_bind bind].
    destruct (isEqual (getProp obj k) val); [done|].
    by rewrite (assign_member_settable _ _ _ Hs).
  - rewrite walk_names_step, !put_field_cons, field_value_cons.
    apply settable_cons in Hs as [Hk Hs].
    rewrite (member_settable _ _ Hk). cbn [mbind result_bind bind].
    destruct (isNil (getProp obj k)) eqn:Hnil.
    + rewrite (assign_member_settable _ _ _ Hk). cbn [mbind result_bind bind].
      rewrite (member_settable _ _ (settable_put_member _ _ _ Hk)).
      rewrite (getProp_put_member _ _ _ Hk).
      cbn [mbind result_bind bind toBoolean negb].
      rewrite (IH _ b Hs), field_value_empty by done.
      destruct (isEqual VUndefined val); cbn [mbind result_bind bind];
        by rewrite (with_member_put_member _ _ _ _ Hk).
    + cbn [mbind result_bind bind]. rewrite (member_settable _ _ Hk).
      cbn [mbind result_bind bind]. rewrite (settable_truthy _ _ Hs). cbn [negb].
      rewrite (IH _ b Hs).
      destruct (isEqual _ val); cbn [mbind result_bind bind];
        by rewrite (with_member_present _ _ _ Hk Hnil).
Qed.

Section SetFacts.
Variable GLOBAL_CONTEXT : Context.
Variable Date_now : Z.
Variable apply_operator : fnid -> value -> value -> ComputeOptions -> result value.
Variable JSON_stringify : value -> result string.
Variable call_method : fnid -> value -> result value.
Variable user_query_operator : nat -> string -> value -> Options -> result predicate.

Local Abbreviation update_set' :=
  (update_set GLOBAL_CONTEXT Date_now apply_operator JSON_stringify call_method
     user_query_operator).

(** C3 (amended): take a selector without array filter whose names
    [walk] can follow to a field ([settable]): through mappings and
    through sequences by index, a member that is missing, null or
    undefined on the way being created as an empty mapping.  Let [cur]
    be the value of the field, undefined where it or a member on the way
    is missing.  [$set] with a value deep-equal to [cur] returns the
    empty list, and leaves the document as it is unless the value is
    undefined; with any other value it returns the list of exactly that
    selector, and the field then holds the clone of the value.

    The value is an object of its own, not one that the document holds.
    A name missing on the way is not one that a mapping inherits from
    its prototype ([own_names]), and no mapping of the value has a member
    named [__proto__], which a clone would lack ([no_proto]). *)
Theorem set_reports_exactly_the_changed_path obj selector val arrayFilters options :
  includes selector ".$" = false ->
  settable obj (split_dot selector) = true ->
  own_names obj (split_dot selector) = true ->
  no_proto val = true ->
  let names := split_dot selector in
  let cur := field_value obj names in
  let stored := clone (cloneMode options) val in
  update_set' obj (VObj [(selector, val)]) arrayFilters options =
    Ok (if isEqual cur val then (put_field obj names None, [])
        else (put_field obj names (Some stored), [selector])) /\
  (isEqual cur val = true -> isUndefined val = false ->
   put_field obj names None = obj) /\
  field_value (put_field obj names (Some stored)) names = stored.
Proof.
  intros Hplain Hs Hown Hproto names cur stored. subst names cur stored.
  split; [|split].
  - unfold update_set. rewrite walkExpression_plain by done.
    cbn [applyUpdate]. unfold walk, build_graph.
    rewrite (walk_names_set val (clone (cloneMode options) val) _ obj false Hs).
    by destruct (isEqual _ val).
  - intros Heq Hval. by eapply put_field_None.
  - by apply field_value_put_field.
Qed.
End SetFacts.

Lemma set_reports_exactly_the_changed_path_witness :
  update_set bundle_registry 0 example_apply example_JSON example_call example_user
    (VObj [("a", VArr [VObj [("b", VNum 1)]])]) (VObj [("a.0.c.d", VNum 2)]) []
    example_update_options =
  Ok (VObj [("a", VArr [VObj [("b", VNum 1); ("c", VObj [("d", VNum 2)])]])],
      ["a.0.c.d"]).
Proof.
  pose proof (set_reports_exactly_the_changed_path
                bundle_registry 0 example_apply example_JSON example_call example_user
                (VObj [("a", VArr [VObj [("b", VNum 1)]])]) "a.0.c.d" (VNum 2) []
                example_update_options eq_refl eq_refl eq_refl eq_refl) as [H _].
  rewrite H. reflexivity.
Defined.

Section UpdaterFacts.
Variable GLOBAL_CONTEXT : Context.
Variable Date_now : Z.
Variable apply_operator : fnid -> value -> value -> ComputeOptions -> result value.
Variable JSON_stringify : value -> result string.
Variable call_method : fnid -> value -> result value.
Variable user_query_operator : nat -> string -> value -> Options -> result predicate.

Local Abbreviation updateDocument_u :=
  (updateDocument GLOBAL_CONTEXT Date_now apply_operator JSON_stringify call_method
     user_query_operator).
Local Abbreviation updateObject_u :=
  (updateObject GLOBAL_CONTEXT Date_now apply_operator JSON_stringify call_method
     user_query_operator).
Local Abbreviation mutate_u :=
  (mutate GLOBAL_CONTEXT Date_now apply_operator JSON_stringify call_method
     user_query_operator).

(** The options [updateObject] hands to an operator when the caller gives
    none. *)
Lemma updateDocument_single op args data :
  in_strings op UPDATE_OPERATORS = true ->
  updateDocument_u data (VObj [(op, args)]) =
    mutate_u op data args []
      {| cloneMode := Some "copy";
         queryOptions := Some (initOptions (Some (lenient None))) |}.
Proof.
  intros Hop. unfold updateDocument, updateObject, createUpdater.
  cbn [Object_entries own_props mbind result_bind bind length Nat.eqb assert toBoolean].
  rewrite Hop. reflexivity.
Qed.

(** X10: [updateDocument] with [$inc].  On a field that holds a number,
    or that is missing in the mapping the path leads to, the increment is
    added (to 0 for a missing field), and the path is reported as
    modified, also when the increment is 0.  The number in the field, the
    increment and their sum are within [MIN_LONG] and [MAX_LONG], where
    the addition of doubles is exact, and a missing field does not have a
    name that a mapping inherits from its prototype ([own_names]). *)
Theorem updateDocument_inc data selector cur c :
  includes selector ".$" = false ->
  field_at data (split_dot selector) = Some cur ->
  own_names data (split_dot selector) = true ->
  isUndefined cur = true \/ isLong cur = true ->
  isLong (VNum c) = true ->
  let sum := match cur with VNum n => n + c | _ => c end in
  isLong (VNum sum) = true ->
  updateDocument_u data (VObj [("$inc", VObj [(selector, VNum c)])]) =
    Ok (set_field data (split_dot selector) (VNum sum), [selector]).
Proof.
  intros Hplain Hfield Hown Hlong Hc sum Hsum. subst sum.
  assert (Hcur : isUndefined cur = true \/ isNumber cur = true).
  { destruct Hlong as [H|H]; [by left|right; by destruct cur]. }
  rewrite updateDocument_single by reflexivity.
  unfold mutate. cbn [String.eqb Ascii.eqb Bool.eqb].
  unfold update_inc. rewrite walkExpression_plain by done.
  cbn [node_child node_parent].
  destruct (resolve_field _ _ _ Hfield) as [-> _].
  assert (isUndefined cur || isNumber cur = true) as ->.
  { destruct Hcur as [->| ->]; [done|by rewrite orb_true_r]. }
  cbn [assert mbind result_bind bind applyUpdate]. unfold walk.
  erewrite walk_names_assign; [reflexivity|exact Hfield|].
  intros kvs k Hk. cbn [member name_of_key]. rewrite Hk.
  cbn [mbind result_bind bind].
  destruct cur; try (destruct Hcur; discriminate).
  - cbn [toBoolean assign_member name_of_key mbind result_bind bind js_add is_object
         isString orb toNumber].
    by rewrite define_key_define_key.
  - cbn [toBoolean]. destruct (Z.eqb_spec n 0) as [->|Hn];
      cbn [negb assign_member name_of_key mbind result_bind bind js_add is_object
           isString orb toNumber].
    + by rewrite define_key_define_key.
    + done.
Qed.
End UpdaterFacts.

Lemma updateDocument_inc_witness :
  updateDocument bundle_registry 0 example_apply example_JSON example_call example_user
    (VObj [("a", VNum 1)]) (VObj [("$inc", VObj [("a", VNum 2)])]) =
  Ok (VObj [("a", VNum 3)], ["a"]).
Proof.
  exact (updateDocument_inc bundle_registry 0 example_apply example_JSON example_call
           example_user (VObj [("a", VNum 1)]) "a" (VNum 1) 2 eq_refl eq_refl eq_refl
           (or_intror eq_refl) eq_refl eq_refl).
Defined.

Section ExtremumFacts.
Variable GLOBAL_CONTEXT : Context.
Variable Date_now : Z.
Variable apply_operator : fnid -> value -> value -> ComputeOptions -> result value.
Variable JSON_stringify : value -> result string.
Variable call_method : fnid -> value -> result value.
Variable user_query_operator : nat -> string -> value -> Options -> result predicate.

Local Abbreviation updateDocument_e :=
  (updateDocument GLOBAL_CONTEXT Date_now apply_operator JSON_stringify call_method
     user_query_operator).

Lemma compare_1_numbers n m :
  compare_1 (VNum n) (VNum m) = Ok (if n <? m then -1 else if m <? n then 1 else 0).
Proof.
  unfold compare_1. cbn [getType].
  change (SORT_ORDER_BY_TYPE (toLowerCase "Number")) with 1.
  change (1 =? 1) with true. cbn [negb orb lessThan].
  by destruct (n <? m), (m <? n).
Qed.

(** X11: [updateDocument] with [$max] and [$min] on a field that holds a
    number [n], for a number [m]: [$max] leaves the larger and [$min] the
    smaller of the two in the field, and the path is reported exactly
    when the field changed; on a field that is missing both store [m].
    A missing field does not have a name that a mapping inherits from its
    prototype ([own_names]). *)
Theorem updateDocument_max_min data selector cur m :
  includes selector ".$" = false ->
  field_at data (split_dot selector) = Some cur ->
  own_names data (split_dot selector) = true ->
  isUndefined cur = true \/ isNumber cur = true ->
  let n := match cur with VNum n => n | _ => m end in
  let stored (v : Z) := set_field data (split_dot selector) (VNum v) in
  updateDocument_e data (VObj [("$max", VObj [(selector, VNum m)])]) =
    Ok (if isUndefined cur || (n <? m) then (stored (Z.max n m), [selector])
        else (data, [])) /\
  updateDocument_e data (VObj [("$min", VObj [(selector, VNum m)])]) =
    Ok (if isUndefined cur || (m <? n) then (stored (Z.min n m), [selector])
        else (data, [])).
Proof.
  intros Hplain Hfield Hown Hcur n stored.
  rewrite !updateDocument_single by reflexivity.
  unfold mutate. cbn [String.eqb Ascii.eqb Bool.eqb].
  unfold update_max, update_min, update_extremum.
  rewrite !walkExpression_plain by done.
  cbn [applyUpdate]. unfold walk.
  destruct cur as [| | |k| | | | | |]; try (destruct Hcur; discriminate);
    subst n stored; cbn [isUndefined orb].
  - rewrite Z.max_id, Z.min_id.
    split; (erewrite walk_names_assign; [reflexivity|exact Hfield|]);
      intros kvs k Hk; cbn [member name_of_key]; rewrite Hk; done.
  - split.
    + destruct (Z.ltb_spec k m).
      * rewrite Z.max_r by lia.
        erewrite walk_names_assign; [reflexivity|exact Hfield|].
        intros kvs f Hf. cbn [member name_of_key]. rewrite Hf.
        cbn [mbind result_bind bind isUndefined negb]. rewrite compare_1_numbers.
        destruct (Z.ltb_spec k m); [done|lia].
      * erewrite walk_names_no_change; [reflexivity|exact Hfield|].
        intros kvs f Hf. cbn [member name_of_key]. rewrite Hf.
        cbn [mbind result_bind bind isUndefined negb]. rewrite compare_1_numbers.
        destruct (Z.ltb_spec k m); [lia|]. by destruct (m <? k).
    + destruct (Z.ltb_spec m k).
      * rewrite Z.min_r by lia.
        erewrite walk_names_assign; [reflexivity|exact Hfield|].
        intros kvs f Hf. cbn [member name_of_key]. rewrite Hf.
        cbn [mbind result_bind bind isUndefined negb]. rewrite compare_1_numbers.
        destruct (Z.ltb_spec k m); [lia|]. destruct (Z.ltb_spec m k); [done|lia].
      * erewrite walk_names_no_change; [reflexivity|exact Hfield|].
        intros kvs f Hf. cbn [member name_of_key]. rewrite Hf.
        cbn [mbind result_bind bind isUndefined negb]. rewrite compare_1_numbers.
        destruct (Z.ltb_spec k m); [done|]. destruct (Z.ltb_spec m k); [lia|done].
Qed.
End ExtremumFacts.

Lemma updateDocument_max_min_witness :
  updateDocument bundle_registry 0 example_apply example_JSON example_call example_user
    (VObj [("a", VNum 1)]) (VObj [("$max", VObj [("a", VNum 2)])]) =
  Ok (VObj [("a", VNum 2)], ["a"]).
Proof.
  destruct (updateDocument_max_min bundle_registry 0 example_apply example_JSON
              example_call example_user (VObj [("a", VNum 1)]) "a" (VNum 1) 2
              eq_refl eq_refl eq_refl (or_intror eq_refl)) as [H _].
  exact H.
Defined.

Section UnsetFacts.
Variable GLOBAL_CONTEXT : Context.
Variable Date_now : Z.
Variable apply_operator : fnid -> value -> value -> ComputeOptions -> result value.
Variable JSON_stringify : value -> result string.
Variable call_method : fnid -> value -> result value.
Variable user_query_operator : nat -> string -> value -> Options -> result predicate.

Local Abbreviation updateDocument_n :=
  (updateDocument GLOBAL_CONTEXT Date_now apply_operator JSON_stringify call_method
     user_query_operator).

(** X12: [updateDocument] with [$unset] along existing mappings.  When
    the mapping at the end of the path has the key, the key is deleted
    and the path is reported; when it does not, nothing is reported and
    the document is as it was.  Whatever value the expression gives for
    the path is ignored. *)
Theorem updateDocument_unset data selector cur ignored :
  includes selector ".$" = false ->
  field_at data (split_dot selector) = Some cur ->
  updateDocument_n data (VObj [("$unset", VObj [(selector, ignored)])]) =
    Ok (if field_present data (split_dot selector)
        then (remove_field data (split_dot selector), [selector])
        else (data, [])) /\
  field_present (remove_field data (split_dot selector)) (split_dot selector) = false.
Proof.
  intros Hplain Hfield.
  split; [|by destruct (field_present_remove_field _ _ _ Hfield)].
  rewrite updateDocument_single by reflexivity.
  unfold mutate. cbn [String.eqb Ascii.eqb Bool.eqb].
  unfold update_unset. rewrite walkExpression_plain by done.
  cbn [applyUpdate]. unfold walk, no_walk_options.
  revert data cur Hfield.
  induction (split_dot selector) as [|k rest IH]; intros data cur Hfield.
  - by destruct data.
  - destruct data as [| | | | | | | | |kvs]; try (by destruct rest).
    apply field_at_cons in Hfield as [[-> ->]|[Hne (kvs' & Hk & H)]].
    + cbn [walk_names isObject orb has_member name_of_key field_present remove_field
           isArray delete_member].
      by destruct (has (VObj kvs) k).
    + destruct rest as [|k2 rest]; [done|].
      rewrite walk_names_step. cbn [member name_of_key getProp mbind result_bind bind].
      rewrite Hk. cbn [default from_option id mbind result_bind bind toBoolean negb].
      specialize (IH _ _ H).
      destruct (walk_names (VObj kvs') (k2 :: rest) _ _ false) as [[item r]|e|] eqn:Hw;
        try (by destruct (field_present (VObj kvs') (k2 :: rest))).
      cbn [mbind result_bind bind] in IH |- *.
      change (field_present (VObj kvs) (k :: k2 :: rest))
        with (match lookup_key k kvs with
              | Some (VObj kvs') => field_present (VObj kvs') (k2 :: rest)
              | _ => false
              end).
      change (remove_field (VObj kvs) (k :: k2 :: rest))
        with (VObj (set_key k (remove_field (default VUndefined (lookup_key k kvs))
                                 (k2 :: rest)) kvs)).
      rewrite Hk. cbn [default from_option id with_member name_of_key].
      destruct (field_present (VObj kvs') (k2 :: rest));
        injection IH as -> Hr; destruct r; try discriminate Hr;
        by rewrite ?(set_key_same _ _ _ Hk).
Qed.
End UnsetFacts.

Lemma updateDocument_unset_witness :
  updateDocument bundle_registry 0 example_apply example_JSON example_call example_user
    (VObj [("a", VNum 1); ("b", VNum 2)]) (VObj [("$unset", VObj [("a", VStr "")])]) =
  Ok (VObj [("b", VNum 2)], ["a"]).
Proof.
  destruct (updateDocument_unset bundle_registry 0 example_apply example_JSON
              example_call example_user (VObj [("a", VNum 1); ("b", VNum 2)]) "a"
              (VNum 1) (VStr "") eq_refl eq_refl) as [H _].
  exact H.
Defined.

Section UpdaterValidationFacts.
Variable GLOBAL_CONTEXT : Context.
Variable Date_now : Z.
Variable apply_operator : fnid -> value -> value -> ComputeOptions -> result value.
Variable JSON_stringify : value -> result string.
Variable call_method : fnid -> value -> result value.
Variable user_query_operator : nat -> string -> value -> Options -> result predicate.

Local Abbreviation updateObject_v :=
  (updateObject GLOBAL_CONTEXT Date_now apply_operator JSON_stringify call_method
     user_query_operator).
Local Abbreviation new_Query_v :=
  (new_Query GLOBAL_CONTEXT Date_now apply_operator JSON_stringify call_method
     user_query_operator).

(** X13: what [updateObject] checks before it updates.  An expression
    that does not have exactly one entry, and an operator that is not one
    of the update operators, end the call with an error; and when
    conditions are given and the object fails them, the call returns the
    empty list and the object is as it was.  The conditions are compiled
    with the query options of the call, in which strict mode is off unless
    the caller turns it on. *)
Theorem updateObject_validates obj arrayFilters options :
  (forall entries conditions,
     length entries <> 1%nat ->
     updateObject_v obj (VObj entries) arrayFilters conditions options =
       Throw (Error "Update expression must contain only one operator.")) /\
  (forall op args conditions,
     in_strings op UPDATE_OPERATORS = false ->
     updateObject_v obj (VObj [(op, args)]) arrayFilters conditions options =
       Throw (Error ("Update operator '" +:+ op +:+ "' is not supported."))) /\
  (forall op args c cs q,
     in_strings op UPDATE_OPERATORS = true ->
     new_Query_v (VObj (c :: cs))
       (Some (initOptions (Some (lenient (queryOptions options))))) = Ok q ->
     test q obj = Ok false ->
     updateObject_v obj (VObj [(op, args)]) arrayFilters (VObj (c :: cs)) options =
       Ok (obj, [])).
Proof.
  split; [|split].
  - intros entries conditions Hlen. unfold updateObject, createUpdater.
    cbn [Object_entries own_props mbind result_bind bind].
    destruct (Nat.eqb_spec (length entries) 1); [done|]. reflexivity.
  - intros op args conditions Hop. unfold updateObject, createUpdater.
    cbn [Object_entries own_props mbind result_bind bind length Nat.eqb assert].
    by rewrite Hop.
  - intros op args c cs q Hop Hq Htest. unfold updateObject, createUpdater.
    cbn [Object_entries own_props mbind result_bind bind length Nat.eqb assert
         toBoolean Object_keys keys map Nat.ltb Nat.leb no_update_options queryOptions].
    rewrite Hop. cbn [assert mbind result_bind bind].
    assert (match queryOptions options with
            | Some q0 => Some q0
            | None => None
            end = queryOptions options) as -> by by destruct (queryOptions options).
    rewrite Hq. cbn [mbind result_bind bind]. by rewrite Htest.
Qed.
End UpdaterValidationFacts.

Lemma updateObject_validates_witness :
  updateObject bundle_registry 0 example_apply example_JSON example_call example_user
    (VObj [("a", VNum 1)]) (VObj [("$set", VObj [("b", VBool true)])]) []
    (VObj [("a", VNum 2)]) no_update_options =
  Ok (VObj [("a", VNum 1)], []).
Proof.
  destruct (updateObject_validates bundle_registry 0 example_apply example_JSON
              example_call example_user (VObj [("a", VNum 1)]) [] no_update_options)
    as (_ & _ & H).
  exact (H "$set" (VObj [("b", VBool true)]) ("a", VNum 2) []
           {| condition := VObj [("a", VNum 2)];
              options := initOptions (Some (lenient None));
              compiled := [createQueryOperator (fun a b depth => Ok (eq_2 a b depth))
                             "a" (VNum 2)] |}
           eq_refl eq_refl eq_refl).
Defined.

Section MulFacts.
Variable GLOBAL_CONTEXT : Context.
Variable Date_now : Z.
Variable apply_operator : fnid -> value -> value -> ComputeOptions -> result value.
Variable JSON_stringify : value -> result string.
Variable call_method : fnid -> value -> result value.
Variable user_query_operator : nat -> string -> value -> Options -> result predicate.

Local Abbreviation updateDocument_m :=
  (updateDocument GLOBAL_CONTEXT Date_now apply_operator JSON_stringify call_method
     user_query_operator).

(** [walk] along existing mappings, whatever the graph option, for a
    callback that stores [v] at the leaf and returns [r], and for one that
    throws there. *)
Lemma walk_names_store graph (fn : updater) v r names : forall obj cur b,
  field_at obj names = Some cur ->
  (forall kvs k, getProp (VObj kvs) k = cur ->
                 fn (VObj kvs) (KStr k) = Ok (VObj (define_key k v kvs), r)) ->
  walk_names obj names fn {| buildGraph := graph; descendArray := false |} b =
    Ok (set_field obj names v, r || b).
Proof.
  induction names as [|k rest IH]; intros obj cur b H Hfn.
  - by destruct obj.
  - destruct obj as [| | | | | | | | |kvs]; try (by destruct rest).
    apply field_at_cons in H as [[-> ->]|[Hne (kvs' & Hk & H)]].
    + simpl. by rewrite Hfn.
    + destruct rest as [|k2 rest]; [done|].
      rewrite walk_names_step. cbn [member name_of_key getProp].
      rewrite Hk.
      assert ((if graph
               then Ok (default VUndefined (Some (VObj kvs'))) ≫= λ cur0 : value,
                      if isNil cur0 then assign_member (VObj kvs) (KStr k) (VObj [])
                      else Ok (VObj kvs)
               else Ok (VObj kvs)) = Ok (VObj kvs)) as -> by by destruct graph.
      cbn [default from_option id mbind result_bind bind isNil member name_of_key getProp].
      rewrite Hk. cbn [default from_option id mbind result_bind bind toBoolean negb].
      rewrite (IH _ _ _ H Hfn). cbn [mbind result_bind bind with_member name_of_key].
      cbn [set_field getProp]. by rewrite Hk.
Qed.

Lemma walk_names_throw graph (fn : updater) e names : forall obj cur b,
  field_at obj names = Some cur ->
  (forall kvs k, getProp (VObj kvs) k = cur -> fn (VObj kvs) (KStr k) = Throw e) ->
  walk_names obj names fn {| buildGraph := graph; descendArray := false |} b = Throw e.
Proof.
  induction names as [|k rest IH]; intros obj cur b H Hfn.
  - by destruct obj.
  - destruct obj as [| | | | | | | | |kvs]; try (by destruct rest).
    apply field_at_cons in H as [[-> ->]|[Hne (kvs' & Hk & H)]].
    + simpl. by rewrite Hfn.
    + destruct rest as [|k2 rest]; [done|].
      rewrite walk_names_step. cbn [member name_of_key getProp].
      rewrite Hk.
      assert ((if graph
               then Ok (default VUndefined (Some (VObj kvs'))) ≫= λ cur0 : value,
                      if isNil cur0 then assign_member (VObj kvs) (KStr k) (VObj [])
                      else Ok (VObj kvs)
               else Ok (VObj kvs)) = Ok (VObj kvs)) as -> by by destruct graph.
      cbn [default from_option id mbind result_bind bind isNil member name_of_key getProp].
      rewrite Hk. cbn [default from_option id mbind result_bind bind toBoolean negb].
      by rewrite (IH _ _ _ H Hfn).
Qed.

(** Storing in a field the value it holds leaves the document as it
    is. *)
Lemma set_field_same names : forall o v,
  field_at o names = Some v -> isUndefined v = false -> set_field o names v = o.
Proof.
  induction names as [|k rest IH]; intros o v H Hv.
  - by destruct o.
  - destruct o as [| | | | | | | | |kvs]; try (by destruct rest).
    apply field_at_cons in H as [[-> ->]|[Hne (kvs' & Hk & H)]].
    + cbn [set_field]. cbn [getProp] in Hv |- *. unfold define_key.
      destruct (lookup_key k kvs) as [x|] eqn:Hk; [|done].
      cbn [default from_option id]. by rewrite (set_key_same _ _ _ Hk).
    + destruct rest as [|k2 rest]; [done|].
      change (set_field (VObj kvs) (k :: k2 :: rest) v)
        with (VObj (set_key k (set_field (getProp (VObj kvs) k) (k2 :: rest) v) kvs)).
      cbn [getProp]. rewrite Hk. cbn [default from_option id].
      rewrite (IH _ _ H Hv). by rewrite (set_key_same _ _ _ Hk).
Qed.

(** X14: [updateDocument] with [$mul].  A field that is missing becomes
    0 and is reported; a field that holds a number is multiplied, and the
    path is reported exactly when the product differs from the number
    that was there, so multiplying by 1, or multiplying 0, reports
    nothing and leaves the document as it was.  The number in the field,
    the factor and their product are within [MIN_LONG] and [MAX_LONG],
    where the multiplication of doubles is exact, and a missing field
    does not have a name that a mapping inherits from its prototype
    ([own_names]). *)
Theorem updateDocument_mul data selector cur c :
  includes selector ".$" = false ->
  field_at data (split_dot selector) = Some cur ->
  own_names data (split_dot selector) = true ->
  isUndefined cur = true \/ isLong cur = true ->
  isLong (VNum c) = true ->
  isLong (VNum (match cur with VNum n => n * c | _ => 0 end)) = true ->
  updateDocument_m data (VObj [("$mul", VObj [(selector, VNum c)])]) =
    Ok (match cur with
        | VNum n =>
            if n * c =? n then (data, [])
            else (set_field data (split_dot selector) (VNum (n * c)), [selector])
        | _ => (set_field data (split_dot selector) (VNum 0), [selector])
        end).
Proof.
  intros Hplain Hfield Hown Hlong Hc Hproduct.
  assert (Hcur : isUndefined cur = true \/ isNumber cur = true).
  { destruct Hlong as [H|H]; [by left|right; by destruct cur]. }
  rewrite updateDocument_single by reflexivity.
  unfold mutate. cbn [String.eqb Ascii.eqb Bool.eqb].
  unfold update_mul. rewrite walkExpression_plain by done.
  cbn [applyUpdate]. unfold walk.
  destruct cur as [| | |n| | | | | |]; try (destruct Hcur; discriminate).
  - erewrite (walk_names_store true _ (VNum 0) true); [reflexivity|exact Hfield|].
    intros kvs k Hk. cbn [member name_of_key]. by rewrite Hk.
  - erewrite (walk_names_store true _ (VNum (n * c)) (negb (n * c =? n)));
      [|exact Hfield|].
    + destruct (Z.eqb_spec (n * c) n) as [->|Hne]; [|done].
      by rewrite (set_field_same _ _ _ Hfield).
    + intros kvs k Hk. cbn [member name_of_key]. by rewrite Hk.
Qed.
End MulFacts.

Lemma updateDocument_mul_witness :
  updateDocument bundle_registry 0 example_apply example_JSON example_call example_user
    (VObj [("a", VNum 3)]) (VObj [("$mul", VObj [("a", VNum 2)])]) =
  Ok (VObj [("a", VNum 6)], ["a"]).
Proof.
  exact (updateDocument_mul bundle_registry 0 example_apply example_JSON example_call
           example_user (VObj [("a", VNum 3)]) "a" (VNum 3) 2 eq_refl eq_refl eq_refl
           (or_intror eq_refl) eq_refl eq_refl).
Defined.

Section PopFacts.
Variable GLOBAL_CONTEXT : Context.
Variable Date_now : Z.
Variable apply_operator : fnid -> value -> value -> ComputeOptions -> result value.
Variable JSON_stringify : value -> result string.
Variable call_method : fnid -> value -> result value.
Variable user_query_operator : nat -> string -> value -> Options -> result predicate.

Local Abbreviation updateDocument_p :=
  (updateDocument GLOBAL_CONTEXT Date_now apply_operator JSON_stringify call_method
     user_query_operator).

(** X15: [updateDocument] with [$pop] on a field the path leads to.  From
    an array with elements, the operand -1 takes the first element off and
    any other operand the last one, and the path is reported; an empty
    array stays and nothing is reported; and a field that holds anything
    but an array, a missing one too, ends the call with an error. *)
Theorem updateDocument_pop data selector cur val :
  includes selector ".$" = false ->
  field_at data (split_dot selector) = Some cur ->
  updateDocument_p data (VObj [("$pop", VObj [(selector, val)])]) =
    match cur with
    | VArr [] => Ok (data, [])
    | VArr (x :: xs) =>
        Ok (set_field data (split_dot selector)
              (VArr (if strictEq val (VNum (-1)) then xs else removelast (x :: xs))),
            [selector])
    | _ => Throw (Error ("path '" +:+ selector +:+
                         "' contains an element of non-array type."))
    end.
Proof.
  intros Hplain Hfield.
  rewrite updateDocument_single by reflexivity.
  unfold mutate. cbn [String.eqb Ascii.eqb Bool.eqb].
  unfold update_pop. rewrite walkExpression_plain by done.
  cbn [applyUpdate node_selector]. unfold walk, no_walk_options.
  destruct cur as [| | | | | | | |[|x xs]|];
    try (erewrite walk_names_throw; [reflexivity|exact Hfield|];
         intros kvs0 k0 Hk; cbn [member name_of_key]; by rewrite Hk).
  - erewrite walk_names_keep; [reflexivity|exact Hfield|].
    intros kvs k Hk. rewrite Hfield in Hk. injection Hk as Hk.
    cbn [member name_of_key]. cbn [getProp] in Hk |- *. by rewrite <- Hk.
  - erewrite (walk_names_store false _
                (VArr (if strictEq val (VNum (-1)) then xs else removelast (x :: xs)))
                true); [reflexivity|exact Hfield|].
    intros kvs k Hk. cbn [member name_of_key]. rewrite Hk.
    cbn [isArray assert mbind result_bind bind with_member name_of_key].
    unfold define_key. cbn [getProp] in Hk.
    destruct (lookup_key k kvs); [done|discriminate].
Qed.
End PopFacts.

Lemma updateDocument_pop_witness :
  updateDocument bundle_registry 0 example_apply example_JSON example_call example_user
    (VObj [("a", VArr [VNum 1; VNum 2; VNum 3])])
    (VObj [("$pop", VObj [("a", VNum (-1))])]) =
  Ok (VObj [("a", VArr [VNum 2; VNum 3])], ["a"]).
Proof.
  exact (updateDocument_pop bundle_registry 0 example_apply example_JSON example_call
           example_user (VObj [("a", VArr [VNum 1; VNum 2; VNum 3])]) "a"
           (VArr [VNum 1; VNum 2; VNum 3]) (VNum (-1)) eq_refl eq_refl).
Defined.

Lemma array_next_finished seen rest rs idx :
  array_next (array_iterator seen rest rs idx true) =
    Ok (None, array_iterator seen rest rs idx true).
Proof. reflexivity. Qed.

Lemma array_next_nil seen rs idx :
  array_next (array_iterator seen [] rs idx false) =
    Ok (None, array_iterator seen [] rs idx true).
Proof.
  unfold array_next, array_iterator.
  cbn [source src_size src_index createCallback closure_done].
  unfold array_nextVal. cbn [source src_size src_index src_data].
  assert ((length seen <? length (seen ++ []))%nat = false) as ->.
  { apply Nat.ltb_ge. rewrite length_app. cbn [length]. lia. }
  reflexivity.
Qed.

Lemma array_next_cons seen d rest rs idx :
  array_next (array_iterator seen (d :: rest) rs idx false) =
    '(rs', t) ← run_iteratees rs d (idx + 1) false;
    match t with
    | Continued => array_next (array_iterator (seen ++ [d]) rest rs' (idx + 1) false)
    | Yielded o finished =>
        Ok (Some o, array_iterator (seen ++ [d]) rest rs' (idx + 1) finished)
    end.
Proof.
  unfold array_next at 1. unfold array_iterator at 1 2 3.
  cbn [source src_size src_index src_data].
  assert (length (seen ++ d :: rest) - length seen = S (length rest))%nat as ->.
  { rewrite length_app. cbn [length]. lia. }
  cbn [createCallback closure_done source].
  unfold array_nextVal.
  cbn [source src_index src_size src_data iteratees closure_index yieldedValues isDone].
  assert ((length seen <? length (seen ++ d :: rest))%nat = true) as ->.
  { apply Nat.ltb_lt. rewrite length_app. cbn [length]. lia. }
  cbn [mbind result_bind bind].
  assert (nth (length seen) (seen ++ d :: rest) VUndefined = d) as ->.
  { rewrite app_nth2 by lia. by rewrite Nat.sub_diag. }
  destruct (run_iteratees rs d (idx + 1) false) as [[rs' t]|e|]; [|done..].
  cbn [mbind result_bind bind].
  assert (Hst : forall fin,
    {| source := {| src_data := seen ++ d :: rest;
                    src_size := length (seen ++ d :: rest);
                    src_index := S (length seen) |};
       iteratees := rs'; closure_done := fin; closure_index := idx + 1;
       yieldedValues := []; isDone := false |} =
    array_iterator (seen ++ [d]) rest rs' (idx + 1) fin).
  { intros fin. unfold array_iterator. rewrite <- app_assoc. cbn [app].
    rewrite (length_app seen [d]). cbn [length]. by rewrite Nat.add_1_r. }
  destruct t as [o fin|].
  - by rewrite <- Hst.
  - rewrite <- Hst. unfold array_next.
    cbn [source src_size src_index].
    assert (length (seen ++ d :: rest) - S (length seen) = length rest)%nat as ->.
    { rewrite !length_app. cbn [length]. lia. }
    reflexivity.
Qed.

(** What [next()] returns decides what the iterator yields. *)
Lemma Drains_same_next it1 it2 out :
  array_next it1 = array_next it2 -> Drains it2 out -> Drains it1 out.
Proof.
  intros Heq H. destruct H as [it it' H|it it' v vs H Hrest].
  - eapply Drains_done. by rewrite Heq.
  - eapply Drains_next; [by rewrite Heq|done].
Qed.

Lemma Drains_finished seen rest rs idx :
  Drains (array_iterator seen rest rs idx true) [].
Proof. eapply Drains_done. apply array_next_finished. Qed.

(** The iteratees of a cursor on which [skip(n)] and then [limit(m)]
    were called. *)
Lemma Drains_filter_skip_limit (f : value -> result bool) (p : value -> bool) rest :
  forall seen idx n m,
  (forall d, In d rest -> f d = Ok (p d)) ->
  Drains
    (array_iterator seen rest
       (FILTER (fun o _ => f o) ::
        (if 0 <? n then [DROP n] else []) ++ (if 0 <? m then [TAKE m] else []))
       idx false)
    ((if 0 <? m then take (Z.to_nat m) else id)
       (drop (Z.to_nat n) (List.filter p rest))).
Proof.
  induction rest as [|d rest IH]; intros seen idx n m Hf.
  - cbn [List.filter]. rewrite drop_nil.
    assert ((if 0 <? m then take (Z.to_nat m) else id) (@nil value) = []) as ->.
    { destruct (0 <? m); [apply take_nil|done]. }
    eapply Drains_done. apply array_next_nil.
  - assert (Hrest : forall d', In d' rest -> f d' = Ok (p d')).
    { intros d' Hd'. apply Hf. by right. }
    pose proof (Hf d (or_introl eq_refl)) as Hd.
    cbn [List.filter]. destruct (p d) eqn:Hp.
    + destruct (Z.ltb_spec 0 n) as [Hn|Hn].
      * (* dropped *)
        assert (drop (Z.to_nat n) (d :: List.filter p rest) =
                drop (Z.to_nat (n - 1)) (List.filter p rest)) as ->.
        { assert (Z.to_nat n = S (Z.to_nat (n - 1))) as -> by lia. reflexivity. }
        eapply Drains_same_next; [|apply (IH (seen ++ [d]) (idx + 1) (n - 1) m Hrest)].
        rewrite array_next_cons. cbn [run_iteratees app mbind result_bind bind].
        rewrite Hd. cbn [mbind result_bind bind].
        destruct (Z.eqb_spec (n - 1) 0) as [Hz|Hz].
        -- rewrite Hz. reflexivity.
        -- assert ((0 <? n - 1) = true) as -> by (apply Z.ltb_lt; lia). reflexivity.
      * assert (Z.to_nat n = 0%nat) as -> by lia. cbn [drop].
        destruct (Z.ltb_spec 0 m) as [Hm|Hm].
        -- (* counted by TAKE *)
           assert (Z.to_nat m = S (Z.to_nat (m - 1))) as -> by lia.
           cbn [take].
           eapply Drains_next.
           ++ rewrite array_next_cons. cbn [run_iteratees app mbind result_bind bind].
              rewrite Hd. cbn [run_iteratees mbind result_bind bind]. reflexivity.
           ++ destruct (Z.eqb_spec (m - 1) 0) as [Hz|Hz].
              ** rewrite Hz. cbn [Z.to_nat take]. apply Drains_finished.
              ** pose proof (IH (seen ++ [d]) (idx + 1) n (m - 1) Hrest) as H.
                 assert ((0 <? n) = false) as Hn' by (apply Z.ltb_ge; lia).
                 assert ((0 <? m - 1) = true) as Hm' by (apply Z.ltb_lt; lia).
                 rewrite Hn', Hm' in H. assert (Z.to_nat n = 0%nat) as Hn0 by lia.
                 rewrite Hn0 in H. exact H.
        -- cbn [id]. eapply Drains_next.
           ++ rewrite array_next_cons. cbn [run_iteratees app mbind result_bind bind].
              rewrite Hd. cbn [run_iteratees mbind result_bind bind]. reflexivity.
           ++ pose proof (IH (seen ++ [d]) (idx + 1) n m Hrest) as H.
              assert ((0 <? n) = false) as Hn' by (apply Z.ltb_ge; lia).
              assert ((0 <? m) = false) as Hm' by (apply Z.ltb_ge; lia).
              rewrite Hn', Hm' in H. assert (Z.to_nat n = 0%nat) as Hn0 by lia.
              rewrite Hn0 in H. exact H.
    + eapply Drains_same_next; [|apply (IH (seen ++ [d]) (idx + 1) n m Hrest)].
      rewrite array_next_cons. cbn [run_iteratees app mbind result_bind bind].
      rewrite Hd. reflexivity.
Qed.

Lemma Drains_plain rest : forall seen idx,
  Drains (array_iterator seen rest [] idx false) rest.
Proof.
  induction rest as [|d rest IH]; intros seen idx.
  - eapply Drains_done. apply array_next_nil.
  - eapply Drains_next; [|apply (IH (seen ++ [d]) (idx + 1))].
    rewrite array_next_cons. reflexivity.
Qed.

(** Collecting the values of two composed iterators, from the second
    one on and from the first one on. *)
Lemma compose_store_second it out :
  Drains it out ->
  forall b fuel idx ys, (length out < fuel)%nat ->
  exists final,
    createCallback compose_nextVal fuel true
      {| source := {| iterators := [b; it]; compose_index := 1 |};
         iteratees := []; closure_done := false; closure_index := idx;
         yieldedValues := ys; isDone := false |} = Ok (None, final) /\
    yieldedValues final = ys ++ out.
Proof.
  induction 1 as [it it' Hnext|it it' v vs Hnext Hrest IH]; intros b fuel idx ys Hfuel.
  - destruct fuel as [|fuel]; [cbn [length] in Hfuel; lia|].
    cbn [createCallback closure_done source]. unfold compose_nextVal.
    cbn [iterators compose_index length Nat.sub compose_loop lookup list_lookup].
    rewrite Hnext. cbn [mbind result_bind bind yieldedValues iteratees closure_index isDone].
    eexists. split; [reflexivity|]. cbn [yieldedValues]. by rewrite app_nil_r.
  - destruct fuel as [|fuel]; [cbn [length] in Hfuel; lia|].
    cbn [length] in Hfuel.
    destruct (IH b fuel (idx + 1) (ys ++ [v]) ltac:(lia)) as (final & Hfinal & Hys).
    exists final. split; [|by rewrite Hys, <- app_assoc].
    cbn [createCallback closure_done source]. unfold compose_nextVal.
    cbn [iterators compose_index length Nat.sub compose_loop lookup list_lookup].
    rewrite Hnext.
    cbn [mbind result_bind bind yieldedValues iteratees closure_index isDone
         run_iteratees list_insert insert].
    exact Hfinal.
Qed.

Lemma compose_store_first b bs :
  Drains b bs ->
  forall it out, Drains it out ->
  forall fuel idx ys, (length bs + length out < fuel)%nat ->
  exists final,
    createCallback compose_nextVal fuel true
      {| source := {| iterators := [b; it]; compose_index := 0 |};
         iteratees := []; closure_done := false; closure_index := idx;
         yieldedValues := ys; isDone := false |} = Ok (None, final) /\
    yieldedValues final = ys ++ bs ++ out.
Proof.
  induction 1 as [b b' Hnext|b b' v vs Hnext Hrest IH];
    intros it out Hit fuel idx ys Hfuel.
  - destruct fuel as [|fuel]; [lia|]. cbn [length Nat.add app] in Hfuel |- *.
    destruct Hit as [it it' Hit|it it' w ws Hit Hws].
    + cbn [createCallback closure_done source]. unfold compose_nextVal.
      cbn [iterators compose_index length Nat.sub compose_loop lookup list_lookup].
      rewrite Hnext.
      cbn [mbind result_bind bind compose_loop iterators compose_index lookup list_lookup
           list_insert insert].
      rewrite Hit.
      cbn [mbind result_bind bind yieldedValues iteratees closure_index isDone].
      eexists. split; [reflexivity|]. cbn [yieldedValues]. by rewrite app_nil_r.
    + cbn [length] in Hfuel.
      destruct (compose_store_second it' ws Hws b' fuel (idx + 1) (ys ++ [w]) ltac:(lia))
        as (final & Hfinal & Hys).
      exists final. split; [|by rewrite Hys, <- app_assoc].
      cbn [createCallback closure_done source]. unfold compose_nextVal.
      cbn [iterators compose_index length Nat.sub compose_loop lookup list_lookup].
      rewrite Hnext.
      cbn [mbind result_bind bind compose_loop iterators compose_index lookup list_lookup
           list_insert insert].
      rewrite Hit.
      cbn [mbind result_bind bind yieldedValues iteratees closure_index isDone
           run_iteratees list_insert insert].
      exact Hfinal.
  - destruct fuel as [|fuel]; [lia|]. cbn [length Nat.add] in Hfuel.
    destruct (IH it out Hit fuel (idx + 1) (ys ++ [v]) ltac:(lia)) as (final & Hfinal & Hys).
    exists final. split; [|by rewrite Hys, <- !app_assoc].
    cbn [createCallback closure_done source]. unfold compose_nextVal.
    cbn [iterators compose_index length Nat.sub compose_loop lookup list_lookup].
    rewrite Hnext.
    cbn [mbind result_bind bind yieldedValues iteratees closure_index isDone
         run_iteratees list_insert insert].
    exact Hfinal.
Qed.

(** [all()] on a cursor whose result is made: the buffered values, then
    what the result yields. *)
Lemma compose_value_drains buffer it out :
  Drains it out ->
  (length out <= src_size (source it) - src_index (source it))%nat ->
  exists composed,
    compose_value (compose [Lazy_array buffer; it]) = Ok (buffer ++ out, composed).
Proof.
  intros Hit Hlen. unfold compose_value, Iterator_value, compose, new_Iterator.
  cbn [isDone source]. unfold elements_left.
  cbn [iterators foldr Lazy_array new_Iterator source src_size src_index].
  edestruct (compose_store_first (Lazy_array buffer) buffer (Drains_plain buffer [] (-1))
               it out Hit) as (final & Hfinal & Hys); [|rewrite Hfinal].
  - lia.
  - cbn [mbind result_bind bind]. rewrite Hys. eexists. reflexivity.
Qed.

Section FindFacts.
Variable GLOBAL_CONTEXT : Context.
Variable Date_now : Z.
Variable apply_operator : fnid -> value -> value -> ComputeOptions -> result value.
Variable JSON_stringify : value -> result string.
Variable call_method : fnid -> value -> result value.
Variable user_query_operator : nat -> string -> value -> Options -> result predicate.

Local Abbreviation new_Query_c :=
  (new_Query GLOBAL_CONTEXT Date_now apply_operator JSON_stringify call_method
     user_query_operator).
Local Abbreviation find_c :=
  (find GLOBAL_CONTEXT Date_now apply_operator JSON_stringify call_method
     user_query_operator).
Local Abbreviation findOne_c :=
  (findOne GLOBAL_CONTEXT Date_now apply_operator JSON_stringify call_method
     user_query_operator).
Local Abbreviation facade_exists_c :=
  (facade_exists GLOBAL_CONTEXT Date_now apply_operator JSON_stringify call_method
     user_query_operator).
Local Abbreviation update_c :=
  (update GLOBAL_CONTEXT Date_now apply_operator JSON_stringify call_method
     user_query_operator).
Local Abbreviation updateDocument_c :=
  (updateDocument GLOBAL_CONTEXT Date_now apply_operator JSON_stringify call_method
     user_query_operator).

Lemma new_Query_options criteria o q : new_Query_c criteria o = Ok q -> options q = initOptions o.
Proof.
  unfold new_Query. destruct (compile _ _ _ _ _ _ _ _) as [cs|e|]; [|done..].
  by intros [= <-].
Qed.

(** The pipeline of a cursor without projection, with the operators
    that [skip(n)] and [limit(m)] put in front of [$project]. *)
Lemma stream_project o (it : Iterator ArraySource) :
  pipeline_operator GLOBAL_CONTEXT "$project" o = bundle_function "$project" ->
  Aggregator_stream GLOBAL_CONTEXT [VObj [("$project", VObj [])]] (initOptions o) it = Ok it.
Proof.
  intros Hproject. unfold Aggregator_stream. rewrite initOptions_idem.
  cbn [stream_loop Object_keys Object_entries own_props keys map fst hd length
       mbind result_bind bind].
  unfold pipeline_operator in Hproject. rewrite Hproject. reflexivity.
Qed.

Lemma stream_skip_limit_project o (it : Iterator ArraySource) n m :
  pipeline_operator GLOBAL_CONTEXT "$project" o = bundle_function "$project" ->
  pipeline_operator GLOBAL_CONTEXT "$skip" o = bundle_function "$skip" ->
  pipeline_operator GLOBAL_CONTEXT "$limit" o = bundle_function "$limit" ->
  Aggregator_stream GLOBAL_CONTEXT
    [VObj [("$skip", n)]; VObj [("$limit", m)]; VObj [("$project", VObj [])]]
    (initOptions o) it =
  Ok (IteratorOps.take (IteratorOps.drop it n) m).
Proof.
  intros Hproject Hskip Hlimit. unfold Aggregator_stream. rewrite initOptions_idem.
  cbn [stream_loop Object_keys Object_entries own_props keys map fst hd length
       mbind result_bind bind].
  unfold pipeline_operator in Hproject, Hskip, Hlimit.
  rewrite Hskip. cbn [bundle_function toBoolean Nat.eqb andb assert mbind result_bind bind].
  unfold call_pipeline_operator at 1.
  cbn [String.eqb Ascii.eqb Bool.eqb mbind result_bind bind].
  cbn [stream_loop Object_keys Object_entries own_props keys map fst hd length
       mbind result_bind bind].
  rewrite Hlimit. cbn [bundle_function toBoolean Nat.eqb andb assert mbind result_bind bind].
  unfold call_pipeline_operator at 1.
  cbn [String.eqb Ascii.eqb Bool.eqb mbind result_bind bind].
  cbn [stream_loop Object_keys Object_entries own_props keys map fst hd length
       mbind result_bind bind].
  rewrite Hproject. reflexivity.
Qed.

Lemma length_filter_le (p : value -> bool) l : (length (List.filter p l) <= length l)%nat.
Proof. induction l as [|x l IH]; [done|]. cbn. destruct (p x); cbn; lia. Qed.

Lemma test_matching (t : value -> result bool) docs :
  (forall d, In d docs -> exists b, t d = Ok b) ->
  forall d, In d docs -> t d = Ok (matching t d).
Proof.
  intros Ht d Hd. destruct (Ht d Hd) as [b Hb]. unfold matching. rewrite Hb. by destruct b.
Qed.

(** [all()] on the cursor that [find] makes without projection. *)
Lemma Cursor_all_find q docs projection o :
  options q = initOptions o ->
  isEmpty projection = true ->
  pipeline_operator GLOBAL_CONTEXT "$project" o = bundle_function "$project" ->
  (forall d, In d docs -> exists b, test q d = Ok b) ->
  exists c,
    Cursor_all GLOBAL_CONTEXT (Query_find q (VArr docs) projection) =
      Ok (List.filter (matching (test q)) docs, c).
Proof.
  intros Hopts Hempty Hproject Htests.
  pose proof (Drains_filter_skip_limit (test q) (matching (test q)) docs [] (-1) 0 0
                (test_matching _ _ Htests)) as Hdrains.
  cbn [Z.ltb Z.compare app] in Hdrains.
  change (Z.to_nat 0) with 0%nat in Hdrains. rewrite drop_0 in Hdrains.
  assert (Hlen : (length (List.filter (matching (test q)) docs) <= length docs)%nat)
    by apply length_filter_le.
  unfold Cursor_all, Query_find, with_buffer.
  cbn [cursor_buffer cursor_source cursor_predicate cursor_projection cursor_options
       cursor_operators cursor_result].
  unfold Cursor_fetch.
  cbn [cursor_buffer cursor_source cursor_predicate cursor_projection cursor_options
       cursor_operators cursor_result].
  destruct (isObject (if toBoolean projection then projection else VObj [])) eqn:Hobj.
  - assert ((if toBoolean projection then projection else VObj []) = VObj []) as ->.
    { destruct projection as [| | | | |s| | |[|]|[|]]; try done. by destruct s. }
    unfold with_operator.
    cbn [cursor_buffer cursor_source cursor_predicate cursor_projection cursor_options
         cursor_operators cursor_result Lazy mbind result_bind bind app length Nat.ltb
         Nat.leb].
    rewrite Hopts, stream_project by done.
    cbn [mbind result_bind bind].
    change (IteratorOps.filter (Lazy_array docs) (fun o _ => test q o))
      with (array_iterator [] docs [FILTER (fun o _ => test q o)] (-1) false).
    edestruct (compose_value_drains [] _ _ Hdrains) as [composed ->]; [cbn; lia|].
    cbn [mbind result_bind bind app]. eexists. reflexivity.
  - cbn [cursor_buffer cursor_source cursor_predicate cursor_projection cursor_options
         cursor_operators cursor_result Lazy mbind result_bind bind app length Nat.ltb
         Nat.leb].
    change (IteratorOps.filter (Lazy_array docs) (fun o _ => test q o))
      with (array_iterator [] docs [FILTER (fun o _ => test q o)] (-1) false).
    edestruct (compose_value_drains [] _ _ Hdrains) as [composed ->]; [cbn; lia|].
    cbn [mbind result_bind bind app]. eexists. reflexivity.
Qed.

(** X16: [find] returns the documents of the array that the query tests
    as true, in the order of the array, when no projection is asked for;
    each document is tested once.  On data that is neither an array nor a
    function nor an object with a method [next], it ends with an error. *)
Theorem find_returns_the_matching_documents query o q projection :
  new_Query_c query o = Ok q ->
  (forall docs,
     isEmpty projection = true ->
     pipeline_operator GLOBAL_CONTEXT "$project" o = bundle_function "$project" ->
     (forall d, In d docs -> exists b, test q d = Ok b) ->
     find_c (VArr docs) query projection o = Ok (List.filter (matching (test q)) docs)) /\
  (forall data,
     isArray data = false -> isFunction data = false ->
     isFunction (getProp data "next") = false ->
     find_c data query projection o =
       Throw (Error "Lazy must be initialized with an array, generator, or function.")).
Proof.
  intros Hq. split.
  - intros docs Hempty Hproject Htests. unfold find, find_1. rewrite Hq.
    cbn [mbind result_bind bind].
    destruct (Cursor_all_find q docs projection o (new_Query_options _ _ _ Hq)
                Hempty Hproject Htests) as [c ->].
    reflexivity.
  - intros data Harr Hfun Hnext. unfold find, find_1. rewrite Hq.
    cbn [mbind result_bind bind]. unfold Cursor_all, Query_find, with_buffer.
    cbn [cursor_buffer cursor_source cursor_predicate cursor_projection cursor_options
         cursor_operators cursor_result].
    unfold Cursor_fetch.
    cbn [cursor_buffer cursor_source cursor_predicate cursor_projection cursor_options
         cursor_operators cursor_result].
    assert (Lazy data =
            Throw (Error "Lazy must be initialized with an array, generator, or function."))
      as HLazy.
    { unfold Lazy. rewrite Hnext. by destruct data. }
    destruct (isObject _); unfold with_operator;
      cbn [cursor_buffer cursor_source cursor_predicate cursor_projection cursor_options
           cursor_operators cursor_result];
      by rewrite HLazy.
Qed.

(** [next()] of a filtering iterator goes past the values the filter
    refuses. *)
Lemma array_next_filter_first (f : value -> result bool) pre :
  forall seen idx d post,
  (forall x, In x pre -> f x = Ok false) ->
  f d = Ok true ->
  array_next (array_iterator seen (pre ++ d :: post) [FILTER (fun o _ => f o)] idx false) =
    Ok (Some d,
        array_iterator (seen ++ pre ++ [d]) post [FILTER (fun o _ => f o)]
          (idx + Z.of_nat (length pre) + 1) false).
Proof.
  induction pre as [|x pre IH]; intros seen idx d post Hpre Hd.
  - cbn [app length]. rewrite array_next_cons. cbn [run_iteratees]. rewrite Hd.
    cbn [mbind result_bind bind]. by rewrite Z.add_0_r.
  - cbn [app]. rewrite array_next_cons. cbn [run_iteratees].
    rewrite (Hpre x (or_introl eq_refl)). cbn [mbind result_bind bind].
    rewrite IH by (done || (intros y Hy; apply Hpre; by right)).
    rewrite <- app_assoc. cbn [app length]. do 3 f_equal. lia.
Qed.

Lemma array_next_filter_none (f : value -> result bool) rest :
  forall seen idx,
  (forall x, In x rest -> f x = Ok false) ->
  exists it',
    array_next (array_iterator seen rest [FILTER (fun o _ => f o)] idx false) =
      Ok (None, it').
Proof.
  induction rest as [|x rest IH]; intros seen idx Hrest.
  - rewrite array_next_nil. by eexists.
  - rewrite array_next_cons. cbn [run_iteratees].
    rewrite (Hrest x (or_introl eq_refl)). cbn [mbind result_bind bind].
    apply IH. intros y Hy. apply Hrest. by right.
Qed.

(** [fetch()] on the cursor that [find] makes without projection. *)
Lemma Cursor_fetch_find q docs projection o :
  options q = initOptions o ->
  isEmpty projection = true ->
  pipeline_operator GLOBAL_CONTEXT "$project" o = bundle_function "$project" ->
  exists c,
    Cursor_fetch GLOBAL_CONTEXT (Query_find q (VArr docs) projection) =
      Ok (array_iterator [] docs [FILTER (fun o _ => test q o)] (-1) false, c) /\
    cursor_buffer c = [].
Proof.
  intros Hopts Hempty Hproject. unfold Cursor_fetch, Query_find.
  cbn [cursor_buffer cursor_source cursor_predicate cursor_projection cursor_options
       cursor_operators cursor_result].
  destruct (isObject (if toBoolean projection then projection else VObj [])) eqn:Hobj.
  - assert ((if toBoolean projection then projection else VObj []) = VObj []) as ->.
    { destruct projection as [| | | | |s| | |[|]|[|]]; try done. by destruct s. }
    unfold with_operator.
    cbn [cursor_buffer cursor_source cursor_predicate cursor_projection cursor_options
         cursor_operators cursor_result Lazy mbind result_bind bind app length Nat.ltb
         Nat.leb].
    rewrite Hopts, stream_project by done.
    cbn [mbind result_bind bind]. eexists. split; reflexivity.
  - cbn [cursor_buffer cursor_source cursor_predicate cursor_projection cursor_options
         cursor_operators cursor_result Lazy mbind result_bind bind app length Nat.ltb
         Nat.leb].
    eexists. split; reflexivity.
Qed.

(** X17: [findOne] returns the first document of the array that the
    query tests as true, without testing the documents after it, and
    undefined when the query tests every document as false.  [exists] is
    the truthiness of what [findOne] returns: it is false when nothing
    matches, and also when the first match is a value such as 0 or null. *)
Theorem findOne_returns_the_first_match query q docs :
  new_Query_c query None = Ok q ->
  pipeline_operator GLOBAL_CONTEXT "$project" None = bundle_function "$project" ->
  (forall pre d post,
     docs = pre ++ d :: post ->
     (forall x, In x pre -> test q x = Ok false) ->
     test q d = Ok true ->
     findOne_c (VArr docs) query VUndefined None = Ok d /\
     facade_exists_c (VArr docs) query = Ok (toBoolean d)) /\
  ((forall x, In x docs -> test q x = Ok false) ->
   findOne_c (VArr docs) query VUndefined None = Ok VUndefined /\
   facade_exists_c (VArr docs) query = Ok false).
Proof.
  intros Hq Hproject.
  destruct (Cursor_fetch_find q docs VUndefined None (new_Query_options _ _ _ Hq)
              eq_refl Hproject) as (c & Hfetch & _).
  assert (Hone : forall v it',
    array_next (array_iterator [] docs [FILTER (fun o _ => test q o)] (-1) false) =
      Ok (v, it') ->
    findOne_c (VArr docs) query VUndefined None = Ok (default VUndefined v)).
  { intros v it' Hnext. unfold findOne, find_1. rewrite Hq.
    cbn [mbind result_bind bind]. unfold Cursor_next.
    change (rev (cursor_buffer (Query_find q (VArr docs) VUndefined))) with (@nil value).
    cbv iota. rewrite Hfetch. cbn [mbind result_bind bind]. by rewrite Hnext. }
  split.
  - intros pre d post -> Hpre Hd.
    pose proof (Hone _ _ (array_next_filter_first (test q) pre [] (-1) d post Hpre Hd)) as H.
    split; [exact H|]. unfold facade_exists. by rewrite H.
  - intros Hnone.
    destruct (array_next_filter_none (test q) docs [] (-1) Hnone) as [it' Hnext].
    pose proof (Hone _ _ Hnext) as H.
    split; [exact H|]. unfold facade_exists. by rewrite H.
Qed.

Local Abbreviation find_1_c :=
  (find_1 GLOBAL_CONTEXT Date_now apply_operator JSON_stringify call_method
     user_query_operator).

Lemma length_drop_le {A} n (l : list A) : (length (drop n l) <= length l)%nat.
Proof. rewrite length_drop. lia. Qed.

Lemma length_take_le' {A} n (l : list A) : (length (take n l) <= length l)%nat.
Proof. rewrite length_take. lia. Qed.

(** X18: a cursor on which [skip(n)] and then [limit(m)] are called.
    [all()] returns the matching documents in the order of the array,
    without the first [n] of them and cut after [m]; a number [n] that is
    not above zero skips nothing, and a number [m] that is not above zero
    sets no limit. *)
Theorem cursor_skip_then_limit query o q docs n m :
  new_Query_c query o = Ok q ->
  pipeline_operator GLOBAL_CONTEXT "$project" o = bundle_function "$project" ->
  pipeline_operator GLOBAL_CONTEXT "$skip" o = bundle_function "$skip" ->
  pipeline_operator GLOBAL_CONTEXT "$limit" o = bundle_function "$limit" ->
  (forall d, In d docs -> exists b, test q d = Ok b) ->
  (c ← find_1_c (VArr docs) query VUndefined o;
   '(values, _) ← Cursor_all GLOBAL_CONTEXT (Cursor_limit (Cursor_skip c (VNum n)) (VNum m));
   Ok values) =
  Ok ((if 0 <? m then take (Z.to_nat m) else id)
        (drop (Z.to_nat n) (List.filter (matching (test q)) docs))).
Proof.
  intros Hq Hproject Hskip Hlimit Htests.
  pose proof (Drains_filter_skip_limit (test q) (matching (test q)) docs [] (-1) n m
                (test_matching _ _ Htests)) as Hdrains.
  unfold find_1. rewrite Hq. cbn [mbind result_bind bind].
  unfold Cursor_all, Cursor_limit, Cursor_skip, Query_find, with_operator, with_buffer.
  cbn [cursor_buffer cursor_source cursor_predicate cursor_projection cursor_options
       cursor_operators cursor_result].
  unfold Cursor_fetch.
  cbn [cursor_buffer cursor_source cursor_predicate cursor_projection cursor_options
       cursor_operators cursor_result toBoolean isObject].
  unfold with_operator.
  cbn [cursor_buffer cursor_source cursor_predicate cursor_projection cursor_options
       cursor_operators cursor_result Lazy mbind result_bind bind app length Nat.ltb
       Nat.leb].
  rewrite (new_Query_options _ _ _ Hq), stream_skip_limit_project by done.
  cbn [mbind result_bind bind].
  assert (IteratorOps.take
            (IteratorOps.drop
               (IteratorOps.filter (Lazy_array docs) (fun o _ => test q o)) (VNum n))
            (VNum m) =
          array_iterator [] docs
            (FILTER (fun o _ => test q o) ::
             (if 0 <? n then [DROP n] else []) ++ (if 0 <? m then [TAKE m] else []))
            (-1) false) as ->.
  { unfold IteratorOps.take, IteratorOps.drop. by destruct (0 <? n), (0 <? m). }
  edestruct (compose_value_drains [] _ _ Hdrains) as [composed ->].
  - cbn [array_iterator source src_size src_index app length].
    rewrite Nat.sub_0_r.
    etransitivity; [|apply (length_filter_le (matching (test q)))].
    etransitivity; [|apply (length_drop_le (Z.to_nat n))].
    destruct (0 <? m); [apply length_take_le'|done].
  - reflexivity.
Qed.
End FindFacts.

Lemma find_returns_the_matching_documents_witness :
  find bundle_registry 0 example_apply example_JSON example_call example_user
    (VArr [VObj [("a", VNum 1)]; VObj [("a", VNum 2)]; VObj [("a", VNum 1); ("b", VNum 3)]])
    (VObj [("a", VNum 1)]) VUndefined None =
  Ok [VObj [("a", VNum 1)]; VObj [("a", VNum 1); ("b", VNum 3)]].
Proof.
  pose proof (find_returns_the_matching_documents bundle_registry 0 example_apply
                example_JSON example_call example_user
                (VObj [("a", VNum 1)]) None
                {| condition := VObj [("a", VNum 1)];
                   options := initOptions None;
                   compiled := [createQueryOperator (fun a b depth => Ok (eq_2 a b depth))
                                  "a" (VNum 1)] |}
                VUndefined eq_refl) as [H _].
  refine (H [VObj [("a", VNum 1)]; VObj [("a", VNum 2)];
             VObj [("a", VNum 1); ("b", VNum 3)]] eq_refl eq_refl _).
  intros d [<-|[<-|[<-|[]]]]; eexists; reflexivity.
Defined.

Lemma findOne_returns_the_first_match_witness :
  findOne bundle_registry 0 example_apply example_JSON example_call example_user
    (VArr [VObj [("a", VNum 2)]; VObj [("a", VNum 1); ("b", VNum 3)]; VObj [("a", VNum 1)]])
    (VObj [("a", VNum 1)]) VUndefined None =
  Ok (VObj [("a", VNum 1); ("b", VNum 3)]).
Proof.
  pose proof (findOne_returns_the_first_match bundle_registry 0 example_apply
                example_JSON example_call example_user
                (VObj [("a", VNum 1)])
                {| condition := VObj [("a", VNum 1)];
                   options := initOptions None;
                   compiled := [createQueryOperator (fun a b depth => Ok (eq_2 a b depth))
                                  "a" (VNum 1)] |}
                [VObj [("a", VNum 2)]; VObj [("a", VNum 1); ("b", VNum 3)];
                 VObj [("a", VNum 1)]]
                eq_refl eq_refl) as [H _].
  refine (proj1 (H [VObj [("a", VNum 2)]] (VObj [("a", VNum 1); ("b", VNum 3)])
                   [VObj [("a", VNum 1)]] eq_refl _ eq_refl)).
  intros x [<-|[]]. reflexivity.
Defined.

Lemma cursor_skip_then_limit_witness :
  (c ← find_1 bundle_registry 0 example_apply example_JSON example_call example_user
         (VArr [VNum 1; VNum 2; VNum 3; VNum 4]) (VObj []) VUndefined None;
   '(values, _) ← Cursor_all bundle_registry
                    (Cursor_limit (Cursor_skip c (VNum 1)) (VNum 2));
   Ok values) =
  Ok [VNum 2; VNum 3].
Proof.
  refine (cursor_skip_then_limit bundle_registry 0 example_apply example_JSON
            example_call example_user (VObj []) None
            {| condition := VObj []; options := initOptions None; compiled := [] |}
            [VNum 1; VNum 2; VNum 3; VNum 4] 1 2 eq_refl eq_refl eq_refl eq_refl _).
  intros d _. by exists true.
Defined.

Section CursorOrderFacts.
Variable GLOBAL_CONTEXT : Context.
Variable Date_now : Z.
Variable apply_operator : fnid -> value -> value -> ComputeOptions -> result value.
Variable JSON_stringify : value -> result string.
Variable call_method : fnid -> value -> result value.
Variable user_query_operator : nat -> string -> value -> Options -> result predicate.

Local Abbreviation new_Query_l :=
  (new_Query GLOBAL_CONTEXT Date_now apply_operator JSON_stringify call_method
     user_query_operator).
Local Abbreviation find_1_l :=
  (find_1 GLOBAL_CONTEXT Date_now apply_operator JSON_stringify call_method
     user_query_operator).

(** The iteratees of a cursor on which [limit] was called before
    [skip]: the count of TAKE goes down also on a value that DROP then
    drops, and a count that passes zero there never ends the iterator. *)
Lemma Drains_filter_limit_skip (f : value -> result bool) (p : value -> bool) rest :
  forall seen idx c n,
  (forall d, In d rest -> f d = Ok (p d)) ->
  Drains
    (array_iterator seen rest
       (FILTER (fun o _ => f o) :: TAKE c :: (if 0 <? n then [DROP n] else []))
       idx false)
    ((if 0 <? c - Z.max 0 n then take (Z.to_nat (c - Z.max 0 n)) else id)
       (drop (Z.to_nat n) (List.filter p rest))).
Proof.
  induction rest as [|d rest IH]; intros seen idx c n Hf.
  - cbn [List.filter]. rewrite drop_nil.
    assert ((if 0 <? c - Z.max 0 n then take (Z.to_nat (c - Z.max 0 n)) else id)
              (@nil value) = []) as ->.
    { destruct (0 <? _); [apply take_nil|done]. }
    eapply Drains_done. apply array_next_nil.
  - assert (Hrest : forall d', In d' rest -> f d' = Ok (p d')).
    { intros d' Hd'. apply Hf. by right. }
    pose proof (Hf d (or_introl eq_refl)) as Hd.
    cbn [List.filter]. destruct (p d) eqn:Hp.
    + destruct (Z.ltb_spec 0 n) as [Hn|Hn].
      * (* counted by TAKE, then dropped *)
        assert (drop (Z.to_nat n) (d :: List.filter p rest) =
                drop (Z.to_nat (n - 1)) (List.filter p rest)) as ->.
        { assert (Z.to_nat n = S (Z.to_nat (n - 1))) as -> by lia. reflexivity. }
        assert (c - Z.max 0 n = c - 1 - Z.max 0 (n - 1)) as -> by lia.
        eapply Drains_same_next; [|apply (IH (seen ++ [d]) (idx + 1) (c - 1) (n - 1) Hrest)].
        rewrite array_next_cons. cbn [run_iteratees app mbind result_bind bind].
        rewrite Hd. cbn [mbind result_bind bind run_iteratees].
        destruct (Z.eqb_spec (n - 1) 0) as [Hz|Hz].
        -- rewrite Hz. reflexivity.
        -- assert ((0 <? n - 1) = true) as -> by (apply Z.ltb_lt; lia). reflexivity.
      * assert (Z.to_nat n = 0%nat) as Hn0 by lia. rewrite Hn0. cbn [drop].
        assert (Z.max 0 n = 0) as -> by lia. rewrite Z.sub_0_r.
        assert (Hnext :
          array_next
            (array_iterator seen (d :: rest) [FILTER (fun o _ => f o); TAKE c] idx false) =
          Ok (Some d,
              array_iterator (seen ++ [d]) rest [FILTER (fun o _ => f o); TAKE (c - 1)]
                (idx + 1) (c - 1 =? 0))).
        { rewrite array_next_cons. cbn [run_iteratees app mbind result_bind bind].
          rewrite Hd. cbn [run_iteratees mbind result_bind bind].
          by destruct (c - 1 =? 0). }
        pose proof (IH (seen ++ [d]) (idx + 1) (c - 1) n Hrest) as H.
        assert ((0 <? n) = false) as Hn' by (apply Z.ltb_ge; lia).
        rewrite Hn', Hn0 in H. cbn [drop] in H.
        assert (Z.max 0 n = 0) as Hmax by lia. rewrite Hmax, Z.sub_0_r in H.
        destruct (Z.ltb_spec 0 c) as [Hc|Hc].
        -- assert (Z.to_nat c = S (Z.to_nat (c - 1))) as -> by lia. cbn [take].
           eapply Drains_next; [exact Hnext|].
           destruct (Z.eqb_spec (c - 1) 0) as [Hz|Hz].
           ++ rewrite Hz. cbn [Z.to_nat take]. apply Drains_finished.
           ++ assert ((0 <? c - 1) = true) as Hc' by (apply Z.ltb_lt; lia).
              rewrite Hc' in H. exact H.
        -- cbn [id]. eapply Drains_next; [exact Hnext|].
           assert ((c - 1 =? 0) = false) as -> by (apply Z.eqb_neq; lia).
           assert ((0 <? c - 1) = false) as Hc' by (apply Z.ltb_ge; lia).
           rewrite Hc' in H. exact H.
    + eapply Drains_same_next; [|apply (IH (seen ++ [d]) (idx + 1) c n Hrest)].
      rewrite array_next_cons. cbn [run_iteratees app mbind result_bind bind].
      rewrite Hd. reflexivity.
Qed.

Lemma stream_limit_skip_project o (it : Iterator ArraySource) n m :
  pipeline_operator GLOBAL_CONTEXT "$project" o = bundle_function "$project" ->
  pipeline_operator GLOBAL_CONTEXT "$skip" o = bundle_function "$skip" ->
  pipeline_operator GLOBAL_CONTEXT "$limit" o = bundle_function "$limit" ->
  Aggregator_stream GLOBAL_CONTEXT
    [VObj [("$limit", m)]; VObj [("$skip", n)]; VObj [("$project", VObj [])]]
    (initOptions o) it =
  Ok (IteratorOps.drop (IteratorOps.take it m) n).
Proof.
  intros Hproject Hskip Hlimit. unfold Aggregator_stream. rewrite initOptions_idem.
  cbn [stream_loop Object_keys Object_entries own_props keys map fst hd length
       mbind result_bind bind].
  unfold pipeline_operator in Hproject, Hskip, Hlimit.
  rewrite Hlimit. cbn [bundle_function toBoolean Nat.eqb andb assert mbind result_bind bind].
  unfold call_pipeline_operator at 1.
  cbn [String.eqb Ascii.eqb Bool.eqb mbind result_bind bind].
  cbn [stream_loop Object_keys Object_entries own_props keys map fst hd length
       mbind result_bind bind].
  rewrite Hskip. cbn [bundle_function toBoolean Nat.eqb andb assert mbind result_bind bind].
  unfold call_pipeline_operator at 1.
  cbn [String.eqb Ascii.eqb Bool.eqb mbind result_bind bind].
  cbn [stream_loop Object_keys Object_entries own_props keys map fst hd length
       mbind result_bind bind].
  rewrite Hproject. reflexivity.
Qed.

(** X19: the order of [limit] and [skip] on a cursor matters.  When
    [limit(m)] is called before [skip(n)], for numbers above zero, the
    documents that are skipped count towards the limit: [all()] returns
    the matching documents without the first [n], cut after [m - n] when
    [n] is below [m], and not cut at all when [n] is [m] or more. *)
Theorem cursor_limit_then_skip query o q docs n m :
  0 < n -> 0 < m ->
  new_Query_l query o = Ok q ->
  pipeline_operator GLOBAL_CONTEXT "$project" o = bundle_function "$project" ->
  pipeline_operator GLOBAL_CONTEXT "$skip" o = bundle_function "$skip" ->
  pipeline_operator GLOBAL_CONTEXT "$limit" o = bundle_function "$limit" ->
  (forall d, In d docs -> exists b, test q d = Ok b) ->
  (c ← find_1_l (VArr docs) query VUndefined o;
   '(values, _) ← Cursor_all GLOBAL_CONTEXT (Cursor_skip (Cursor_limit c (VNum m)) (VNum n));
   Ok values) =
  Ok (let rest := drop (Z.to_nat n) (List.filter (matching (test q)) docs) in
      if n <? m then take (Z.to_nat (m - n)) rest else rest).
Proof.
  intros Hn Hm Hq Hproject Hskip Hlimit Htests.
  pose proof (Drains_filter_limit_skip (test q) (matching (test q)) docs [] (-1) m n
                (test_matching _ _ Htests)) as Hdrains.
  assert (Z.max 0 n = n) as Hmax by lia. rewrite Hmax in Hdrains.
  assert ((0 <? m - n) = (n <? m)) as Hlt.
  { destruct (Z.ltb_spec n m); [apply Z.ltb_lt|apply Z.ltb_ge]; lia. }
  rewrite Hlt in Hdrains.
  unfold find_1. rewrite Hq. cbn [mbind result_bind bind].
  unfold Cursor_all, Cursor_limit, Cursor_skip, Query_find, with_operator, with_buffer.
  cbn [cursor_buffer cursor_source cursor_predicate cursor_projection cursor_options
       cursor_operators cursor_result].
  unfold Cursor_fetch.
  cbn [cursor_buffer cursor_source cursor_predicate cursor_projection cursor_options
       cursor_operators cursor_result toBoolean isObject].
  unfold with_operator.
  cbn [cursor_buffer cursor_source cursor_predicate cursor_projection cursor_options
       cursor_operators cursor_result Lazy mbind result_bind bind app length Nat.ltb
       Nat.leb].
  rewrite (new_Query_options _ _ _ _ _ _ _ _ _ Hq), stream_limit_skip_project by done.
  cbn [mbind result_bind bind].
  assert (IteratorOps.drop
            (IteratorOps.take
               (IteratorOps.filter (Lazy_array docs) (fun o _ => test q o)) (VNum m))
            (VNum n) =
          array_iterator [] docs
            (FILTER (fun o _ => test q o) :: TAKE m :: (if 0 <? n then [DROP n] else []))
            (-1) false) as ->.
  { unfold IteratorOps.take, IteratorOps.drop.
    assert ((0 <? m) = true) as -> by (by apply Z.ltb_lt).
    by destruct (0 <? n). }
  edestruct (compose_value_drains [] _ _ Hdrains) as [composed ->].
  - cbn [array_iterator source src_size src_index app length].
    rewrite Nat.sub_0_r.
    etransitivity; [|apply (length_filter_le (matching (test q)))].
    etransitivity; [|apply (length_drop_le (Z.to_nat n))].
    destruct (n <? m); [apply length_take_le'|done].
  - cbn [mbind result_bind bind app]. by destruct (n <? m).
Qed.
End CursorOrderFacts.

Lemma cursor_limit_then_skip_witness :
  (c ← find_1 bundle_registry 0 example_apply example_JSON example_call example_user
         (VArr [VNum 1; VNum 2; VNum 3; VNum 4]) (VObj []) VUndefined None;
   '(values, _) ← Cursor_all bundle_registry
                    (Cursor_skip (Cursor_limit c (VNum 1)) (VNum 2));
   Ok values) =
  Ok [VNum 3; VNum 4].
Proof.
  refine (cursor_limit_then_skip bundle_registry 0 example_apply example_JSON
            example_call example_user (VObj []) None
            {| condition := VObj []; options := initOptions None; compiled := [] |}
            [VNum 1; VNum 2; VNum 3; VNum 4] 2 1 eq_refl eq_refl eq_refl eq_refl eq_refl
            eq_refl _).
  intros d _. by exists true.
Defined.

Section HasNextFacts.
Variable GLOBAL_CONTEXT : Context.
Variable Date_now : Z.
Variable apply_operator : fnid -> value -> value -> ComputeOptions -> result value.
Variable JSON_stringify : value -> result string.
Variable call_method : fnid -> value -> result value.
Variable user_query_operator : nat -> string -> value -> Options -> result predicate.

Local Abbreviation new_Query_h :=
  (new_Query GLOBAL_CONTEXT Date_now apply_operator JSON_stringify call_method
     user_query_operator).
Local Abbreviation find_1_h :=
  (find_1 GLOBAL_CONTEXT Date_now apply_operator JSON_stringify call_method
     user_query_operator).

Lemma array_next_filter_end (f : value -> result bool) rest :
  forall seen idx,
  (forall x, In x rest -> f x = Ok false) ->
  array_next (array_iterator seen rest [FILTER (fun o _ => f o)] idx false) =
    Ok (None,
        array_iterator (seen ++ rest) [] [FILTER (fun o _ => f o)]
          (idx + Z.of_nat (length rest)) true).
Proof.
  induction rest as [|x rest IH]; intros seen idx Hrest.
  - rewrite array_next_nil. cbn [length]. by rewrite Z.add_0_r, app_nil_r.
  - rewrite array_next_cons. cbn [run_iteratees].
    rewrite (Hrest x (or_introl eq_refl)). cbn [mbind result_bind bind].
    rewrite IH by (intros y Hy; apply Hrest; by right).
    rewrite <- app_assoc. cbn [app length]. do 3 f_equal. lia.
Qed.

(** A list is refused by a filter as a whole, or has a first element
    that passes. *)
Lemma filter_first (p : value -> bool) docs :
  (List.filter p docs = [] /\ forall x, In x docs -> p x = false) \/
  exists pre d post,
    docs = pre ++ d :: post /\ (forall x, In x pre -> p x = false) /\ p d = true /\
    List.filter p docs = d :: List.filter p post.
Proof.
  induction docs as [|x docs IH]; [by left|].
  cbn [List.filter]. destruct (p x) eqn:Hx.
  - right. exists [], x, docs. by repeat split.
  - destruct IH as [[Hnil Hall]|(pre & d & post & -> & Hpre & Hd & Hfilter)].
    + left. split; [done|]. by intros y [<-|Hy]; [|apply Hall].
    + right. exists (x :: pre), d, post. repeat split; [|done..].
      by intros y [<-|Hy]; [|apply Hpre].
Qed.

(** X20: [hasNext()] loses no document.  On a fresh cursor it tells
    whether a document matches; the document it had to fetch to find
    that out is kept, so that [next()] after it returns the first match
    and [all()] after it returns every match, in the order of the array. *)
Theorem hasNext_keeps_the_document query o q docs :
  new_Query_h query o = Ok q ->
  pipeline_operator GLOBAL_CONTEXT "$project" o = bundle_function "$project" ->
  (forall d, In d docs -> exists b, test q d = Ok b) ->
  let found := List.filter (matching (test q)) docs in
  (c ← find_1_h (VArr docs) query VUndefined o;
   '(b, c) ← Cursor_hasNext GLOBAL_CONTEXT c;
   '(values, _) ← Cursor_all GLOBAL_CONTEXT c;
   Ok (b, values)) = Ok (bool_decide (found <> []), found) /\
  (c ← find_1_h (VArr docs) query VUndefined o;
   '(b, c) ← Cursor_hasNext GLOBAL_CONTEXT c;
   '(v, _) ← Cursor_next GLOBAL_CONTEXT c;
   Ok (b, v)) = Ok (bool_decide (found <> []), hd VUndefined found).
Proof.
  intros Hq Hproject Htests found.
  pose proof (test_matching _ _ Htests) as Hm.
  destruct (Cursor_fetch_find GLOBAL_CONTEXT q docs VUndefined o
              (new_Query_options _ _ _ _ _ _ _ _ _ Hq) eq_refl Hproject)
    as (c & Hfetch & Hbuffer).
  unfold find_1. rewrite Hq. cbn [mbind result_bind bind].
  unfold Cursor_hasNext.
  change (cursor_buffer (Query_find q (VArr docs) VUndefined)) with (@nil value).
  cbn [length Nat.ltb Nat.leb]. rewrite Hfetch. cbn [mbind result_bind bind].
  destruct (filter_first (matching (test q)) docs)
    as [[Hnil Hall]|(pre & d & post & -> & Hpre & Hd & Hfilter)].
  - rewrite array_next_filter_end
      by (intros x Hx; rewrite (Hm x Hx); by rewrite (Hall x Hx)).
    cbn [mbind result_bind bind]. subst found. rewrite Hnil.
    rewrite bool_decide_eq_false_2 by (intros H; by apply H).
    split.
    + unfold Cursor_all, with_buffer, with_result.
      cbn [cursor_buffer cursor_source cursor_predicate cursor_projection cursor_options
           cursor_operators cursor_result].
      unfold Cursor_fetch. cbn [cursor_result].
      rewrite Hbuffer. cbn [mbind result_bind bind].
      match goal with
      | |- context [compose [Lazy_array []; ?it]] =>
          destruct (compose_value_drains [] it []) as [composed ->];
            [apply Drains_finished|cbn [length]; lia|]
      end.
      reflexivity.
    + unfold Cursor_next, with_result. cbn [cursor_buffer]. rewrite Hbuffer.
      cbn [rev]. unfold Cursor_fetch. cbn [cursor_result mbind result_bind bind].
      rewrite array_next_finished. reflexivity.
  - rewrite array_next_filter_first.
    2: { intros x Hx. rewrite Hm by (apply in_or_app; by left). by rewrite (Hpre x Hx). }
    2: { rewrite Hm by (apply in_or_app; right; by left). by rewrite Hd. }
    cbn [mbind result_bind bind]. subst found. rewrite Hfilter.
    rewrite bool_decide_eq_true_2 by done.
    split.
    + unfold Cursor_all, with_buffer, with_result.
      cbn [cursor_buffer cursor_source cursor_predicate cursor_projection cursor_options
           cursor_operators cursor_result].
      rewrite Hbuffer. cbn [app].
      unfold Cursor_fetch. cbn [cursor_result mbind result_bind bind].
      pose proof (Drains_filter_skip_limit (test q) (matching (test q)) post
                    (pre ++ [d]) (-1 + Z.of_nat (length pre) + 1) 0 0) as Hdrains.
      cbn [Z.ltb Z.compare] in Hdrains. change ([] ++ []) with (@nil iteratee) in Hdrains.
      change (Z.to_nat 0) with 0%nat in Hdrains. rewrite drop_0 in Hdrains.
      edestruct (compose_value_drains [d] _ _ (Hdrains ltac:(intros x Hx; apply Hm;
                   apply in_or_app; right; by right))) as [composed ->].
      * cbn [array_iterator source src_size src_index app id].
        rewrite !length_app. cbn [length].
        pose proof (length_filter_le (matching (test q)) post). lia.
      * reflexivity.
    + unfold Cursor_next, with_buffer, with_result.
      cbn [cursor_buffer cursor_source cursor_predicate cursor_projection cursor_options
           cursor_operators cursor_result].
      rewrite Hbuffer. reflexivity.
Qed.
End HasNextFacts.

Lemma hasNext_keeps_the_document_witness :
  (c ← find_1 bundle_registry 0 example_apply example_JSON example_call example_user
         (VArr [VNum 1; VNum 2]) (VObj []) VUndefined None;
   '(b, c) ← Cursor_hasNext bundle_registry c;
   '(values, _) ← Cursor_all bundle_registry c;
   Ok (b, values)) = Ok (true, [VNum 1; VNum 2]).
Proof.
  refine (proj1 (hasNext_keeps_the_document bundle_registry 0 example_apply example_JSON
            example_call example_user (VObj []) None
            {| condition := VObj []; options := initOptions None; compiled := [] |}
            [VNum 1; VNum 2] eq_refl eq_refl _)).
  intros d _. by exists true.
Defined.

Section UpdateFacadeFacts.
Variable GLOBAL_CONTEXT : Context.
Variable Date_now : Z.
Variable apply_operator : fnid -> value -> value -> ComputeOptions -> result value.
Variable JSON_stringify : value -> result string.
Variable call_method : fnid -> value -> result value.
Variable user_query_operator : nat -> string -> value -> Options -> result predicate.

Local Abbreviation new_Query_p :=
  (new_Query GLOBAL_CONTEXT Date_now apply_operator JSON_stringify call_method
     user_query_operator).
Local Abbreviation update_p :=
  (update GLOBAL_CONTEXT Date_now apply_operator JSON_stringify call_method
     user_query_operator).
Local Abbreviation updateDocument_p :=
  (updateDocument GLOBAL_CONTEXT Date_now apply_operator JSON_stringify call_method
     user_query_operator).

(** X21: [update] of the facade tests every document of the array
    first and then runs [updateDocument] on the documents that match, in
    the order of the array, returning one list of paths for each of them.
    When no document matches it returns the empty list whatever the
    update command is: a command that [updateDocument] would refuse is
    not looked at. *)
Theorem update_runs_on_the_matching_documents query q docs updateCmd :
  new_Query_p query None = Ok q ->
  pipeline_operator GLOBAL_CONTEXT "$project" None = bundle_function "$project" ->
  (forall d, In d docs -> exists b, test q d = Ok b) ->
  update_p (VArr docs) query updateCmd =
    mapM (fun item => updateDocument_p item updateCmd)
         (List.filter (matching (test q)) docs) /\
  (List.filter (matching (test q)) docs = [] ->
   update_p (VArr docs) query updateCmd = Ok []).
Proof.
  intros Hq Hproject Htests.
  assert (update_p (VArr docs) query updateCmd =
          mapM (fun item => updateDocument_p item updateCmd)
               (List.filter (matching (test q)) docs)) as H.
  { unfold update, find_1. rewrite Hq. cbn [mbind result_bind bind].
    destruct (Cursor_all_find GLOBAL_CONTEXT q docs VUndefined None
                (new_Query_options _ _ _ _ _ _ _ _ _ Hq) eq_refl Hproject Htests)
      as [c ->].
    reflexivity. }
  split; [exact H|]. intros Hnone. by rewrite H, Hnone.
Qed.
End UpdateFacadeFacts.

Lemma update_runs_on_the_matching_documents_witness :
  update bundle_registry 0 example_apply example_JSON example_call example_user
    (VArr [VObj [("a", VNum 1)]; VObj [("a", VNum 2)]])
    (VObj [("a", VNum 2)]) (VObj [("$inc", VObj [("a", VNum 5)])]) =
  Ok [(VObj [("a", VNum 7)], ["a"])].
Proof.
  refine (proj1 (update_runs_on_the_matching_documents bundle_registry 0 example_apply
            example_JSON example_call example_user (VObj [("a", VNum 2)])
            {| condition := VObj [("a", VNum 2)];
               options := initOptions None;
               compiled := [createQueryOperator (fun a b depth => Ok (eq_2 a b depth))
                              "a" (VNum 2)] |}
            [VObj [("a", VNum 1)]; VObj [("a", VNum 2)]]
            (VObj [("$inc", VObj [("a", VNum 5)])]) eq_refl eq_refl _)).
  intros d [<-|[<-|[]]]; eexists; reflexivity.
Defined.

Lemma string_ltb_trans s1 s2 s3 :
  String.ltb s1 s2 = true -> String.ltb s2 s3 = true -> String.ltb s1 s3 = true.
Proof.
  unfold String.ltb. intros H1 H2.
  destruct (s1 ?= s2)%string eqn:E1; try done. destruct (s2 ?= s3)%string eqn:E2; try done.
  by rewrite (string_compare_trans _ _ _ E1 E2).
Qed.

Lemma string_ltb_asym s1 s2 : String.ltb s1 s2 = true -> String.ltb s2 s1 = false.
Proof.
  unfold String.ltb. rewrite (String.compare_antisym s1 s2).
  by destruct (s2 ?= s1)%string.
Qed.

Lemma string_ltb_total s1 s2 :
  String.ltb s1 s2 = false -> String.ltb s2 s1 = false -> s1 = s2.
Proof.
  unfold String.ltb. rewrite (String.compare_antisym s1 s2).
  destruct (s2 ?= s1)%string eqn:E; try done. intros _ _.
  symmetry. by apply String.compare_eq_iff.
Qed.

(** The rank of the type of a scalar and its place among the values of
    that type decide [compare$1]. *)
Lemma compare_1_scalars a b :
  scalar_key a = true -> scalar_key b = true ->
  compare_1 a b =
    Ok (let u := SORT_ORDER_BY_TYPE (toLowerCase (getType a)) in
        let v := SORT_ORDER_BY_TYPE (toLowerCase (getType b)) in
        if negb (u =? v) then u - v
        else if lessThan a b then -1 else if lessThan b a then 1 else 0).
Proof.
  intros Ha Hb.
  destruct a as [| |x|x| |x|x| | |], b as [| |y|y| |y|y| | |]; try done;
    try reflexivity.
  - (* booleans *)
    unfold compare_1. rewrite isEqual_spec. by destruct x, y.
  - unfold compare_1. cbn [getType].
    change (SORT_ORDER_BY_TYPE (toLowerCase "Number")) with 1.
    cbn [Z.eqb Pos.eqb negb orb]. cbv zeta. cbn [Z.eqb Pos.eqb negb orb].
    by repeat case_match.
  - unfold compare_1. cbn [getType].
    change (SORT_ORDER_BY_TYPE (toLowerCase "String")) with 2.
    cbn [Z.eqb Pos.eqb negb orb]. cbv zeta. cbn [Z.eqb Pos.eqb negb orb].
    by repeat case_match.
  - unfold compare_1. cbn [getType].
    change (SORT_ORDER_BY_TYPE (toLowerCase "Date")) with 6.
    cbn [Z.eqb Pos.eqb negb orb]. cbv zeta. cbn [Z.eqb Pos.eqb negb orb].
    by repeat case_match.
Qed.

Lemma lessThan_asym a b : lessThan a b = true -> lessThan b a = false.
Proof.
  destruct a as [| |x|x| |x|x| | |], b as [| |y|y| |y|y| | |]; cbn [lessThan]; try done.
  - by destruct x, y.
  - intros H%Z.ltb_lt. apply Z.ltb_ge. lia.
  - apply string_ltb_asym.
  - intros H%Z.ltb_lt. apply Z.ltb_ge. lia.
Qed.

(** Among scalars of one type, not being after is transitive. *)
Lemma lessThan_trans a b c :
  scalar_key a = true -> scalar_key b = true -> scalar_key c = true ->
  getType a = getType b -> getType b = getType c ->
  lessThan b a = false -> lessThan c b = false -> lessThan c a = false.
Proof.
  intros Ha Hb Hc Hab Hbc.
  destruct a as [| |x|x| |x|x| | |], b as [| |y|y| |y|y| | |]; try done;
    destruct c as [| |z|z| |z|z| | |]; try done; cbn [lessThan].
  - by destruct x, y, z.
  - intros H1%Z.ltb_ge H2%Z.ltb_ge. apply Z.ltb_ge. lia.
  - intros H1 H2. destruct (String.ltb z x) eqn:E; [|done].
    destruct (String.ltb y z) eqn:E2.
    + by rewrite (string_ltb_trans _ _ _ E2 E) in H1.
    + rewrite (string_ltb_total _ _ E2 H2) in H1. by rewrite H1 in E.
  - intros H1%Z.ltb_ge H2%Z.ltb_ge. apply Z.ltb_ge. lia.
Qed.

Lemma rank_type a b :
  scalar_key a = true -> scalar_key b = true ->
  SORT_ORDER_BY_TYPE (toLowerCase (getType a)) =
  SORT_ORDER_BY_TYPE (toLowerCase (getType b)) ->
  getType a = getType b \/ (lessThan a b = false /\ lessThan b a = false /\
                            forall c, lessThan a c = false /\ lessThan c a = false /\
                                      lessThan b c = false /\ lessThan c b = false).
Proof.
  intros Ha Hb.
  destruct a as [| |x|x| |x|x| | |], b as [| |y|y| |y|y| | |]; try done;
    try (by left); try (intros H; vm_compute in H; discriminate H);
    intros _; right; repeat split; by destruct c.
Qed.

(** X22: [compare$1], the comparator [sortBy] uses by default, on
    numbers, strings, dates, booleans, null and undefined.  It always
    returns a number; swapping the arguments swaps the sign; and on any
    list of such keys it is consistent: antisymmetric in sign, with a
    transitive not-after relation. *)
Theorem compare_1_is_consistent_on_scalars ks :
  Forall (fun k => scalar_key k = true) ks ->
  (forall a b, In a ks -> In b ks ->
     exists c, compare_1 a b = Ok c /\ compare_1 b a = Ok (- c)) /\
  consistent_on default_comparator ks.
Proof.
  intros Hks. rewrite List.Forall_forall in Hks.
  assert (Hswap : forall a b, In a ks -> In b ks ->
            exists c, compare_1 a b = Ok c /\ compare_1 b a = Ok (- c)).
  { intros a b Ha Hb. rewrite !compare_1_scalars by auto. cbv zeta.
    eexists. split; [reflexivity|]. f_equal.
    rewrite (Z.eqb_sym (SORT_ORDER_BY_TYPE (toLowerCase (getType b)))).
    destruct (_ =? _); cbn [negb]; [|lia].
    destruct (lessThan a b) eqn:E1; [by rewrite (lessThan_asym _ _ E1)|].
    by destruct (lessThan b a). }
  split; [exact Hswap|]. split.
  - intros a b Ha Hb. unfold default_comparator.
    destruct (Hswap a b Ha Hb) as (c & -> & ->). lia.
  - intros a b c Ha Hb Hc. unfold default_comparator.
    rewrite !compare_1_scalars by auto. cbv zeta.
    set (ra := SORT_ORDER_BY_TYPE (toLowerCase (getType a))).
    set (rb := SORT_ORDER_BY_TYPE (toLowerCase (getType b))).
    set (rc := SORT_ORDER_BY_TYPE (toLowerCase (getType c))).
    destruct (Z.eqb_spec ra rb) as [Hab|Hab], (Z.eqb_spec rb rc) as [Hbc|Hbc],
      (Z.eqb_spec ra rc) as [Hac|Hac]; cbn [negb]; try lia.
    intros H1 H2.
    assert (lessThan b a = false) as Hba.
    { destruct (lessThan a b) eqn:E; [by apply lessThan_asym|].
      destruct (lessThan b a); [lia|done]. }
    assert (lessThan c b = false) as Hcb.
    { destruct (lessThan b c) eqn:E; [by apply lessThan_asym|].
      destruct (lessThan c b); [lia|done]. }
    assert (lessThan c a = false) as Hca.
    { destruct (rank_type a b (Hks a Ha) (Hks b Hb) Hab) as [Tab|(_ & _ & Hn)];
        [|apply Hn].
      destruct (rank_type b c (Hks b Hb) (Hks c Hc) Hbc) as [Tbc|(_ & _ & Hn)].
      - by apply (lessThan_trans a b c); auto.
      - destruct (rank_type a c (Hks a Ha) (Hks c Hc) Hac) as [Tac|(_ & H & _)]; [|done].
        destruct (Hn a) as (_ & _ & H & _). exact H. }
    rewrite Hca. destruct (lessThan a c); lia.
Qed.

Lemma compare_1_is_consistent_on_scalars_witness :
  consistent_on default_comparator [VNum 3; VStr "a"; VNull; VNum 1].
Proof.
  refine (proj2 (compare_1_is_consistent_on_scalars [VNum 3; VStr "a"; VNull; VNum 1] _)).
  repeat constructor.
Defined.

(** [isEqual] on two scalars, on two arrays and on two mappings. *)
Lemma deepEq_scalar_iff a b :
  isArray a = false -> isObject a = false -> isFunction a = false ->
  deepEq a b = true <-> getConstructor a = getConstructor b /\ convert a = convert b.
Proof.
  intros Harr Hobj Hfun. rewrite deepEq_unfold_scalar by done. rewrite Hfun, orb_false_r.
  destruct (strictEq a b) eqn:Hs.
  { by rewrite (strictEq_eq a b Hs Hfun). }
  destruct (bool_decide_reflect (getConstructor a = getConstructor b)) as [Hc|Hc];
    cbn [negb].
  - rewrite String.eqb_eq. tauto.
  - split; [done|tauto].
Qed.

Lemma getConstructor_scalar a b :
  isArray a = false -> isObject a = false ->
  getConstructor a = getConstructor b ->
  isArray b = false /\ isObject b = false.
Proof.
  intros Harr Hobj Hc. destruct a, b; try done; simpl in Hc;
    by destruct (has_constructor _).
Qed.

Lemma has_constructor_In kvs :
  has_constructor kvs = true <-> In "constructor" (keys kvs).
Proof.
  unfold has_constructor. rewrite existsb_exists. unfold keys. rewrite in_map_iff.
  split; intros (kv & H1 & H2); exists kv.
  - by apply String.eqb_eq in H2.
  - split; [done|]. by apply String.eqb_eq.
Qed.

Lemma has_constructor_keys ka kb :
  (forall k, In k (keys ka) <-> In k (keys kb)) ->
  has_constructor ka = has_constructor kb.
Proof.
  intros Hkeys. apply eq_true_iff_eq. by rewrite !has_constructor_In.
Qed.

Lemma deepEq_arr xs ys :
  deepEq (VArr xs) (VArr ys) = true <->
  Forall2 (fun x y => deepEq x y = true) xs ys.
Proof.
  cbn [deepEq strictEq getConstructor isFunction STRING_CONVERTERS].
  rewrite bool_decide_true by done. cbn [negb orb].
  rewrite andb_true_iff, Nat.eqb_eq.
  revert ys. induction xs as [|x xs IH]; intros [|y ys]; cbn [length].
  - split; [constructor|done].
  - split; [by intros [? _]|intros H; inversion H].
  - split; [by intros [? _]|intros H; inversion H].
  - rewrite Forall2_cons, <- IH, andb_true_iff. split.
    + intros [Hlen [Hx Hrest]]. split; [done|]. split; [lia|done].
    + intros [Hx [Hlen Hrest]]. split; [lia|]. by split.
Qed.

Lemma getProp_In kvs k :
  In k (keys kvs) -> In (k, getProp (VObj kvs) k) kvs.
Proof.
  intros Hk. cbn [getProp]. destruct (lookup_key k kvs) as [v|] eqn:E.
  - by apply lookup_key_In.
  - by apply lookup_key_None in E.
Qed.

Lemma length_union (ka kb : list string) :
  NoDup ka -> (forall k, In k kb -> In k ka) ->
  length (remove_dups (ka ++ kb)) = length ka.
Proof.
  intros Ha Hsub. apply Permutation_length, NoDup_Permutation; [apply NoDup_remove_dups|done|].
  intros k. rewrite elem_of_remove_dups, elem_of_app.
  split; [intros [H|H]; [done|by apply list_elem_of_In, Hsub, list_elem_of_In]|by left].
Qed.

Lemma deepEq_obj_iff ka kb :
  NoDup (keys ka) -> NoDup (keys kb) ->
  deepEq (VObj ka) (VObj kb) = true <->
  has_constructor ka = false /\
  (forall k, In k (keys ka) <-> In k (keys kb)) /\
  (forall k, In k (keys ka) ->
             deepEq (getProp (VObj ka) k) (getProp (VObj kb) k) = true).
Proof.
  intros Ha Hb.
  rewrite deepEq_obj, !andb_true_iff, !negb_true_iff, !Nat.eqb_eq, forallb_forall.
  split.
  - intros [[[[Hca Hcb] Hlen] Hunion] Hall]. split; [done|].
    assert (Hkeys : forall k, In k (keys ka) <-> In k (keys kb)).
    { apply same_keys; try done; unfold keys in *; rewrite ?length_map in *; done. }
    split; [done|]. intros k Hk. by apply (Hall _ (getProp_In ka k Hk)).
  - intros [Hca [Hkeys Hall]].
    assert (Hlen : length ka = length kb).
    { rewrite <- (length_map fst ka), <- (length_map fst kb).
      apply Permutation_length, NoDup_Permutation; [done..|].
      intros k. rewrite !list_elem_of_In. apply Hkeys. }
    split; [split; [split; [split; [done|by rewrite <- (has_constructor_keys ka kb)]|done]|]|].
    + rewrite length_union; [by unfold keys; rewrite length_map|done|].
      intros k. apply Hkeys.
    + intros [k v] Hkv. cbn [fst snd].
      assert (Hk : In k (keys ka)) by (change k with (fst (k, v)); by apply in_map).
      specialize (Hall k Hk). cbn [getProp] in Hall |- *.
      by rewrite (lookup_key_NoDup k v ka Ha Hkv) in Hall.
Qed.

Lemma no_constructor_getProp kvs k :
  no_constructor (VObj kvs) = true -> no_constructor (getProp (VObj kvs) k) = true.
Proof.
  cbn [no_constructor]. intros [_ Hall]%andb_prop. rewrite forallb_forall in Hall.
  cbn [getProp]. destruct (lookup_key k kvs) as [v|] eqn:Hk; [|done].
  apply lookup_key_In in Hk. apply (Hall _ Hk).
Qed.

Lemma deepEq_refl a : document a -> no_constructor a = true -> deepEq a a = true.
Proof.
  induction a as [| |x|x| |x|x|id src|xs IH|ka IH] using value_ind'; intros Ha Hp;
    try (by apply deepEq_scalar_iff); try done.
  - apply deepEq_arr. apply document_arr in Ha. cbn [no_constructor] in Hp.
    induction xs as [|x xs IHxs]; constructor.
    + apply (Forall_inv IH); [apply (Forall_inv Ha)|].
      by apply andb_prop in Hp as [? _].
    + apply IHxs; [apply (Forall_inv_tail IH)|apply (Forall_inv_tail Ha)|].
      by apply andb_prop in Hp as [_ ?].
  - pose proof Ha as Hdoc. apply document_obj in Ha as [Hnd Hall].
    apply deepEq_obj_iff; [done..|]. split.
    { cbn [no_constructor] in Hp. apply andb_prop in Hp as [Hc _].
      by apply negb_true_iff in Hc. }
    split; [done|].
    intros k Hk. pose proof (getProp_In ka k Hk) as Hin.
    rewrite List.Forall_forall in IH.
    apply (IH _ Hin); [by apply document_getProp|by apply no_constructor_getProp].
Qed.

Lemma deepEq_getConstructor a b :
  deepEq a b = true -> getConstructor a = getConstructor b.
Proof.
  destruct a as [| |x|x| |x|x|id src|xs|ka]; cbn [deepEq];
    (destruct (strictEq _ b) eqn:Hs; [by destruct b|]);
    match goal with
    | |- context [bool_decide (?x = ?y)] => by destruct (bool_decide_reflect (x = y))
    end.
Qed.

Lemma deepEq_arr_inv xs b : deepEq (VArr xs) b = true -> exists ys, b = VArr ys.
Proof.
  intros H%deepEq_getConstructor. destruct b; try done; [by eexists|].
  simpl in H. by destruct (has_constructor _).
Qed.

Lemma deepEq_obj_inv ka b : deepEq (VObj ka) b = true -> exists kb, b = VObj kb.
Proof.
  intros H%deepEq_getConstructor. destruct b; try (by eexists);
    simpl in H; by destruct (has_constructor _).
Qed.

Lemma deepEq_scalar_sym a b :
  isArray a = false -> isObject a = false -> document a -> document b ->
  deepEq a b = true -> deepEq b a = true.
Proof.
  intros Harr Hobj Ha Hb Heq.
  destruct (getConstructor_scalar a b Harr Hobj (deepEq_getConstructor _ _ Heq))
    as [Harr' Hobj'].
  apply deepEq_scalar_iff in Heq as [Hc Hs]; [|done|done|by apply document_not_function].
  apply deepEq_scalar_iff; [done|done|by apply document_not_function|done].
Qed.

Lemma deepEq_scalar_trans a b c :
  isArray a = false -> isObject a = false -> document a -> document b ->
  deepEq a b = true -> deepEq b c = true -> deepEq a c = true.
Proof.
  intros Harr Hobj Ha Hb Hab Hbc.
  destruct (getConstructor_scalar a b Harr Hobj (deepEq_getConstructor _ _ Hab))
    as [Harr' Hobj'].
  apply deepEq_scalar_iff in Hab as [Hc1 Hs1];
    [|done|done|by apply document_not_function].
  apply deepEq_scalar_iff in Hbc as [Hc2 Hs2];
    [|done|done|by apply document_not_function].
  apply deepEq_scalar_iff; [done|done|by apply document_not_function|].
  split; congruence.
Qed.

Lemma deepEq_sym a : forall b,
  document a -> document b -> deepEq a b = true -> deepEq b a = true.
Proof.
  induction a as [| |x|x| |x|x|id src|xs IH|ka IH] using value_ind'; intros b Ha Hb;
    try (by apply deepEq_scalar_sym).
  - intros Heq. destruct (deepEq_arr_inv _ _ Heq) as [ys ->]. revert Heq.
    rewrite !deepEq_arr. apply document_arr in Ha, Hb.
    intros H. induction H as [|x y xs ys Hxy Hrest IHrest]; constructor.
    + apply (Forall_inv IH); [apply (Forall_inv Ha)|apply (Forall_inv Hb)|done].
    + apply IHrest; [apply (Forall_inv_tail IH)|apply (Forall_inv_tail Ha)
                    |apply (Forall_inv_tail Hb)].
  - intros Heq. destruct (deepEq_obj_inv _ _ Heq) as [kb ->]. revert Heq.
    pose proof Ha as Hda. pose proof Hb as Hdb.
    apply document_obj in Ha as [Hna Halla], Hb as [Hnb Hallb].
    rewrite !deepEq_obj_iff by done. intros [Hca [Hkeys Hvals]].
    split; [by rewrite <- (has_constructor_keys ka kb)|].
    split; [intros k; by rewrite Hkeys|].
    intros k Hk. apply Hkeys in Hk. rewrite List.Forall_forall in IH.
    apply (IH _ (getProp_In ka k Hk)); [by apply document_getProp..|by apply Hvals].
Qed.

Lemma deepEq_trans a : forall b c,
  document a -> document b -> document c ->
  deepEq a b = true -> deepEq b c = true -> deepEq a c = true.
Proof.
  induction a as [| |x|x| |x|x|id src|xs IH|ka IH] using value_ind'; intros b c Ha Hb Hc;
    try (by apply deepEq_scalar_trans).
  - intros Hab. destruct (deepEq_arr_inv _ _ Hab) as [ys ->].
    intros Hbc. destruct (deepEq_arr_inv _ _ Hbc) as [zs ->]. revert Hab Hbc.
    rewrite !deepEq_arr. apply document_arr in Ha, Hb, Hc.
    intros H. revert zs Hc.
    induction H as [|x y xs ys Hxy Hrest IHrest]; intros zs Hc Hyz;
      inversion Hyz as [|y' z ys' zs' Hyz1 Hyz2]; subst; constructor.
    + apply (Forall_inv IH) with y;
        [apply (Forall_inv Ha)|apply (Forall_inv Hb)|apply (Forall_inv Hc)|done..].
    + apply IHrest; [apply (Forall_inv_tail IH)|apply (Forall_inv_tail Ha)
                    |apply (Forall_inv_tail Hb)|apply (Forall_inv_tail Hc)|done].
  - intros Hab. destruct (deepEq_obj_inv _ _ Hab) as [kb ->].
    intros Hbc. destruct (deepEq_obj_inv _ _ Hbc) as [kc ->]. revert Hab Hbc.
    pose proof Ha as Hda. pose proof Hb as Hdb. pose proof Hc as Hdc.
    apply document_obj in Ha as [Hna Halla], Hb as [Hnb Hallb], Hc as [Hnc Hallc].
    rewrite !deepEq_obj_iff by done. intros [Hca [Hk1 Hv1]] [Hcb [Hk2 Hv2]].
    split; [done|].
    split; [intros k; by rewrite Hk1, Hk2|].
    intros k Hk. rewrite List.Forall_forall in IH.
    apply (IH _ (getProp_In ka k Hk)) with (getProp (VObj kb) k);
      [by apply document_getProp..|by apply Hv1|apply Hv2; by apply Hk1].
Qed.

(** X23: [isEqual] on documents, each an object of its own.  A document
    none of whose mappings has a member named [constructor] is equal to
    its copy, also NaN and a date, and to the copy with the keys of a
    mapping in another order; the order of the arguments does not matter;
    and two documents equal to a third are equal.  (A mapping with a
    member named [constructor] is equal to no other object.) *)
Theorem isEqual_is_an_equivalence_on_documents a b c :
  document a -> document b -> document c ->
  (no_constructor a = true -> isEqual a a = true) /\
  isEqual a b = isEqual b a /\
  (isEqual a b = true -> isEqual b c = true -> isEqual a c = true) /\
  (forall ka kb, a = VObj ka -> b = VObj kb -> no_constructor a = true ->
                 Permutation ka kb -> isEqual a b = true).
Proof.
  intros Ha Hb Hc. rewrite !isEqual_spec.
  split; [intros Hp; by apply deepEq_refl|]. split; [|split].
  - destruct (deepEq a b) eqn:Hab, (deepEq b a) eqn:Hba; try done.
    + by rewrite (deepEq_sym a b Ha Hb Hab) in Hba.
    + by rewrite (deepEq_sym b a Hb Ha Hba) in Hab.
  - by apply deepEq_trans.
  - intros ka kb -> -> Hp Hperm.
    pose proof Ha as Hda. pose proof Hb as Hdb.
    apply document_obj in Ha as [Hna Halla], Hb as [Hnb Hallb].
    apply deepEq_obj_iff; [done..|].
    assert (Hkeys : forall k, In k (keys ka) <-> In k (keys kb)).
    { intros k. rewrite <- !list_elem_of_In. unfold keys. by rewrite Hperm. }
    split.
    { cbn [no_constructor] in Hp. apply andb_prop in Hp as [Hca _].
      by apply negb_true_iff in Hca. }
    split; [done|]. intros k Hk.
    assert (getProp (VObj kb) k = getProp (VObj ka) k) as ->.
    { pose proof (getProp_In ka k Hk) as Hin.
      apply (Permutation_in _ Hperm) in Hin.
      change (getProp (VObj kb) k) with (default VUndefined (lookup_key k kb)).
      by rewrite (lookup_key_NoDup _ _ _ Hnb Hin). }
    apply deepEq_refl; [by apply document_getProp|by apply no_constructor_getProp].
Qed.

Lemma isEqual_is_an_equivalence_on_documents_witness :
  isEqual (VObj [("a", VNum 1); ("b", VNaN)]) (VObj [("b", VNaN); ("a", VNum 1)]) = true.
Proof.
  assert (D1 : document (VObj [("a", VNum 1); ("b", VNaN)])).
  { apply document_obj. split; [|by repeat constructor].
    apply NoDup_ListNoDup. repeat constructor; cbn; intuition discriminate. }
  assert (D2 : document (VObj [("b", VNaN); ("a", VNum 1)])).
  { apply document_obj. split; [|by repeat constructor].
    apply NoDup_ListNoDup. repeat constructor; cbn; intuition discriminate. }
  refine (proj2 (proj2 (proj2 (isEqual_is_an_equivalence_on_documents _ _ VNull D1 D2 I)))
            _ _ eq_refl eq_refl eq_refl _).
  apply perm_swap.
Defined.

Lemma resolve2_item field item d :
  NUMBER_RE field = false -> (0 < d)%nat ->
  resolve2 item [field] true d = (member_of_item field item, d).
Proof.
  intros Hfield Hd. destruct item as [| | | | | | | |xs|kvs]; try done.
  - cbn [resolve2]. rewrite Hfield. cbn [negb andb].
    assert ((0 <? d)%nat = true) as -> by by apply Nat.ltb_lt. done.
  - rewrite resolve2_obj. cbn [member_of_item getProp].
    destruct (lookup_key field kvs) as [v|]; [|done]. by destruct v.
Qed.

Lemma NUMBER_RE_no_dot s : NUMBER_RE s = true -> no_dot s = true.
Proof.
  unfold NUMBER_RE, no_dot. intros [_ H]%andb_prop.
  induction s as [|c s IH]; [done|]. cbn [all_chars] in *.
  apply andb_prop in H as [Hc Hs]. rewrite (IH Hs), andb_true_r.
  apply negb_true_iff. destruct (Ascii.eqb_spec c "."); [|done]. by subst.
Qed.

(** X24: [resolve] along a path that meets an array.  A name after the
    array is looked up in each element: the result is the array of the
    members found, in order, where an element that is an array is taken
    as it is and an element without such a member is left out.  A
    number after the array picks the element at that index, and gives
    undefined past the end.  The name looked up in the elements is not
    one that a mapping inherits from its prototype, and no element is a
    date or a function, which have members of their own. *)
Theorem resolve_over_an_array kvs name items :
  no_dot name = true ->
  lookup_key name kvs = Some (VArr items) ->
  (forall field,
     no_dot field = true -> NUMBER_RE field = false ->
     inherited field = false ->
     Forall (fun item => isDate item = false /\ isFunction item = false) items ->
     resolve (VObj kvs) (name +:+ String "." field) false =
       VArr (List.filter (fun v => negb (isUndefined v))
               (map (member_of_item field) items))) /\
  (forall idx i,
     array_index idx = Some i ->
     resolve (VObj kvs) (name +:+ String "." idx) false = nth i items VUndefined).
Proof.
  intros Hname Hk. split.
  - intros field Hdot Hfield Hown Hitems. unfold resolve. cbn [getType].
    change (in_strings _ JS_SIMPLE_TYPES) with false. cbv iota.
    rewrite (split_dot_app _ _ Hname), (split_dot_name _ Hdot), resolve2_obj, Hk.
    cbn [isUndefined resolve2]. rewrite Hfield. cbn [negb andb Nat.ltb Nat.leb].
    match goal with
    | |- context [?reduce items [] 1%nat] =>
        assert (Hreduce : forall xs acc d, (0 < d)%nat ->
                  reduce xs acc d =
                    (acc ++ List.filter (fun v => negb (isUndefined v))
                              (map (member_of_item field) xs), d))
    end.
    { induction xs as [|x xs IH]; intros acc d Hd; [by rewrite app_nil_r|].
      change (resolve2 x [field] true d) with (resolve2 x [field] true d).
      cbn [map List.filter].
      match goal with
      | |- context [resolve2 x [field] true d] => rewrite (resolve2_item field x d Hfield Hd)
      end.
      rewrite IH by done.
      destruct (isUndefined (member_of_item field x)); cbn [negb]; [done|].
      by rewrite <- app_assoc. }
    rewrite Hreduce by lia. cbn [app isArray andb]. done.
  - intros idx i Hidx.
    assert (Hnum : NUMBER_RE idx = true).
    { unfold array_index in Hidx. by destruct (NUMBER_RE idx). }
    unfold resolve. cbn [getType].
    change (in_strings _ JS_SIMPLE_TYPES) with false. cbv iota.
    rewrite (split_dot_app _ _ Hname), (split_dot_name _ (NUMBER_RE_no_dot _ Hnum)),
      resolve2_obj, Hk.
    cbn [isUndefined resolve2]. rewrite Hnum, Hidx. cbn [negb].
    match goal with
    | |- context [?at_index items i] =>
        assert (Hat : forall xs j, at_index xs j = (nth j xs VUndefined, 0%nat))
    end.
    { induction xs as [|x xs IH]; intros [|j]; try done; by destruct x. }
    rewrite Hat. cbn [isArray]. by rewrite andb_false_r.
Qed.

Lemma resolve_over_an_array_witness :
  resolve (VObj [("items", VArr [VObj [("qty", VNum 1)]; VNum 7; VObj [("qty", VNum 3)]])])
    "items.qty" false = VArr [VNum 1; VNum 3].
Proof.
  exact (proj1 (resolve_over_an_array
                  [("items", VArr [VObj [("qty", VNum 1)]; VNum 7; VObj [("qty", VNum 3)]])]
                  "items" [VObj [("qty", VNum 1)]; VNum 7; VObj [("qty", VNum 3)]]
                  eq_refl eq_refl) "qty" eq_refl eq_refl eq_refl
           ltac:(by repeat constructor)).
Defined.

Section BitFacts.
Variable GLOBAL_CONTEXT : Context.
Variable Date_now : Z.
Variable apply_operator : fnid -> value -> value -> ComputeOptions -> result value.
Variable JSON_stringify : value -> result string.
Variable call_method : fnid -> value -> result value.
Variable user_query_operator : nat -> string -> value -> Options -> result predicate.

Local Abbreviation updateDocument_b :=
  (updateDocument GLOBAL_CONTEXT Date_now apply_operator JSON_stringify call_method
     user_query_operator).

(** X25: [updateDocument] with [$bit] on a field that holds a number or
    is missing, for a number [v].  The field gets the bitwise AND, OR or
    XOR of the two numbers as 32-bit integers, a missing field counting
    as 0; the path is reported exactly when the result differs from the
    number that was there, so a missing field that the operation fills
    with 0 is not reported.  A missing field does not have a name that a
    mapping inherits from its prototype ([own_names]). *)
Theorem updateDocument_bit data selector cur v :
  includes selector ".$" = false ->
  field_at data (split_dot selector) = Some cur ->
  own_names data (split_dot selector) = true ->
  isUndefined cur = true \/ isNumber cur = true ->
  let n := match cur with VNum n => n | _ => 0 end in
  forall op f,
    In (op, f) [("and", Z.land); ("or", Z.lor); ("xor", Z.lxor)] ->
    updateDocument_b data (VObj [("$bit", VObj [(selector, VObj [(op, VNum v)])])]) =
      Ok (set_field data (split_dot selector) (VNum (f (wrap32 n) (wrap32 v))),
          if f (wrap32 n) (wrap32 v) =? n then [] else [selector]).
Proof.
  intros Hplain Hfield Hown Hcur n op f Hop.
  rewrite updateDocument_single by reflexivity.
  unfold mutate. cbn [String.eqb Ascii.eqb Bool.eqb].
  unfold update_bit. rewrite walkExpression_plain by done.
  cbn [Object_keys Object_entries own_props keys map fst mbind result_bind bind
       length hd Nat.eqb andb].
  assert (in_strings op BIT_OPS = true) as ->.
  { cbn [In] in Hop. destruct Hop as [H|[H|[H|[]]]]; by injection H as <- _. }
  cbn [assert mbind result_bind bind applyUpdate]. unfold walk.
  erewrite (walk_names_store true _ (VNum (f (wrap32 n) (wrap32 v)))
              (negb (f (wrap32 n) (wrap32 v) =? n))); [|exact Hfield|].
  - cbn [mbind result_bind bind orb]. rewrite orb_false_r.
    by destruct (f (wrap32 n) (wrap32 v) =? n).
  - intros kvs k Hk. cbn [member name_of_key]. rewrite Hk.
    cbn [mbind result_bind bind getProp lookup_key String.eqb Ascii.eqb Bool.eqb
         default from_option id isNumber].
    rewrite String.eqb_refl. cbn [default from_option id isNumber].
    assert (negb (isUndefined cur) && negb (isNumber cur && true) = false) as ->.
    { destruct Hcur as [->| ->]; [done|]. cbn [andb negb]. by rewrite andb_false_r. }
    assert ((if toBoolean cur then cur else VNum 0) = VNum n) as ->.
    { subst n. destruct cur as [| | |x| | | | | |]; try (destruct Hcur; discriminate);
        try done. cbn [toBoolean]. by destruct (Z.eqb_spec x 0) as [->|]. }
    cbn [In] in Hop. destruct Hop as [H|[H|[H|[]]]]; injection H as <- <-; reflexivity.
Qed.
End BitFacts.

Lemma updateDocument_bit_witness :
  updateDocument bundle_registry 0 example_apply example_JSON example_call example_user
    (VObj [("a", VNum 6)]) (VObj [("$bit", VObj [("a", VObj [("and", VNum 3)])])]) =
  Ok (VObj [("a", VNum 2)], ["a"]).
Proof.
  exact (updateDocument_bit bundle_registry 0 example_apply example_JSON example_call
           example_user (VObj [("a", VNum 6)]) "a" (VNum 6) 3 eq_refl eq_refl eq_refl
           (or_intror eq_refl) "and" Z.land (or_introl eq_refl)).
Defined.

Section ElementOperatorFacts.
Variable GLOBAL_CONTEXT : Context.
Variable Date_now : Z.
Variable apply_operator : fnid -> value -> value -> ComputeOptions -> result value.
Variable JSON_stringify : value -> result string.
Variable call_method : fnid -> value -> result value.
Variable user_query_operator : nat -> string -> value -> Options -> result predicate.

Local Abbreviation new_Query_e :=
  (new_Query GLOBAL_CONTEXT Date_now apply_operator JSON_stringify call_method
     user_query_operator).
Local Abbreviation call_query_operator_e :=
  (call_query_operator GLOBAL_CONTEXT Date_now apply_operator JSON_stringify call_method
     user_query_operator).

(** X26: the element operators on a field.  [{field: {$exists: true}}]
    tests a document as true exactly when the field resolves to
    something other than undefined, and [{field: {$exists: false}}]
    exactly when it does not; [{field: {$size: n}}] tests it as true
    exactly when the field resolves to an array of [n] elements.  The
    operators are assumed bound to those of the bundle, and the text of
    each condition is assumed to be obtained. *)
Theorem exists_and_size_operators field o d :
  isOperator field = false ->
  query_operator GLOBAL_CONTEXT "$exists" o = bundle_function "$exists" ->
  query_operator GLOBAL_CONTEXT "$size" o = bundle_function "$size" ->
  (forall name arg, exists text,
     JSON_stringify (VObj [(field, VObj [(name, arg)])]) = Ok text) ->
  (forall b, exists q,
     new_Query_e (VObj [(field, VObj [("$exists", VBool b)])]) o = Ok q /\
     test q d = Ok (Bool.eqb b (negb (isUndefined (resolve d field true))))) /\
  (forall n, exists q,
     new_Query_e (VObj [(field, VObj [("$size", VNum n)])]) o = Ok q /\
     test q d = Ok (match resolve d field true with
                    | VArr xs => Z.of_nat (length xs) =? n
                    | _ => false
                    end)).
Proof.
  intros Hfield Hexists Hsize Htext. split.
  - intros b. destruct (Htext "$exists" (VBool b)) as [text Ht].
    edestruct (new_Query_field_operator GLOBAL_CONTEXT Date_now apply_operator
                 JSON_stringify call_method user_query_operator
                 field "$exists" (VBool b) o text) as (q & Hq & Hc);
      [exact Hfield|reflexivity|reflexivity|exact Hexists|exact Ht|
       intros mk; reflexivity|].
    exists q. split; [exact Hq|]. unfold test. rewrite Hc.
    cbn [test_compiled]. rewrite createQueryOperator_apply.
    cbn [mbind result_bind bind]. unfold exists_1.
    by destruct b, (isUndefined (resolve d field true)).
  - intros n. destruct (Htext "$size" (VNum n)) as [text Ht].
    edestruct (new_Query_field_operator GLOBAL_CONTEXT Date_now apply_operator
                 JSON_stringify call_method user_query_operator
                 field "$size" (VNum n) o text) as (q & Hq & Hc);
      [exact Hfield|reflexivity|reflexivity|exact Hsize|exact Ht|
       intros mk; reflexivity|].
    exists q. split; [exact Hq|]. unfold test. rewrite Hc.
    cbn [test_compiled]. rewrite createQueryOperator_apply.
    cbn [mbind result_bind bind]. unfold size_1.
    by destruct (resolve d field true) as [| | | | | | | |xs|]; try done;
      cbn [strictEq]; destruct (_ =? _).
Qed.
End ElementOperatorFacts.

Lemma exists_and_size_operators_witness :
  exists q,
    new_Query bundle_registry 0 example_apply example_JSON example_call example_user
      (VObj [("c", VObj [("$exists", VBool false)])]) None = Ok q /\
    test q example_doc = Ok true.
Proof.
  destruct (exists_and_size_operators bundle_registry 0 example_apply example_JSON
              example_call example_user "c" None example_doc eq_refl eq_refl eq_refl
              (fun _ _ => ex_intro _ EmptyString eq_refl)) as [H _].
  destruct (H false) as (q & Hq & Ht). exists q. split; [exact Hq|exact Ht].
Defined.

Section SetTwiceFacts.
Variable GLOBAL_CONTEXT : Context.
Variable Date_now : Z.
Variable apply_operator : fnid -> value -> value -> ComputeOptions -> result value.
Variable JSON_stringify : value -> result string.
Variable call_method : fnid -> value -> result value.
Variable user_query_operator : nat -> string -> value -> Options -> result predicate.

Local Abbreviation updateDocument_s :=
  (updateDocument GLOBAL_CONTEXT Date_now apply_operator JSON_stringify call_method
     user_query_operator).

Lemma updateDocument_set data selector cur val :
  includes selector ".$" = false ->
  field_at data (split_dot selector) = Some cur ->
  updateDocument_s data (VObj [("$set", VObj [(selector, val)])]) =
    Ok (if isEqual cur val then (data, [])
        else (set_field data (split_dot selector) (clone (Some "copy") val), [selector])).
Proof.
  intros Hplain Hfield.
  rewrite updateDocument_single by reflexivity.
  unfold mutate. cbn [String.eqb Ascii.eqb Bool.eqb].
  unfold update_set. rewrite walkExpression_plain by done.
  cbn [applyUpdate cloneMode]. unfold walk.
  destruct (isEqual cur val) eqn:Heq.
  - rewrite (walk_names_no_change _ _ _ cur false Hfield); [done|].
    intros kvs k Hk. cbn [member name_of_key]. rewrite Hk.
    cbn [mbind result_bind bind]. by rewrite Heq.
  - rewrite (walk_names_assign _ (clone (Some "copy") val) _ _ cur false Hfield); [done|].
    intros kvs k Hk. cbn [member name_of_key]. rewrite Hk.
    cbn [mbind result_bind bind]. by rewrite Heq.
Qed.

(** X27: [updateDocument] with [$set] is idempotent.  For a value that
    is a document, on a path that leads through existing mappings, the
    first update leaves in the field a value that [isEqual] finds equal
    to the one given, and the same update once more reports nothing and
    leaves the document as it is.  No mapping of the value has a member
    named [constructor], with which [isEqual] takes the copy stored for
    another class of object, or [__proto__], which the copy would lack;
    and a missing field does not have a name that a mapping inherits from
    its prototype ([own_names]). *)
Theorem updateDocument_set_twice data selector cur val :
  includes selector ".$" = false ->
  field_at data (split_dot selector) = Some cur ->
  own_names data (split_dot selector) = true ->
  document val -> no_constructor val = true -> no_proto val = true ->
  exists data' paths stored,
    updateDocument_s data (VObj [("$set", VObj [(selector, val)])]) = Ok (data', paths) /\
    field_at data' (split_dot selector) = Some stored /\
    isEqual stored val = true /\
    updateDocument_s data' (VObj [("$set", VObj [(selector, val)])]) = Ok (data', []).
Proof.
  intros Hplain Hfield Hown Hdoc Hctor Hproto.
  rewrite (updateDocument_set _ _ cur) by done.
  destruct (isEqual cur val) eqn:Heq.
  - exists data, [], cur. repeat split; [done..|].
    by rewrite (updateDocument_set _ _ cur), Heq.
  - rewrite (clone_document _ _ Hdoc).
    pose proof (field_at_set_field _ _ _ val Hfield) as Hstored.
    assert (isEqual val val = true) as Hrefl by (rewrite isEqual_spec; by apply deepEq_refl).
    eexists _, _, val. repeat split; [done..|].
    by rewrite (updateDocument_set _ _ val), Hrefl.
Qed.
End SetTwiceFacts.

Lemma updateDocument_set_twice_witness :
  exists data' paths stored,
    updateDocument bundle_registry 0 example_apply example_JSON example_call example_user
      (VObj [("a", VNum 1)]) (VObj [("$set", VObj [("a", VNum 2)])]) = Ok (data', paths) /\
    field_at data' (split_dot "a") = Some stored /\
    isEqual stored (VNum 2) = true /\
    updateDocument bundle_registry 0 example_apply example_JSON example_call example_user
      data' (VObj [("$set", VObj [("a", VNum 2)])]) = Ok (data', []).
Proof.
  exact (updateDocument_set_twice bundle_registry 0 example_apply example_JSON example_call
           example_user (VObj [("a", VNum 1)]) "a" (VNum 1) (VNum 2) eq_refl eq_refl
           eq_refl I eq_refl eq_refl).
Defined.

Section UnsetElementFacts.
Variable GLOBAL_CONTEXT : Context.
Variable Date_now : Z.
Variable apply_operator : fnid -> value -> value -> ComputeOptions -> result value.
Variable JSON_stringify : value -> result string.
Variable call_method : fnid -> value -> result value.
Variable user_query_operator : nat -> string -> value -> Options -> result predicate.

Local Abbreviation updateDocument_a :=
  (updateDocument GLOBAL_CONTEXT Date_now apply_operator JSON_stringify call_method
     user_query_operator).

(** X28: [updateDocument] with [$unset] on an element of an array.  The
    element at an index within the array is set to null: the array keeps
    its length, and the path is reported.  An index past the end changes
    nothing and reports nothing. *)
Theorem updateDocument_unset_array_element kvs name items idx i ignored :
  no_dot name = true ->
  lookup_key name kvs = Some (VArr items) ->
  array_index idx = Some i ->
  includes (name +:+ String "." idx) ".$" = false ->
  updateDocument_a (VObj kvs)
    (VObj [("$unset", VObj [(name +:+ String "." idx, ignored)])]) =
    Ok (if (i <? length items)%nat
        then (VObj (set_key name (VArr (<[i := VNull]> items)) kvs),
              [name +:+ String "." idx])
        else (VObj kvs, [])).
Proof.
  intros Hname Hk Hidx Hplain.
  assert (Hnum : NUMBER_RE idx = true).
  { unfold array_index in Hidx. by destruct (NUMBER_RE idx). }
  rewrite updateDocument_single by reflexivity.
  unfold mutate. cbn [String.eqb Ascii.eqb Bool.eqb].
  unfold update_unset. rewrite walkExpression_plain by done.
  cbn [applyUpdate]. unfold walk, no_walk_options.
  rewrite (split_dot_app _ _ Hname), (split_dot_name _ (NUMBER_RE_no_dot _ Hnum)).
  rewrite walk_names_step. cbn [mbind result_bind bind member name_of_key getProp].
  rewrite Hk.
  cbn [default from_option id mbind result_bind bind toBoolean negb walk_names
       isObject isArray orb andb].
  rewrite Hnum. cbn [has_member has name_of_key]. rewrite Hidx.
  destruct (i <? length items)%nat eqn:Hlt; cbn [negb isArray].
  - cbn [assign_member index_of_key]. rewrite Hidx, Hlt.
    cbn [mbind result_bind bind orb with_member name_of_key]. reflexivity.
  - cbn [mbind result_bind bind orb with_member name_of_key].
    by rewrite (set_key_same _ _ _ Hk).
Qed.
End UnsetElementFacts.

Lemma updateDocument_unset_array_element_witness :
  updateDocument bundle_registry 0 example_apply example_JSON example_call example_user
    (VObj [("a", VArr [VNum 1; VNum 2; VNum 3])])
    (VObj [("$unset", VObj [("a.1", VStr "")])]) =
  Ok (VObj [("a", VArr [VNum 1; VNull; VNum 3])], ["a.1"]).
Proof.
  exact (updateDocument_unset_array_element bundle_registry 0 example_apply example_JSON
           example_call example_user [("a", VArr [VNum 1; VNum 2; VNum 3])] "a"
           [VNum 1; VNum 2; VNum 3] "1" 1%nat (VStr "") eq_refl eq_refl eq_refl eq_refl).
Defined.

Lemma FILTER_IDENT_RE_nonempty s : FILTER_IDENT_RE s = true -> nonempty s = true.
Proof. by destruct s. Qed.

Lemma tokenize_result fuel : forall selector,
  (String.length selector <= fuel)%nat ->
  match tokenize fuel selector with
  | Ok (_, vars) => Forall (fun v => FILTER_IDENT_RE v = true) vars
  | Throw e =>
      e = Error "The filter <identifier> must begin with a lowercase letter and contain only alphanumeric characters."
  | OutOfModel => False
  end.
Proof.
  induction fuel as [|fuel IH]; intros selector Hlen.
  - destruct selector; [by constructor|simpl in Hlen; lia].
  - cbn [tokenize]. destruct (includes selector ".$") eqn:Hinc; cbn [negb];
      [|by constructor].
    set (child := substring2 selector (indexOf selector ".$" + 3) (indexOf selector "]")).
    unfold assert at 1.
    destruct (((child =? "")%string || FILTER_IDENT_RE child)) eqn:Hchild;
      cbn [mbind result_bind bind]; [|done].
    set (rest := substring1 selector (indexOf selector "]" + 2)).
    assert (Hhead : Forall (fun v => FILTER_IDENT_RE v = true)
                      (List.filter nonempty [child])).
    { cbn [List.filter]. destruct (nonempty child) eqn:Hne; [|constructor].
      constructor; [|constructor]. unfold nonempty in Hne.
      apply negb_true_iff in Hne. by rewrite Hne in Hchild. }
    destruct (nonempty rest) eqn:Hrest; cbn [mbind result_bind bind].
    + assert (Hlen' : (String.length rest <= fuel)%nat).
      { subst rest.
        assert (0 < String.length selector)%nat by (destruct selector; [done|simpl; lia]).
        pose proof (indexOf_lower selector "]").
        pose proof (length_rest selector (indexOf selector "]" + 2)). lia. }
      specialize (IH rest Hlen').
      destruct (tokenize fuel rest) as [[next elems]|e|]; cbn [mbind result_bind bind];
        [|done..].
      change (child :: elems) with ([child] ++ elems). rewrite List.filter_app.
      apply Forall_app. split; [exact Hhead|].
      clear -IH. induction IH as [|v vs Hv _ IHvs]; cbn [List.filter]; [constructor|].
      rewrite (FILTER_IDENT_RE_nonempty _ Hv). by constructor.
    + exact Hhead.
Qed.

(** X29: [tokenizePath] comes to an end on every selector: it returns a
    node, or throws the error about the filter identifier.  The
    identifiers it returns with the node are all well formed: they start
    with a lowercase letter and go on with letters and digits, and none
    of them is empty. *)
Theorem tokenizePath_identifiers selector :
  match tokenizePath selector with
  | Ok (_, vars) =>
      Forall (fun v => FILTER_IDENT_RE v = true /\ v <> EmptyString) vars
  | Throw e =>
      e = Error "The filter <identifier> must begin with a lowercase letter and contain only alphanumeric characters."
  | OutOfModel => False
  end.
Proof.
  pose proof (tokenize_result (String.length selector) selector (le_n _)) as H.
  unfold tokenizePath. destruct (tokenize _ selector) as [[node vars]|e|]; [|done..].
  eapply Forall_impl; [exact H|]. intros v Hv. split; [done|]. by destruct v.
Qed.
